(** * libfyaml: the atom decoder and the emitter write path

    A shallow embedding of [src/lib/fy-utf8.h], [src/lib/fy-atom.c] and the
    parts of [src/lib/fy-emit.c] that track the output position, choose
    scalar styles, write white space, indentation, indicators and document
    markers, decide when the queue of events is ready, write to a buffer and
    keep the stacks of the streaming emitter.

    Conventions.  C integers are [Z]; a byte is a [Z] in [0, 255] and the
    truncation performed by a store through [uint8_t *] is written out with
    [uint8].  A [const char *] into the input of an atom is the byte offset
    from the start of that input; a pointer handed to a decoder is the list
    of bytes found from that address on.  Nullable pointers are [option]. *)

From Stdlib Require Import String Ascii ZArith List Lia Bool.
Import ListNotations.
Local Open Scope Z_scope.

(** ** Bytes and C strings *)

Definition uint8 (x : Z) : Z := Z.land x 0xff.

Definition bytes_of_string (s : string) : list Z :=
  map (fun a => Z.of_N (N_of_ascii a)) (list_ascii_of_string s).

(** [p[i]] for a pointer seen as the bytes that follow it; reading past the
    modelled memory yields a zero byte. *)
Definition deref (p : list Z) (i : nat) : Z := nth i p 0.

(** ** fy-utf8.h *)

Definition fy_utf8_width_by_first_octet (c : Z) : Z :=
  if Z.land c 0x80 =? 0x00 then 1 else
  if Z.land c 0xe0 =? 0xc0 then 2 else
  if Z.land c 0xf0 =? 0xe0 then 3 else
  if Z.land c 0xf8 =? 0xf0 then 4 else 0.

Definition fy_utf8_width (c : Z) : Z :=
  if c <? 0x80 then 1 else
  if c <? 0x800 then 2 else
  if c <? 0x10000 then 3 else 4.

Definition fy_utf8_is_valid (c : Z) : bool :=
  (0 <=? c) && negb (((0xd800 <=? c) && (c <=? 0xdfff)) || (0x110000 <=? c)).

(** Accumulates [n] continuation octets [10xxxxxx] into [value]. *)
Fixpoint fy_utf8_get_trail (n : nat) (p : list Z) (value : Z) : option Z :=
  match n with
  | O => Some value
  | S n' =>
      match p with
      | [] => None
      | b :: p' =>
          if Z.land b 0xc0 =? 0x80
          then fy_utf8_get_trail n' p' (Z.lor (Z.shiftl value 6) (Z.land b 0x3f))
          else None
      end
  end.

(** Modelled from the spec: [fy_utf8_get_generic] is only declared in
    fy-utf8.h, its body is not among the sources.  Section 4.1: the width is
    determined from the first octet (1/2/3/4 bytes); an invalid lead byte or
    a truncated sequence yields no character, encoded as -1 with width 0;
    validity rejects surrogates and values from U+110000 on. *)
Definition fy_utf8_get_generic (p : list Z) (left : Z) : Z * Z :=
  if left <? 1 then (-1, 0) else
  let width := fy_utf8_width_by_first_octet (deref p 0) in
  if (width =? 0) || (left <? width) then (-1, 0) else
  match fy_utf8_get_trail (Z.to_nat (width - 1)) (tl p)
          (Z.land (deref p 0) (Z.shiftr 0x7f width)) with
  | Some value => if fy_utf8_is_valid value then (value, width) else (-1, 0)
  | None => (-1, 0)
  end.

(** Returns the code point and the width stored through [widthp]. *)
Definition fy_utf8_get (p : list Z) (left : Z) : Z * Z :=
  if left <=? 0 then (-1, 0)
  else if Z.land (deref p 0) 0x80 =? 0 then (Z.land (deref p 0) 0x7f, 1)
  else fy_utf8_get_generic p left.

(** The octets stored at [s]; the returned pointer is [s] plus their number. *)
Definition fy_utf8_put_unchecked (c : Z) : list Z :=
  if c <? 0x80 then [uint8 c]
  else if c <? 0x800 then
    [uint8 (Z.lor (Z.shiftr c 6) 0xc0);
     uint8 (Z.lor (Z.land c 0x3f) 0x80)]
  else if c <? 0x10000 then
    [uint8 (Z.lor (Z.shiftr c 12) 0xe0);
     uint8 (Z.lor (Z.land (Z.shiftr c 6) 0x3f) 0x80);
     uint8 (Z.lor (Z.land c 0x3f) 0x80)]
  else
    [uint8 (Z.lor (Z.shiftr c 18) 0xf0);
     uint8 (Z.lor (Z.land (Z.shiftr c 12) 0x3f) 0x80);
     uint8 (Z.lor (Z.land (Z.shiftr c 6) 0x3f) 0x80);
     uint8 (Z.lor (Z.land c 0x3f) 0x80)].

Definition fy_utf8_put (left : Z) (c : Z) : option (list Z) :=
  if negb (fy_utf8_is_valid c) || (left <? fy_utf8_width c) then None
  else Some (fy_utf8_put_unchecked c).

(** ** Character classes *)

(** Modelled from the spec: fy-ctype.h is not among the sources.  Section 4.2
    classifies every code point as a line break, as white space (space or
    tab) or as other; the line breaks are the characters that the escapes of
    section 4.4 name [\n], [\r], [\N], [\L] and [\P]. *)
Definition fy_is_space (c : Z) : bool := c =? 32.
Definition fy_is_tab (c : Z) : bool := c =? 9.
Definition fy_is_ws (c : Z) : bool := fy_is_space c || fy_is_tab c.
Definition fy_is_lb (c : Z) : bool :=
  (c =? 13) || (c =? 10) || (c =? 0x85) || (c =? 0x2028) || (c =? 0x2029).
Definition fy_is_ws_lb (c : Z) : bool := fy_is_ws c || fy_is_lb c.

(** [isdigit] of the C library, on the values [getc] returns. *)
Definition isdigit (c : Z) : bool := (48 <=? c) && (c <=? 57).

(** ** libc helpers *)

(** The bytes [p[0..n-1]]. *)
Definition take (n : Z) (p : list Z) : list Z :=
  map (deref p) (seq 0 (Z.to_nat n)).

(** [memchr(p, c, n)]: the index of the first [c] in [p[0..n-1]], if any. *)
Fixpoint memchr_from (i : Z) (p : list Z) (c : Z) (n : nat) : option Z :=
  match n with
  | O => None
  | S n' =>
      if deref p 0 =? c then Some i else memchr_from (i + 1) (tl p) c n'
  end.

Definition memchr (p : list Z) (c : Z) (n : Z) : option Z :=
  memchr_from 0 p c (Z.to_nat n).

(** [memcmp(a, b, n)]: the difference of the first pair of bytes that
    differ (only its sign is fixed by the C standard). *)
Fixpoint memcmp (a b : list Z) (n : nat) : Z :=
  match n with
  | O => 0
  | S n' =>
      if deref a 0 =? deref b 0 then memcmp (tl a) (tl b) n'
      else deref a 0 - deref b 0
  end.

(** [memcpy(buf, src, n)] seen from [buf]. *)
Definition memcpy (buf src : list Z) (n : Z) : list Z :=
  take n src ++ skipn (Z.to_nat n) buf.

(** Conversion of a [size_t] to [int]. *)
Definition to_int (x : Z) : Z := (x + 2 ^ 31) mod 2 ^ 32 - 2 ^ 31.

(** ** fy-utf8.h: counting characters *)

(** The loop of [fy_utf8_count] over [s .. e), with [left = e - s];
    [count] is a C [int]. *)
Fixpoint utf8_count_loop (fuel : nat) (s : list Z) (left count : Z) : Z :=
  match fuel with
  | O => count
  | S fuel' =>
      if 0 <? left then
        let w := fy_utf8_width_by_first_octet (uint8 (deref s 0)) in
        (* malformed? *)
        if (w =? 0) || (left <? w) then count
        else utf8_count_loop fuel' (skipn (Z.to_nat w) s) (left - w) (to_int (count + 1))
      else count
  end.

(** Every turn consumes at least one byte. *)
Definition fy_utf8_count (p : list Z) (len : Z) : Z :=
  utf8_count_loop (S (Z.to_nat len)) p len 0.

(** ** fy-atom.h *)

Inductive fy_atom_style :=
| FYAS_PLAIN | FYAS_SINGLE_QUOTED | FYAS_DOUBLE_QUOTED | FYAS_LITERAL
| FYAS_FOLDED | FYAS_URI | FYAS_DOUBLE_QUOTED_MANUAL | FYAS_COMMENT.

Definition fy_atom_style_is_quoted (style : fy_atom_style) : bool :=
  match style with FYAS_SINGLE_QUOTED | FYAS_DOUBLE_QUOTED => true | _ => false end.

Definition fy_atom_style_is_block (style : fy_atom_style) : bool :=
  match style with FYAS_LITERAL | FYAS_FOLDED => true | _ => false end.

Inductive fy_atom_chomp := FYAC_STRIP | FYAC_CLIP | FYAC_KEEP.

(** Modelled from the spec: [struct fy_mark] is declared in libfyaml.h, which
    is not among the sources.  Section 3: a mark is an input identifier, a
    byte offset, a line and a column (the input is the [fyi] of the atom). *)
Record fy_mark := {
  input_pos : Z;
  m_line : Z;
  m_column : Z
}.

Record fy_atom := {
  start_mark : fy_mark;
  end_mark : fy_mark;
  storage_hint : Z;
  fyi : list Z;              (* the bytes of the input the atom is on *)
  increment : Z;
  style : fy_atom_style;
  chomp : fy_atom_chomp;
  direct_output : bool;
  storage_hint_valid : bool;
  empty : bool;
  has_lb : bool;
  has_ws : bool;
  starts_with_ws : bool;
  starts_with_lb : bool;
  ends_with_ws : bool;
  ends_with_lb : bool;
  trailing_lb : bool;
  size0 : bool
}.

Definition set_storage_hint (v : Z) (a : fy_atom) : fy_atom :=
  {| start_mark := start_mark a; end_mark := end_mark a; storage_hint := v;
     fyi := fyi a; increment := increment a; style := style a;
     chomp := chomp a; direct_output := direct_output a;
     storage_hint_valid := true; empty := empty a; has_lb := has_lb a;
     has_ws := has_ws a; starts_with_ws := starts_with_ws a;
     starts_with_lb := starts_with_lb a; ends_with_ws := ends_with_ws a;
     ends_with_lb := ends_with_lb a; trailing_lb := trailing_lb a;
     size0 := size0 a |}.

(** Modelled from the spec: [fy_atom_data] and [fy_atom_size] are used by
    fy-atom.c but defined in a header that is not among the sources.
    Section 3: an atom describes the region of its input between the byte
    offsets of its start mark and of its end mark. *)
Definition fy_atom_data (a : fy_atom) : Z := input_pos (start_mark a).
Definition fy_atom_size (a : fy_atom) : Z :=
  input_pos (end_mark a) - input_pos (start_mark a).

(** The bytes found from offset [p] of the input on. *)
Definition ptr (data : list Z) (p : Z) : list Z := skipn (Z.to_nat p) data.

Record fy_atom_iter_line_info := {
  li_start : option Z;
  li_end : option Z;
  nws_start : option Z;
  nws_end : option Z;
  chomp_start : option Z;
  trailing_ws : bool;
  li_empty : bool;
  trailing_breaks : bool;
  trailing_breaks_ws : bool;
  first : bool;
  last : bool;
  final : bool;
  indented : bool;
  lb_end : bool;
  need_nl : bool;
  need_sep : bool;
  start_ws : Z;
  end_ws : Z;
  li_s : Z;
  li_e : Z
}.

(** A line descriptor after [memset(.., 0, ..)]. *)
Definition li_zero : fy_atom_iter_line_info :=
  {| li_start := None; li_end := None; nws_start := None; nws_end := None;
     chomp_start := None; trailing_ws := false; li_empty := false;
     trailing_breaks := false; trailing_breaks_ws := false; first := false;
     last := false; final := false; indented := false; lb_end := false;
     need_nl := false; need_sep := false; start_ws := 0; end_ws := 0;
     li_s := 0; li_e := 0 |}.

Definition set_first (v : bool) (li : fy_atom_iter_line_info) :=
  {| li_start := li_start li; li_end := li_end li; nws_start := nws_start li;
     nws_end := nws_end li; chomp_start := chomp_start li;
     trailing_ws := trailing_ws li; li_empty := li_empty li;
     trailing_breaks := trailing_breaks li;
     trailing_breaks_ws := trailing_breaks_ws li; first := v;
     last := last li; final := final li; indented := indented li;
     lb_end := lb_end li; need_nl := need_nl li; need_sep := need_sep li;
     start_ws := start_ws li; end_ws := end_ws li; li_s := li_s li;
     li_e := li_e li |}.

(** The assignments of [s], [e], [need_nl] and [need_sep] made by
    [fy_atom_iter_line]. *)
Definition set_slice (s e : Z) (nl sep : bool) (li : fy_atom_iter_line_info) :=
  {| li_start := li_start li; li_end := li_end li; nws_start := nws_start li;
     nws_end := nws_end li; chomp_start := chomp_start li;
     trailing_ws := trailing_ws li; li_empty := li_empty li;
     trailing_breaks := trailing_breaks li;
     trailing_breaks_ws := trailing_breaks_ws li; first := first li;
     last := last li; final := final li; indented := indented li;
     lb_end := lb_end li; need_nl := nl; need_sep := sep;
     start_ws := start_ws li; end_ws := end_ws li; li_s := s; li_e := e |}.

(** A non-null pointer field; a null one reads as offset 0. *)
Definition the (o : option Z) : Z := match o with Some p => p | None => 0 end.

Definition is_null (o : option Z) : bool :=
  match o with Some _ => false | None => true end.

(** The iterator.  [chunks] holds the entries [0 .. top-1] of the chunk
    array, each as the bytes it designates, so [top] is its length; the
    growth of the array ([alloc], [startup_chunks]) is not modelled and
    [realloc] is taken to succeed. *)
Record fy_atom_iter := {
  it_atom : fy_atom;
  it_s : Z;
  it_e : Z;
  it_chomp : Z;
  tabsize : Z;
  single_line : bool;
  dangling_end_quote : bool;
  it_empty : bool;
  current : bool;
  done : bool;
  li0 : fy_atom_iter_line_info;
  li1 : fy_atom_iter_line_info;
  chunks : list (list Z);
  read : nat;
  unget_c : Z
}.

Definition set_current (v : bool) (x : fy_atom_iter) : fy_atom_iter :=
  {| it_atom := it_atom x; it_s := it_s x; it_e := it_e x;
     it_chomp := it_chomp x; tabsize := tabsize x;
     single_line := single_line x;
     dangling_end_quote := dangling_end_quote x; it_empty := it_empty x;
     current := v; done := done x; li0 := li0 x; li1 := li1 x;
     chunks := chunks x; read := read x; unget_c := unget_c x |}.

Definition set_done (v : bool) (x : fy_atom_iter) : fy_atom_iter :=
  {| it_atom := it_atom x; it_s := it_s x; it_e := it_e x;
     it_chomp := it_chomp x; tabsize := tabsize x;
     single_line := single_line x;
     dangling_end_quote := dangling_end_quote x; it_empty := it_empty x;
     current := current x; done := v; li0 := li0 x; li1 := li1 x;
     chunks := chunks x; read := read x; unget_c := unget_c x |}.

(** [iter->li[i] = v]. *)
Definition set_li (i : bool) (v : fy_atom_iter_line_info) (x : fy_atom_iter)
  : fy_atom_iter :=
  {| it_atom := it_atom x; it_s := it_s x; it_e := it_e x;
     it_chomp := it_chomp x; tabsize := tabsize x;
     single_line := single_line x;
     dangling_end_quote := dangling_end_quote x; it_empty := it_empty x;
     current := current x; done := done x;
     li0 := if i then li0 x else v; li1 := if i then v else li1 x;
     chunks := chunks x; read := read x; unget_c := unget_c x |}.

(** [iter->top], [iter->read] and the chunk array at once. *)
Definition set_chunks (v : list (list Z)) (r : nat) (x : fy_atom_iter)
  : fy_atom_iter :=
  {| it_atom := it_atom x; it_s := it_s x; it_e := it_e x;
     it_chomp := it_chomp x; tabsize := tabsize x;
     single_line := single_line x;
     dangling_end_quote := dangling_end_quote x; it_empty := it_empty x;
     current := current x; done := done x; li0 := li0 x; li1 := li1 x;
     chunks := v; read := r; unget_c := unget_c x |}.

Definition set_unget_c (v : Z) (x : fy_atom_iter) : fy_atom_iter :=
  {| it_atom := it_atom x; it_s := it_s x; it_e := it_e x;
     it_chomp := it_chomp x; tabsize := tabsize x;
     single_line := single_line x;
     dangling_end_quote := dangling_end_quote x; it_empty := it_empty x;
     current := current x; done := done x; li0 := li0 x; li1 := li1 x;
     chunks := chunks x; read := read x; unget_c := v |}.

(** [iter->li[i]]. *)
Definition li (x : fy_atom_iter) (i : bool) : fy_atom_iter_line_info :=
  if i then li1 x else li0 x.

(** ** fy-atom.c: chunk storage *)

Definition fy_atom_iter_chunk_reset (iter : fy_atom_iter) : fy_atom_iter :=
  set_chunks [] 0 iter.

(** [str] is the pointer as the bytes that follow it.  The function only
    fails when the chunk array cannot grow, so the model has no failure. *)
Definition fy_atom_iter_add_chunk (iter : fy_atom_iter) (str : list Z) (len : Z)
  : fy_atom_iter :=
  if len =? 0 then iter
  else set_chunks (chunks iter ++ [take len str]) (read iter) iter.

(** The copy into [inplace_buf] designates the same bytes.  In C the chunk
    then points into the chunk array itself, and the model, which holds the
    bytes by value, follows the C code as long as that array is not moved
    while the chunk is in use: the array is moved by its second growth, so
    for the pulls that add at most sixteen chunks. *)
Definition fy_atom_iter_add_chunk_copy (iter : fy_atom_iter) (str : list Z)
  (len : Z) : fy_atom_iter :=
  if len =? 0 then iter
  else set_chunks (chunks iter ++ [take len str]) (read iter) iter.

Definition add_chunks (iter : fy_atom_iter) (cs : list (list Z)) : fy_atom_iter :=
  fold_left (fun it c => fy_atom_iter_add_chunk it c (Z.of_nat (length c))) cs iter.

(** ** fy-atom.c: the line analyzer *)

(** The locals and the fields of [li] that the first loop of
    [fy_atom_iter_line_analyze] updates. *)
Record line_scan := {
  sc_end : option Z;
  sc_nws_start : option Z;
  sc_nws_end : option Z;
  sc_chomp_start : option Z;
  sc_trailing_ws : bool;
  sc_empty : bool;
  sc_start_ws : Z;           (* [(size_t)-1] is -1 *)
  sc_end_ws : Z;
  sc_indented : bool;
  sc_lb_end : bool;
  sc_col : Z;
  sc_cws : Z;
  sc_last_was_ws : bool;
  sc_ss : Z
}.

Definition scan_init (s : Z) : line_scan :=
  {| sc_end := None; sc_nws_start := None; sc_nws_end := None;
     sc_chomp_start := None; sc_trailing_ws := false; sc_empty := true;
     sc_start_ws := -1; sc_end_ws := -1; sc_indented := false;
     sc_lb_end := false; sc_col := 0; sc_cws := 0; sc_last_was_ws := false;
     sc_ss := s |}.

(** One turn of the first loop on the character [c] found at [ss], up to
    the test that leaves the loop. *)
Definition scan_char (is_block : bool) (chomp ts : Z) (st : line_scan) (c : Z)
  : line_scan :=
  let ss := sc_ss st in
  let mark := is_block && is_null (sc_chomp_start st) && (chomp <=? sc_col st) in
  let chomp_start1 := if mark then Some ss else sc_chomp_start st in
  let indented1 := if mark then fy_is_ws c else sc_indented st in
  if fy_is_lb c then
    let fresh := is_null (sc_end st) in
    {| sc_end := if fresh then Some ss else sc_end st;
       sc_nws_start := sc_nws_start st;
       sc_nws_end := if sc_last_was_ws st then sc_nws_end st else Some ss;
       sc_chomp_start :=
         if is_block && is_null chomp_start1 then Some ss else chomp_start1;
       sc_trailing_ws := if fresh then sc_last_was_ws st else sc_trailing_ws st;
       sc_empty := sc_empty st;
       sc_start_ws := sc_start_ws st;
       sc_end_ws := if fresh then sc_cws st else sc_end_ws st;
       sc_indented := indented1;
       sc_lb_end := if fresh then true else sc_lb_end st;
       sc_col := 0;
       sc_cws := if sc_last_was_ws st then sc_cws st else 0;
       sc_last_was_ws := true;
       sc_ss := ss |}
  else if fy_is_ws c then
    let advws := if fy_is_space c then 1 else ts - sc_col st mod ts in
    {| sc_end := sc_end st;
       sc_nws_start := sc_nws_start st;
       sc_nws_end := if sc_last_was_ws st then sc_nws_end st else Some ss;
       sc_chomp_start := chomp_start1;
       sc_trailing_ws := sc_trailing_ws st;
       sc_empty := sc_empty st;
       sc_start_ws := sc_start_ws st;
       sc_end_ws := sc_end_ws st;
       sc_indented := indented1;
       sc_lb_end := sc_lb_end st;
       sc_col := sc_col st + advws;
       sc_cws := sc_cws st + advws;
       sc_last_was_ws := true;
       sc_ss := ss |}
  else
    {| sc_end := sc_end st;
       sc_nws_start := if is_null (sc_nws_start st) then Some ss else sc_nws_start st;
       sc_nws_end := sc_nws_end st;
       sc_chomp_start := chomp_start1;
       sc_trailing_ws := sc_trailing_ws st;
       sc_empty := false;
       sc_start_ws := if sc_start_ws st =? -1 then sc_cws st else sc_start_ws st;
       sc_end_ws := sc_end_ws st;
       sc_indented := indented1;
       sc_lb_end := sc_lb_end st;
       sc_col := sc_col st + 1;
       sc_cws := sc_cws st;
       sc_last_was_ws := false;
       sc_ss := ss |}.

Definition scan_advance (w : Z) (st : line_scan) : line_scan :=
  {| sc_end := sc_end st; sc_nws_start := sc_nws_start st;
     sc_nws_end := sc_nws_end st; sc_chomp_start := sc_chomp_start st;
     sc_trailing_ws := sc_trailing_ws st; sc_empty := sc_empty st;
     sc_start_ws := sc_start_ws st; sc_end_ws := sc_end_ws st;
     sc_indented := sc_indented st; sc_lb_end := sc_lb_end st;
     sc_col := sc_col st; sc_cws := sc_cws st;
     sc_last_was_ws := sc_last_was_ws st; sc_ss := sc_ss st + w |}.

(** The first loop.  It returns the state on exit with the last values of
    [c] and [w].  [iter->chomp] is unsigned, so the loop is left as soon as
    [li->end] is set, with [ss] still on the line break.  Every turn
    advances [ss]; [fuel] bounds the number of turns. *)
Fixpoint scan_line (fuel : nat) (data : list Z) (e : Z) (is_block : bool)
  (chomp ts : Z) (st : line_scan) : line_scan * Z * Z :=
  match fuel with
  | O => (st, -1, 0)
  | S fuel' =>
      let '(c, w) := fy_utf8_get (ptr data (sc_ss st)) (e - sc_ss st) in
      if c =? -1 then (st, c, w)
      else
        let st1 := scan_char is_block chomp ts st c in
        if is_null (sc_end st1)
        then scan_line fuel' data e is_block chomp ts (scan_advance w st1)
        else (st1, c, w)
  end.

Definition next_col (ts col c : Z) : Z :=
  if fy_is_lb c then 0
  else if fy_is_tab c then col + (ts - col mod ts)
  else col + 1.

(** The second loop, over the white space and breaks that follow the line;
    returns [ss], [trailing_breaks] and [trailing_breaks_ws]. *)
Fixpoint scan_trailing (fuel : nat) (data : list Z) (e : Z) (is_block : bool)
  (chomp ts : Z) (ss col : Z) (tb tbws : bool) : Z * bool * bool :=
  match fuel with
  | O => (ss, tb, tbws)
  | S fuel' =>
      let '(c, w) := fy_utf8_get (ptr data ss) (e - ss) in
      if (c =? -1) || negb (fy_is_ws_lb c) then (ss, tb, tbws)
      else
        scan_trailing fuel' data e is_block chomp ts (ss + w) (next_col ts col c)
          (tb || fy_is_lb c) (tbws || (is_block && (chomp <? col)))
  end.

Definition fy_atom_iter_line_analyze (iter : fy_atom_iter)
  (li : fy_atom_iter_line_info) (line_start len : Z) : fy_atom_iter_line_info :=
  let atom := it_atom iter in
  let s := line_start in
  let e := line_start + len in
  let is_block := fy_atom_style_is_block (style atom) in
  if direct_output atom && negb (has_lb atom) && negb (has_ws atom) then
    (* short circuit non multiline, non ws atoms *)
    {| li_start := Some s; li_end := Some e; nws_start := Some s;
       nws_end := Some e; chomp_start := Some s;
       trailing_ws := trailing_ws li; li_empty := empty atom;
       trailing_breaks := false; trailing_breaks_ws := false;
       first := first li; last := last li; final := true; indented := false;
       lb_end := ends_with_lb atom; need_nl := need_nl li;
       need_sep := need_sep li; start_ws := 0; end_ws := 0;
       li_s := li_s li; li_e := li_e li |}
  else
    let ts := 8 in
    let '(st, c, w) :=
      scan_line (S (Z.to_nat len)) (fyi atom) e is_block (it_chomp iter) ts
        (scan_init s) in
    let ss := sc_ss st in
    let nws_end1 := if sc_last_was_ws st then sc_nws_end st else Some ss in
    let nws_start2 := if is_null (sc_nws_start st) then Some ss else sc_nws_start st in
    let nws_end2 := if is_null nws_end1 then Some ss else nws_end1 in
    let chomp_start2 :=
      if is_block && is_null (sc_chomp_start st) then Some ss else sc_chomp_start st in
    let start_ws2 := if sc_start_ws st =? -1 then 0 else sc_start_ws st in
    let mk end_ tws tb tbws last_ end_ws_ lb_end_ :=
      {| li_start := Some s; li_end := end_; nws_start := nws_start2;
         nws_end := nws_end2; chomp_start := chomp_start2;
         trailing_ws := tws; li_empty := sc_empty st;
         trailing_breaks := tb; trailing_breaks_ws := tbws;
         first := false; last := last_; final := (c =? -1);
         indented := sc_indented st; lb_end := lb_end_;
         need_nl := need_nl li; need_sep := need_sep li;
         start_ws := start_ws2; end_ws := end_ws_;
         li_s := li_s li; li_e := li_e li |} in
    if is_null (sc_end st) then
      (* no line break found: the line runs to the end of the atom *)
      mk (Some (it_e iter)) (sc_last_was_ws st) false false true (sc_cws st) false
    else
      let ss1 := if 0 <=? c then ss + w else ss in
      let col1 := if 0 <=? c then next_col ts (sc_col st) c else sc_col st in
      if e <=? ss1 then
        mk (sc_end st) (sc_trailing_ws st) false false true (sc_end_ws st) (sc_lb_end st)
      else
        let '(ss2, tb, tbws) :=
          scan_trailing (S (Z.to_nat (e - ss1))) (fyi atom) e is_block
            (it_chomp iter) ts ss1 col1 false false in
        mk (sc_end st) (sc_trailing_ws st) tb tbws (e <=? ss2) (sc_end_ws st)
          (sc_lb_end st).

Definition fy_atom_iter_start (atom : fy_atom) : fy_atom_iter :=
  let s := fy_atom_data atom in
  let len := fy_atom_size atom in
  let iter0 :=
    {| it_atom := atom; it_s := s; it_e := s + len;
       it_chomp := increment atom; tabsize := 8;
       single_line := false; dangling_end_quote := false; it_empty := false;
       current := false; done := false; li0 := li_zero; li1 := li_zero;
       chunks := []; read := 0; unget_c := 0 |} in
  let l1 := set_first true (fy_atom_iter_line_analyze iter0 li_zero s len) in
  {| it_atom := atom; it_s := s; it_e := s + len;
     it_chomp := increment atom; tabsize := 8;
     single_line := m_line (start_mark atom) =? m_line (end_mark atom);
     dangling_end_quote := m_column (end_mark atom) =? 0;
     it_empty := empty atom;
     current := false; done := false; li0 := li_zero; li1 := l1;
     chunks := []; read := 0; unget_c := -1 |}.

(** [li->start >= iter->e].  A descriptor that was never analysed has a
    null [start], which is below [iter->e]: the C code goes on and reads
    through the null [end] of that descriptor, and has no defined outcome.
    The model has no value for that read and answers as for an exhausted
    iterator.  Only an iterator whose first line is already out, the one of
    an empty atom, selects such a descriptor, and only when it is pulled
    again after it reported its end (lemmas [fy_atom_iter_start_analysed]
    and [fy_atom_iter_line_analysed]); whatever is stated about such pulls
    is stated for atoms that are not empty. *)
Definition line_out (iter : fy_atom_iter) (l : fy_atom_iter_line_info) : bool :=
  match li_start l with
  | Some p => it_e iter <=? p
  | None => true
  end.

Definition fy_atom_iter_line (iter : fy_atom_iter)
  : option fy_atom_iter_line_info * fy_atom_iter :=
  let atom := it_atom iter in
  (* make next line the current one *)
  let iter := set_current (negb (current iter)) iter in
  let l := li iter (current iter) in
  if line_out iter l then (None, iter)
  else
    (* scan next line *)
    let ss := the (li_end l)
              + fy_utf8_width_by_first_octet (deref (ptr (fyi atom) (the (li_end l))) 0) in
    let n := fy_atom_iter_line_analyze iter (li iter (negb (current iter))) ss
               (it_e iter - ss) in
    let iter := set_li (negb (current iter)) n iter in
    let nli := if line_out iter n then None else Some n in
    let nli_is := negb (line_out iter n) in
    let nli_b (f : fy_atom_iter_line_info -> bool) := nli_is && f n in
    (* the slice *)
    let '(s0, e0) :=
      if fy_atom_style_is_quoted (style atom) then
        let s := if first l then the (li_start l) else the (nws_start l) in
        let e := if last l then the (li_end l) else the (nws_end l) in
        (if li_empty l && first l && last l && negb (single_line iter) then e else s, e)
      else if fy_atom_style_is_block (style atom) then
        let s := the (chomp_start l) in
        let e := the (li_end l) in
        (if li_empty l && first l && last l && negb (single_line iter) then e else s, e)
      else (the (nws_start l), the (nws_end l)) in
    let s1 := if e0 <? s0 then e0 else s0 in
    let '(nl, sep) :=
      match style atom with
      | FYAS_PLAIN | FYAS_URI | FYAS_DOUBLE_QUOTED_MANUAL =>
          let nl := negb (last l) && li_empty l in
          (nl, negb nl && nli_b (fun n => negb (li_empty n)))
      | FYAS_COMMENT => (negb (final l), false)
      | FYAS_SINGLE_QUOTED | FYAS_DOUBLE_QUOTED =>
          let nl := (negb (last l) && negb (first l) && li_empty l)
                    || (nli_is && it_empty iter && negb (first l)) in
          if nl then (true, false)
          else
            let sep := nli_b (fun n => negb (li_empty n))
                       || (negb nli_is && last l && dangling_end_quote iter)
                       || nli_b (fun n => final n && li_empty n) in
            let cont :=
              match style atom with
              | FYAS_DOUBLE_QUOTED =>
                  sep && (the (nws_start l) <? the (nws_end l))
                  && (deref (ptr (fyi atom) (the (nws_end l) - 1)) 0 =? 92)
              | _ => false
              end in
            (false, if cont then false else sep)
      | FYAS_LITERAL => (true, false)
      | FYAS_FOLDED =>
          let nl := negb (last l)
                    && (li_empty l || indented l || trailing_breaks_ws l
                        || nli_b indented) in
          if nl then (true, false)
          else (false, nli_b (fun n => negb (indented n) && negb (li_empty n)))
      end in
    let l' := set_slice s1 e0 nl sep l in
    (Some l', set_li (current iter) l' iter).

(** ** Escapes *)

Definition hexval (c : Z) : option Z :=
  if (48 <=? c) && (c <=? 57) then Some (c - 48)
  else if (97 <=? c) && (c <=? 102) then Some (c - 97 + 10)
  else if (65 <=? c) && (c <=? 70) then Some (c - 65 + 10)
  else None.

Fixpoint parse_hex (n : nat) (p : list Z) (acc : Z) : option Z :=
  match n with
  | O => Some acc
  | S n' =>
      match hexval (deref p 0) with
      | Some d => parse_hex n' (tl p) (16 * acc + d)
      | None => None
      end
  end.

(** Modelled from the spec: [fy_utf8_parse_escape] is only declared in
    fy-utf8.h.  Section 4.4 lists the escapes of a double-quoted scalar:
    [\0 \a \b \t \n \v \f \r \e \\ \/ \N \_ \L \P], the escaped double
    quote and the escaped space, and the numeric
    [\xHH \uHHHH \UHHHHHHHH].  The result is the code point, negative for a
    malformed escape, and the number of bytes [*strp] moves by. *)
Definition fy_utf8_parse_escape (p : list Z) (len : Z) : Z * Z :=
  if (len <? 2) || negb (deref p 0 =? 92) then (-1, 0)
  else
    let numeric (n : nat) :=
      if len - 2 <? Z.of_nat n then (-1, 0)
      else match parse_hex n (tl (tl p)) 0 with
           | Some v => (v, 2 + Z.of_nat n)
           | None => (-1, 0)
           end in
    match deref p 1 with
    | 48 => (0, 2)          (* \0 *)
    | 97 => (7, 2)          (* \a *)
    | 98 => (8, 2)          (* \b *)
    | 116 => (9, 2)         (* \t *)
    | 110 => (10, 2)        (* \n *)
    | 118 => (11, 2)        (* \v *)
    | 102 => (12, 2)        (* \f *)
    | 114 => (13, 2)        (* \r *)
    | 101 => (27, 2)        (* \e *)
    | 34 => (34, 2)         (* double quote *)
    | 92 => (92, 2)         (* \\ *)
    | 47 => (47, 2)         (* \/ *)
    | 32 => (32, 2)         (* space *)
    | 78 => (0x85, 2)       (* \N *)
    | 95 => (0xa0, 2)       (* \_ *)
    | 76 => (0x2028, 2)     (* \L *)
    | 80 => (0x2029, 2)     (* \P *)
    | 120 => numeric 2%nat  (* \x *)
    | 117 => numeric 4%nat  (* \u *)
    | 85 => numeric 8%nat   (* \U *)
    | _ => (-1, 0)
    end.

(** [n] groups [%HH]. *)
Fixpoint uri_octets (n : nat) (p : list Z) (left : Z) : option (list Z) :=
  match n with
  | O => Some []
  | S n' =>
      if (left <? 3) || negb (deref p 0 =? 37) then None
      else match parse_hex 2 (tl p) 0 with
           | Some o =>
               match uri_octets n' (skipn 3 p) (left - 3) with
               | Some os => Some (o :: os)
               | None => None
               end
           | None => None
           end
  end.

(** Modelled from the spec: [fy_uri_esc] is not among the sources.
    Section 4.4: the uri style decodes percent escapes [%HH], several of
    them for a code point of several bytes, into an inline chunk.  The
    result is the decoded octets and the number of bytes consumed; [None]
    is the null return. *)
Definition fy_uri_esc (p : list Z) (len : Z) (code_length : Z)
  : option (list Z * Z) :=
  match uri_octets 1 p len with
  | Some [o] =>
      let width := fy_utf8_width_by_first_octet o in
      if (width =? 0) || (code_length <? width) then None
      else match uri_octets (Z.to_nat (width - 1)) (skipn 3 p) (len - 3) with
           | Some os => Some (o :: os, 3 * width)
           | None => None
           end
  | _ => None
  end.

Definition hex_digit (d : Z) : Z := if d <? 10 then 48 + d else 87 + d.

(** [%0nx]. *)
Fixpoint hex_fixed (n : nat) (v : Z) : list Z :=
  match n with
  | O => []
  | S n' => hex_fixed n' (v / 16) ++ [hex_digit (v mod 16)]
  end.

Section Atom.

(** [fy_is_print] comes from fy-ctype.h, which is not among the sources, and
    the spec does not say which code points are printable. *)
Variable fy_is_print : Z -> bool.

(** ** fy-atom.c: the formatter *)

(** The loop of the single-quoted case; [fuel] bounds its turns, each of
    which moves [s] forward. *)
Fixpoint format_single_quoted (fuel : nat) (iter : fy_atom_iter) (s e : Z)
  : fy_atom_iter :=
  match fuel with
  | O => iter
  | S fuel' =>
      if s <? e then
        let data := fyi (it_atom iter) in
        (* find next single quote *)
        match memchr (ptr data s) 39 (e - s) with
        | None => fy_atom_iter_add_chunk iter (ptr data s) (e - s)
        | Some i =>
            let iter := fy_atom_iter_add_chunk iter (ptr data s) i in
            let s := s + i in
            (* next character single quote too *)
            let iter :=
              if (2 <=? e - s) && (deref (ptr data s) 1 =? 39)
              then fy_atom_iter_add_chunk iter (ptr data s) 1 else iter in
            format_single_quoted fuel' iter (s + 1) e
        end
      else iter
  end.

(** The loop of the double-quoted case, with the value [ret] has when the
    loop is left: 0, or negative after [goto out]. *)
Fixpoint format_double_quoted (fuel : nat) (iter : fy_atom_iter) (s e : Z)
  : Z * fy_atom_iter :=
  match fuel with
  | O => (-1, iter)
  | S fuel' =>
      if s <? e then
        let data := fyi (it_atom iter) in
        (* find next escape *)
        match memchr (ptr data s) 92 (e - s) with
        | None => (0, fy_atom_iter_add_chunk iter (ptr data s) (e - s))
        | Some i =>
            let iter := fy_atom_iter_add_chunk iter (ptr data s) i in
            let t := s + i in
            if e - t <? 2 then (0, iter)
            else
              let '(ret, adv) := fy_utf8_parse_escape (ptr data t) (e - t) in
              if ret <? 0 then (ret, iter)
              else
                match fy_utf8_put 4 ret with
                | None => (-1, iter)
                | Some code =>
                    let iter :=
                      fy_atom_iter_add_chunk_copy iter code (Z.of_nat (length code)) in
                    format_double_quoted fuel' iter (t + adv) e
                end
        end
      else (0, iter)
  end.

Fixpoint format_uri (fuel : nat) (iter : fy_atom_iter) (s e : Z)
  : Z * fy_atom_iter :=
  match fuel with
  | O => (-1, iter)
  | S fuel' =>
      if s <? e then
        let data := fyi (it_atom iter) in
        (* find next escape *)
        match memchr (ptr data s) 37 (e - s) with
        | None => (0, fy_atom_iter_add_chunk iter (ptr data s) (e - s))
        | Some i =>
            let iter := fy_atom_iter_add_chunk iter (ptr data s) i in
            let s := s + i in
            match fy_uri_esc (ptr data s) (e - s) 4 with
            | None => (-1, iter)
            | Some (code, adv) =>
                (* output escaped utf8 *)
                let iter :=
                  fy_atom_iter_add_chunk_copy iter code (Z.of_nat (length code)) in
                format_uri fuel' iter (s + adv) e
            end
        end
      else (0, iter)
  end.

(** The character that follows the backslash of a re-escaped code point. *)
Definition manual_escape (c : Z) : list Z :=
  match c with
  | 92 => [92]
  | 34 => [34]
  | 0 => [48]
  | 7 => [97]
  | 8 => [98]
  | 9 => [116]
  | 10 => [110]
  | 11 => [118]
  | 12 => [102]
  | 13 => [114]
  | 27 => [101]
  | 0x85 => [78]
  | 0xa0 => [95]
  | 0x2028 => [76]
  | 0x2029 => [80]
  | _ =>
      if c <=? 0xff then 120 :: hex_fixed 2 (Z.land c 0xff)
      else if c <=? 0xffff then 120 :: hex_fixed 4 (Z.land c 0xffff)
      else 85 :: hex_fixed 8 (Z.land c 0xffffffff)
  end.

Fixpoint format_double_quoted_manual (fuel : nat) (iter : fy_atom_iter) (s e : Z)
  : fy_atom_iter :=
  match fuel with
  | O => iter
  | S fuel' =>
      let data := fyi (it_atom iter) in
      let '(c, w) := fy_utf8_get (ptr data s) (e - s) in
      if c =? -1 then iter
      else if negb (c =? 34) && negb (c =? 92) && fy_is_print c then
        format_double_quoted_manual fuel'
          (fy_atom_iter_add_chunk iter (ptr data s) w) (s + w) e
      else
        let iter := fy_atom_iter_add_chunk iter [92] 1 in
        let esc := manual_escape c in
        let iter := fy_atom_iter_add_chunk_copy iter esc (Z.of_nat (length esc)) in
        format_double_quoted_manual fuel' iter (s + w) e
  end.

(** [while (pending_nl > 0) { add_chunk(iter, "\n", 1); pending_nl--; }] *)
Definition flush_pending_nl (iter : fy_atom_iter) (pending_nl : Z) : fy_atom_iter :=
  Nat.iter (Z.to_nat pending_nl) (fun it => fy_atom_iter_add_chunk it [10] 1) iter.

(** The loop over the remaining lines for strip and clip; returns the
    iterator and [pending_nl] once [fy_atom_iter_line] returns null. *)
Fixpoint chomp_strip_clip (fuel : nat) (iter : fy_atom_iter) (pending_nl : Z)
  : option (fy_atom_iter * Z) :=
  match fuel with
  | O => None
  | S fuel' =>
      let '(ol, iter) := fy_atom_iter_line iter in
      match ol with
      | None => Some (iter, pending_nl)
      | Some l =>
          let data := fyi (it_atom iter) in
          let '(iter, pending_nl) :=
            if negb (it_empty iter) && (the (chomp_start l) <? the (li_end l)) then
              (fy_atom_iter_add_chunk (flush_pending_nl iter pending_nl)
                 (ptr data (the (chomp_start l)))
                 (the (li_end l) - the (chomp_start l)), 0)
            else (iter, pending_nl) in
          let pending_nl :=
            if lb_end l && negb (it_empty iter) then pending_nl + 1 else pending_nl in
          chomp_strip_clip fuel' iter pending_nl
      end
  end.

(** The loop over the remaining lines for keep. *)
Fixpoint chomp_keep (fuel : nat) (iter : fy_atom_iter) : option fy_atom_iter :=
  match fuel with
  | O => None
  | S fuel' =>
      let '(ol, iter) := fy_atom_iter_line iter in
      match ol with
      | None => Some iter
      | Some l =>
          let data := fyi (it_atom iter) in
          let iter :=
            if negb (it_empty iter) && (the (chomp_start l) <? the (li_end l)) then
              fy_atom_iter_add_chunk iter (ptr data (the (chomp_start l)))
                (the (li_end l) - the (chomp_start l))
            else iter in
          let iter := if lb_end l then fy_atom_iter_add_chunk iter [10] 1 else iter in
          chomp_keep fuel' iter
      end
  end.

(** The loops over lines take at most one turn per byte of the atom. *)
Definition line_fuel (iter : fy_atom_iter) : nat :=
  S (S (Z.to_nat (it_e iter - it_s iter))).

(** The [switch (atom->style)] of [fy_atom_iter_format] on the slice
    [s .. e): the value of [ret] after it and the iterator. *)
Definition format_style (iter : fy_atom_iter) (s e : Z) : Z * fy_atom_iter :=
  let data := fyi (it_atom iter) in
  let fuel := S (Z.to_nat (e - s)) in
  match style (it_atom iter) with
  | FYAS_LITERAL | FYAS_PLAIN | FYAS_FOLDED | FYAS_COMMENT =>
      (0, fy_atom_iter_add_chunk iter (ptr data s) (e - s))
  | FYAS_SINGLE_QUOTED => (0, format_single_quoted fuel iter s e)
  | FYAS_DOUBLE_QUOTED => format_double_quoted fuel iter s e
  | FYAS_URI => format_uri fuel iter s e
  | FYAS_DOUBLE_QUOTED_MANUAL => (0, format_double_quoted_manual fuel iter s e)
  end.

(** Returns [ret] and the iterator: 1 when a line was formatted, 0 at the
    end, negative on a malformed escape. *)
Definition fy_atom_iter_format (iter : fy_atom_iter) : Z * fy_atom_iter :=
  let atom := it_atom iter in
  let '(ol, iter) := fy_atom_iter_line iter in
  match ol with
  | None => (0, set_done true iter)
  | Some l =>
      if done iter then (0, iter)
      else
        let '(ret, iter) := format_style iter (li_s l) (li_e l) in
        if ret <? 0 then (ret, iter)
        else if last l && fy_atom_style_is_block (style atom) then
          match chomp atom with
          | FYAC_STRIP | FYAC_CLIP =>
              let pending_nl := if li_empty l then 0 else 1 in
              match chomp_strip_clip (line_fuel iter) iter pending_nl with
              | None => (-1, iter)
              | Some (iter, pending_nl) =>
                  let iter :=
                    match chomp atom with
                    | FYAC_CLIP =>
                        if pending_nl =? 0 then iter
                        else fy_atom_iter_add_chunk iter [10] 1
                    | _ => iter
                    end in
                  (1, set_done true iter)
              end
          | FYAC_KEEP =>
              let iter := if lb_end l then fy_atom_iter_add_chunk iter [10] 1 else iter in
              match chomp_keep (line_fuel iter) iter with
              | None => (-1, iter)
              | Some iter => (1, set_done true iter)
              end
          end
        else
          let iter := if need_sep l then fy_atom_iter_add_chunk iter [32] 1 else iter in
          let iter := if need_nl l then fy_atom_iter_add_chunk iter [10] 1 else iter in
          (1, iter)
  end.

(** ** fy-atom.c: the pull interface *)

(** A pointer to [iter->chunks[i].ic] is the index [i]. *)
Definition fy_atom_iter_peek_chunk (iter : fy_atom_iter) : option nat :=
  if (read iter <? length (chunks iter))%nat then Some (read iter) else None.

(** [ic->str[0 .. ic->len - 1]] and [ic->len] for the chunk at index [i]. *)
Definition ic_bytes (iter : fy_atom_iter) (i : nat) : list Z := nth i (chunks iter) [].
Definition ic_len (iter : fy_atom_iter) (i : nat) : Z := Z.of_nat (length (ic_bytes iter i)).

Fixpoint replace_nth {A} (i : nat) (x : A) (l : list A) : list A :=
  match l, i with
  | [], _ => []
  | _ :: t, O => x :: t
  | h :: t, S i' => h :: replace_nth i' x t
  end.

(** The loop of [fy_atom_iter_advance]: every turn but the last moves
    [read], so [fuel] need not exceed the number of chunks left by more
    than one. *)
Fixpoint advance_loop (fuel : nat) (iter : fy_atom_iter) (len : Z) : fy_atom_iter :=
  match fuel with
  | O => iter
  | S fuel' =>
      if (0 <? len) && (read iter <? length (chunks iter))%nat then
        let ac := ic_bytes iter (read iter) in
        (* get next run length *)
        let rlen := Z.min len (Z.of_nat (length ac)) in
        (* remove from chunk *)
        let ac' := skipn (Z.to_nat rlen) ac in
        (* advance if out of data *)
        let read' := match ac' with [] => S (read iter) | _ => read iter end in
        advance_loop fuel'
          (set_chunks (replace_nth (read iter) ac' (chunks iter)) read' iter)
          (len - rlen)
      else iter
  end.

Definition fy_atom_iter_advance (iter : fy_atom_iter) (len : Z) : fy_atom_iter :=
  let iter := advance_loop (S (length (chunks iter) - read iter)) iter len in
  (* reset when everything is gone *)
  if (length (chunks iter) <=? read iter)%nat then fy_atom_iter_chunk_reset iter
  else iter.

(** The loop [do { ret = fy_atom_iter_format(iter); if (ret <= 0) ...;
    } while (!fy_atom_iter_peek_chunk(iter))] that [fy_atom_iter_chunk_next]
    and [fy_atom_iter_read] share.  A turn that is repeated has formatted a
    line, so [line_fuel] bounds the turns. *)
Fixpoint pull_loop (fuel : nat) (iter : fy_atom_iter) : Z * fy_atom_iter :=
  match fuel with
  | O => (-1, iter)
  | S fuel' =>
      let '(ret, iter) := fy_atom_iter_format iter in
      (* either end or error, means we don't have data *)
      if ret <=? 0 then (ret, iter)
      else
        match fy_atom_iter_peek_chunk iter with
        | Some _ => (ret, iter)
        | None => pull_loop fuel' iter
        end
  end.

Definition fy_atom_iter_pull (iter : fy_atom_iter) : Z * fy_atom_iter :=
  let iter := fy_atom_iter_chunk_reset iter in
  pull_loop (line_fuel iter) iter.

(** Returns the chunk, the value stored through [errp] and the iterator. *)
Definition fy_atom_iter_chunk_next (iter : fy_atom_iter) (curr : option nat)
  : option nat * Z * fy_atom_iter :=
  let ic := fy_atom_iter_peek_chunk iter in
  let iter :=
    match curr, ic with
    | Some c, Some i =>
        if (c =? i)%nat then fy_atom_iter_advance iter (ic_len iter i) else iter
    | _, _ => iter
    end in
  (* need to pull in data? *)
  let ic := fy_atom_iter_peek_chunk iter in
  match curr, ic with
  | Some _, Some i => (Some i, 0, iter)
  | _, _ =>
      let '(ret, iter) := fy_atom_iter_pull iter in
      if ret <=? 0 then (None, if ret <? 0 then -1 else 0, iter)
      else (fy_atom_iter_peek_chunk iter, 0, iter)
  end.

(** The loop of [fy_atom_format_text_length]: the sum of the chunk lengths
    and the last [ret].  [None] when [fuel] turns were not enough. *)
Fixpoint text_length_loop (fuel : nat) (iter : fy_atom_iter) (ic : option nat)
  (len : Z) : option (Z * Z) :=
  match fuel with
  | O => None
  | S fuel' =>
      let '(ic, ret, iter) := fy_atom_iter_chunk_next iter ic in
      match ic with
      | None => Some (len, ret)
      | Some i => text_length_loop fuel' iter (Some i) (len + ic_len iter i)
      end
  end.

(** The atom is passed by pointer and may be null; the result is the
    returned [int] and the atom, whose hint the function may fill in. *)
Definition fy_atom_format_text_length (fuel : nat) (atom : option fy_atom)
  : option (Z * option fy_atom) :=
  match atom with
  | None => Some (-1, None)
  | Some a =>
      if storage_hint_valid a then Some (to_int (storage_hint a), atom)
      else
        match text_length_loop fuel (fy_atom_iter_start a) None 0 with
        | None => None
        | Some (len, ret) =>
            (* something funky going on here *)
            if to_int len <? 0 then Some (-1, atom)
            else if negb (ret =? 0) then Some (ret, atom)
            else Some (to_int len, Some (set_storage_hint len a))
        end
  end.

(** The loop of [fy_atom_format_text]: the bytes copied so far and either
    the last [ret] or, when a chunk did not fit, the null return. *)
Fixpoint format_text_loop (fuel : nat) (iter : fy_atom_iter) (ic : option nat)
  (out : list Z) (room : Z) : option (list Z * option Z) :=
  match fuel with
  | O => None
  | S fuel' =>
      let '(ic, ret, iter) := fy_atom_iter_chunk_next iter ic in
      match ic with
      | None => Some (out, Some ret)
      | Some i =>
          (* must fit *)
          if room <? ic_len iter i then Some (out, None)
          else format_text_loop fuel' iter (Some i) (out ++ ic_bytes iter i)
                 (room - ic_len iter i)
      end
  end.

(** [buf] is not null.  The result is the bytes stored from [buf] on and
    the returned pointer as its distance from [buf], [None] for null. *)
Definition fy_atom_format_text (fuel : nat) (atom : option fy_atom) (maxsz : Z)
  : option (list Z * option Z) :=
  match atom with
  | None => Some ([], None)
  | Some a =>
      match format_text_loop fuel (fy_atom_iter_start a) None [] maxsz with
      | None => None
      | Some (out, None) => Some (out, None)
      | Some (out, Some ret) =>
          if negb (ret =? 0) then Some (out, None)
          else Some (out, Some (Z.of_nat (length out)))
      end
  end.

(** The loop of [fy_atom_iter_read].  [buf] is the memory at the address
    passed by the caller; the address is the same on every turn.  A turn
    either copies at least one byte or pulls chunks in for the next one. *)
Fixpoint read_loop (fuel : nat) (iter : fy_atom_iter) (buf : list Z)
  (count nread : Z) : Z * list Z * fy_atom_iter :=
  match fuel with
  | O => (nread, buf, iter)
  | S fuel' =>
      if 0 <? count then
        match fy_atom_iter_peek_chunk iter with
        | Some i =>
            let nrun := Z.min count (ic_len iter i) in
            let buf := memcpy buf (ic_bytes iter i) nrun in
            read_loop fuel' (fy_atom_iter_advance iter nrun) buf
              (count - nrun) (nread + nrun)
        | None =>
            let '(ret, iter) := fy_atom_iter_pull iter in
            if ret <=? 0 then (if ret =? 0 then nread else -1, buf, iter)
            else read_loop fuel' iter buf count nread
        end
      else (nread, buf, iter)
  end.

(** [iter] and [buf] are not null. *)
Definition fy_atom_iter_read (iter : fy_atom_iter) (buf : list Z) (count : Z)
  : Z * list Z * fy_atom_iter :=
  read_loop (S (2 * Z.to_nat count)) iter buf count 0.

Definition fy_atom_iter_getc (iter : fy_atom_iter) : Z * fy_atom_iter :=
  (* first try the pushed ungetc *)
  if negb (unget_c iter =? -1) then
    (Z.land (unget_c iter) 0xff, set_unget_c (-1) iter)
  else
    (* read first octet *)
    let '(nread, buf, iter) := fy_atom_iter_read iter [0] 1 in
    if negb (nread =? 1) then (-1, iter)
    else (Z.land (deref buf 0) 0xff, iter).

Definition fy_atom_iter_ungetc (iter : fy_atom_iter) (c : Z) : Z * fy_atom_iter :=
  if negb (unget_c iter =? -1) then (-1, iter)
  else if c =? -1 then (0, set_unget_c (-1) iter)
  else (Z.land c 0xff, set_unget_c (Z.land c 0xff) iter).

Definition fy_atom_iter_peekc (iter : fy_atom_iter) : Z * fy_atom_iter :=
  let '(c, iter) := fy_atom_iter_getc iter in
  if c =? -1 then (-1, iter)
  else fy_atom_iter_ungetc iter c.

(** ** fy-atom.c: comparison and the number recognizer *)

(** The loop of the iterator branch of [fy_atom_memcmp]; returns the last
    [c], [ct] and what is left of [len]. *)
Fixpoint memcmp_loop (fuel : nat) (iter : fy_atom_iter) (str : list Z)
  (len ct : Z) : Z * Z * Z :=
  let '(c, iter) := fy_atom_iter_getc iter in
  match fuel with
  | O => (c, ct, len)
  | S fuel' =>
      if (0 <=? c) && negb (len =? 0) then
        let ct := Z.land (deref str 0) 0xff in
        if negb (ct =? c) then (c, ct, len)
        else memcmp_loop fuel' iter (tl str) (len - 1) ct
      else (c, ct, len)
  end.

(** [atom] and [ptr] may be null. *)
Definition fy_atom_memcmp (atom : option fy_atom) (p : option (list Z)) (len : Z) : Z :=
  match atom, p with
  | None, None => if len =? 0 then 0 else -1
  | None, Some _ => -1
  | Some _, None => 1
  | Some a, Some str =>
      if len =? 0 then 1
      else if direct_output a then
        (* direct output, nice *)
        let dlen := fy_atom_size a in
        let dstr := ptr (fyi a) (fy_atom_data a) in
        let tlen := if len <? dlen then len else dlen in
        let ret := memcmp dstr str (Z.to_nat tlen) in
        if negb (ret =? 0) then ret
        else if dlen =? len then 0 else if dlen <? len then -1 else 1
      else
        let '(c, ct, len) :=
          memcmp_loop (Z.to_nat len) (fy_atom_iter_start a) str len (-1) in
        (* out of data on both *)
        if (c =? -1) && (len =? 0) then 0
        else if c <? ct then -1 else 1
  end.

(** [str] is a C string: [None] for null, else the bytes before the
    terminating zero. *)
Definition fy_atom_strcmp (atom : option fy_atom) (str : option (list Z)) : Z :=
  let len := match str with Some s => Z.of_nat (length s) | None => 0 end in
  fy_atom_memcmp atom str len.

(** [while ((c = fy_atom_iter_peekc(&iter)) >= 0 && isdigit(c)) {
    (void)fy_atom_iter_getc(&iter); len++; }] *)
Fixpoint skip_digits (fuel : nat) (iter : fy_atom_iter) (len : Z)
  : option (fy_atom_iter * Z) :=
  match fuel with
  | O => None
  | S fuel' =>
      let '(c, iter) := fy_atom_iter_peekc iter in
      if (0 <=? c) && isdigit c then
        skip_digits fuel' (snd (fy_atom_iter_getc iter)) (len + 1)
      else Some (iter, len)
  end.

(** [c = fy_atom_iter_peekc(&iter); if (c == a || c == b) {
    (void)fy_atom_iter_getc(&iter); len++; }] *)
Definition skip_either (a b : Z) (iter : fy_atom_iter) (len : Z)
  : bool * fy_atom_iter * Z :=
  let '(c, iter) := fy_atom_iter_peekc iter in
  if (c =? a) || (c =? b) then (true, snd (fy_atom_iter_getc iter), len + 1)
  else (false, iter, len).

Definition fy_atom_is_number (fuel : nat) (atom : option fy_atom) : option bool :=
  match atom with
  | None => Some false
  | Some a =>
      if size0 a then Some false
      else
        let iter := fy_atom_iter_start a in
        (* skip sign if it's there *)
        let '(_, iter, len) := skip_either 43 45 iter 0 in
        (* skip digits *)
        match skip_digits fuel iter len with
        | None => None
        | Some (iter, len) =>
            (* dot? *)
            let '(dot, iter, len) := skip_either 46 46 iter len in
            match (if dot then skip_digits fuel iter len else Some (iter, len)) with
            | None => None
            | Some (iter, len) =>
                (* scientific notation *)
                let '(ex, iter, len) := skip_either 101 69 iter len in
                match (if ex then
                         let '(_, iter, len) := skip_either 43 45 iter len in
                         skip_digits fuel iter len
                       else Some (iter, len)) with
                | None => None
                | Some (iter, len) =>
                    let '(c, iter) := fy_atom_iter_peekc iter in
                    (* everything must be consumed (and something must) *)
                    Some ((c <? 0) && (0 <? len))
                end
            end
        end
  end.

(** The loop of the last branch of [fy_atom_cmp]; returns [c1] and [c2]. *)
Fixpoint cmp_loop (fuel : nat) (iter1 iter2 : fy_atom_iter) : option (Z * Z) :=
  match fuel with
  | O => None
  | S fuel' =>
      let '(c1, iter1) := fy_atom_iter_getc iter1 in
      let '(c2, iter2) := fy_atom_iter_getc iter2 in
      if (c1 =? c2) && (0 <=? c1) && (0 <=? c2) then cmp_loop fuel' iter1 iter2
      else Some (c1, c2)
  end.

(** The two atoms are passed by pointer.  A pointer is null or the index of
    an atom in the store [h]; two pointers are equal when both are null or
    both are the same index. *)
Definition fy_atom_cmp (fuel : nat) (h : list fy_atom) (atom1 atom2 : option nat)
  : option Z :=
  (* handles NULL case too *)
  if match atom1, atom2 with
     | None, None => true
     | Some i, Some j => (i =? j)%nat
     | _, _ => false
     end
  then Some 1 (* return true *)
  else
    match atom1, atom2 with
    | Some i, Some j =>
        match nth_error h i, nth_error h j with
        | Some a1, Some a2 =>
            let d1 := if direct_output a1
                      then Some (ptr (fyi a1) (fy_atom_data a1), fy_atom_size a1)
                      else None in
            let d2 := if direct_output a2
                      then Some (ptr (fyi a2) (fy_atom_data a2), fy_atom_size a2)
                      else None in
            match d1, d2 with
            | Some (d1, l1), Some (d2, l2) =>
                (* we have both atoms with direct output *)
                let l := if l2 <? l1 then l2 else l1 in
                let ret := memcmp d1 d2 (Z.to_nat l) in
                if negb (ret =? 0) then Some ret
                else Some (if l1 =? l2 then 0 else if l1 <? l2 then -1 else 1)
            | None, Some (d2, l2) =>
                (* only atom2 is direct *)
                Some (fy_atom_memcmp (Some a1) (Some d2) l2)
            | Some (d1, l1), None =>
                (* only atom1 is direct, (note reversing sign) *)
                Some (- fy_atom_memcmp (Some a2) (Some d1) l1)
            | None, None =>
                (* neither is direct, do it with iterators *)
                match cmp_loop fuel (fy_atom_iter_start a1) (fy_atom_iter_start a2) with
                | None => None
                | Some (c1, c2) =>
                    if (c1 =? -1) && (c2 =? -1) then Some 0
                    else Some (if c1 <? c2 then -1 else 1)
                end
            end
        | _, _ => Some 0  (* a pointer outside the store: not reached *)
        end
    | _, _ => Some 0 (* either null, can't do: return false *)
    end.

(** ** fy-atom.c: reading code points *)

(** [buf] is the content of the local array [uint8_t buf[4]], which the C
    code does not initialize. *)
Definition fy_atom_iter_utf8_get (buf : list Z) (iter : fy_atom_iter)
  : Z * fy_atom_iter :=
  (* first try the pushed ungetc *)
  if negb (unget_c iter =? -1) then
    (Z.land (unget_c iter) 0xff, set_unget_c (-1) iter)
  else
    (* read first octet *)
    let '(nread, buf, iter) := fy_atom_iter_read iter buf 1 in
    if negb (nread =? 1) then (-1, iter)
    else
      (* get width from it (0 means illegal) *)
      let w := fy_utf8_width_by_first_octet (uint8 (deref buf 0)) in
      if w =? 0 then (-1, iter)
      else if 1 <? w then
        (* read the rest octets (if possible) *)
        let '(nread, rest, iter) := fy_atom_iter_read iter (tl buf) (w - 1) in
        if negb (nread =? w - 1) then (-1, iter)
        else (fst (fy_utf8_get (map uint8 (deref buf 0 :: rest)) w), iter)
      else (fst (fy_utf8_get (map uint8 buf) w), iter).

Definition fy_atom_iter_utf8_unget (iter : fy_atom_iter) (c : Z)
  : Z * fy_atom_iter :=
  if negb (unget_c iter =? -1) then (-1, iter)
  else if c =? -1 then (0, set_unget_c (-1) iter)
  else (c, set_unget_c c iter).

Definition fy_atom_iter_utf8_peek (buf : list Z) (iter : fy_atom_iter)
  : Z * fy_atom_iter :=
  let '(c, iter) := fy_atom_iter_utf8_get buf iter in
  if c =? -1 then (-1, iter)
  else fy_atom_iter_utf8_unget iter c.

End Atom.

(** ** fy-emit.c: configuration and state *)

(** Modelled from the spec: the configuration flags [FYECF_*] are declared
    in libfyaml.h, which is not among the sources.  Sections 3 and 6: the
    flag word packs a mode (block, flow, flow-oneline, json, json-tp,
    json-oneline), policies (auto, on, off) for the version directive, the
    tag directives and the document start and end marks, and booleans such
    as strip-doc; the packing has no meaning of its own. *)
Inductive fy_emitter_mode :=
| FYECF_MODE_BLOCK | FYECF_MODE_FLOW | FYECF_MODE_FLOW_ONELINE
| FYECF_MODE_JSON | FYECF_MODE_JSON_TP | FYECF_MODE_JSON_ONELINE.

Inductive fy_emitter_policy := FYECF_AUTO | FYECF_OFF | FYECF_ON.

Record fy_emitter_cfg := {
  cfg_mode : fy_emitter_mode;
  cfg_version_dir : fy_emitter_policy;
  cfg_tag_dir : fy_emitter_policy;
  cfg_doc_start_mark : fy_emitter_policy;
  cfg_doc_end_mark : fy_emitter_policy;
  cfg_strip_doc : bool
}.

(** Modelled from the spec: the write types of section 6, passed to the
    output callback. *)
Inductive fy_emitter_write_type :=
| fyewt_document_indicator | fyewt_tag_directive | fyewt_version_directive
| fyewt_indent | fyewt_indicator | fyewt_whitespace | fyewt_plain_scalar
| fyewt_single_quoted_scalar | fyewt_double_quoted_scalar
| fyewt_literal_scalar | fyewt_folded_scalar | fyewt_anchor | fyewt_tag
| fyewt_linebreak | fyewt_alias | fyewt_terminating_zero
| fyewt_plain_scalar_key | fyewt_single_quoted_scalar_key
| fyewt_double_quoted_scalar_key | fyewt_comment.

(** Modelled from the spec: the formatter-state bits [FYEF_*] of fy-emit.h
    (section 3: whitespace pending, at indentation, open-ended, had document
    start / end / output). *)
Record fy_emitter_flags := {
  FYEF_WHITESPACE : bool;
  FYEF_INDENTATION : bool;
  FYEF_OPEN_ENDED : bool;
  FYEF_HAD_DOCUMENT_START : bool;
  FYEF_HAD_DOCUMENT_END : bool;
  FYEF_HAD_DOCUMENT_OUTPUT : bool
}.

(** Modelled from the spec: the fields of the document state that
    [fy_emit_common_document_start] and [fy_emit_common_document_end] read;
    a tag directive is its handle and its prefix. *)
Record fy_document_state := {
  version_explicit : bool;
  tags_explicit : bool;
  start_implicit : bool;
  end_implicit : bool;
  version_major : Z;
  version_minor : Z;
  fyt_td : list (list Z * list Z)
}.

Inductive fy_node_style :=
| FYNS_ANY | FYNS_FLOW | FYNS_BLOCK | FYNS_PLAIN | FYNS_SINGLE_QUOTED
| FYNS_DOUBLE_QUOTED | FYNS_LITERAL | FYNS_FOLDED | FYNS_ALIAS.

Definition fy_node_style_eqb (a b : fy_node_style) : bool :=
  match a, b with
  | FYNS_ANY, FYNS_ANY | FYNS_FLOW, FYNS_FLOW | FYNS_BLOCK, FYNS_BLOCK
  | FYNS_PLAIN, FYNS_PLAIN | FYNS_SINGLE_QUOTED, FYNS_SINGLE_QUOTED
  | FYNS_DOUBLE_QUOTED, FYNS_DOUBLE_QUOTED | FYNS_LITERAL, FYNS_LITERAL
  | FYNS_FOLDED, FYNS_FOLDED | FYNS_ALIAS, FYNS_ALIAS => true
  | _, _ => false
  end.

(** A scalar token; [fy_token_atom(fyt)] is its atom, null for a null
    token. *)
Record fy_token := { handle : fy_atom }.

Definition fy_token_atom (fyt : option fy_token) : option fy_atom :=
  match fyt with Some t => Some (handle t) | None => None end.

Section Emit.

(** The output callback of the configuration with the user data it works
    on: [output u type str len] is the returned count and the user data
    afterwards. *)
Variable U : Type.
Variable output : U -> fy_emitter_write_type -> list Z -> Z -> Z * U.

(** Helpers of the token and node layers that fy-emit.c calls and that are
    not among the sources. *)
Variable fy_is_print : Z -> bool.
Variable fy_tag_is_default : list Z -> list Z -> bool.
Variable fy_token_get_text : fy_token -> list Z.
Variable fy_token_get_text_length : fy_token -> Z.
Variable fy_find_lb : option (list Z) -> Z -> bool.
Variable fy_find_non_print : option (list Z) -> Z -> bool.
Variable fy_token_text_analyze : option fy_token -> Z.
Variable FYTTAF_DIRECT_OUTPUT : Z.
Variable DDNF_FLOW : Z.

Record fy_node := {
  fyn_style : fy_node_style;
  fyn_scalar : option fy_token
}.

Record fy_document := {
  fyd_fyds : option fy_document_state;
  root : option fy_node
}.

Record fy_emitter := {
  cfg : fy_emitter_cfg;
  userdata : U;
  line : Z;
  column : Z;
  flow_level : Z;
  flags : fy_emitter_flags;
  output_error : bool;
  fyds : option fy_document_state;
  fyd : option fy_document
}.

Definition set_flags (v : fy_emitter_flags) (e : fy_emitter) : fy_emitter :=
  {| cfg := cfg e; userdata := userdata e; line := line e; column := column e;
     flow_level := flow_level e; flags := v; output_error := output_error e;
     fyds := fyds e; fyd := fyd e |}.

Definition set_fyds (v : option fy_document_state) (e : fy_emitter) : fy_emitter :=
  {| cfg := cfg e; userdata := userdata e; line := line e; column := column e;
     flow_level := flow_level e; flags := flags e;
     output_error := output_error e; fyds := v; fyd := fyd e |}.

Definition set_fyd (v : option fy_document) (e : fy_emitter) : fy_emitter :=
  {| cfg := cfg e; userdata := userdata e; line := line e; column := column e;
     flow_level := flow_level e; flags := flags e;
     output_error := output_error e; fyds := fyds e; fyd := v |}.

Definition fy_emit_is_json_mode (emit : fy_emitter) : bool :=
  match cfg_mode (cfg emit) with
  | FYECF_MODE_JSON | FYECF_MODE_JSON_TP | FYECF_MODE_JSON_ONELINE => true
  | _ => false
  end.

Definition fy_emit_is_flow_mode (emit : fy_emitter) : bool :=
  match cfg_mode (cfg emit) with
  | FYECF_MODE_FLOW | FYECF_MODE_FLOW_ONELINE => true
  | _ => false
  end.

(** ** fy-emit.c: the write path *)

(** The loop of [fy_emit_write] over [str .. e), with [left = e - str];
    returns [emit->line] and [emit->column].  Every turn consumes at least
    one byte.  The two counters are C [int]s: [emit->line++] and
    [emit->column++] are written with the conversion to [int], so that the
    model wraps around where the C increment overflows. *)
Fixpoint write_loop (fuel : nat) (str : list Z) (left : Z) (ln col : Z) : Z * Z :=
  match fuel with
  | O => (ln, col)
  | S fuel' =>
      let '(c, w) := fy_utf8_get str left in
      if c =? -1 then (ln, col)
      else if (c =? 13) && (1 <? left) && (deref str 1 =? 10) then
        (* special handling for MSDOS *)
        write_loop fuel' (skipn 2 str) (left - 2) (to_int (ln + 1)) 0
      else if fy_is_lb c then
        (* regular line break *)
        write_loop fuel' (skipn (Z.to_nat w) str) (left - w) (to_int (ln + 1)) 0
      else
        (* completely ignore ANSI color escape sequences *)
        match (if (c =? 0x1b) && (2 <? left) && (deref str 1 =? 91)
               then memchr str 109 left else None) with
        | Some m =>
            write_loop fuel' (skipn (Z.to_nat (m + 1)) str) (left - (m + 1)) ln col
        | None =>
            write_loop fuel' (skipn (Z.to_nat w) str) (left - w) ln (to_int (col + 1))
        end
  end.

Definition fy_emit_write (emit : fy_emitter) (type : fy_emitter_write_type)
  (str : list Z) (len : Z) : fy_emitter :=
  if len =? 0 then emit
  else
    let '(outlen, u) := output (userdata emit) type str len in
    let '(ln, col) := write_loop (S (Z.to_nat len)) str len (line emit) (column emit) in
    {| cfg := cfg emit; userdata := u; line := ln; column := col;
       flow_level := flow_level emit; flags := flags emit;
       output_error := if outlen =? len then output_error emit else true;
       fyds := fyds emit; fyd := fyd emit |}.

(** [str] is a C string, given without its terminating zero. *)
Definition fy_emit_puts (emit : fy_emitter) (type : fy_emitter_write_type)
  (str : list Z) : fy_emitter :=
  fy_emit_write emit type str (Z.of_nat (length str)).

(** Modelled from the spec: [fy_utf8_format] is only declared in fy-utf8.h;
    with [fyue_none] it stores the UTF-8 encoding of [c] (section 4.1: the
    encoder writes 1 to 4 bytes for any valid scalar) as a C string. *)
Definition fy_emit_putc (emit : fy_emitter) (type : fy_emitter_write_type)
  (c : Z) : fy_emitter :=
  fy_emit_puts emit type (fy_utf8_put_unchecked c).

(** [%d] of printf. *)
Fixpoint decimal_digits (fuel : nat) (n : Z) (acc : list Z) : list Z :=
  match fuel with
  | O => acc
  | S fuel' =>
      let acc := (48 + n mod 10) :: acc in
      if n <? 10 then acc else decimal_digits fuel' (n / 10) acc
  end.

Definition printf_d (n : Z) : list Z :=
  if n <? 0 then 45 :: decimal_digits (S (Z.to_nat (- n))) (- n) []
  else decimal_digits (S (Z.to_nat n)) n [].

(** ** fy-emit.c: document start and end *)

Definition bor_policy (p : fy_emitter_policy) (auto : bool) : bool :=
  match p with FYECF_AUTO => auto | FYECF_ON => true | FYECF_OFF => false end.

(** The loop over the tag directives; returns the emitter and
    [had_non_default_tag]. *)
Fixpoint emit_tag_directives (emit : fy_emitter) (tds : list (list Z * list Z))
  (had : bool) : fy_emitter * bool :=
  match tds with
  | [] => (emit, had)
  | (td_handle, td_prefix) :: tds' =>
      if fy_tag_is_default td_handle td_prefix
      then emit_tag_directives emit tds' had
      else
        let emit := if column emit =? 0 then emit
                    else fy_emit_putc emit fyewt_linebreak 10 in
        let emit := fy_emit_puts emit fyewt_tag_directive
                      (bytes_of_string "%TAG " ++ td_handle ++ [32] ++ td_prefix) in
        let emit := fy_emit_putc emit fyewt_linebreak 10 in
        let emit := set_flags
                      {| FYEF_WHITESPACE := true; FYEF_INDENTATION := true;
                         FYEF_OPEN_ENDED := false;
                         FYEF_HAD_DOCUMENT_START := false;
                         FYEF_HAD_DOCUMENT_END := false;
                         FYEF_HAD_DOCUMENT_OUTPUT := false |} emit in
        emit_tag_directives emit tds' true
  end.

Definition only_ws_indent : fy_emitter_flags :=
  {| FYEF_WHITESPACE := true; FYEF_INDENTATION := true;
     FYEF_OPEN_ENDED := false; FYEF_HAD_DOCUMENT_START := false;
     FYEF_HAD_DOCUMENT_END := false; FYEF_HAD_DOCUMENT_OUTPUT := false |}.

Definition upd_flags (f : fy_emitter_flags -> fy_emitter_flags) (e : fy_emitter)
  : fy_emitter := set_flags (f (flags e)) e.

Definition with_whitespace (v : bool) (f : fy_emitter_flags) :=
  {| FYEF_WHITESPACE := v; FYEF_INDENTATION := FYEF_INDENTATION f;
     FYEF_OPEN_ENDED := FYEF_OPEN_ENDED f;
     FYEF_HAD_DOCUMENT_START := FYEF_HAD_DOCUMENT_START f;
     FYEF_HAD_DOCUMENT_END := FYEF_HAD_DOCUMENT_END f;
     FYEF_HAD_DOCUMENT_OUTPUT := FYEF_HAD_DOCUMENT_OUTPUT f |}.

Definition with_had_document_start (v : bool) (f : fy_emitter_flags) :=
  {| FYEF_WHITESPACE := FYEF_WHITESPACE f; FYEF_INDENTATION := FYEF_INDENTATION f;
     FYEF_OPEN_ENDED := FYEF_OPEN_ENDED f;
     FYEF_HAD_DOCUMENT_START := v;
     FYEF_HAD_DOCUMENT_END := FYEF_HAD_DOCUMENT_END f;
     FYEF_HAD_DOCUMENT_OUTPUT := FYEF_HAD_DOCUMENT_OUTPUT f |}.

Definition with_had_document_end (v : bool) (f : fy_emitter_flags) :=
  {| FYEF_WHITESPACE := FYEF_WHITESPACE f; FYEF_INDENTATION := FYEF_INDENTATION f;
     FYEF_OPEN_ENDED := FYEF_OPEN_ENDED f;
     FYEF_HAD_DOCUMENT_START := FYEF_HAD_DOCUMENT_START f;
     FYEF_HAD_DOCUMENT_END := v;
     FYEF_HAD_DOCUMENT_OUTPUT := FYEF_HAD_DOCUMENT_OUTPUT f |}.

Definition with_had_document_output (v : bool) (f : fy_emitter_flags) :=
  {| FYEF_WHITESPACE := FYEF_WHITESPACE f; FYEF_INDENTATION := FYEF_INDENTATION f;
     FYEF_OPEN_ENDED := FYEF_OPEN_ENDED f;
     FYEF_HAD_DOCUMENT_START := FYEF_HAD_DOCUMENT_START f;
     FYEF_HAD_DOCUMENT_END := FYEF_HAD_DOCUMENT_END f;
     FYEF_HAD_DOCUMENT_OUTPUT := v |}.

(** [emit] is not null and [fyds] may be; returns the [int] and the
    emitter.  [root_tag_or_anchor] is not used by the C function. *)
Definition fy_emit_common_document_start (emit : fy_emitter)
  (ds : option fy_document_state) (root_tag_or_anchor : bool) : Z * fy_emitter :=
  match ds, fyds emit with
  | Some s, None =>
      let emit := set_fyds ds emit in
      let strip := cfg_strip_doc (cfg emit) in
      let json := fy_emit_is_json_mode emit in
      let vd := bor_policy (cfg_version_dir (cfg emit)) (version_explicit s)
                && negb strip in
      let td := bor_policy (cfg_tag_dir (cfg emit)) (tags_explicit s)
                && negb strip in
      (* if either a version or directive tags exist, and no previous
         explicit document end existed, output one now *)
      let emit :=
        if negb json && (vd || td) && negb (FYEF_HAD_DOCUMENT_END (flags emit)) then
          let emit := if column emit =? 0 then emit
                      else fy_emit_putc emit fyewt_linebreak 10 in
          if negb strip then
            upd_flags (fun f => with_had_document_end true (with_whitespace false f))
              (fy_emit_puts emit fyewt_document_indicator (bytes_of_string "..."))
          else emit
        else emit in
      let emit :=
        if negb json && vd then
          let emit := if column emit =? 0 then emit
                      else fy_emit_putc emit fyewt_linebreak 10 in
          let emit := fy_emit_puts emit fyewt_version_directive
                        (bytes_of_string "%YAML " ++ printf_d (version_major s)
                         ++ [46] ++ printf_d (version_minor s)) in
          set_flags only_ws_indent (fy_emit_putc emit fyewt_linebreak 10)
        else emit in
      let '(emit, had_non_default_tag) :=
        if negb json && td then emit_tag_directives emit (fyt_td s) false
        else (emit, false) in
      (* always output document start indicator: was explicit, document has
         tags, document has an explicit version *)
      let dsm :=
        bor_policy (cfg_doc_start_mark (cfg emit))
          (negb (start_implicit s) || tags_explicit s || version_explicit s
           || had_non_default_tag) in
      (* if there was previous output without document end *)
      let dsm := dsm || (FYEF_HAD_DOCUMENT_OUTPUT (flags emit)
                         && negb (FYEF_HAD_DOCUMENT_END (flags emit))) in
      let emit :=
        if negb json && dsm then
          let emit := if column emit =? 0 then emit
                      else fy_emit_putc emit fyewt_linebreak 10 in
          if negb strip then
            upd_flags (fun f => with_had_document_start true (with_whitespace false f))
              (fy_emit_puts emit fyewt_document_indicator (bytes_of_string "---"))
          else emit
        else upd_flags (with_had_document_start false) emit in
      (* clear that in any case *)
      (0, upd_flags (with_had_document_end false) emit)
  | _, _ => (-1, emit)
  end.

(** Whether the root has a tag or an anchor; the token and anchor layers
    that decide it are not among the sources, and the value is unused. *)
Variable root_has_tag_or_anchor : fy_document -> bool.

(** [fyn_root] is null in the one call of this function. *)
Definition fy_emit_document_start (emit : fy_emitter) (d : option fy_document)
  : Z * fy_emitter :=
  match d with
  | None => (-1, emit)
  | Some doc =>
      match fyd_fyds doc with
      | None => (-1, emit)
      | Some s =>
          let '(ret, emit) :=
            fy_emit_common_document_start emit (Some s) (root_has_tag_or_anchor doc) in
          if negb (ret =? 0) then (ret, emit)
          else (0, set_fyd d emit)
      end
  end.

Definition fy_emit_common_document_end (emit : fy_emitter) : Z * fy_emitter :=
  match fyds emit with
  | None => (-1, emit)
  | Some s =>
      let emit :=
        if column emit =? 0 then emit
        else set_flags only_ws_indent (fy_emit_putc emit fyewt_linebreak 10) in
      let dem := bor_policy (cfg_doc_end_mark (cfg emit)) (negb (end_implicit s))
                 && negb (cfg_strip_doc (cfg emit)) in
      let emit :=
        if negb (fy_emit_is_json_mode emit) && dem then
          let emit := fy_emit_puts emit fyewt_document_indicator (bytes_of_string "...") in
          let emit := fy_emit_putc emit fyewt_linebreak 10 in
          set_flags (with_had_document_end true only_ws_indent) emit
        else upd_flags (with_had_document_end false) emit in
      (* mark that we did output a document earlier *)
      let emit := upd_flags (with_had_document_output true) emit in
      (* stop our association with the document *)
      (0, set_fyds None emit)
  end.

Definition fy_emit_document_end (emit : fy_emitter) : Z * fy_emitter :=
  let '(ret, emit) := fy_emit_common_document_end emit in
  if negb (ret =? 0) then (ret, emit)
  else (0, set_fyd None emit).

(** The node writers [fy_emit_node_internal] and [fy_emit_node_comment]
    rest on the token layer, which is not among the sources; they write
    through [fy_emit_write] and return nothing. *)
Variable fy_emit_node_internal : fy_emitter -> fy_node -> fy_emitter.
Variable fy_emit_node_comment : fy_emitter -> fy_node -> Z -> fy_emitter.

Definition fy_emit_root_node (emit : fy_emitter) (fyn : option fy_node)
  : Z * fy_emitter :=
  match fyn with
  | None => (-1, emit)
  | Some n =>
      (* top comment first *)
      let emit := fy_emit_node_comment emit n 0 in
      let emit := fy_emit_node_internal emit n in
      (* right comment next *)
      let emit := fy_emit_node_comment emit n 1 in
      (* bottom comment last *)
      let emit := fy_emit_node_comment emit n 2 in
      (0, emit)
  end.

(** [emit] is not null; [fyd] is dereferenced for its root only after
    [fy_emit_document_start] accepted it. *)
Definition fy_emit_document (emit : fy_emitter) (d : option fy_document)
  : Z * fy_emitter :=
  let '(rc, emit) := fy_emit_document_start emit d in
  if negb (rc =? 0) then (rc, emit)
  else
    let '(rc, emit) :=
      fy_emit_root_node emit (match d with Some doc => root doc | None => None end) in
    if negb (rc =? 0) then (rc, emit)
    else fy_emit_document_end emit.

(** ** fy-emit.c: the scalar style selector *)

Definition is_literal_or_folded (style : fy_node_style) : bool :=
  match style with FYNS_LITERAL | FYNS_FOLDED => true | _ => false end.

(** The tail of [fy_emit_token_scalar_style] from the label [out] on. *)
Definition scalar_style_out (fyt : option fy_token) (style : fy_node_style)
  : fy_node_style :=
  match style with
  | FYNS_ANY =>
      if negb (Z.land (fy_token_text_analyze fyt) FYTTAF_DIRECT_OUTPUT =? 0)
      then FYNS_PLAIN else FYNS_DOUBLE_QUOTED
  | _ => style
  end.

(** [fuel] bounds the loops of [fy_atom_is_number]. *)
Definition fy_emit_token_scalar_style (fuel : nat) (emit : fy_emitter)
  (fyt : option fy_token) (flags : Z) (style : fy_node_style)
  : option fy_node_style :=
  let atom := fy_token_atom fyt in
  (* check if style is allowed (i.e. no block styles in flow context) *)
  let style :=
    if negb (Z.land flags DDNF_FLOW =? 0) && is_literal_or_folded style
    then FYNS_ANY else style in
  let json := fy_emit_is_json_mode emit in
  if json && is_literal_or_folded style then
    (* literal in JSON mode is output as quoted *)
    Some (scalar_style_out fyt FYNS_DOUBLE_QUOTED)
  else
    let plain_ok : option bool :=
      if json && fy_node_style_eqb style FYNS_PLAIN then
        match atom with
        | None => Some true
        | Some a =>
            if size0 a then Some true
            else if fy_atom_strcmp fy_is_print atom (Some (bytes_of_string "false")) =? 0
            then Some true
            else if fy_atom_strcmp fy_is_print atom (Some (bytes_of_string "true")) =? 0
            then Some true
            else if fy_atom_strcmp fy_is_print atom (Some (bytes_of_string "null")) =? 0
            then Some true
            else fy_atom_is_number fy_is_print fuel atom
        end
      else Some false in
    match plain_ok with
    | None => None
    | Some true => Some (scalar_style_out fyt FYNS_PLAIN)
    | Some false =>
        if json then Some (scalar_style_out fyt FYNS_DOUBLE_QUOTED)
        else
          let flow := fy_emit_is_flow_mode emit in
          (* in flow mode, we can't let a bare plain *)
          let style :=
            if flow && match fyt with
                       | None => true
                       | Some t => fy_token_get_text_length t =? 0
                       end
            then FYNS_DOUBLE_QUOTED else style in
          if flow && (fy_node_style_eqb style FYNS_ANY || is_literal_or_folded style)
          then
            let value := match fyt with
                         | Some t => Some (fy_token_get_text t)
                         | None => None
                         end in
            let len := match value with
                       | Some v => Z.of_nat (length v)
                       | None => 0
                       end in
            (* if there's a linebreak, use double quoted style *)
            if fy_find_lb value len then Some (scalar_style_out fyt FYNS_DOUBLE_QUOTED)
            (* check if there's a non printable *)
            else if negb (fy_find_non_print value len)
            then Some (scalar_style_out fyt FYNS_SINGLE_QUOTED)
            else Some (scalar_style_out fyt FYNS_DOUBLE_QUOTED)
          else Some (scalar_style_out fyt style)
    end.

(** ** fy-emit.c: white space, indentation and indicators *)

Definition fy_emit_is_oneline (emit : fy_emitter) : bool :=
  match cfg_mode (cfg emit) with
  | FYECF_MODE_FLOW_ONELINE | FYECF_MODE_JSON_ONELINE => true
  | _ => false
  end.

(** Modelled from the spec: [fy_emit_whitespace] and [fy_emit_indentation]
    are inline helpers of fy-emit.h; they test the formatter-state bits
    whitespace pending and at indentation of section 3. *)
Definition fy_emit_whitespace (emit : fy_emitter) : bool :=
  FYEF_WHITESPACE (flags emit).

Definition fy_emit_indentation (emit : fy_emitter) : bool :=
  FYEF_INDENTATION (flags emit).

Definition with_indentation (v : bool) (f : fy_emitter_flags) :=
  {| FYEF_WHITESPACE := FYEF_WHITESPACE f; FYEF_INDENTATION := v;
     FYEF_OPEN_ENDED := FYEF_OPEN_ENDED f;
     FYEF_HAD_DOCUMENT_START := FYEF_HAD_DOCUMENT_START f;
     FYEF_HAD_DOCUMENT_END := FYEF_HAD_DOCUMENT_END f;
     FYEF_HAD_DOCUMENT_OUTPUT := FYEF_HAD_DOCUMENT_OUTPUT f |}.

Definition with_open_ended (v : bool) (f : fy_emitter_flags) :=
  {| FYEF_WHITESPACE := FYEF_WHITESPACE f; FYEF_INDENTATION := FYEF_INDENTATION f;
     FYEF_OPEN_ENDED := v;
     FYEF_HAD_DOCUMENT_START := FYEF_HAD_DOCUMENT_START f;
     FYEF_HAD_DOCUMENT_END := FYEF_HAD_DOCUMENT_END f;
     FYEF_HAD_DOCUMENT_OUTPUT := FYEF_HAD_DOCUMENT_OUTPUT f |}.

Definition set_flow_level (v : Z) (e : fy_emitter) : fy_emitter :=
  {| cfg := cfg e; userdata := userdata e; line := line e; column := column e;
     flow_level := v; flags := flags e; output_error := output_error e;
     fyds := fyds e; fyd := fyd e |}.

Definition fy_emit_write_ws (emit : fy_emitter) : fy_emitter :=
  let emit := fy_emit_putc emit fyewt_whitespace 32 in
  upd_flags (with_whitespace true) emit.

(** [indent], [len] and the column are C [int]s. *)
Definition fy_emit_write_indent (emit : fy_emitter) (indent : Z) : fy_emitter :=
  let indent := if 0 <? indent then indent else 0 in
  let emit :=
    if negb (fy_emit_indentation emit) || (indent <? column emit)
       || ((column emit =? indent) && negb (fy_emit_whitespace emit))
    then fy_emit_putc emit fyewt_linebreak 10
    else emit in
  let emit :=
    if column emit <? indent then
      let len := to_int (indent - column emit) in
      (* ws: len spaces *)
      fy_emit_write emit fyewt_indent (repeat 32 (Z.to_nat len)) len
    else emit in
  upd_flags (fun f => with_indentation true (with_whitespace true f)) emit.

Inductive document_indicator :=
| di_question_mark | di_colon | di_dash | di_left_bracket | di_right_bracket
| di_left_brace | di_right_brace | di_comma | di_bar | di_greater
| di_single_quote_start | di_single_quote_end | di_double_quote_start
| di_double_quote_end | di_ambersand | di_star.

(** The node flag [DDNF_SIMPLE] of fy-emit.h, which is not among the
    sources. *)
Variable DDNF_SIMPLE : Z.

(** [if (!fy_emit_whitespace(emit)) fy_emit_write_ws(emit);] *)
Definition ensure_ws (emit : fy_emitter) : fy_emitter :=
  if negb (fy_emit_whitespace emit) then fy_emit_write_ws emit else emit.

(** [emit->flow_level] is a C [int]: [++] and [--] are written with the
    conversion to [int]. *)
Definition fy_emit_write_indicator (emit : fy_emitter)
  (indicator : document_indicator) (flags : Z) (indent : Z)
  (wtype : fy_emitter_write_type) : fy_emitter :=
  match indicator with
  | di_question_mark =>
      let emit := ensure_ws emit in
      let emit := fy_emit_putc emit wtype 63 in
      upd_flags (fun f => with_open_ended false (with_whitespace false f)) emit
  | di_colon =>
      let emit :=
        if Z.land flags DDNF_SIMPLE =? 0 then
          let emit :=
            if (flow_level emit =? 0) && negb (fy_emit_is_oneline emit)
            then fy_emit_write_indent emit indent else emit in
          ensure_ws emit
        else emit in
      let emit := fy_emit_putc emit wtype 58 in
      upd_flags (fun f => with_open_ended false (with_whitespace false f)) emit
  | di_dash =>
      let emit := ensure_ws emit in
      let emit := fy_emit_putc emit wtype 45 in
      upd_flags (fun f => with_open_ended false (with_whitespace false f)) emit
  | di_left_bracket | di_left_brace =>
      let emit := set_flow_level (to_int (flow_level emit + 1)) emit in
      let emit := ensure_ws emit in
      let emit := fy_emit_putc emit wtype
                    (match indicator with di_left_bracket => 91 | _ => 123 end) in
      let emit := upd_flags (with_whitespace true) emit in
      upd_flags (fun f => with_open_ended false (with_indentation false f)) emit
  | di_right_bracket | di_right_brace =>
      let emit := set_flow_level (to_int (flow_level emit - 1)) emit in
      let emit := fy_emit_putc emit wtype
                    (match indicator with di_right_bracket => 93 | _ => 125 end) in
      upd_flags (fun f => with_open_ended false
                            (with_indentation false (with_whitespace false f))) emit
  | di_comma =>
      let emit := fy_emit_putc emit wtype 44 in
      upd_flags (fun f => with_open_ended false
                            (with_indentation false (with_whitespace false f))) emit
  | di_bar | di_greater =>
      let emit := ensure_ws emit in
      let emit := fy_emit_putc emit wtype
                    (match indicator with di_bar => 124 | _ => 62 end) in
      upd_flags (fun f => with_open_ended false
                            (with_whitespace false (with_indentation false f))) emit
  | di_single_quote_start | di_double_quote_start =>
      let emit := ensure_ws emit in
      let emit := fy_emit_putc emit wtype
                    (match indicator with di_single_quote_start => 39 | _ => 34 end) in
      upd_flags (fun f => with_open_ended false
                            (with_indentation false (with_whitespace false f))) emit
  | di_single_quote_end | di_double_quote_end =>
      let emit := fy_emit_putc emit wtype
                    (match indicator with di_single_quote_end => 39 | _ => 34 end) in
      upd_flags (fun f => with_open_ended false
                            (with_indentation false (with_whitespace false f))) emit
  | di_ambersand =>
      let emit := ensure_ws emit in
      let emit := fy_emit_putc emit wtype 38 in
      upd_flags (fun f => with_indentation false (with_whitespace false f)) emit
  | di_star =>
      let emit := ensure_ws emit in
      let emit := fy_emit_putc emit wtype 42 in
      upd_flags (fun f => with_indentation false (with_whitespace false f)) emit
  end.

(** ** fy-emit.c: the explicit document end *)

(** [emit] is not null. *)
Definition fy_emit_common_explicit_document_end (emit : fy_emitter)
  : Z * fy_emitter :=
  let emit :=
    if negb (column emit =? 0)
    then set_flags only_ws_indent (fy_emit_putc emit fyewt_linebreak 10)
    else emit in
  let emit :=
    if negb (fy_emit_is_json_mode emit) then
      let emit := fy_emit_puts emit fyewt_document_indicator (bytes_of_string "...") in
      let emit := fy_emit_putc emit fyewt_linebreak 10 in
      let emit := set_flags only_ws_indent emit in
      upd_flags (with_had_document_end true) emit
    else upd_flags (with_had_document_end false) emit in
  (* mark that we did output a document earlier *)
  let emit := upd_flags (with_had_document_output true) emit in
  (* stop our association with the document *)
  (0, set_fyds None emit).

Definition fy_emit_explicit_document_end (emit : fy_emitter) : Z * fy_emitter :=
  let '(ret, emit) := fy_emit_common_explicit_document_end emit in
  if negb (ret =? 0) then (ret, emit)
  else (0, set_fyd None emit).

End Emit.

Arguments cfg {U}.
Arguments userdata {U}.
Arguments line {U}.
Arguments column {U}.
Arguments flow_level {U}.
Arguments flags {U}.
Arguments output_error {U}.
Arguments fyds {U}.
Arguments fyd {U}.
Arguments set_flags {U}.
Arguments set_fyds {U}.
Arguments set_fyd {U}.
Arguments upd_flags {U}.
Arguments fy_emit_is_json_mode {U}.
Arguments fy_emit_is_flow_mode {U}.
Arguments fy_emit_write {U}.
Arguments fy_emit_puts {U}.
Arguments fy_emit_putc {U}.
Arguments emit_tag_directives {U}.
Arguments fy_emit_common_document_start {U}.
Arguments fy_emit_document_start {U}.
Arguments fy_emit_common_document_end {U}.
Arguments fy_emit_document_end {U}.
Arguments fy_emit_root_node {U}.
Arguments fy_emit_document {U}.
Arguments fy_emit_token_scalar_style {U}.
Arguments set_flow_level {U}.
Arguments fy_emit_is_oneline {U}.
Arguments fy_emit_whitespace {U}.
Arguments fy_emit_indentation {U}.
Arguments fy_emit_write_ws {U}.
Arguments fy_emit_write_indent {U}.
Arguments ensure_ws {U}.
Arguments fy_emit_write_indicator {U}.
Arguments fy_emit_common_explicit_document_end {U}.
Arguments fy_emit_explicit_document_end {U}.

(** ** fy-emit.c: the queue of events *)

(** The event types that fy-emit.c names. *)
Inductive fy_event_type :=
| FYET_STREAM_START | FYET_STREAM_END
| FYET_DOCUMENT_START | FYET_DOCUMENT_END
| FYET_MAPPING_START | FYET_MAPPING_END
| FYET_SEQUENCE_START | FYET_SEQUENCE_END
| FYET_SCALAR | FYET_ALIAS.

(** The loop of [fy_emit_ready] over the queue from [fyep] on.  [count]
    never exceeds [need + 1] and [need] is at most 3, so that neither
    [count] nor [level] leaves the range of an [int]. *)
Fixpoint ready_loop (need : Z) (fyep : list fy_event_type) (level count : Z)
  : bool :=
  match fyep with
  | [] => false
  | type :: next =>
      let count := count + 1 in
      if need <? count then true
      else
        let level :=
          match type with
          | FYET_STREAM_START | FYET_DOCUMENT_START
          | FYET_SEQUENCE_START | FYET_MAPPING_START => level + 1
          | FYET_STREAM_END | FYET_DOCUMENT_END
          | FYET_SEQUENCE_END | FYET_MAPPING_END => level - 1
          | _ => level
          end in
        if level =? 0 then true else ready_loop need next level count
  end.

(** [queued_events] is [emit->queued_events], of which the function reads
    the event types only. *)
Definition fy_emit_ready (queued_events : list fy_event_type) : bool :=
  match queued_events with
  | [] =>
      (* no events in the list, not ready *)
      false
  | type :: _ =>
      (* some events need more than one *)
      let need :=
        match type with
        | FYET_DOCUMENT_START => 1
        | FYET_SEQUENCE_START => 2
        | FYET_MAPPING_START => 3
        | _ => 0
        end in
      (* if we don't need any more, that's enough *)
      if need =? 0 then true
      else ready_loop need queued_events 0 0
  end.

(** ** fy-emit.c: output to a buffer *)

Record fy_emit_buffer_state := {
  buf : option (list Z);
  size : Z;
  pos : Z;
  need : Z;
  grow : bool
}.

(** [memcpy(buf + pos, src, n)] seen from [buf]. *)
Definition memcpy_at (buf : list Z) (pos : Z) (src : list Z) (n : Z) : list Z :=
  firstn (Z.to_nat pos) buf ++ memcpy (skipn (Z.to_nat pos) buf) src n.

Section Buffer.

(** [sysconf(_SC_PAGESIZE)], and the answer of [realloc] for a block and a
    size: the new block, or none when memory is exhausted. *)
Variable pagesize : Z.
Variable realloc : option (list Z) -> Z -> option (list Z).

(** [state] is [emit->cfg->userdata]; the emitter and the write type are
    not used.  [size], [pos], [need], [len] and [left] are C [int]s, and
    [%] is the remainder of the division that truncates. *)
Definition do_buffer_output (state : fy_emit_buffer_state)
  (type : fy_emitter_write_type) (str : list Z) (len : Z)
  : Z * fy_emit_buffer_state :=
  let state := {| buf := buf state; size := size state; pos := pos state;
                  need := to_int (need state + len); grow := grow state |} in
  let left := to_int (size state - pos state) in
  let grown : Z + fy_emit_buffer_state * Z :=
    if left <? len then
      if negb (grow state) then inl 0
      else
        let size' := to_int (need state + pagesize - 1) in
        let size' := to_int (size' - Z.rem size' pagesize) in
        match realloc (buf state) size' with
        | None => inl (-1)
        | Some bufnew =>
            inr ({| buf := Some bufnew; size := size'; pos := pos state;
                    need := need state; grow := grow state |},
                 to_int (size' - pos state))
        end
    else inr (state, left) in
  match grown with
  | inl ret => (ret, state)
  | inr grown =>
      let state := fst grown in
      let left := snd grown in
      let len := if left <? len then left else len in
      let buf' :=
        match buf state with
        | Some b => Some (memcpy_at b (pos state) str len)
        | None => None
        end in
      (len, {| buf := buf'; size := size state; pos := to_int (pos state + len);
               need := need state; grow := grow state |})
  end.

End Buffer.

(** ** fy-emit.c: the stacks of the streaming emitter *)

(** [stack[i] = x]; none when [i] is outside the block. *)
Definition store_at {A : Type} (stack : list A) (i : Z) (x : A)
  : option (list A) :=
  if (0 <=? i) && (i <? Z.of_nat (length stack))
  then Some (firstn (Z.to_nat i) stack ++ x :: skipn (S (Z.to_nat i)) stack)
  else None.

(** [stack[i]]; none when [i] is outside the block. *)
Definition load_at {A : Type} (stack : list A) (i : Z) : option A :=
  if 0 <=? i then nth_error stack (Z.to_nat i) else None.

(** [memcpy(dst, src, n * sizeof(src[0]))]; none when either block is
    shorter than [n] entries. *)
Definition memcpy_entries {A : Type} (dst src : list A) (n : Z)
  : option (list A) :=
  if (n <=? Z.of_nat (length dst)) && (n <=? Z.of_nat (length src))
  then Some (firstn (Z.to_nat n) src ++ skipn (Z.to_nat n) dst)
  else None.

(** The fields of [struct fy_emitter] that hold the stack of states:
    the block [state_stack] points to, whether that is the array inside the
    emitter ([state_stack_inplace]), and whether the pointer still refers
    to a live block.  The structure is declared in fy-emit.h, which is not
    among the sources; the two counters are modelled without wrap-around.
    States are given by their [enum] values. *)
Record fy_emitter_state_stack := {
  state_stack : list Z;
  state_stack_is_inplace : bool;
  state_stack_live : bool;
  state_stack_top : Z;
  state_stack_alloc : Z
}.

(** The same for the stack of save contexts, of type [SC]. *)
Record fy_emitter_sc_stack (SC : Type) := {
  sc_stack : list SC;
  sc_stack_is_inplace : bool;
  sc_stack_top : Z;
  sc_stack_alloc : Z
}.

Arguments sc_stack {SC}.
Arguments sc_stack_is_inplace {SC}.
Arguments sc_stack_top {SC}.
Arguments sc_stack_alloc {SC}.

Section Stacks.

(** The value of [FYES_NONE], from fy-emit.h. *)
Variable FYES_NONE : Z.

(** The answer of [realloc] for a block (none for a null pointer) and a
    number of entries: the new block, or none when memory is exhausted.
    A block that was reallocated is no longer live. *)
Variable realloc_states : option (list Z) -> Z -> option (list Z).

(** [emit->state_stack[emit->state_stack_top++] = state; return 0;] *)
Definition state_stack_store (emit : fy_emitter_state_stack) (state : Z)
  : option (Z * fy_emitter_state_stack) :=
  match store_at (state_stack emit) (state_stack_top emit) state with
  | None => None
  | Some block =>
      Some (0, {| state_stack := block;
                  state_stack_is_inplace := state_stack_is_inplace emit;
                  state_stack_live := state_stack_live emit;
                  state_stack_top := state_stack_top emit + 1;
                  state_stack_alloc := state_stack_alloc emit |})
  end.

(** A result of none stands for an access outside a live block.  The
    test after [realloc] reads [state], not [states]. *)
Definition fy_emit_push_state (emit : fy_emitter_state_stack) (state : Z)
  : option (Z * fy_emitter_state_stack) :=
  if negb (state_stack_live emit) then None
  else if state_stack_alloc emit <=? state_stack_top emit then
    let states :=
      realloc_states
        (if state_stack_is_inplace emit then None else Some (state_stack emit))
        (state_stack_alloc emit * 2) in
    if state =? 0 then
      (* [emit->state_stack] still points to the block handed to realloc *)
      Some (-1, {| state_stack := state_stack emit;
                   state_stack_is_inplace := state_stack_is_inplace emit;
                   state_stack_live :=
                     state_stack_is_inplace emit
                     || match states with None => true | Some _ => false end;
                   state_stack_top := state_stack_top emit;
                   state_stack_alloc := state_stack_alloc emit |})
    else
      match states with
      | None => None
      | Some block =>
          match (if state_stack_is_inplace emit
                 then memcpy_entries block (state_stack emit) (state_stack_top emit)
                 else Some block) with
          | None => None
          | Some block =>
              state_stack_store
                {| state_stack := block; state_stack_is_inplace := false;
                   state_stack_live := true;
                   state_stack_top := state_stack_top emit;
                   state_stack_alloc := state_stack_alloc emit * 2 |} state
          end
      end
  else state_stack_store emit state.

Definition fy_emit_pop_state (emit : fy_emitter_state_stack)
  : option (Z * fy_emitter_state_stack) :=
  if state_stack_top emit =? 0 then Some (FYES_NONE, emit)
  else if negb (state_stack_live emit) then None
  else
    match load_at (state_stack emit) (state_stack_top emit - 1) with
    | None => None
    | Some state =>
        Some (state, {| state_stack := state_stack emit;
                        state_stack_is_inplace := state_stack_is_inplace emit;
                        state_stack_live := state_stack_live emit;
                        state_stack_top := state_stack_top emit - 1;
                        state_stack_alloc := state_stack_alloc emit |})
    end.

Variable SC : Type.
Variable realloc_scs : option (list SC) -> Z -> option (list SC).

(** [emit->sc_stack[emit->sc_stack_top++] = *sc; return 0;] *)
Definition sc_stack_store (emit : fy_emitter_sc_stack SC) (sc : SC)
  : option (Z * fy_emitter_sc_stack SC) :=
  match store_at (sc_stack emit) (sc_stack_top emit) sc with
  | None => None
  | Some scs =>
      Some (0, {| sc_stack := scs;
                  sc_stack_is_inplace := sc_stack_is_inplace emit;
                  sc_stack_top := sc_stack_top emit + 1;
                  sc_stack_alloc := sc_stack_alloc emit |})
  end.

Definition fy_emit_push_sc (emit : fy_emitter_sc_stack SC) (sc : SC)
  : option (Z * fy_emitter_sc_stack SC) :=
  if sc_stack_alloc emit <=? sc_stack_top emit then
    match realloc_scs
            (if sc_stack_is_inplace emit then None else Some (sc_stack emit))
            (sc_stack_alloc emit * 2) with
    | None => Some (-1, emit)
    | Some scs =>
        match (if sc_stack_is_inplace emit
               then memcpy_entries scs (sc_stack emit) (sc_stack_top emit)
               else Some scs) with
        | None => None
        | Some scs =>
            sc_stack_store
              {| sc_stack := scs; sc_stack_is_inplace := false;
                 sc_stack_top := sc_stack_top emit;
                 sc_stack_alloc := sc_stack_alloc emit * 2 |} sc
        end
    end
  else sc_stack_store emit sc.

(** Returns the [int], the emitter and the content of [*sc]. *)
Definition fy_emit_pop_sc (emit : fy_emitter_sc_stack SC) (sc : SC)
  : option (Z * fy_emitter_sc_stack SC * SC) :=
  if sc_stack_top emit =? 0 then Some (-1, emit, sc)
  else
    match load_at (sc_stack emit) (sc_stack_top emit - 1) with
    | None => None
    | Some top =>
        Some (0, {| sc_stack := sc_stack emit;
                    sc_stack_is_inplace := sc_stack_is_inplace emit;
                    sc_stack_top := sc_stack_top emit - 1;
                    sc_stack_alloc := sc_stack_alloc emit |}, top)
    end.

End Stacks.

Arguments sc_stack_store {SC}.
Arguments fy_emit_push_sc {SC}.
Arguments fy_emit_pop_sc {SC}.

(** * Specification-level definitions *)

(** A bounded universal over [lo, lo + 2^d), decided by halving. *)
Fixpoint all_below (d : nat) (lo : Z) (f : Z -> bool) : bool :=
  match d with
  | O => f lo
  | S d' => all_below d' lo f && all_below d' (lo + 2 ^ Z.of_nat d') f
  end.

(** An atom over the whole of [data] with the given style and chomp; the
    flags are those the scanner would compute for plain visible text. *)
Definition atom_of (data : list Z) (st : fy_atom_style) (ch : fy_atom_chomp)
  (inc : Z) (lines endcol : Z) (emp direct : bool) : fy_atom :=
  {| start_mark := {| input_pos := 0; m_line := 0; m_column := 0 |};
     end_mark := {| input_pos := Z.of_nat (length data); m_line := lines;
                    m_column := endcol |};
     storage_hint := 0; fyi := data; increment := inc; style := st;
     chomp := ch; direct_output := direct; storage_hint_valid := false;
     empty := emp; has_lb := negb direct; has_ws := negb direct;
     starts_with_ws := false; starts_with_lb := false; ends_with_ws := false;
     ends_with_lb := false; trailing_lb := false;
     size0 := (length data =? 0)%nat |}.

(** *** Decoded content *)

(** The state of an iterator that has reported its end: nothing pending and
    [done] set, so that every later pull reports the end again. *)
Definition is_at_eof (iter : fy_atom_iter) : bool :=
  done iter && (length (chunks iter) =? 0)%nat && (read iter =? 0)%nat
  && (unget_c iter =? -1).

(** The bytes [fy_atom_iter_getc] returns up to the first -1, provided that
    -1 is the end of the atom and not a malformed escape; [None] also when
    [fuel] calls were not enough. *)
Fixpoint decode_stream (fy_is_print : Z -> bool) (fuel : nat) (iter : fy_atom_iter)
  : option (list Z) :=
  match fuel with
  | O => None
  | S fuel' =>
      if negb (unget_c iter =? -1) then None
      else
        let '(c, iter') := fy_atom_iter_getc fy_is_print iter in
        if c <? 0 then if is_at_eof iter' then Some [] else None
        else
          match decode_stream fy_is_print fuel' iter' with
          | Some bs => Some (c :: bs)
          | None => None
          end
  end.

(** *** The number pattern *)

Fixpoint drop_digits (bs : list Z) : list Z :=
  match bs with
  | b :: r => if isdigit b then drop_digits r else bs
  | [] => []
  end.

(** Drops a leading [a] or [b]; tells whether it did. *)
Definition drop_either (a b : Z) (bs : list Z) : bool * list Z :=
  match bs with
  | c :: r => if (c =? a) || (c =? b) then (true, r) else (false, bs)
  | [] => (false, [])
  end.

(** What is left of [bs] after an optional sign, a run of digits, an
    optional dot with a run of digits and an optional [e] or [E] with an
    optional sign and a run of digits; every run may be empty. *)
Definition number_rest (bs : list Z) : list Z :=
  let r := drop_digits (snd (drop_either 43 45 bs)) in
  let '(dot, r) := drop_either 46 46 r in
  let r := if dot then drop_digits r else r in
  let '(ex, r) := drop_either 101 69 r in
  if ex then drop_digits (snd (drop_either 43 45 r)) else r.

Definition is_nil (bs : list Z) : bool :=
  match bs with [] => true | _ => false end.

Definition number_pattern (bs : list Z) : bool := is_nil (number_rest bs).

(** The pattern read with its digits required: an optional sign, at least
    one digit, and then the optional parts as above. *)
Definition number_pattern_strict (bs : list Z) : bool :=
  let r := snd (drop_either 43 45 bs) in
  match r with
  | d :: _ => isdigit d && number_pattern bs
  | [] => false
  end.

(** What [fy_atom_iter_line] leaves untouched. *)
Definition same_chunks (a b : fy_atom_iter) : Prop :=
  chunks b = chunks a /\ read b = read a /\ done b = done a /\
  unget_c b = unget_c a.

Definition at_eof (iter : fy_atom_iter) : Prop :=
  done iter = true /\ chunks iter = [] /\ read iter = 0%nat /\ unget_c iter = -1.

(** The stream of [decode_stream] as a relation. *)
Inductive decodes (fy_is_print : Z -> bool) : fy_atom_iter -> list Z -> Prop :=
| decodes_end iter iter' :
    unget_c iter = -1 -> fy_atom_iter_getc fy_is_print iter = (-1, iter') ->
    at_eof iter' -> decodes fy_is_print iter []
| decodes_byte iter iter' c bs :
    unget_c iter = -1 -> fy_atom_iter_getc fy_is_print iter = (c, iter') ->
    0 <= c -> decodes fy_is_print iter' bs -> decodes fy_is_print iter (c :: bs).

(** An iterator seen through [getc], [ungetc] and [peekc]: the bytes still
    to come, the pushed back one first. *)
Definition holds (fy_is_print : Z -> bool) (iter : fy_atom_iter) (bs : list Z)
  : Prop :=
  decodes fy_is_print iter bs \/
  exists c bs', bs = c :: bs' /\ 0 <= c <= 255 /\ unget_c iter = c /\
                decodes fy_is_print (set_unget_c (-1) iter) bs'.

Definition head_or_eof (bs : list Z) : Z :=
  match bs with c :: _ => c | [] => -1 end.

(** *** Text of an atom *)

Fixpoint bytes_eqb (a b : list Z) : bool :=
  match a, b with
  | [], [] => true
  | x :: a', y :: b' => (x =? y) && bytes_eqb a' b'
  | _, _ => false
  end.

(** The text [fy_atom_get_text_a] builds: the raw bytes of an atom flagged
    direct-output, and else the decoded bytes [bs]. *)
Definition atom_text (a : fy_atom) (bs : list Z) : list Z :=
  if direct_output a then take (fy_atom_size a) (ptr (fyi a) (fy_atom_data a))
  else bs.

(** The scalars that stay plain in JSON mode: no atom, a size-zero atom, the
    text [false], [true] or [null], or decoded bytes that the number
    recognizer accepts. *)
Definition json_plain (fyt : option fy_token) (bs : list Z) : bool :=
  match fyt with
  | None => true
  | Some t =>
      let a := handle t in
      size0 a
      || bytes_eqb (atom_text a bs) (bytes_of_string "false")
      || bytes_eqb (atom_text a bs) (bytes_of_string "true")
      || bytes_eqb (atom_text a bs) (bytes_of_string "null")
      || (negb (is_nil bs) && number_pattern bs)
  end.

(** *** Emitters for the examples *)

(** An output callback that accepts everything and one that accepts
    nothing; the user data is the list of the buffers received so far. *)
Definition output_all (u : list (list Z)) (type : fy_emitter_write_type)
  (str : list Z) (len : Z) : Z * list (list Z) := (len, u ++ [take len str]).

Definition output_none (u : list (list Z)) (type : fy_emitter_write_type)
  (str : list Z) (len : Z) : Z * list (list Z) := (0, u ++ [take len str]).

Definition emitter_of (mode : fy_emitter_mode) : fy_emitter (list (list Z)) :=
  {| cfg := {| cfg_mode := mode; cfg_version_dir := FYECF_AUTO;
               cfg_tag_dir := FYECF_AUTO; cfg_doc_start_mark := FYECF_AUTO;
               cfg_doc_end_mark := FYECF_AUTO; cfg_strip_doc := false |};
     userdata := []; line := 0; column := 0; flow_level := 0;
     flags := {| FYEF_WHITESPACE := true; FYEF_INDENTATION := true;
                 FYEF_OPEN_ENDED := false; FYEF_HAD_DOCUMENT_START := false;
                 FYEF_HAD_DOCUMENT_END := true;
                 FYEF_HAD_DOCUMENT_OUTPUT := false |};
     output_error := false; fyds := None; fyd := None |}.

(** *** Counting columns *)

Definition utf8_encode (cps : list Z) : list Z :=
  flat_map fy_utf8_put_unchecked cps.

(** What follows the first [m] of [cps]. *)
Fixpoint after_m (cps : list Z) : option (list Z) :=
  match cps with
  | [] => None
  | c :: r => if c =? 109 then Some r else after_m r
  end.

(** The position after the code points [cps] are written at line [ln] and
    column [col], by the rule of the spec: a line break resets the column
    and increments the line, a CR-LF pair is one line break, a sequence
    ESC [ ... m has no width, every other code point is one column wide.
    [fuel] need only exceed the length of [cps]. *)
Fixpoint count_columns (fuel : nat) (cps : list Z) (ln col : Z) : Z * Z :=
  match fuel with
  | O => (ln, col)
  | S fuel' =>
      match cps with
      | [] => (ln, col)
      | c :: r =>
          if (c =? 13) && match r with 10 :: _ => true | _ => false end then
            count_columns fuel' (tl r) (ln + 1) 0
          else if fy_is_lb c then count_columns fuel' r (ln + 1) 0
          else
            match (if c =? 0x1b then
                     match r with 91 :: r2 => after_m r2 | _ => None end
                   else None) with
            | Some r' => count_columns fuel' r' ln col
            | None => count_columns fuel' r ln (col + 1)
            end
      end
  end.

Definition position_after (cps : list Z) (pos : Z * Z) : Z * Z :=
  count_columns (S (length cps)) cps (fst pos) (snd pos).

(** [fy_emit_write] of the encoding of each list of code points in turn. *)
Definition emit_writes {U : Type}
  (output : U -> fy_emitter_write_type -> list Z -> Z -> Z * U)
  (emit : fy_emitter U) (ws : list (fy_emitter_write_type * list Z))
  : fy_emitter U :=
  fold_left
    (fun e w => fy_emit_write output e (fst w) (utf8_encode (snd w))
                  (Z.of_nat (length (utf8_encode (snd w)))))
    ws emit.

(** A document with a state and a scalar root, and a node writer that
    writes one byte; the comment writer writes nothing. *)
Definition example_document : fy_document :=
  {| fyd_fyds := Some {| version_explicit := false; tags_explicit := false;
                         start_implicit := false; end_implicit := true;
                         version_major := 1; version_minor := 2; fyt_td := [] |};
     root := Some {| fyn_style := FYNS_PLAIN; fyn_scalar := None |} |}.

Definition example_node_writer (e : fy_emitter (list (list Z))) (n : fy_node)
  : fy_emitter (list (list Z)) :=
  fy_emit_puts output_none e fyewt_plain_scalar [120].

Definition example_emit_document (e : fy_emitter (list (list Z)))
  : Z * fy_emitter (list (list Z)) :=
  fy_emit_document output_none (fun _ _ => true) (fun _ => false)
    example_node_writer (fun e _ _ => e) e (Some example_document).

(** *** Chomping *)

(** The length in bytes of the encoding of [cps]: the offset that follows
    them in an input that starts with them. *)
Definition blen (cps : list Z) : Z := Z.of_nat (length (utf8_encode cps)).

(** The state of the first loop of the analyzer after the characters [cs],
    none of which is a line break. *)
Definition scan_fold (is_block : bool) (chomp ts : Z) (st : line_scan)
  (cs : list Z) : line_scan :=
  fold_left (fun st c =>
               scan_advance (fy_utf8_width c) (scan_char is_block chomp ts st c))
            cs st.

(** The fields of a line descriptor that the loops over lines read. *)
Definition view (l : fy_atom_iter_line_info)
  : option Z * option Z * option Z * bool * bool * bool :=
  (li_start l, li_end l, chomp_start l, li_empty l, last l, lb_end l).

(** The number of line breaks the chomp mode leaves after the last line of
    content, which [n] line breaks follow in the input. *)
Definition chomped (ch : fy_atom_chomp) (n : nat) : nat :=
  match ch with
  | FYAC_STRIP => O
  | FYAC_CLIP => 1%nat
  | FYAC_KEEP => n
  end.

(** Text that is empty or ends with a line break. *)
Definition whole_lines (cps : list Z) : bool :=
  match rev cps with
  | [] => true
  | c :: _ => fy_is_lb c
  end.

Definition no_lb (cps : list Z) : bool := forallb (fun c => negb (fy_is_lb c)) cps.

Definition has_visible (cps : list Z) : bool :=
  existsb (fun c => negb (fy_is_ws_lb c)) cps.

(** The raw text of a block scalar: whole lines, a last line of content
    indented by [inc] spaces, and line breaks. *)
Definition block_text (inc : Z) (pre body breaks : list Z) : list Z :=
  pre ++ repeat 32 (Z.to_nat inc) ++ body ++ breaks.

(** The number of line feeds at the end of [bs]. *)
Fixpoint trailing_lf_rev (rbs : list Z) : nat :=
  match rbs with
  | b :: r => if b =? 10 then S (trailing_lf_rev r) else O
  | [] => O
  end.

Definition trailing_lf (bs : list Z) : nat := trailing_lf_rev (rev bs).

(** What a run of [k] calls of [fy_atom_iter_format] produces from an
    iterator with no chunk pending, the last call reporting the end.  The
    loop that pulls chunks in takes no more than [line_fuel] turns. *)
Inductive produces (fy_is_print : Z -> bool)
  : nat -> fy_atom_iter -> list Z -> Prop :=
| produces_end iter iter' :
    fy_atom_iter_format fy_is_print iter = (0, iter') ->
    done iter' = true -> chunks iter' = [] -> read iter' = 0%nat ->
    unget_c iter' = unget_c iter ->
    produces fy_is_print 1 iter []
| produces_line k iter iter' out :
    fy_atom_iter_format fy_is_print iter = (1, iter') ->
    read iter' = 0%nat -> Forall (fun c => c <> []) (chunks iter') ->
    unget_c iter' = unget_c iter ->
    (S k <= line_fuel iter)%nat ->
    produces fy_is_print k (fy_atom_iter_chunk_reset iter') out ->
    produces fy_is_print (S k) iter (concat (chunks iter') ++ out).

(** An iterator over a block scalar whose input is the encoding of [cps]. *)
Definition block_iter (cps : list Z) (iter : fy_atom_iter) : Prop :=
  fy_atom_style_is_block (style (it_atom iter)) = true /\
  direct_output (it_atom iter) && negb (has_lb (it_atom iter))
    && negb (has_ws (it_atom iter)) = false /\
  fyi (it_atom iter) = utf8_encode cps /\
  it_s iter = 0 /\ it_e iter = blen cps.

(** The [chomp_start] of the line [L] that follows [P]. *)
Definition chomp_of (chomp : Z) (P L : list Z) : Z :=
  match sc_chomp_start (scan_fold true chomp 8 (scan_init (blen P)) L) with
  | Some p => p
  | None => blen (P ++ L)
  end.

(** The iterator after [fy_atom_iter_line] returned the line [l] and left
    the analysis [n] of the next one. *)
Definition line_moved (iter : fy_atom_iter) (l n : fy_atom_iter_line_info)
  : fy_atom_iter :=
  set_li (negb (current iter)) l
    (set_li (current iter) n (set_current (negb (current iter)) iter)).

(** The line descriptor that the next call of [fy_atom_iter_line] returns. *)
Definition upcoming (iter : fy_atom_iter) : fy_atom_iter_line_info :=
  li iter (negb (current iter)).

(** The upcoming line is the one that starts after [P], with [rest] the
    input from there on. *)
Definition at_line (cps : list Z) (iter : fy_atom_iter) (P rest : list Z)
  : Prop :=
  block_iter cps iter /\ cps = P ++ rest /\
  exists iterX l0,
    block_iter cps iterX /\ it_chomp iterX = it_chomp iter /\
    view (upcoming iter)
    = view (fy_atom_iter_line_analyze iterX l0 (blen P) (blen rest)).

(** No line is left. *)
Definition line_over (iter : fy_atom_iter) : Prop :=
  exists p, li_start (upcoming iter) = Some p /\ it_e iter <= p.

(** [chunks] appended to the chunk array. *)
Definition push (iter : fy_atom_iter) (cs : list (list Z)) : fy_atom_iter :=
  set_chunks (chunks iter ++ cs) (read iter) iter.

(** The fields that no function changes once the iterator is started. *)
Definition same_base (a b : fy_atom_iter) : Prop :=
  it_atom b = it_atom a /\ it_s b = it_s a /\ it_e b = it_e a /\
  it_chomp b = it_chomp a /\ single_line b = single_line a /\
  it_empty b = it_empty a.

(** The same, and the same line descriptors. *)
Definition same_lines (a b : fy_atom_iter) : Prop :=
  same_base a b /\ current b = current a /\ li0 b = li0 a /\ li1 b = li1 a.

(** The slice of a line of a block scalar. *)
Definition block_slice (iter : fy_atom_iter) (l : fy_atom_iter_line_info) : Z :=
  let e := the (li_end l) in
  let s0 := if li_empty l && first l && last l && negb (single_line iter)
            then e else the (chomp_start l) in
  if e <? s0 then e else s0.

(** Only the line breaks [B] are left, or nothing at all. *)
Definition trailing (cps : list Z) (iter : fy_atom_iter) (B : list Z) : Prop :=
  (exists Q, at_line cps iter Q B) \/ (B = [] /\ line_over iter).

(** *** Analysed line descriptors *)

(** A descriptor that [fy_atom_iter_line_analyze] has filled in: its
    [start] and its [end] are not null. *)
Definition li_analysed (l : fy_atom_iter_line_info) : Prop :=
  li_start l <> None /\ li_end l <> None.

Definition analysed (iter : fy_atom_iter) : Prop :=
  li_analysed (li0 iter) /\ li_analysed (li1 iter).

(** The state in which [fy_atom_iter_start] leaves the iterator of an atom
    that is not empty: the first call of [fy_atom_iter_line] selects
    [li[1]], which is analysed and not out, and analyses [li[0]]. *)
Definition fresh (iter : fy_atom_iter) : Prop :=
  current iter = false /\ li_analysed (li1 iter) /\
  line_out iter (li1 iter) = false.

(** No call of [fy_atom_iter_line] will select a descriptor that was never
    analysed. *)
Definition lines_ready (iter : fy_atom_iter) : Prop :=
  analysed iter \/ fresh iter.

(** The descriptors, the one that is current and the end of the atom are
    the same. *)
Definition lines_kept (a b : fy_atom_iter) : Prop :=
  li0 b = li0 a /\ li1 b = li1 a /\ current b = current a /\ it_e b = it_e a.

(** *** Pending bytes *)

(** The bytes of the chunks that are still to be read. *)
Definition pending (iter : fy_atom_iter) : list Z :=
  concat (skipn (read iter) (chunks iter)).

(** The order of two byte strings: the first difference decides, and a
    proper prefix comes first. *)
Fixpoint bytes_cmp (a b : list Z) : Z :=
  match a, b with
  | [], [] => 0
  | [], _ :: _ => -1
  | _ :: _, [] => 1
  | x :: a', y :: b' =>
      if x =? y then bytes_cmp a' b' else if x <? y then -1 else 1
  end.

(** The results of [n] calls of [fy_atom_iter_getc] in a row. *)
Fixpoint getc_n (fy_is_print : Z -> bool) (n : nat) (iter : fy_atom_iter)
  : list Z * fy_atom_iter :=
  match n with
  | O => ([], iter)
  | S n' =>
      let '(c, iter) := fy_atom_iter_getc fy_is_print iter in
      let '(cs, iter) := getc_n fy_is_print n' iter in
      (c :: cs, iter)
  end.

(** *** Emitter frames *)

(** What a write leaves alone. *)
Definition same_context {U : Type} (e e' : fy_emitter U) : Prop :=
  cfg e' = cfg e /\ flow_level e' = flow_level e /\ flags e' = flags e /\
  fyds e' = fyds e /\ fyd e' = fyd e.

(** The indicator characters and the space. *)
Definition plain_ascii (c : Z) : bool :=
  existsb (Z.eqb c) [32; 63; 58; 45; 91; 123; 93; 125; 44; 124; 62; 39; 34; 38; 42].

(** The indicators before which [fy_emit_write_indicator] wants white
    space, the change of the flow level that goes with an indicator and
    the character written for it. *)
Definition indicator_wants_ws (i : document_indicator) : bool :=
  match i with
  | di_colon | di_right_bracket | di_right_brace | di_comma
  | di_single_quote_end | di_double_quote_end => false
  | _ => true
  end.

Definition indicator_flow (i : document_indicator) : Z :=
  match i with
  | di_left_bracket | di_left_brace => 1
  | di_right_bracket | di_right_brace => -1
  | _ => 0
  end.

Definition indicator_opens (i : document_indicator) : bool :=
  match i with
  | di_left_bracket | di_left_brace => true
  | _ => false
  end.

Definition indicator_char (i : document_indicator) : Z :=
  match i with
  | di_question_mark => 63 | di_colon => 58 | di_dash => 45
  | di_left_bracket => 91 | di_right_bracket => 93
  | di_left_brace => 123 | di_right_brace => 125
  | di_comma => 44 | di_bar => 124 | di_greater => 62
  | di_single_quote_start | di_single_quote_end => 39
  | di_double_quote_start | di_double_quote_end => 34
  | di_ambersand => 38 | di_star => 42
  end.

(** The flag update that ends [fy_emit_write_indicator]. *)
Definition indicator_flags (i : document_indicator)
  (f : fy_emitter_flags) : fy_emitter_flags :=
  match i with
  | di_question_mark | di_colon | di_dash =>
      with_open_ended false (with_whitespace false f)
  | di_left_bracket | di_left_brace =>
      with_open_ended false (with_indentation false (with_whitespace true f))
  | di_ambersand | di_star => with_indentation false (with_whitespace false f)
  | _ => with_open_ended false (with_indentation false (with_whitespace false f))
  end.

(** *** The event queue *)

(** The lookahead an event asks for, and the change of depth it makes. *)
Definition lookahead (type : fy_event_type) : nat :=
  match type with
  | FYET_DOCUMENT_START => 1
  | FYET_SEQUENCE_START => 2
  | FYET_MAPPING_START => 3
  | _ => 0
  end%nat.

Definition depth_change (type : fy_event_type) : Z :=
  match type with
  | FYET_STREAM_START | FYET_DOCUMENT_START
  | FYET_SEQUENCE_START | FYET_MAPPING_START => 1
  | FYET_STREAM_END | FYET_DOCUMENT_END
  | FYET_SEQUENCE_END | FYET_MAPPING_END => -1
  | _ => 0
  end.

Definition depth (q : list fy_event_type) : Z :=
  fold_right (fun type d => depth_change type + d) 0 q.

Definition is_end (type : fy_event_type) : bool := depth_change type =? -1.
Definition is_start (type : fy_event_type) : bool := depth_change type =? 1.

(** *** Buffers *)

(** The content of a block; a null pointer has none. *)
Definition block {A : Type} (b : option (list A)) : list A :=
  match b with Some l => l | None => [] end.

(** What [realloc] promises: a block of the size asked for that starts
    with the content of the old one, as far as both reach. *)
Definition realloc_keeps {A : Type}
  (realloc : option (list A) -> Z -> option (list A)) : Prop :=
  forall old n new, realloc old n = Some new ->
    length new = Z.to_nat n /\
    forall k, (k <= length (block old))%nat -> (k <= Z.to_nat n)%nat ->
              firstn k new = firstn k (block old).

(** An allocator for the examples: it always succeeds and fills what is
    new with zeros. *)
Definition realloc_zero (old : option (list Z)) (n : Z) : option (list Z) :=
  Some (firstn (Z.to_nat n) (block old)
        ++ repeat 0 (Z.to_nat n - length (block old))).

(** *** Stacks *)

(** The entries in use, the bottom of the stack first. *)
Definition state_stack_entries (emit : fy_emitter_state_stack) : list Z :=
  firstn (Z.to_nat (state_stack_top emit)) (state_stack emit).

Definition sc_stack_entries {SC : Type} (emit : fy_emitter_sc_stack SC)
  : list SC :=
  firstn (Z.to_nat (sc_stack_top emit)) (sc_stack emit).

(** A stack of save contexts as [fy_emit_setup] and the two functions
    leave it: a block of [sc_stack_alloc] entries, not empty, of which the
    first [sc_stack_top] are in use. *)
Definition sc_stack_ok {SC : Type} (emit : fy_emitter_sc_stack SC) : Prop :=
  0 < sc_stack_alloc emit /\
  0 <= sc_stack_top emit <= sc_stack_alloc emit /\
  Z.of_nat (length (sc_stack emit)) = sc_stack_alloc emit.

(** * Proofs *)

(** ** UTF-8 codec *)

Lemma all_below_spec d : forall lo f, all_below d lo f = true ->
  forall c, lo <= c < lo + 2 ^ Z.of_nat d -> f c = true.
Proof.
  induction d as [|d IH]; intros lo f H c Hc.
  - simpl in *. assert (c = lo) by lia. subst. exact H.
  - cbn [all_below] in H. apply andb_prop in H. destruct H as [H1 H2].
    rewrite Nat2Z.inj_succ, Z.pow_succ_r in Hc by lia.
    destruct (Z_lt_ge_dec c (lo + 2 ^ Z.of_nat d)).
    + apply (IH lo); auto. lia.
    + apply (IH (lo + 2 ^ Z.of_nat d)); auto. lia.
Qed.

Lemma lor_shiftl6 v d :
  0 <= v -> 0 <= d < 64 -> Z.lor (Z.shiftl v 6) d = 64 * v + d.
Proof.
  intros Hv Hd.
  assert (Hland : Z.land (Z.shiftl v 6) d = 0).
  { apply Z.bits_inj'. intros n Hn.
    rewrite Z.land_spec, Z.bits_0.
    destruct (Z_lt_ge_dec n 6).
    - rewrite Z.shiftl_spec_low by lia. reflexivity.
    - assert (Z.testbit d n = false) as ->; [|apply andb_false_r].
      destruct (Z.eq_dec d 0) as [->|]; [apply Z.bits_0|].
      apply Z.bits_above_log2; [lia|].
      assert (Z.log2 d < 6); [|lia].
      apply Z.log2_lt_pow2; lia. }
  rewrite <- Z.lxor_lor by exact Hland.
  rewrite <- Z.add_nocarry_lxor by exact Hland.
  rewrite Z.shiftl_mul_pow2 by lia. change (2 ^ 6) with 64. lia.
Qed.

Lemma trail_octet d : 0 <= d < 64 ->
  uint8 (Z.lor d 0x80) = 0x80 + d /\
  Z.land (0x80 + d) 0xc0 = 0x80 /\ Z.land (0x80 + d) 0x3f = d.
Proof.
  intros Hd.
  pose proof (all_below_spec 6 0
    (fun d => (uint8 (Z.lor d 0x80) =? 0x80 + d) &&
              (Z.land (0x80 + d) 0xc0 =? 0x80) &&
              (Z.land (0x80 + d) 0x3f =? d)) eq_refl d Hd) as H.
  cbv beta in H. rewrite !andb_true_iff, !Z.eqb_eq in H. tauto.
Qed.

Lemma low6 c : Z.land c 0x3f = c mod 64.
Proof. change 0x3f with (Z.ones 6). rewrite Z.land_ones by lia. reflexivity. Qed.

Lemma shr c n : 0 <= n -> Z.shiftr c n = c / 2 ^ n.
Proof. intros. apply Z.shiftr_div_pow2; lia. Qed.

Lemma lead2 a : 0 <= a < 32 ->
  uint8 (Z.lor a 0xc0) = 0xc0 + a /\
  Z.land (0xc0 + a) 0x80 <> 0 /\
  fy_utf8_width_by_first_octet (0xc0 + a) = 2 /\
  Z.land (0xc0 + a) (Z.shiftr 0x7f 2) = a.
Proof.
  intros Ha.
  pose proof (all_below_spec 5 0
    (fun a => (uint8 (Z.lor a 0xc0) =? 0xc0 + a) &&
              negb (Z.land (0xc0 + a) 0x80 =? 0) &&
              (fy_utf8_width_by_first_octet (0xc0 + a) =? 2) &&
              (Z.land (0xc0 + a) (Z.shiftr 0x7f 2) =? a)) eq_refl a Ha) as H.
  cbv beta in H.
  rewrite !andb_true_iff, negb_true_iff, !Z.eqb_eq, Z.eqb_neq in H. tauto.
Qed.

Lemma lead3 a : 0 <= a < 16 ->
  uint8 (Z.lor a 0xe0) = 0xe0 + a /\
  Z.land (0xe0 + a) 0x80 <> 0 /\
  fy_utf8_width_by_first_octet (0xe0 + a) = 3 /\
  Z.land (0xe0 + a) (Z.shiftr 0x7f 3) = a.
Proof.
  intros Ha.
  pose proof (all_below_spec 4 0
    (fun a => (uint8 (Z.lor a 0xe0) =? 0xe0 + a) &&
              negb (Z.land (0xe0 + a) 0x80 =? 0) &&
              (fy_utf8_width_by_first_octet (0xe0 + a) =? 3) &&
              (Z.land (0xe0 + a) (Z.shiftr 0x7f 3) =? a)) eq_refl a Ha) as H.
  cbv beta in H.
  rewrite !andb_true_iff, negb_true_iff, !Z.eqb_eq, Z.eqb_neq in H. tauto.
Qed.

Lemma lead4 a : 0 <= a < 8 ->
  uint8 (Z.lor a 0xf0) = 0xf0 + a /\
  Z.land (0xf0 + a) 0x80 <> 0 /\
  fy_utf8_width_by_first_octet (0xf0 + a) = 4 /\
  Z.land (0xf0 + a) (Z.shiftr 0x7f 4) = a.
Proof.
  intros Ha.
  pose proof (all_below_spec 3 0
    (fun a => (uint8 (Z.lor a 0xf0) =? 0xf0 + a) &&
              negb (Z.land (0xf0 + a) 0x80 =? 0) &&
              (fy_utf8_width_by_first_octet (0xf0 + a) =? 4) &&
              (Z.land (0xf0 + a) (Z.shiftr 0x7f 4) =? a)) eq_refl a Ha) as H.
  cbv beta in H.
  rewrite !andb_true_iff, negb_true_iff, !Z.eqb_eq, Z.eqb_neq in H. tauto.
Qed.

Lemma ascii_octet c : 0 <= c < 0x80 ->
  uint8 c = c /\ Z.land c 0x80 = 0 /\ Z.land c 0x7f = c /\
  fy_utf8_width_by_first_octet c = 1.
Proof.
  intros Hc.
  pose proof (all_below_spec 7 0
    (fun c => (uint8 c =? c) && (Z.land c 0x80 =? 0) && (Z.land c 0x7f =? c) &&
              (fy_utf8_width_by_first_octet c =? 1)) eq_refl c Hc) as H.
  cbv beta in H. rewrite !andb_true_iff, !Z.eqb_eq in H. tauto.
Qed.

Lemma fy_utf8_get_put c rest left :
  fy_utf8_is_valid c = true -> fy_utf8_width c <= left ->
  fy_utf8_get (fy_utf8_put_unchecked c ++ rest) left = (c, fy_utf8_width c) /\
  fy_utf8_width_by_first_octet (deref (fy_utf8_put_unchecked c ++ rest) 0)
    = fy_utf8_width c.
Proof.
  intros Hv Hl. pose proof Hv as Hv'.
  unfold fy_utf8_is_valid in Hv.
  rewrite andb_true_iff, negb_true_iff, orb_false_iff, andb_false_iff in Hv.
  destruct Hv as [H0 [Hs Hmax]].
  apply Z.leb_le in H0. apply Z.leb_gt in Hmax.
  unfold fy_utf8_put_unchecked, fy_utf8_width in *.
  destruct (c <? 0x80) eqn:E1; [apply Z.ltb_lt in E1|apply Z.ltb_ge in E1].
  { destruct (ascii_octet c) as (A1 & A2 & A3 & A4); [lia|].
    unfold fy_utf8_get. cbn [app deref nth].
    rewrite A1, A2, A3, A4.
    destruct (left <=? 0) eqn:E; [apply Z.leb_le in E; lia|].
    split; reflexivity. }
  destruct (c <? 0x800) eqn:E2; [apply Z.ltb_lt in E2|apply Z.ltb_ge in E2].
  { rewrite shr, low6 by lia. change (2 ^ 6) with 64.
    assert (Ha : 0 <= c / 64 < 32)
      by (split; [apply Z.div_pos; lia|apply Z.div_lt_upper_bound; lia]).
    pose proof (Z.mod_pos_bound c 64 ltac:(lia)) as Hd0.
    destruct (lead2 _ Ha) as (L1 & L2 & L3 & L4).
    destruct (trail_octet _ Hd0) as (T1 & T2 & T3).
    unfold fy_utf8_get, fy_utf8_get_generic. cbn [app deref nth tl].
    rewrite L1, T1, L3, L4.
    destruct (left <=? 0) eqn:E; [apply Z.leb_le in E; lia|].
    apply Z.eqb_neq in L2. rewrite L2.
    destruct (left <? 1) eqn:E'; [apply Z.ltb_lt in E'; lia|].
    destruct (left <? 2) eqn:E''; [apply Z.ltb_lt in E''; lia|].
    cbn [Z.eqb orb]. change (Z.to_nat (2 - 1)) with 1%nat.
    cbn [fy_utf8_get_trail]. rewrite T2, T3. cbn [Z.eqb Pos.eqb].
    rewrite lor_shiftl6 by lia.
    replace (64 * (c / 64) + c mod 64) with c
      by (Z.to_euclidean_division_equations; lia).
    rewrite Hv'. split; reflexivity. }
  destruct (c <? 0x10000) eqn:E3; [apply Z.ltb_lt in E3|apply Z.ltb_ge in E3].
  { rewrite !shr, !low6 by lia. change (2 ^ 6) with 64. change (2 ^ 12) with 4096.
    assert (Ha : 0 <= c / 4096 < 16)
      by (split; [apply Z.div_pos; lia|apply Z.div_lt_upper_bound; lia]).
    pose proof (Z.mod_pos_bound c 64 ltac:(lia)) as Hd0.
    pose proof (Z.mod_pos_bound (c / 64) 64 ltac:(lia)) as Hd1.
    destruct (lead3 _ Ha) as (L1 & L2 & L3 & L4).
    destruct (trail_octet _ Hd0) as (T1 & T2 & T3).
    destruct (trail_octet _ Hd1) as (U1 & U2 & U3).
    unfold fy_utf8_get, fy_utf8_get_generic. cbn [app deref nth tl].
    rewrite L1, T1, U1, L3, L4.
    destruct (left <=? 0) eqn:E; [apply Z.leb_le in E; lia|].
    apply Z.eqb_neq in L2. rewrite L2.
    destruct (left <? 1) eqn:E'; [apply Z.ltb_lt in E'; lia|].
    destruct (left <? 3) eqn:E''; [apply Z.ltb_lt in E''; lia|].
    cbn [Z.eqb orb]. change (Z.to_nat (3 - 1)) with 2%nat.
    cbn [fy_utf8_get_trail]. rewrite U2, U3. cbn [Z.eqb Pos.eqb].
    rewrite (lor_shiftl6 (c / 4096)) by lia. rewrite T2, T3. cbn [Z.eqb Pos.eqb].
    rewrite lor_shiftl6 by lia.
    replace (64 * (64 * (c / 4096) + (c / 64) mod 64) + c mod 64) with c.
    2:{ Z.to_euclidean_division_equations. lia. }
    rewrite Hv'. split; reflexivity. }
  { rewrite !shr, !low6 by lia.
    change (2 ^ 6) with 64. change (2 ^ 12) with 4096. change (2 ^ 18) with 262144.
    assert (Ha : 0 <= c / 262144 < 8)
      by (split; [apply Z.div_pos; lia|apply Z.div_lt_upper_bound; lia]).
    pose proof (Z.mod_pos_bound c 64 ltac:(lia)) as Hd0.
    pose proof (Z.mod_pos_bound (c / 64) 64 ltac:(lia)) as Hd1.
    pose proof (Z.mod_pos_bound (c / 4096) 64 ltac:(lia)) as Hd2.
    destruct (lead4 _ Ha) as (L1 & L2 & L3 & L4).
    destruct (trail_octet _ Hd0) as (T1 & T2 & T3).
    destruct (trail_octet _ Hd1) as (U1 & U2 & U3).
    destruct (trail_octet _ Hd2) as (V1 & V2 & V3).
    unfold fy_utf8_get, fy_utf8_get_generic. cbn [app deref nth tl].
    rewrite L1, T1, U1, V1, L3, L4.
    destruct (left <=? 0) eqn:E; [apply Z.leb_le in E; lia|].
    apply Z.eqb_neq in L2. rewrite L2.
    destruct (left <? 1) eqn:E'; [apply Z.ltb_lt in E'; lia|].
    destruct (left <? 4) eqn:E''; [apply Z.ltb_lt in E''; lia|].
    cbn [Z.eqb orb]. change (Z.to_nat (4 - 1)) with 3%nat.
    cbn [fy_utf8_get_trail]. rewrite V2, V3. cbn [Z.eqb Pos.eqb].
    rewrite (lor_shiftl6 (c / 262144)) by lia. rewrite U2, U3. cbn [Z.eqb Pos.eqb].
    rewrite (lor_shiftl6 (64 * (c / 262144) + (c / 4096) mod 64)) by lia.
    rewrite T2, T3. cbn [Z.eqb Pos.eqb].
    rewrite lor_shiftl6 by lia.
    replace (64 * (64 * (64 * (c / 262144) + (c / 4096) mod 64) + (c / 64) mod 64)
             + c mod 64) with c.
    2:{ Z.to_euclidean_division_equations. lia. }
    rewrite Hv'. split; reflexivity. }
Qed.

(** C9. Every code point of U+0001..U+10FFFF outside the surrogate range
    survives [fy_utf8_put_unchecked] followed by [fy_utf8_get]: the decoder
    returns the code point with consumed width [fy_utf8_width c], and
    [fy_utf8_width_by_first_octet] of the first encoded byte is that width. *)
Theorem fy_utf8_roundtrip (c : Z) :
  0x0001 <= c <= 0x10FFFF -> ~ (0xD800 <= c <= 0xDFFF) ->
  let enc := fy_utf8_put_unchecked c in
  fy_utf8_get enc (Z.of_nat (length enc)) = (c, fy_utf8_width c) /\
  fy_utf8_width_by_first_octet (deref enc 0) = fy_utf8_width c.
Proof.
  intros Hr Hs enc.
  assert (Hv : fy_utf8_is_valid c = true).
  { unfold fy_utf8_is_valid.
    rewrite andb_true_iff, negb_true_iff, orb_false_iff, andb_false_iff.
    rewrite Z.leb_le, !Z.leb_gt. lia. }
  assert (Hlen : Z.of_nat (length enc) = fy_utf8_width c).
  { unfold enc, fy_utf8_put_unchecked, fy_utf8_width.
    destruct (c <? 0x80), (c <? 0x800), (c <? 0x10000); reflexivity. }
  pose proof (fy_utf8_get_put c [] (Z.of_nat (length enc)) Hv ltac:(lia)) as H.
  rewrite app_nil_r in H. exact H.
Qed.

Lemma fy_utf8_roundtrip_witness :
  fy_utf8_get (fy_utf8_put_unchecked 0x2713) 3 = (0x2713, 3) /\
  fy_utf8_width_by_first_octet (deref (fy_utf8_put_unchecked 0x2713) 0) = 3.
Proof. apply (fy_utf8_roundtrip 0x2713); lia. Defined.

(** ** The pushback slot *)

Lemma land_byte c : 0 <= c <= 255 -> Z.land c 0xff = c.
Proof.
  intros H. change 0xff with (Z.ones 8). rewrite Z.land_ones by lia.
  apply Z.mod_small. change (2 ^ 8) with 256. lia.
Qed.

Lemma set_unget_c_restore iter c :
  unget_c iter = -1 -> set_unget_c (-1) (set_unget_c c iter) = iter.
Proof. intros H. destruct iter; simpl in *. subst. reflexivity. Qed.

Lemma fy_atom_iter_ungetc_free iter c :
  unget_c iter = -1 -> 0 <= c <= 255 ->
  fy_atom_iter_ungetc iter c = (c, set_unget_c c iter).
Proof.
  intros Hslot Hc. unfold fy_atom_iter_ungetc.
  rewrite Hslot, Z.eqb_refl. cbn [negb].
  assert (Hne : (c =? -1) = false) by (apply Z.eqb_neq; lia).
  rewrite Hne, (land_byte c Hc). reflexivity.
Qed.

Lemma fy_atom_iter_ungetc_busy iter c :
  unget_c iter <> -1 -> fy_atom_iter_ungetc iter c = (-1, iter).
Proof.
  intros Hslot. unfold fy_atom_iter_ungetc.
  apply Z.eqb_neq in Hslot. rewrite Hslot. reflexivity.
Qed.

Lemma fy_atom_iter_getc_pushed fy_is_print iter :
  unget_c iter <> -1 ->
  fy_atom_iter_getc fy_is_print iter
  = (Z.land (unget_c iter) 0xff, set_unget_c (-1) iter).
Proof.
  intros Hslot. unfold fy_atom_iter_getc.
  apply Z.eqb_neq in Hslot. rewrite Hslot. reflexivity.
Qed.

(** C10. With an empty pushback slot, [fy_atom_iter_ungetc] of a byte
    succeeds and returns it; the next [fy_atom_iter_getc] returns that byte
    and leaves the iterator exactly as it was before the pushback, so no
    stream data is consumed; an [ungetc] attempted while the slot is
    occupied returns -1 and changes nothing. *)
Theorem fy_atom_iter_ungetc_getc (fy_is_print : Z -> bool)
  (iter : fy_atom_iter) (c c' : Z) :
  unget_c iter = -1 -> 0 <= c <= 255 ->
  let '(r1, iter1) := fy_atom_iter_ungetc iter c in
  let '(r2, iter2) := fy_atom_iter_getc fy_is_print iter1 in
  let '(r3, iter3) := fy_atom_iter_ungetc iter1 c' in
  r1 = c /\ unget_c iter1 = c /\
  r2 = c /\ iter2 = iter /\
  r3 = -1 /\ iter3 = iter1.
Proof.
  intros Hslot Hc.
  rewrite (fy_atom_iter_ungetc_free iter c Hslot Hc).
  assert (Hu : unget_c (set_unget_c c iter) = c) by reflexivity.
  assert (Hbusy : unget_c (set_unget_c c iter) <> -1) by (rewrite Hu; lia).
  rewrite (fy_atom_iter_getc_pushed fy_is_print _ Hbusy).
  rewrite (fy_atom_iter_ungetc_busy _ c' Hbusy).
  rewrite Hu, (land_byte c Hc), (set_unget_c_restore iter c Hslot).
  repeat split.
Qed.

Lemma fy_atom_iter_ungetc_getc_witness :
  let iter := fy_atom_iter_start (atom_of (bytes_of_string "abc") FYAS_PLAIN
                                    FYAC_CLIP 0 0 3 false false) in
  let '(r1, iter1) := fy_atom_iter_ungetc iter 120 in
  let '(r2, iter2) := fy_atom_iter_getc (fun _ => true) iter1 in
  let '(r3, iter3) := fy_atom_iter_ungetc iter1 121 in
  r1 = 120 /\ unget_c iter1 = 120 /\
  r2 = 120 /\ iter2 = iter /\
  r3 = -1 /\ iter3 = iter1.
Proof.
  apply (fy_atom_iter_ungetc_getc (fun _ => true)
           (fy_atom_iter_start (atom_of (bytes_of_string "abc") FYAS_PLAIN
                                  FYAC_CLIP 0 0 3 false false)) 120 121).
  - reflexivity.
  - lia.
Defined.

(** ** Direct comparison *)

Lemma deref_tl p i : deref (tl p) i = deref p (S i).
Proof. destruct p; [destruct i|]; reflexivity. Qed.

Lemma take_succ n p :
  take (Z.of_nat (S n)) p = deref p 0 :: take (Z.of_nat n) (tl p).
Proof.
  unfold take. rewrite !Nat2Z.id. cbn [seq map]. f_equal.
  rewrite <- seq_shift, map_map. apply map_ext. intros i. symmetry. apply deref_tl.
Qed.

Lemma take_length n p : length (take n p) = Z.to_nat n.
Proof. unfold take. rewrite length_map, length_seq. reflexivity. Qed.

Lemma memcmp_zero_iff n : forall a b,
  memcmp a b n = 0 <-> take (Z.of_nat n) a = take (Z.of_nat n) b.
Proof.
  induction n as [|n IH]; intros a b.
  - cbn. tauto.
  - rewrite !take_succ. cbn [memcmp].
    destruct (deref a 0 =? deref b 0) eqn:E.
    + apply Z.eqb_eq in E. rewrite IH, E. split; [intros ->; reflexivity|].
      intros H. injection H. auto.
    + apply Z.eqb_neq in E. split; [lia|]. intros H. injection H. intros _ H0. lia.
Qed.

(** The raw bytes of an atom. *)
Lemma fy_atom_cmp_direct fy_is_print fuel h i j a1 a2 :
  i <> j -> nth_error h i = Some a1 -> nth_error h j = Some a2 ->
  direct_output a1 = true -> direct_output a2 = true ->
  let d1 := ptr (fyi a1) (fy_atom_data a1) in
  let d2 := ptr (fyi a2) (fy_atom_data a2) in
  let l1 := fy_atom_size a1 in
  let l2 := fy_atom_size a2 in
  let ret := memcmp d1 d2 (Z.to_nat (Z.min l1 l2)) in
  fy_atom_cmp fy_is_print fuel h (Some i) (Some j)
  = Some (if ret =? 0 then if l1 =? l2 then 0 else if l1 <? l2 then -1 else 1
          else ret).
Proof.
  intros Hij H1 H2 D1 D2. cbv zeta. unfold fy_atom_cmp.
  apply Nat.eqb_neq in Hij. rewrite Hij, H1, H2, D1, D2.
  replace (if fy_atom_size a2 <? fy_atom_size a1 then fy_atom_size a2
           else fy_atom_size a1)
    with (Z.min (fy_atom_size a1) (fy_atom_size a2)).
  2:{ destruct (fy_atom_size a2 <? fy_atom_size a1) eqn:E;
      [apply Z.ltb_lt in E|apply Z.ltb_ge in E]; lia. }
  destruct (memcmp _ _ _ =? 0); reflexivity.
Qed.

Lemma fy_atom_cmp_direct_zero fy_is_print fuel h i j a1 a2 :
  i <> j -> nth_error h i = Some a1 -> nth_error h j = Some a2 ->
  direct_output a1 = true -> direct_output a2 = true ->
  0 <= fy_atom_size a1 -> 0 <= fy_atom_size a2 ->
  (fy_atom_cmp fy_is_print fuel h (Some i) (Some j) = Some 0 <->
   take (fy_atom_size a1) (ptr (fyi a1) (fy_atom_data a1))
   = take (fy_atom_size a2) (ptr (fyi a2) (fy_atom_data a2))).
Proof.
  intros Hij H1 H2 D1 D2 S1 S2.
  rewrite (fy_atom_cmp_direct fy_is_print fuel h i j a1 a2 Hij H1 H2 D1 D2).
  cbv zeta.
  set (d1 := ptr (fyi a1) (fy_atom_data a1)).
  set (d2 := ptr (fyi a2) (fy_atom_data a2)).
  set (l1 := fy_atom_size a1) in *. set (l2 := fy_atom_size a2) in *.
  pose proof (memcmp_zero_iff (Z.to_nat (Z.min l1 l2)) d1 d2) as M.
  rewrite Z2Nat.id in M by lia.
  destruct (memcmp d1 d2 (Z.to_nat (Z.min l1 l2)) =? 0) eqn:E.
  - apply Z.eqb_eq in E. apply M in E.
    destruct (l1 =? l2) eqn:E2.
    + apply Z.eqb_eq in E2. rewrite <- E2 in *. rewrite Z.min_id in E. tauto.
    + apply Z.eqb_neq in E2. split.
      * destruct (l1 <? l2); intros H; injection H; lia.
      * intros H. apply (f_equal (@length Z)) in H. rewrite !take_length in H. lia.
  - apply Z.eqb_neq in E. split.
    + intros H. injection H. lia.
    + intros H. exfalso. apply E, M.
      assert (l1 = l2).
      { apply (f_equal (@length Z)) in H. rewrite !take_length in H. lia. }
      subst l2. rewrite <- H0 in *. rewrite Z.min_id. exact H.
Qed.

(** C6 (the code departs from the claim).  [fy_atom_cmp] answers [true],
    that is 1, whenever its two arguments are the same pointer, so an atom
    compared with itself does not compare equal. *)
Theorem fy_atom_cmp_same_pointer (fy_is_print : Z -> bool) (fuel : nat)
  (h : list fy_atom) (p : option nat) :
  fy_atom_cmp fy_is_print fuel h p p = Some 1.
Proof.
  unfold fy_atom_cmp. destruct p as [i|]; [rewrite Nat.eqb_refl|]; reflexivity.
Qed.

(** ** Text length and text *)

Lemma format_text_length_loops fy_is_print fuel : forall iter ic out room len out' ret,
  format_text_loop fy_is_print fuel iter ic out room = Some (out', Some ret) ->
  exists tail, out' = out ++ tail /\
  text_length_loop fy_is_print fuel iter ic len
  = Some (len + Z.of_nat (length tail), ret).
Proof.
  induction fuel as [|fuel IH]; intros iter ic out room len out' ret H.
  - discriminate.
  - cbn [format_text_loop text_length_loop] in *.
    destruct (fy_atom_iter_chunk_next fy_is_print iter ic) as [[ic1 r1] iter1].
    destruct ic1 as [i|].
    + destruct (room <? ic_len iter1 i); [discriminate|].
      destruct (IH _ _ _ _ (len + ic_len iter1 i) _ _ H) as (tail & -> & E).
      exists (ic_bytes iter1 i ++ tail). split; [symmetry; apply app_assoc|].
      rewrite E. unfold ic_len. rewrite length_app. do 2 f_equal. lia.
    + injection H as <- <-. exists []. rewrite app_nil_r, Z.add_0_r. auto.
Qed.

Lemma to_int_small n : 0 <= n < 2 ^ 31 -> to_int n = n.
Proof.
  intros H. unfold to_int. rewrite Z.mod_small; lia.
Qed.

(** C1 (amended).  For an atom whose storage hint is not valid yet: when
    [fy_atom_format_text] succeeds it has copied [n] bytes, and
    [fy_atom_format_text_length] then returns [n] converted to [int].  If
    that conversion is negative it returns -1 and caches nothing; otherwise
    it stores [n] in [storage_hint] with [storage_hint_valid] set, and every
    later call on that atom returns the same value, whatever its fuel.
    Below [2 ^ 31] bytes the value returned is [n] itself. *)
Theorem fy_atom_format_text_length_consistent (fy_is_print : Z -> bool)
  (fuel : nat) (a : fy_atom) (maxsz : Z) (out : list Z) (n : Z) :
  storage_hint_valid a = false ->
  fy_atom_format_text fy_is_print fuel (Some a) maxsz = Some (out, Some n) ->
  n = Z.of_nat (length out) /\
  (n < 2 ^ 31 -> to_int n = n) /\
  if to_int n <? 0
  then fy_atom_format_text_length fy_is_print fuel (Some a) = Some (-1, Some a)
  else
    exists a',
      fy_atom_format_text_length fy_is_print fuel (Some a) = Some (to_int n, Some a') /\
      storage_hint a' = n /\ storage_hint_valid a' = true /\
      forall fuel',
        fy_atom_format_text_length fy_is_print fuel' (Some a')
        = Some (to_int n, Some a').
Proof.
  intros Hv Htext.
  unfold fy_atom_format_text in Htext.
  destruct (format_text_loop fy_is_print fuel (fy_atom_iter_start a) None [] maxsz)
    as [[out0 [ret|]]|] eqn:Hloop; try discriminate.
  destruct (ret =? 0) eqn:Hret; cbn [negb] in Htext; [|discriminate].
  injection Htext as -> <-. split; [reflexivity|].
  apply Z.eqb_eq in Hret. subst ret.
  destruct (format_text_length_loops _ _ _ _ _ _ 0 _ _ Hloop) as (tail & Ht & Hlen).
  cbn [app] in Ht. subst tail. rewrite Z.add_0_l in Hlen.
  set (n := Z.of_nat (length out)) in *.
  split; [intros Hn; apply to_int_small; lia|].
  unfold fy_atom_format_text_length. rewrite Hv, Hlen.
  destruct (to_int n <? 0) eqn:E; [reflexivity|].
  cbn [Z.eqb negb].
  exists (set_storage_hint n a). repeat split.
Qed.

Lemma fy_atom_format_text_length_consistent_witness :
  let a := atom_of [104; 101; 108; 108; 111; 10; 32; 32; 119; 111; 114; 108; 100; 10]
             FYAS_PLAIN FYAC_CLIP 0 2 0 false false in
  11 = Z.of_nat (length [104; 101; 108; 108; 111; 32; 119; 111; 114; 108; 100]) /\
  (11 < 2 ^ 31 -> to_int 11 = 11) /\
  if to_int 11 <? 0
  then fy_atom_format_text_length (fun _ => true) 20 (Some a) = Some (-1, Some a)
  else
    exists a',
      fy_atom_format_text_length (fun _ => true) 20 (Some a) = Some (to_int 11, Some a') /\
      storage_hint a' = 11 /\ storage_hint_valid a' = true /\
      forall fuel',
        fy_atom_format_text_length (fun _ => true) fuel' (Some a')
        = Some (to_int 11, Some a').
Proof.
  apply (fy_atom_format_text_length_consistent (fun _ => true) 20
           (atom_of [104; 101; 108; 108; 111; 10; 32; 32; 119; 111; 114; 108; 100; 10]
              FYAS_PLAIN FYAC_CLIP 0 2 0 false false)
           64 [104; 101; 108; 108; 111; 32; 119; 111; 114; 108; 100] 11).
  - reflexivity.
  - vm_compute. reflexivity.
Defined.

(** C1 as stated fails on an atom whose hint the caller has set: the hint
    only promises that the text fits in that many bytes, and the length
    call returns it without looking at the text.  With a hint of 20 on an
    atom whose text has 11 bytes, [fy_atom_format_text] copies 11 bytes and
    [fy_atom_format_text_length] returns 20. *)
Lemma fy_atom_format_text_length_hint :
  let a := set_storage_hint 20
             (atom_of [104; 101; 108; 108; 111; 10; 32; 32; 119; 111; 114; 108; 100; 10]
                FYAS_PLAIN FYAC_CLIP 0 2 0 false false) in
  storage_hint_valid a = true /\
  fy_atom_format_text (fun _ => true) 20 (Some a) 64
  = Some ([104; 101; 108; 108; 111; 32; 119; 111; 114; 108; 100], Some 11) /\
  fy_atom_format_text_length (fun _ => true) 20 (Some a) = Some (20, Some a).
Proof. vm_compute. repeat split. Qed.

(** ** Analysed line descriptors *)

Lemma lines_kept_refl a : lines_kept a a.
Proof. repeat split. Qed.

Lemma lines_kept_trans a b c : lines_kept a b -> lines_kept b c -> lines_kept a c.
Proof.
  unfold lines_kept. intros (A1 & A2 & A3 & A4) (B1 & B2 & B3 & B4).
  repeat split; congruence.
Qed.

Lemma lines_kept_ready a b : lines_kept a b -> lines_ready a -> lines_ready b.
Proof.
  unfold lines_kept, lines_ready, analysed, fresh, line_out.
  intros (A1 & A2 & A3 & A4). rewrite A1, A2, A3, A4. auto.
Qed.

Lemma lines_kept_analysed a b : lines_kept a b -> analysed a -> analysed b.
Proof.
  unfold lines_kept, analysed. intros (A1 & A2 & _). rewrite A1, A2. auto.
Qed.

Lemma fy_atom_iter_add_chunk_lines iter str len :
  lines_kept iter (fy_atom_iter_add_chunk iter str len).
Proof.
  unfold fy_atom_iter_add_chunk. destruct (len =? 0); repeat split.
Qed.

Lemma fy_atom_iter_add_chunk_copy_lines iter str len :
  lines_kept iter (fy_atom_iter_add_chunk_copy iter str len).
Proof.
  unfold fy_atom_iter_add_chunk_copy. destruct (len =? 0); repeat split.
Qed.

Ltac lines_step :=
  eapply lines_kept_trans;
  [first [apply fy_atom_iter_add_chunk_lines
         |apply fy_atom_iter_add_chunk_copy_lines]|].

Lemma format_single_quoted_lines fuel : forall iter s e,
  lines_kept iter (format_single_quoted fuel iter s e).
Proof.
  induction fuel as [|fuel IH]; intros iter s e; cbn [format_single_quoted];
    [apply lines_kept_refl|].
  destruct (s <? e); [|apply lines_kept_refl].
  destruct (memchr _ _ _); [|apply fy_atom_iter_add_chunk_lines].
  eapply lines_kept_trans; [|apply IH].
  destruct (_ && _); [|apply fy_atom_iter_add_chunk_lines].
  lines_step. apply fy_atom_iter_add_chunk_lines.
Qed.

Lemma format_double_quoted_lines fuel : forall iter s e,
  lines_kept iter (snd (format_double_quoted fuel iter s e)).
Proof.
  induction fuel as [|fuel IH]; intros iter s e; cbn [format_double_quoted];
    [apply lines_kept_refl|].
  destruct (s <? e); [|apply lines_kept_refl].
  destruct (memchr _ _ _); [|apply fy_atom_iter_add_chunk_lines].
  destruct (_ <? 2); [apply fy_atom_iter_add_chunk_lines|].
  destruct (fy_utf8_parse_escape _ _) as [ret adv].
  destruct (ret <? 0); [apply fy_atom_iter_add_chunk_lines|].
  destruct (fy_utf8_put 4 ret); [|apply fy_atom_iter_add_chunk_lines].
  eapply lines_kept_trans; [|apply IH].
  lines_step. apply fy_atom_iter_add_chunk_copy_lines.
Qed.

Lemma format_uri_lines fuel : forall iter s e,
  lines_kept iter (snd (format_uri fuel iter s e)).
Proof.
  induction fuel as [|fuel IH]; intros iter s e; cbn [format_uri];
    [apply lines_kept_refl|].
  destruct (s <? e); [|apply lines_kept_refl].
  destruct (memchr _ _ _); [|apply fy_atom_iter_add_chunk_lines].
  destruct (fy_uri_esc _ _ _) as [[code adv]|]; [|apply fy_atom_iter_add_chunk_lines].
  eapply lines_kept_trans; [|apply IH].
  lines_step. apply fy_atom_iter_add_chunk_copy_lines.
Qed.

Lemma format_double_quoted_manual_lines fy_is_print fuel : forall iter s e,
  lines_kept iter (format_double_quoted_manual fy_is_print fuel iter s e).
Proof.
  induction fuel as [|fuel IH]; intros iter s e; cbn [format_double_quoted_manual];
    [apply lines_kept_refl|].
  destruct (fy_utf8_get _ _) as [c w].
  destruct (c =? -1); [apply lines_kept_refl|].
  destruct (_ && _).
  - eapply lines_kept_trans; [|apply IH]. apply fy_atom_iter_add_chunk_lines.
  - eapply lines_kept_trans; [|apply IH].
    lines_step. apply fy_atom_iter_add_chunk_copy_lines.
Qed.

Lemma format_style_lines fy_is_print iter s e :
  lines_kept iter (snd (format_style fy_is_print iter s e)).
Proof.
  unfold format_style. destruct (style (it_atom iter)); cbn [snd];
    auto using fy_atom_iter_add_chunk_lines, format_single_quoted_lines,
      format_double_quoted_lines, format_uri_lines,
      format_double_quoted_manual_lines.
Qed.

Lemma flush_pending_nl_lines iter n : lines_kept iter (flush_pending_nl iter n).
Proof.
  unfold flush_pending_nl. induction (Z.to_nat n) as [|k IH]; cbn [Nat.iter];
    [apply lines_kept_refl|].
  eapply lines_kept_trans; [exact IH|apply fy_atom_iter_add_chunk_lines].
Qed.

Lemma fy_atom_iter_line_analyze_analysed iter l s len :
  li_analysed (fy_atom_iter_line_analyze iter l s len).
Proof.
  unfold fy_atom_iter_line_analyze, li_analysed.
  destruct (_ && _); [cbn; split; discriminate|].
  cbv zeta. destruct (scan_line _ _ _ _ _ _ _) as [[st c] w].
  destruct (is_null (sc_end st)) eqn:E; [cbn; split; discriminate|].
  assert (Hn : sc_end st <> None) by (destruct (sc_end st); [discriminate|discriminate]).
  destruct (_ <=? _); [cbn; split; [discriminate|exact Hn]|].
  destruct (scan_trailing _ _ _ _ _ _ _ _ _ _) as [[ss2 tb] tbws].
  cbn. split; [discriminate|exact Hn].
Qed.

(** What a call of [fy_atom_iter_line] does to the descriptors. *)
Lemma fy_atom_iter_line_shape iter :
  let it0 := set_current (negb (current iter)) iter in
  let l := li iter (negb (current iter)) in
  (line_out it0 l = true /\ fy_atom_iter_line iter = (None, it0)) \/
  (line_out it0 l = false /\
   exists n s e nl sep,
     li_analysed n /\
     fy_atom_iter_line iter
     = (Some (set_slice s e nl sep l),
        set_li (negb (current iter)) (set_slice s e nl sep l)
          (set_li (current iter) n it0))).
Proof.
  cbv zeta. unfold fy_atom_iter_line.
  cbn [set_current current it_atom it_e].
  change (li (set_current (negb (current iter)) iter)) with (li iter).
  rewrite negb_involutive.
  destruct (line_out (set_current (negb (current iter)) iter)
              (li iter (negb (current iter)))); [left; auto|right].
  split; [reflexivity|].
  repeat match goal with
         | |- context [let '(_, _) := ?x in _] => destruct x
         end.
  do 5 eexists. split; [|reflexivity].
  apply fy_atom_iter_line_analyze_analysed.
Qed.

(** [fy_atom_iter_line] on an iterator that is ready selects an analysed
    descriptor, and leaves both descriptors analysed. *)
Lemma fy_atom_iter_line_analysed iter :
  lines_ready iter ->
  li_analysed (li iter (negb (current iter))) /\
  analysed (snd (fy_atom_iter_line iter)) /\
  it_e (snd (fy_atom_iter_line iter)) = it_e iter.
Proof.
  intros H.
  assert (Hsel : li_analysed (li iter (negb (current iter)))).
  { destruct H as [[A0 A1]|(Hc & A1 & _)].
    - unfold li. destruct (negb (current iter)); assumption.
    - rewrite Hc. exact A1. }
  split; [exact Hsel|].
  destruct (fy_atom_iter_line_shape iter) as [[Eo ->]|(Eo & n & s & e & nl & sep & An & ->)];
    cbn [snd].
  - split; [|reflexivity].
    destruct H as [A|(Hc & A1 & Ho)]; [exact A|].
    rewrite Hc in Eo. cbn [negb li] in Eo.
    unfold line_out in *. cbn [set_current it_e] in Eo. congruence.
  - split; [|reflexivity].
    assert (As : li_analysed (set_slice s e nl sep (li iter (negb (current iter)))))
      by exact Hsel.
    unfold analysed. cbn [set_li set_current li0 li1 current].
    destruct (current iter); cbn [negb]; split; assumption.
Qed.

Lemma fy_atom_iter_start_analysed a :
  0 < fy_atom_size a -> lines_ready (fy_atom_iter_start a).
Proof.
  intros Hs. right. unfold fresh, fy_atom_iter_start.
  cbn [current li1 it_e]. split; [reflexivity|]. split.
  - destruct (fy_atom_iter_line_analyze_analysed
                {| it_atom := a; it_s := fy_atom_data a;
                   it_e := fy_atom_data a + fy_atom_size a;
                   it_chomp := increment a; tabsize := 8; single_line := false;
                   dangling_end_quote := false; it_empty := false;
                   current := false; done := false; li0 := li_zero; li1 := li_zero;
                   chunks := []; read := 0; unget_c := 0 |}
                li_zero (fy_atom_data a) (fy_atom_size a)) as [A1 A2].
    split; assumption.
  - unfold line_out. cbn [set_first li_start it_e].
    assert (E : li_start (fy_atom_iter_line_analyze
                  {| it_atom := a; it_s := fy_atom_data a;
                     it_e := fy_atom_data a + fy_atom_size a;
                     it_chomp := increment a; tabsize := 8; single_line := false;
                     dangling_end_quote := false; it_empty := false;
                     current := false; done := false; li0 := li_zero; li1 := li_zero;
                     chunks := []; read := 0; unget_c := 0 |}
                  li_zero (fy_atom_data a) (fy_atom_size a)) = Some (fy_atom_data a)).
    { unfold fy_atom_iter_line_analyze.
      destruct (_ && _); [reflexivity|].
      cbv zeta. destruct (scan_line _ _ _ _ _ _ _) as [[st c] w].
      destruct (is_null (sc_end st)); [reflexivity|].
      destruct (_ <=? _); [reflexivity|].
      destruct (scan_trailing _ _ _ _ _ _ _ _ _ _) as [[ss2 tb] tbws]. reflexivity. }
    rewrite E. apply Z.leb_gt. lia.
Qed.

Lemma chomp_strip_clip_analysed fuel : forall iter p iter' p',
  analysed iter ->
  chomp_strip_clip fuel iter p = Some (iter', p') ->
  analysed iter' /\ it_e iter' = it_e iter.
Proof.
  induction fuel as [|fuel IH]; intros iter p iter' p' A H; [discriminate|].
  cbn [chomp_strip_clip] in H.
  destruct (fy_atom_iter_line_analysed iter (or_introl A)) as (_ & A1 & E1).
  destruct (fy_atom_iter_line iter) as [ol it1]. cbn [snd] in A1, E1.
  destruct ol as [l|]; [|injection H as <- <-; auto].
  match type of H with
  | context [if ?c then _ else _] => destruct c
  end.
  - apply IH in H.
    + destruct H as [H1 H2]. split; [exact H1|]. rewrite H2.
      destruct (fy_atom_iter_add_chunk_lines (flush_pending_nl it1 p)
                  (ptr (fyi (it_atom it1)) (the (chomp_start l)))
                  (the (li_end l) - the (chomp_start l))) as (_ & _ & _ & E2).
      destruct (flush_pending_nl_lines it1 p) as (_ & _ & _ & E3).
      congruence.
    + eapply lines_kept_analysed; [|exact A1].
      eapply lines_kept_trans; [apply flush_pending_nl_lines|].
      apply fy_atom_iter_add_chunk_lines.
  - apply IH in H; [|exact A1]. destruct H as [H1 H2]. split; congruence.
Qed.

Lemma chomp_keep_analysed fuel : forall iter iter',
  analysed iter -> chomp_keep fuel iter = Some iter' ->
  analysed iter' /\ it_e iter' = it_e iter.
Proof.
  induction fuel as [|fuel IH]; intros iter iter' A H; [discriminate|].
  cbn [chomp_keep] in H.
  destruct (fy_atom_iter_line_analysed iter (or_introl A)) as (_ & A1 & E1).
  destruct (fy_atom_iter_line iter) as [ol it1]. cbn [snd] in A1, E1.
  destruct ol as [l|]; [|injection H as <-; auto].
  set (it2 := if negb (it_empty it1) && (the (chomp_start l) <? the (li_end l))
              then fy_atom_iter_add_chunk it1 (ptr (fyi (it_atom it1)) (the (chomp_start l)))
                     (the (li_end l) - the (chomp_start l))
              else it1) in *.
  assert (K2 : lines_kept it1 it2).
  { unfold it2. destruct (_ && _);
      [apply fy_atom_iter_add_chunk_lines|apply lines_kept_refl]. }
  set (it3 := if lb_end l then fy_atom_iter_add_chunk it2 [10] 1 else it2) in *.
  assert (K3 : lines_kept it1 it3).
  { eapply lines_kept_trans; [exact K2|]. unfold it3.
    destruct (lb_end l); [apply fy_atom_iter_add_chunk_lines|apply lines_kept_refl]. }
  apply IH in H; [|eapply lines_kept_analysed; eassumption].
  destruct H as [H1 H2]. split; [exact H1|].
  destruct K3 as (_ & _ & _ & E3). congruence.
Qed.

(** A call of the formatter on an iterator that is ready leaves both
    descriptors analysed: it is ready for the next call. *)
Lemma fy_atom_iter_format_analysed fy_is_print iter :
  lines_ready iter ->
  analysed (snd (fy_atom_iter_format fy_is_print iter)) /\
  it_e (snd (fy_atom_iter_format fy_is_print iter)) = it_e iter.
Proof.
  intros H. unfold fy_atom_iter_format.
  destruct (fy_atom_iter_line_analysed iter H) as (_ & A1 & E1).
  destruct (fy_atom_iter_line iter) as [ol it1]. cbn [snd] in A1, E1.
  destruct ol as [l|]; [|cbn; auto].
  destruct (done it1); [cbn; auto|].
  pose proof (format_style_lines fy_is_print it1 (li_s l) (li_e l)) as K.
  destruct (format_style fy_is_print it1 (li_s l) (li_e l)) as [ret it2].
  cbn [snd] in K.
  assert (A2 : analysed it2) by (eapply lines_kept_analysed; eassumption).
  assert (E2 : it_e it2 = it_e iter) by (destruct K as (_ & _ & _ & E); congruence).
  destruct (ret <? 0); [cbn; auto|].
  destruct (last l && fy_atom_style_is_block (style (it_atom iter))).
  - destruct (chomp (it_atom iter)).
    + destruct (chomp_strip_clip _ _ _) as [[it3 p]|] eqn:C; [|cbn; auto].
      apply chomp_strip_clip_analysed in C; [|exact A2]. destruct C as [A3 E3].
      cbn [snd set_done]. split; [exact A3|cbn; congruence].
    + destruct (chomp_strip_clip _ _ _) as [[it3 p]|] eqn:C; [|cbn; auto].
      apply chomp_strip_clip_analysed in C; [|exact A2]. destruct C as [A3 E3].
      destruct (p =? 0); cbn [snd].
      * split; [exact A3|cbn; congruence].
      * assert (K3 : lines_kept it3 (set_done true (fy_atom_iter_add_chunk it3 [10] 1))).
        { eapply lines_kept_trans; [apply fy_atom_iter_add_chunk_lines|repeat split]. }
        split; [eapply lines_kept_analysed; eassumption|].
        destruct K3 as (_ & _ & _ & KE). congruence.
    + set (it2' := if lb_end l then fy_atom_iter_add_chunk it2 [10] 1 else it2).
      assert (K' : lines_kept it2 it2').
      { unfold it2'. destruct (lb_end l);
          [apply fy_atom_iter_add_chunk_lines|apply lines_kept_refl]. }
      destruct (chomp_keep _ _) as [it3|] eqn:C.
      * apply chomp_keep_analysed in C; [|eapply lines_kept_analysed; eassumption].
        destruct C as [A3 E3]. cbn [snd].
        split; [exact A3|]. destruct K' as (_ & _ & _ & KE).
        change (it_e (set_done true it3)) with (it_e it3). congruence.
      * cbn [snd]. split; [eapply lines_kept_analysed; eassumption|].
        destruct K' as (_ & _ & _ & KE). congruence.
  - set (it3 := if need_sep l then fy_atom_iter_add_chunk it2 [32] 1 else it2).
    assert (K3 : lines_kept it2 it3).
    { unfold it3. destruct (need_sep l);
        [apply fy_atom_iter_add_chunk_lines|apply lines_kept_refl]. }
    set (it4 := if need_nl l then fy_atom_iter_add_chunk it3 [10] 1 else it3).
    assert (K4 : lines_kept it2 it4).
    { eapply lines_kept_trans; [exact K3|]. unfold it4. destruct (need_nl l);
        [apply fy_atom_iter_add_chunk_lines|apply lines_kept_refl]. }
    cbn [snd]. split; [eapply lines_kept_analysed; eassumption|].
    destruct K4 as (_ & _ & _ & KE). congruence.
Qed.

(** The pull interface keeps an iterator ready. *)
Lemma analysed_ready iter : analysed iter -> lines_ready iter.
Proof. intros H. left. exact H. Qed.

Lemma set_chunks_lines v r iter : lines_kept iter (set_chunks v r iter).
Proof. repeat split. Qed.

Lemma advance_loop_lines fuel : forall iter len,
  lines_kept iter (advance_loop fuel iter len).
Proof.
  induction fuel as [|fuel IH]; intros iter len; cbn [advance_loop];
    [apply lines_kept_refl|].
  destruct (_ && _); [|apply lines_kept_refl].
  eapply lines_kept_trans; [|apply IH]. apply set_chunks_lines.
Qed.

Lemma fy_atom_iter_advance_lines iter len :
  lines_kept iter (fy_atom_iter_advance iter len).
Proof.
  unfold fy_atom_iter_advance. cbv zeta.
  destruct (_ <=? _)%nat; [|apply advance_loop_lines].
  eapply lines_kept_trans; [apply advance_loop_lines|apply set_chunks_lines].
Qed.

Section Ready.

Variable fy_is_print : Z -> bool.

Lemma pull_loop_ready fuel : forall iter,
  lines_ready iter -> lines_ready (snd (pull_loop fy_is_print fuel iter)).
Proof.
  induction fuel as [|fuel IH]; intros iter H; cbn [pull_loop]; [exact H|].
  destruct (fy_atom_iter_format_analysed fy_is_print iter H) as [A _].
  destruct (fy_atom_iter_format fy_is_print iter) as [ret it1]. cbn [snd] in A.
  destruct (ret <=? 0); [left; exact A|].
  destruct (fy_atom_iter_peek_chunk it1); [left; exact A|].
  apply IH. left. exact A.
Qed.

Lemma fy_atom_iter_pull_ready iter :
  lines_ready iter -> lines_ready (snd (fy_atom_iter_pull fy_is_print iter)).
Proof.
  intros H. unfold fy_atom_iter_pull. apply pull_loop_ready.
  eapply lines_kept_ready; [apply set_chunks_lines|exact H].
Qed.

Lemma fy_atom_iter_chunk_next_ready iter curr :
  lines_ready iter ->
  lines_ready (snd (fy_atom_iter_chunk_next fy_is_print iter curr)).
Proof.
  intros H. unfold fy_atom_iter_chunk_next. cbv zeta.
  set (it1 := match curr, fy_atom_iter_peek_chunk iter with
              | Some c, Some i =>
                  if (c =? i)%nat then fy_atom_iter_advance iter (ic_len iter i)
                  else iter
              | _, _ => iter
              end).
  assert (H1 : lines_ready it1).
  { unfold it1. destruct curr as [c|]; [|exact H].
    destruct (fy_atom_iter_peek_chunk iter) as [i|]; [|exact H].
    destruct (c =? i)%nat; [|exact H].
    eapply lines_kept_ready; [apply fy_atom_iter_advance_lines|exact H]. }
  clearbody it1.
  pose proof (fy_atom_iter_pull_ready it1 H1) as P.
  destruct (fy_atom_iter_pull fy_is_print it1) as [ret it2]. cbn [snd] in P.
  destruct curr as [c|]; [destruct (fy_atom_iter_peek_chunk it1) as [i|]|];
    [exact H1| |]; destruct (ret <=? 0); exact P.
Qed.

Lemma read_loop_ready fuel : forall iter buf count nread,
  lines_ready iter ->
  lines_ready (snd (read_loop fy_is_print fuel iter buf count nread)).
Proof.
  induction fuel as [|fuel IH]; intros iter buf count nread H; cbn [read_loop];
    [exact H|].
  destruct (0 <? count); [|exact H].
  destruct (fy_atom_iter_peek_chunk iter) as [i|].
  - apply IH. eapply lines_kept_ready; [apply fy_atom_iter_advance_lines|exact H].
  - pose proof (fy_atom_iter_pull_ready iter H) as P.
    destruct (fy_atom_iter_pull fy_is_print iter) as [ret it1]. cbn [snd] in P.
    destruct (ret <=? 0); [exact P|]. apply IH. exact P.
Qed.

Lemma fy_atom_iter_read_ready iter buf count :
  lines_ready iter ->
  lines_ready (snd (fy_atom_iter_read fy_is_print iter buf count)).
Proof. apply read_loop_ready. Qed.

Lemma fy_atom_iter_getc_ready iter :
  lines_ready iter -> lines_ready (snd (fy_atom_iter_getc fy_is_print iter)).
Proof.
  intros H. unfold fy_atom_iter_getc.
  destruct (negb (unget_c iter =? -1)); [exact H|].
  pose proof (fy_atom_iter_read_ready iter [0] 1 H) as R.
  destruct (fy_atom_iter_read fy_is_print iter [0] 1) as [[nread buf] it1].
  cbn [snd] in R. destruct (negb (nread =? 1)); exact R.
Qed.

Lemma fy_atom_iter_ungetc_ready iter c :
  lines_ready iter -> lines_ready (snd (fy_atom_iter_ungetc iter c)).
Proof.
  intros H. unfold fy_atom_iter_ungetc.
  destruct (negb (unget_c iter =? -1)); [exact H|].
  destruct (c =? -1); exact H.
Qed.

Lemma fy_atom_iter_peekc_ready iter :
  lines_ready iter -> lines_ready (snd (fy_atom_iter_peekc fy_is_print iter)).
Proof.
  intros H. unfold fy_atom_iter_peekc.
  pose proof (fy_atom_iter_getc_ready iter H) as G.
  destruct (fy_atom_iter_getc fy_is_print iter) as [c it1]. cbn [snd] in G.
  destruct (c =? -1); [exact G|]. apply fy_atom_iter_ungetc_ready. exact G.
Qed.

End Ready.

(** ** The byte stream of an iterator *)

Section Stream.

Variable fy_is_print : Z -> bool.

Local Abbreviation getc := (fy_atom_iter_getc fy_is_print).
Local Abbreviation peekc := (fy_atom_iter_peekc fy_is_print).
Local Abbreviation decodes := (decodes fy_is_print).
Local Abbreviation holds := (holds fy_is_print).

Lemma fy_atom_iter_line_frame iter :
  same_chunks iter (snd (fy_atom_iter_line iter)).
Proof.
  unfold fy_atom_iter_line, same_chunks.
  destruct (line_out _ _); [cbn; auto|].
  repeat match goal with
         | |- context [let '(_, _) := ?x in _] => destruct x
         end.
  cbn. auto.
Qed.

Lemma fy_atom_iter_format_done iter :
  done iter = true ->
  exists iter', fy_atom_iter_format fy_is_print iter = (0, iter') /\
                chunks iter' = chunks iter /\ read iter' = read iter /\
                done iter' = true /\ unget_c iter' = unget_c iter.
Proof.
  intros Hd. unfold fy_atom_iter_format.
  pose proof (fy_atom_iter_line_frame iter) as F.
  destruct (fy_atom_iter_line iter) as [ol it1]. cbn [snd] in F.
  destruct F as (F1 & F2 & F3 & F4).
  destruct ol as [l|].
  - rewrite F3, Hd. eexists. split; [reflexivity|]. rewrite F3. auto.
  - eexists. split; [reflexivity|]. destruct it1; cbn in *. auto.
Qed.

Lemma is_at_eof_spec iter : is_at_eof iter = true -> at_eof iter.
Proof.
  unfold is_at_eof, at_eof. rewrite !andb_true_iff, !Nat.eqb_eq, Z.eqb_eq.
  intros [[[H1 H2] H3] H4]. repeat split; auto.
  destruct (chunks iter); [reflexivity|discriminate].
Qed.

Lemma at_eof_getc iter :
  at_eof iter -> exists iter', getc iter = (-1, iter') /\ at_eof iter'.
Proof.
  intros (Hd & Hc & Hr & Hu).
  unfold fy_atom_iter_getc. rewrite Hu. cbn [Z.eqb negb].
  unfold fy_atom_iter_read. cbn [Z.to_nat Pos.to_nat Pos.iter_op Nat.mul Nat.add read_loop].
  cbn [Z.ltb Z.compare].
  unfold fy_atom_iter_peek_chunk at 1. rewrite Hr, Hc. cbn [length Nat.ltb Nat.leb].
  unfold fy_atom_iter_pull, line_fuel. cbn [pull_loop].
  destruct (fy_atom_iter_format_done (fy_atom_iter_chunk_reset iter))
    as (it' & E & C1 & C2 & C3 & C4); [exact Hd|].
  rewrite E. cbn [Z.leb Z.compare Z.eqb negb].
  eexists. split; [reflexivity|].
  unfold at_eof. cbn in C1, C2, C4. rewrite Hu in C4. auto.
Qed.

Lemma getc_range iter c iter' : getc iter = (c, iter') -> -1 <= c <= 255.
Proof.
  assert (B : forall x, 0 <= Z.land x 0xff <= 255).
  { intros x. replace (Z.land x 0xff) with (x mod 256).
    - pose proof (Z.mod_pos_bound x 256 ltac:(lia)). lia.
    - change 0xff with (Z.ones 8). rewrite Z.land_ones by lia. reflexivity. }
  unfold fy_atom_iter_getc. destruct (negb _).
  - intros H. injection H as <- _. specialize (B (unget_c iter)). lia.
  - destruct (fy_atom_iter_read _ _ _ _) as [[nread buf] it1].
    destruct (negb _); intros H; injection H as <- _; [lia|].
    specialize (B (deref buf 0)). lia.
Qed.

Lemma decodes_slot iter bs : decodes iter bs -> unget_c iter = -1.
Proof. destruct 1; assumption. Qed.

Lemma at_eof_decodes iter : at_eof iter -> decodes iter [].
Proof.
  intros H. destruct (at_eof_getc iter H) as (it' & E & H').
  eapply decodes_end; eauto. apply H.
Qed.

Lemma decode_stream_decodes fuel : forall iter bs,
  decode_stream fy_is_print fuel iter = Some bs ->
  decodes iter bs /\ (length bs < fuel)%nat.
Proof.
  induction fuel as [|fuel IH]; intros iter bs H; [discriminate|].
  cbn [decode_stream] in H.
  destruct (unget_c iter =? -1) eqn:Hu; cbn [negb] in H; [|discriminate].
  apply Z.eqb_eq in Hu.
  destruct (getc iter) as [c it'] eqn:G.
  destruct (c <? 0) eqn:Hc.
  - destruct (is_at_eof it') eqn:He; [|discriminate].
    injection H as <-. split; [|cbn; lia].
    apply Z.ltb_lt in Hc. pose proof (getc_range _ _ _ G).
    assert (c = -1) by lia. subst c.
    eapply decodes_end; eauto. apply is_at_eof_spec, He.
  - destruct (decode_stream fy_is_print fuel it') as [bs'|] eqn:D; [|discriminate].
    injection H as <-. destruct (IH _ _ D) as [D1 D2].
    split; [|cbn; lia].
    eapply decodes_byte; eauto. apply Z.ltb_ge in Hc. exact Hc.
Qed.

Lemma set_unget_c_twice iter c d :
  set_unget_c c (set_unget_c d iter) = set_unget_c c iter.
Proof. reflexivity. Qed.

Lemma set_unget_c_same iter c : unget_c iter = c -> set_unget_c c iter = iter.
Proof. intros <-. destruct iter; reflexivity. Qed.

Lemma getc_holds iter bs :
  holds iter bs ->
  exists iter', getc iter = (head_or_eof bs, iter') /\ decodes iter' (tl bs).
Proof.
  intros [D|(c & bs' & -> & Hc & Hu & D)].
  - inversion D; subst; cbn [head_or_eof tl].
    + eexists. split; [eassumption|]. apply at_eof_decodes. assumption.
    + eexists. split; [eassumption|]. assumption.
  - cbn [head_or_eof tl].
    rewrite fy_atom_iter_getc_pushed by lia.
    rewrite Hu, land_byte by lia.
    eexists. split; [reflexivity|]. exact D.
Qed.

Lemma holds_head_range iter c bs : holds iter (c :: bs) -> 0 <= c <= 255.
Proof.
  intros H. destruct (getc_holds _ _ H) as (it1 & G & _).
  pose proof (getc_range _ _ _ G) as R. cbn [head_or_eof] in R.
  destruct H as [D|(c0 & bs0 & E & Hc & _)].
  - inversion D; subst; lia.
  - injection E as -> ->. exact Hc.
Qed.

Lemma peekc_holds iter bs :
  holds iter bs ->
  exists iter', peekc iter = (head_or_eof bs, iter') /\ holds iter' bs.
Proof.
  intros H. unfold fy_atom_iter_peekc.
  destruct (getc_holds iter bs H) as (it1 & G & D1). rewrite G.
  destruct bs as [|c bs']; cbn [head_or_eof tl] in *.
  - cbn [Z.eqb]. rewrite Pos.eqb_refl. eexists. split; [reflexivity|left; exact D1].
  - pose proof (holds_head_range _ _ _ H) as Hc.
    assert (Hne : (c =? -1) = false) by (apply Z.eqb_neq; lia). rewrite Hne.
    pose proof (decodes_slot _ _ D1) as Hs.
    rewrite fy_atom_iter_ungetc_free by auto.
    eexists. split; [reflexivity|].
    right. exists c, bs'. repeat split; try lia.
    rewrite set_unget_c_twice, set_unget_c_same; auto.
Qed.

Lemma drop_digits_length bs : (length (drop_digits bs) <= length bs)%nat.
Proof.
  induction bs as [|b r IH]; cbn; [lia|]. destruct (isdigit b); cbn; lia.
Qed.

Lemma skip_digits_holds bs : forall iter len fuel,
  holds iter bs -> (length bs < fuel)%nat ->
  exists iter',
    skip_digits fy_is_print fuel iter len
    = Some (iter', len + (Z.of_nat (length bs) - Z.of_nat (length (drop_digits bs))))
    /\ holds iter' (drop_digits bs).
Proof.
  induction bs as [|c r IH]; intros iter len fuel H Hf;
    (destruct fuel as [|fuel]; [cbn in Hf; lia|]); cbn [skip_digits].
  - destruct (peekc_holds _ _ H) as (it1 & E & H1). rewrite E.
    cbn [head_or_eof Z.leb Z.compare andb drop_digits length].
    eexists. split; [do 2 f_equal; lia|exact H1].
  - destruct (peekc_holds _ _ H) as (it1 & E & H1). rewrite E.
    cbn [head_or_eof drop_digits].
    pose proof (holds_head_range _ _ _ H1) as Hc.
    assert (Hc0 : (0 <=? c) = true) by (apply Z.leb_le; lia). rewrite Hc0.
    cbn [andb]. destruct (isdigit c) eqn:Hd.
    + destruct (getc_holds _ _ H1) as (it2 & G & D2). rewrite G. cbn [snd tl] in *.
      destruct (IH it2 (len + 1) fuel (or_introl D2)) as (it3 & E3 & H3);
        [cbn in Hf; lia|].
      rewrite E3. eexists. split; [|exact H3].
      do 2 f_equal. cbn [length]. lia.
    + eexists. split; [do 2 f_equal; lia|exact H1].
Qed.

Lemma skip_either_holds a b bs iter len :
  holds iter bs -> 0 <= a -> 0 <= b ->
  exists iter',
    skip_either fy_is_print a b iter len
    = (fst (drop_either a b bs), iter',
       len + (Z.of_nat (length bs)
              - Z.of_nat (length (snd (drop_either a b bs)))))
    /\ holds iter' (snd (drop_either a b bs)).
Proof.
  intros H Ha Hb. unfold skip_either.
  destruct (peekc_holds _ _ H) as (it1 & E & H1). rewrite E.
  destruct bs as [|c r]; cbn [head_or_eof drop_either].
  - assert (E1 : (-1 =? a) = false) by (apply Z.eqb_neq; lia).
    assert (E2 : (-1 =? b) = false) by (apply Z.eqb_neq; lia).
    rewrite E1, E2. cbn [orb fst snd length].
    eexists. split; [do 2 f_equal; lia|exact H1].
  - destruct ((c =? a) || (c =? b)); cbn [fst snd].
    + destruct (getc_holds _ _ H1) as (it2 & G & D2). rewrite G. cbn [snd tl] in *.
      eexists. split; [|left; exact D2]. do 2 f_equal. cbn [length]. lia.
    + eexists. split; [do 2 f_equal; lia|exact H1].
Qed.

Lemma drop_either_length a b bs :
  (length (snd (drop_either a b bs)) <= length bs)%nat.
Proof.
  destruct bs as [|c r]; cbn; [lia|].
  destruct ((c =? a) || (c =? b)); cbn; lia.
Qed.

Lemma fy_atom_is_number_holds a bs fuel :
  size0 a = false ->
  holds (fy_atom_iter_start a) bs -> (length bs < fuel)%nat ->
  fy_atom_is_number fy_is_print fuel (Some a)
  = Some (number_pattern bs && negb (is_nil bs)).
Proof.
  intros Hs H0 Hf. unfold fy_atom_is_number, number_pattern, number_rest.
  rewrite Hs.
  destruct (skip_either_holds 43 45 bs _ 0 H0) as (it1 & E1 & H1); [lia|lia|].
  rewrite E1. clear E1.
  pose proof (drop_either_length 43 45 bs) as L1.
  set (r1 := snd (drop_either 43 45 bs)) in *.
  destruct (skip_digits_holds r1 it1
              (0 + (Z.of_nat (length bs) - Z.of_nat (length r1))) fuel H1)
    as (it2 & E2 & H2); [lia|].
  rewrite E2. clear E2.
  pose proof (drop_digits_length r1) as L2.
  set (r2 := drop_digits r1) in *.
  match goal with |- context [skip_either _ 46 46 it2 ?l] =>
    destruct (skip_either_holds 46 46 r2 it2 l H2) as (it3 & E3 & H3); [lia|lia|]
  end.
  rewrite E3. clear E3.
  pose proof (drop_either_length 46 46 r2) as L3.
  destruct (drop_either 46 46 r2) as [dot r3]. cbn [fst snd] in *.
  match goal with |- context [skip_digits _ fuel it3 ?l] =>
    destruct (skip_digits_holds r3 it3 l fuel H3) as (it4 & E4 & H4); [lia|]
  end.
  pose proof (drop_digits_length r3) as L4.
  set (r4 := if dot then drop_digits r3 else r3).
  assert (exists it4' len4,
    (if dot then skip_digits fy_is_print fuel it3
                   (0 + (Z.of_nat (length bs) - Z.of_nat (length r1))
                    + (Z.of_nat (length r1) - Z.of_nat (length r2))
                    + (Z.of_nat (length r2) - Z.of_nat (length r3)))
     else Some (it3, 0 + (Z.of_nat (length bs) - Z.of_nat (length r1))
                    + (Z.of_nat (length r1) - Z.of_nat (length r2))
                    + (Z.of_nat (length r2) - Z.of_nat (length r3))))
    = Some (it4', len4) /\ holds it4' r4 /\
    len4 = Z.of_nat (length bs) - Z.of_nat (length r4) /\
    (length r4 <= length bs)%nat) as (it4' & len4 & E4' & H4' & Hl4 & L4').
  { subst r4. destruct dot.
    - exists it4. eexists. split; [exact E4|]. split; [exact H4|]. split; lia.
    - exists it3. eexists. split; [reflexivity|]. split; [exact H3|]. split; lia. }
  rewrite E4'. clear E4 E4' H4.
  destruct (skip_either_holds 101 69 r4 it4' len4 H4') as (it5 & E5 & H5); [lia|lia|].
  rewrite E5. clear E5.
  pose proof (drop_either_length 101 69 r4) as L5.
  destruct (drop_either 101 69 r4) as [ex r5]. cbn [fst snd] in *.
  assert (exists it6 len6 r6,
    (if ex then
       let '(_, iter, len) :=
         skip_either fy_is_print 43 45 it5
           (len4 + (Z.of_nat (length r4) - Z.of_nat (length r5))) in
       skip_digits fy_is_print fuel iter len
     else Some (it5, len4 + (Z.of_nat (length r4) - Z.of_nat (length r5))))
    = Some (it6, len6) /\ holds it6 r6 /\
    r6 = (if ex then drop_digits (snd (drop_either 43 45 r5)) else r5) /\
    len6 = Z.of_nat (length bs) - Z.of_nat (length r6) /\
    (length r6 <= length bs)%nat) as (it6 & len6 & r6 & E6 & H6 & Hr6 & Hl6 & L6).
  { destruct ex.
    - match goal with |- context [skip_either _ 43 45 it5 ?l] =>
        destruct (skip_either_holds 43 45 r5 it5 l H5) as (it6 & E6 & H6); [lia|lia|]
      end.
      rewrite E6.
      pose proof (drop_either_length 43 45 r5) as L6.
      set (r6 := snd (drop_either 43 45 r5)) in *.
      match goal with |- context [skip_digits _ fuel it6 ?l] =>
        destruct (skip_digits_holds r6 it6 l fuel H6) as (it7 & E7 & H7); [lia|]
      end.
      pose proof (drop_digits_length r6) as L7.
      exists it7. eexists. exists (drop_digits r6).
      split; [exact E7|]. split; [exact H7|]. split; [reflexivity|]. split; lia.
    - exists it5. eexists. exists r5.
      split; [reflexivity|]. split; [exact H5|]. split; [reflexivity|]. split; lia. }
  rewrite E6. rewrite <- Hr6.
  destruct (peekc_holds _ _ H6) as (it7 & E7 & _). rewrite E7.
  f_equal. destruct r6 as [|c6 r6']; cbn [head_or_eof is_nil].
  - cbn [Z.ltb Z.compare andb]. cbn [length] in Hl6. subst len6.
    destruct bs; cbn [is_nil negb length]; [reflexivity|].
    apply Z.ltb_lt. lia.
  - pose proof (holds_head_range _ _ _ H6) as Hc.
    assert (E : (c6 <? 0) = false) by (apply Z.ltb_ge; lia).
    rewrite E. reflexivity.
Qed.

End Stream.

(** ** The number recognizer *)

(** What [fy_atom_is_number] computes.  It is false for a null atom and
    for an atom flagged size-zero; for an atom that is not empty and decodes
    to [bs] it is true exactly when [bs] is not empty and is consumed
    entirely by an optional sign, a possibly empty run of digits, an
    optional dot with a possibly empty run of digits, and an optional [e]
    or [E] with an optional sign and a possibly empty run of digits.  An
    empty atom that is not flagged size-zero is left out: on it the C
    function pulls from the iterator after its end, see [line_out]. *)
Lemma fy_atom_is_number_pattern (fy_is_print : Z -> bool) (fuel : nat)
  (a : fy_atom) (bs : list Z) :
  (size0 a = false -> 0 < fy_atom_size a) ->
  decode_stream fy_is_print fuel (fy_atom_iter_start a) = Some bs ->
  fy_atom_is_number fy_is_print fuel None = Some false /\
  fy_atom_is_number fy_is_print fuel (Some a)
  = Some (negb (size0 a) && (negb (is_nil bs) && number_pattern bs)).
Proof.
  intros _ H. split; [reflexivity|].
  destruct (size0 a) eqn:Hs.
  - unfold fy_atom_is_number. rewrite Hs. reflexivity.
  - destruct (decode_stream_decodes _ _ _ _ H) as [D L].
    rewrite (fy_atom_is_number_holds fy_is_print a bs fuel Hs (or_introl D) L).
    cbn [negb andb]. rewrite andb_comm. reflexivity.
Qed.

Lemma fy_atom_is_number_pattern_witness :
  let a := atom_of (bytes_of_string "-12.5e+3") FYAS_PLAIN FYAC_CLIP 0 0 8
             false false in
  fy_atom_is_number (fun _ => true) 16 None = Some false /\
  fy_atom_is_number (fun _ => true) 16 (Some a) = Some true.
Proof.
  apply (fy_atom_is_number_pattern (fun _ => true) 16
           (atom_of (bytes_of_string "-12.5e+3") FYAS_PLAIN FYAC_CLIP 0 0 8
              false false)
           (bytes_of_string "-12.5e+3")).
  - intros _. vm_compute. reflexivity.
  - vm_compute. reflexivity.
Defined.

(** C5 (the code departs from the claim).  [fy_atom_is_number] accepts
    texts that hold no digit at all: the
    plain scalars [e], [.], [-] and [-.e+] decode to these very bytes, none
    of them matches the pattern of the claim, whose runs of digits are not
    optional, and each of them is reported to be a number.  The loops that
    skip the digits never check that they skipped one. *)
Theorem fy_atom_is_number_no_digit :
  let plain (text : string) :=
    atom_of (bytes_of_string text) FYAS_PLAIN FYAC_CLIP 0 0
      (Z.of_nat (String.length text)) false false in
  let accepted (text : string) :=
    decode_stream (fun _ => true) 8 (fy_atom_iter_start (plain text))
    = Some (bytes_of_string text) /\
    number_pattern_strict (bytes_of_string text) = false /\
    fy_atom_is_number (fun _ => true) 8 (Some (plain text)) = Some true in
  accepted "e"%string /\ accepted "."%string /\ accepted "-"%string /\
  accepted "-.e+"%string.
Proof. vm_compute. repeat split. Qed.

(** ** Comparison with a string *)

Lemma bytes_eqb_eq a : forall b, bytes_eqb a b = true <-> a = b.
Proof.
  induction a as [|x a IH]; destruct b as [|y b]; cbn; try (split; congruence).
  rewrite andb_true_iff, Z.eqb_eq, IH. split; [intros [-> ->]; reflexivity|].
  intros H. injection H. auto.
Qed.

Lemma take_all str : take (Z.of_nat (length str)) str = str.
Proof.
  induction str as [|x str IH]; [reflexivity|].
  change (length (x :: str)) with (S (length str)). rewrite take_succ.
  cbn [deref nth tl]. rewrite IH. reflexivity.
Qed.

Lemma memcmp_loop_holds fy_is_print str : forall bs iter ct,
  Forall (fun b => 0 <= b <= 255) str ->
  holds fy_is_print iter bs ->
  let '(c, _, len') :=
    memcmp_loop fy_is_print (length str) iter str (Z.of_nat (length str)) ct in
  (c =? -1) && (len' =? 0) = true <-> bs = str.
Proof.
  induction str as [|s0 str IH]; intros bs iter ct Hb H.
  - cbn [length memcmp_loop].
    destruct (getc_holds _ _ _ H) as (it1 & G & D1). rewrite G.
    rewrite Z.eqb_refl, andb_true_r.
    destruct bs as [|b bs]; cbn [head_or_eof].
    + split; reflexivity.
    + pose proof (holds_head_range _ _ _ _ H).
      rewrite Z.eqb_eq. split; [lia|discriminate].
  - cbn [length memcmp_loop].
    destruct (getc_holds _ _ _ H) as (it1 & G & D1). rewrite G.
    inversion Hb as [|? ? Hs0 Hb']; subst.
    destruct bs as [|b bs]; cbn [head_or_eof tl] in *.
    + cbn [Z.leb Z.compare andb].
      assert (E : (Z.of_nat (S (length str)) =? 0) = false) by (apply Z.eqb_neq; lia).
      rewrite E, andb_false_r. split; discriminate.
    + pose proof (holds_head_range _ _ _ _ H) as Hc.
      assert (E0 : (0 <=? b) = true) by (apply Z.leb_le; lia).
      assert (E : (Z.of_nat (S (length str)) =? 0) = false) by (apply Z.eqb_neq; lia).
      rewrite E0, E. cbn [andb negb deref nth tl]. rewrite (land_byte s0 Hs0).
      destruct (s0 =? b) eqn:Es; cbn [negb].
      * apply Z.eqb_eq in Es. subst b.
        replace (Z.of_nat (S (length str)) - 1) with (Z.of_nat (length str)) by lia.
        specialize (IH bs it1 s0 Hb' (or_introl D1)).
        destruct (memcmp_loop _ _ _ _ _ _) as [[c ct'] len'].
        rewrite IH. split; [intros ->; reflexivity|]. intros H0. injection H0. auto.
      * apply Z.eqb_neq in Es.
        assert (E1 : (b =? -1) = false) by (apply Z.eqb_neq; lia).
        rewrite E1. cbn [andb]. split; [discriminate|].
        intros H0. injection H0. intros _ ->. lia.
Qed.

(** [fy_atom_strcmp] with a non-empty string of bytes is 0 exactly when the
    text of the atom is that string. *)
Lemma fy_atom_strcmp_zero fy_is_print fuel a bs str :
  decode_stream fy_is_print fuel (fy_atom_iter_start a) = Some bs ->
  Forall (fun b => 0 <= b <= 255) str -> str <> [] ->
  (fy_atom_strcmp fy_is_print (Some a) (Some str) =? 0)
  = bytes_eqb (atom_text a bs) str.
Proof.
  intros Hd Hb Hne.
  destruct (decode_stream_decodes _ _ _ _ Hd) as [D _].
  unfold fy_atom_strcmp, fy_atom_memcmp, atom_text.
  assert (Hl : (Z.of_nat (length str) =? 0) = false).
  { apply Z.eqb_neq. destruct str; [congruence|cbn [length]; lia]. }
  rewrite Hl.
  apply eq_true_iff_eq. rewrite bytes_eqb_eq, Z.eqb_eq.
  destruct (direct_output a).
  - set (dlen := fy_atom_size a). set (dstr := ptr (fyi a) (fy_atom_data a)).
    set (len := Z.of_nat (length str)).
    set (tlen := if len <? dlen then len else dlen).
    pose proof (memcmp_zero_iff (Z.to_nat tlen) dstr str) as M.
    destruct (memcmp dstr str (Z.to_nat tlen) =? 0) eqn:E; cbn [negb].
    + apply Z.eqb_eq in E. apply M in E.
      destruct (dlen =? len) eqn:E1.
      * apply Z.eqb_eq in E1. split; [intros _|reflexivity].
        assert (tlen = len).
        { unfold tlen. rewrite E1, Z.ltb_irrefl. reflexivity. }
        rewrite H, Z2Nat.id in E by (unfold len; lia).
        rewrite E1. unfold len in *. rewrite E. apply take_all.
      * apply Z.eqb_neq in E1. split.
        -- destruct (dlen <? len); lia.
        -- intros H. exfalso. apply E1.
           apply (f_equal (@length Z)) in H. rewrite take_length in H.
           unfold len. apply Z.eqb_neq in Hl. lia.
    + apply Z.eqb_neq in E. split; [lia|].
      intros H. exfalso. apply E, M.
      assert (dlen = len).
      { apply (f_equal (@length Z)) in H. rewrite take_length in H.
        unfold len. apply Z.eqb_neq in Hl. lia. }
      assert (tlen = len).
      { unfold tlen. rewrite H0, Z.ltb_irrefl. reflexivity. }
      rewrite H1, Z2Nat.id by (unfold len; lia).
      rewrite <- H0 at 1. fold dlen in H. rewrite H. unfold len.
      symmetry. apply take_all.
  - rewrite Nat2Z.id.
    pose proof (memcmp_loop_holds fy_is_print str bs (fy_atom_iter_start a) (-1)
                  Hb (or_introl D)) as M.
    destruct (memcmp_loop _ _ _ _ _ _) as [[c ct] len'].
    rewrite <- M.
    destruct ((c =? -1) && (len' =? 0)); [tauto|].
    split; [|discriminate]. destruct (c <? ct); lia.
Qed.

(** ** Scalar style in JSON mode *)

Lemma bytes_in_range_string s :
  Forall (fun b => 0 <= b <= 255) (bytes_of_string s).
Proof.
  unfold bytes_of_string. apply Forall_forall. intros b Hb.
  apply in_map_iff in Hb. destruct Hb as (c & <- & _).
  pose proof (N_ascii_bounded c). lia.
Qed.




(** ** Reading across chunks *)

(** C3 (the code departs from the claim).  The plain scalar of the first
    scenario of the spec decodes to [hello world] in three chunks; the
    chunk interface and [getc] both deliver these eleven bytes, but one
    [fy_atom_iter_read] of eleven bytes copies every chunk to the start of
    the buffer, returns 11 and leaves [world] followed by six bytes it never
    wrote. *)
Theorem fy_atom_iter_read_overwrites :
  let a := atom_of [104; 101; 108; 108; 111; 10; 32; 32; 119; 111; 114; 108; 100; 10]
             FYAS_PLAIN FYAC_CLIP 0 2 0 false false in
  let text := [104; 101; 108; 108; 111; 32; 119; 111; 114; 108; 100] in
  fy_atom_format_text (fun _ => true) 16 (Some a) 64 = Some (text, Some 11) /\
  decode_stream (fun _ => true) 16 (fy_atom_iter_start a) = Some text /\
  let '(nread, buf, _) :=
    fy_atom_iter_read (fun _ => true) (fy_atom_iter_start a) (repeat 0 11) 11 in
  nread = 11 /\ buf = [119; 111; 114; 108; 100; 0; 0; 0; 0; 0; 0] /\ buf <> text.
Proof. vm_compute. repeat split. discriminate. Qed.

(** ** The column counter *)

Lemma fy_utf8_put_length c :
  Z.of_nat (length (fy_utf8_put_unchecked c)) = fy_utf8_width c.
Proof.
  unfold fy_utf8_put_unchecked, fy_utf8_width.
  destruct (c <? 0x80), (c <? 0x800), (c <? 0x10000); reflexivity.
Qed.

Lemma fy_utf8_is_valid_range c :
  fy_utf8_is_valid c = true -> 0 <= c < 0x110000.
Proof.
  unfold fy_utf8_is_valid.
  rewrite andb_true_iff, negb_true_iff, orb_false_iff, Z.leb_le, Z.leb_gt. lia.
Qed.

(** A code point below 128 is its own encoding; the encoding of any other
    has at least two bytes, all of them 128 or more. *)
Lemma fy_utf8_put_shape c :
  fy_utf8_is_valid c = true ->
  (c < 0x80 /\ fy_utf8_put_unchecked c = [c]) \/
  (0x80 <= c /\ Forall (fun b => 128 <= b <= 255) (fy_utf8_put_unchecked c) /\
   (2 <= length (fy_utf8_put_unchecked c))%nat).
Proof.
  intros Hv. apply fy_utf8_is_valid_range in Hv.
  unfold fy_utf8_put_unchecked.
  destruct (c <? 0x80) eqn:E1; [apply Z.ltb_lt in E1|apply Z.ltb_ge in E1].
  { left. destruct (ascii_octet c) as (A1 & _); [lia|]. rewrite A1. auto. }
  right. split; [lia|].
  assert (T : forall x, 128 <= uint8 (Z.lor (Z.land x 0x3f) 0x80) <= 255).
  { intros x. rewrite low6.
    destruct (trail_octet (x mod 64)) as (T1 & _);
      [apply Z.mod_pos_bound; lia|].
    rewrite T1. pose proof (Z.mod_pos_bound x 64 ltac:(lia)). lia. }
  destruct (c <? 0x800) eqn:E2; [apply Z.ltb_lt in E2|apply Z.ltb_ge in E2].
  { split; [|cbn; lia]. repeat constructor; try apply T.
    all: rewrite shr by lia; change (2 ^ 6) with 64.
    all: destruct (lead2 (c / 64)) as (L1 & _);
      [split; [apply Z.div_pos; lia|apply Z.div_lt_upper_bound; lia]|].
    all: rewrite L1.
    all: assert (0 <= c / 64 < 32)
      by (split; [apply Z.div_pos; lia|apply Z.div_lt_upper_bound; lia]); lia. }
  destruct (c <? 0x10000) eqn:E3; [apply Z.ltb_lt in E3|apply Z.ltb_ge in E3].
  { split; [|cbn; lia]. repeat constructor; try apply T.
    all: rewrite shr by lia; change (2 ^ 12) with 4096.
    all: destruct (lead3 (c / 4096)) as (L1 & _);
      [split; [apply Z.div_pos; lia|apply Z.div_lt_upper_bound; lia]|].
    all: rewrite L1.
    all: assert (0 <= c / 4096 < 16)
      by (split; [apply Z.div_pos; lia|apply Z.div_lt_upper_bound; lia]); lia. }
  { split; [|cbn; lia]. repeat constructor; try apply T.
    all: rewrite shr by lia; change (2 ^ 18) with 262144.
    all: destruct (lead4 (c / 262144)) as (L1 & _);
      [split; [apply Z.div_pos; lia|apply Z.div_lt_upper_bound; lia]|].
    all: rewrite L1.
    all: assert (0 <= c / 262144 < 8)
      by (split; [apply Z.div_pos; lia|apply Z.div_lt_upper_bound; lia]); lia. }
Qed.

Lemma memchr_from_shift n : forall i p c,
  memchr_from i p c n = option_map (Z.add i) (memchr_from 0 p c n).
Proof.
  induction n as [|n IH]; intros i p c; [reflexivity|].
  cbn [memchr_from]. destruct (deref p 0 =? c).
  - cbn [option_map]. f_equal. lia.
  - rewrite (IH (i + 1)), (IH (0 + 1)).
    destruct (memchr_from 0 (tl p) c n); cbn [option_map]; [f_equal; lia|reflexivity].
Qed.

Lemma memchr_skip pre : forall p c n,
  Forall (fun b => b <> c) pre -> Z.of_nat (length pre) <= n ->
  memchr (pre ++ p) c n
  = option_map (Z.add (Z.of_nat (length pre)))
      (memchr p c (n - Z.of_nat (length pre))).
Proof.
  induction pre as [|b pre IH]; intros p c n Hpre Hn.
  - cbn [app length Z.of_nat]. rewrite Z.sub_0_r.
    destruct (memchr p c n); reflexivity.
  - inversion Hpre as [|? ? Hb Hpre']; subst.
    cbn [length] in Hn. unfold memchr.
    replace (Z.to_nat n) with (S (Z.to_nat (n - 1))) by lia.
    cbn [app memchr_from deref nth tl].
    apply Z.eqb_neq in Hb. rewrite Hb.
    rewrite memchr_from_shift.
    specialize (IH p c (n - 1) Hpre' ltac:(lia)). unfold memchr in IH. rewrite IH.
    replace (n - Z.of_nat (length (b :: pre))) with (n - 1 - Z.of_nat (length pre))
      by (cbn [length]; lia).
    destruct (memchr_from 0 p c _); cbn [option_map]; [f_equal; cbn [length]; lia|reflexivity].
Qed.

Lemma utf8_encode_cons c r :
  utf8_encode (c :: r) = fy_utf8_put_unchecked c ++ utf8_encode r.
Proof. reflexivity. Qed.

Lemma after_m_valid cps r :
  Forall (fun c => fy_utf8_is_valid c = true) cps -> after_m cps = Some r ->
  Forall (fun c => fy_utf8_is_valid c = true) r /\ (length r < length cps)%nat.
Proof.
  induction cps as [|c cps IH]; intros Hv H; [discriminate|].
  inversion Hv; subst. cbn [after_m] in H. destruct (c =? 109).
  - injection H as <-. split; [assumption|cbn; lia].
  - destruct (IH ltac:(assumption) H). split; [assumption|cbn; lia].
Qed.

(** Searching the bytes for [m] finds the first code point [m]. *)
Lemma memchr_utf8_encode cps :
  Forall (fun c => fy_utf8_is_valid c = true) cps ->
  memchr (utf8_encode cps) 109 (Z.of_nat (length (utf8_encode cps)))
  = match after_m cps with
    | Some r => Some (Z.of_nat (length (utf8_encode cps))
                      - Z.of_nat (length (utf8_encode r)) - 1)
    | None => None
    end.
Proof.
  induction cps as [|c cps IH]; intros Hv; [reflexivity|].
  inversion Hv as [|? ? Hc Hv']; subst. specialize (IH Hv').
  rewrite utf8_encode_cons, length_app, Nat2Z.inj_add.
  cbn [after_m].
  destruct (fy_utf8_put_shape c Hc) as [[Hlt E]|(Hge & Hb & Hl)].
  - rewrite E. cbn [length app]. unfold memchr.
    replace (Z.to_nat (Z.of_nat 1 + Z.of_nat (length (utf8_encode cps))))
      with (S (length (utf8_encode cps))) by lia.
    cbn [memchr_from deref nth tl]. destruct (c =? 109).
    + f_equal. lia.
    + rewrite memchr_from_shift. unfold memchr in IH. rewrite Nat2Z.id in IH.
      rewrite IH. destruct (after_m cps); cbn [option_map]; [f_equal; lia|reflexivity].
  - assert (E : (c =? 109) = false) by (apply Z.eqb_neq; lia). rewrite E.
    rewrite memchr_skip.
    + replace (Z.of_nat (length (fy_utf8_put_unchecked c))
               + Z.of_nat (length (utf8_encode cps))
               - Z.of_nat (length (fy_utf8_put_unchecked c)))
        with (Z.of_nat (length (utf8_encode cps))) by lia.
      rewrite IH. destruct (after_m cps); cbn [option_map]; [f_equal; lia|reflexivity].
    + eapply Forall_impl; [|exact Hb]. cbv beta. intros; lia.
    + lia.
Qed.

Lemma skipn_utf8_put c r :
  skipn (Z.to_nat (fy_utf8_width c)) (fy_utf8_put_unchecked c ++ utf8_encode r)
  = utf8_encode r.
Proof.
  rewrite <- fy_utf8_put_length, Nat2Z.id, skipn_app, skipn_all, Nat.sub_diag.
  reflexivity.
Qed.

Lemma utf8_encode_after_m cps r :
  after_m cps = Some r ->
  exists pre, utf8_encode cps = pre ++ utf8_encode r /\
              length pre = (length (utf8_encode cps) - length (utf8_encode r))%nat.
Proof.
  revert r. induction cps as [|c cps IH]; intros r H; [discriminate|].
  cbn [after_m] in H. rewrite utf8_encode_cons. destruct (c =? 109).
  - injection H as <-. exists (fy_utf8_put_unchecked c). split; [reflexivity|].
    rewrite length_app. lia.
  - destruct (IH r H) as (pre & E & L).
    exists (fy_utf8_put_unchecked c ++ pre). rewrite E, <- app_assoc.
    split; [reflexivity|]. rewrite !length_app. lia.
Qed.

(** The first byte of an encoding is an ASCII character only when the first
    code point is that character. *)
Lemma utf8_encode_first r b :
  Forall (fun c => fy_utf8_is_valid c = true) r -> 0 < b < 128 ->
  (deref (utf8_encode r) 0 =? b) = match r with c :: _ => c =? b | [] => false end.
Proof.
  intros Hv Hb. destruct r as [|c r].
  - change (deref (utf8_encode []) 0) with 0. apply Z.eqb_neq. lia.
  - inversion Hv as [|? ? Hc _]; subst. rewrite utf8_encode_cons.
    destruct (fy_utf8_put_shape c Hc) as [[Hlt E]|(Hge & Hbs & Hl)].
    + rewrite E. reflexivity.
    + destruct (fy_utf8_put_unchecked c) as [|b0 t]; [cbn in Hl; lia|].
      inversion Hbs; subst. cbn [app deref nth].
      transitivity false; [|symmetry]; apply Z.eqb_neq; lia.
Qed.

Lemma head_is b (r : list Z) :
  0 < b ->
  match r with c :: _ => c =? b | [] => false end = true ->
  exists r', r = b :: r'.
Proof.
  intros Hb H. destruct r as [|c r]; [discriminate|].
  apply Z.eqb_eq in H. subst c. eauto.
Qed.

Lemma utf8_encode_nonempty c r : (1 <= length (utf8_encode (c :: r)))%nat.
Proof.
  rewrite utf8_encode_cons, length_app.
  pose proof (fy_utf8_put_length c). unfold fy_utf8_width in *.
  destruct (c <? 128), (c <? 2048), (c <? 65536); lia.
Qed.

(** The test for a CR-LF pair, on bytes and on code points. *)
Lemma crlf_test r :
  Forall (fun c => fy_utf8_is_valid c = true) r ->
  (1 <? Z.of_nat (length (13 :: utf8_encode r)))
  && (deref (13 :: utf8_encode r) 1 =? 10)
  = match r with 10 :: _ => true | _ => false end.
Proof.
  intros Hr.
  change (deref (13 :: utf8_encode r) 1) with (deref (utf8_encode r) 0).
  rewrite (utf8_encode_first r 10 Hr) by lia.
  destruct r as [|c1 r1]; [apply andb_false_r|].
  pose proof (utf8_encode_nonempty c1 r1).
  assert (E : (1 <? Z.of_nat (length (13 :: utf8_encode (c1 :: r1)))) = true)
    by (apply Z.ltb_lt; cbn [length]; lia).
  rewrite E. cbn [andb].
  destruct (c1 =? 10) eqn:E10.
  - apply Z.eqb_eq in E10. subst. reflexivity.
  - apply Z.eqb_neq in E10. destruct c1 as [|q|q]; try reflexivity.
    do 4 (destruct q; try reflexivity). lia.
Qed.

(** The test for a sequence ESC [ ... m, on bytes and on code points. *)
Lemma csi_test r :
  Forall (fun c => fy_utf8_is_valid c = true) r ->
  (if (2 <? Z.of_nat (length (27 :: utf8_encode r)))
      && (deref (27 :: utf8_encode r) 1 =? 91)
   then memchr (27 :: utf8_encode r) 109 (Z.of_nat (length (27 :: utf8_encode r)))
   else None)
  = match (match r with 91 :: r2 => after_m r2 | _ => None end) with
    | Some r' => Some (Z.of_nat (length (27 :: utf8_encode r))
                       - Z.of_nat (length (utf8_encode r')) - 1)
    | None => None
    end.
Proof.
  intros Hr.
  change (deref (27 :: utf8_encode r) 1) with (deref (utf8_encode r) 0).
  rewrite (utf8_encode_first r 91 Hr) by lia.
  destruct r as [|c1 r1]; [rewrite andb_false_r; reflexivity|].
  destruct (c1 =? 91) eqn:E91.
  - apply Z.eqb_eq in E91. subst c1. inversion Hr as [|? ? _ Hr1]; subst.
    pose proof (memchr_utf8_encode (27 :: 91 :: r1)
                  ltac:(repeat constructor; assumption)) as M.
    change (utf8_encode (27 :: 91 :: r1)) with (27 :: utf8_encode (91 :: r1)) in M.
    change (after_m (27 :: 91 :: r1)) with (after_m r1) in M.
    rewrite M.
    destruct (after_m r1) as [r'|] eqn:Ea.
    + destruct (utf8_encode_after_m r1 r' Ea) as (pre & Epre & _).
      apply (f_equal (@length Z)) in Epre. rewrite length_app in Epre.
      assert (E : (2 <? Z.of_nat (length (27 :: utf8_encode (91 :: r1)))) = true).
      { apply Z.ltb_lt. change (utf8_encode (91 :: r1)) with (91 :: utf8_encode r1).
        cbn [length]. destruct r1 as [|x r1']; [discriminate|].
        pose proof (utf8_encode_nonempty x r1'). lia. }
      rewrite E. reflexivity.
    + destruct (_ && _); reflexivity.
  - rewrite andb_false_r.
    apply Z.eqb_neq in E91. destruct c1 as [|q|q]; try reflexivity.
    do 7 (destruct q; try reflexivity). lia.
Qed.

Lemma skipn_utf8_encode_after_m cps r :
  after_m cps = Some r ->
  skipn (length (utf8_encode cps) - length (utf8_encode r)) (utf8_encode cps)
  = utf8_encode r /\
  (length (utf8_encode r) < length (utf8_encode cps))%nat /\
  (length r < length cps)%nat.
Proof.
  revert r. induction cps as [|c cps IH]; intros r H; [discriminate|].
  cbn [after_m] in H. pose proof (utf8_encode_nonempty c cps) as Hne.
  rewrite utf8_encode_cons in *. rewrite length_app in *.
  destruct (c =? 109).
  - injection H as <-.
    replace (length (fy_utf8_put_unchecked c) + length (utf8_encode cps)
             - length (utf8_encode cps))%nat
      with (length (fy_utf8_put_unchecked c)) by lia.
    rewrite skipn_app, skipn_all, Nat.sub_diag. cbn [skipn app length].
    pose proof (fy_utf8_put_length c). unfold fy_utf8_width in *.
    repeat split; try lia.
    destruct (c <? 128), (c <? 2048), (c <? 65536); lia.
  - destruct (IH r H) as (E & L1 & L2).
    replace (length (fy_utf8_put_unchecked c) + length (utf8_encode cps)
             - length (utf8_encode r))%nat
      with (length (fy_utf8_put_unchecked c)
            + (length (utf8_encode cps) - length (utf8_encode r)))%nat by lia.
    rewrite skipn_app, skipn_all2 by lia. cbn [app].
    replace (length (fy_utf8_put_unchecked c)
             + (length (utf8_encode cps) - length (utf8_encode r))
             - length (fy_utf8_put_unchecked c))%nat
      with (length (utf8_encode cps) - length (utf8_encode r))%nat by lia.
    cbn [length]. repeat split; try lia. exact E.
Qed.

Lemma to_int_id n : - 2 ^ 31 <= n < 2 ^ 31 -> to_int n = n.
Proof.
  intros H. unfold to_int. rewrite Z.mod_small; lia.
Qed.

(** As long as the two counters stay below [2 ^ 31], the loop counts as
    [count_columns] does. *)
Lemma write_loop_utf8 n : forall cps fuel ln col,
  (length cps < n)%nat ->
  Forall (fun c => fy_utf8_is_valid c = true) cps ->
  (length (utf8_encode cps) < fuel)%nat ->
  0 <= ln -> 0 <= col ->
  ln + Z.of_nat (length cps) < 2 ^ 31 -> col + Z.of_nat (length cps) < 2 ^ 31 ->
  write_loop fuel (utf8_encode cps) (Z.of_nat (length (utf8_encode cps))) ln col
  = count_columns n cps ln col.
Proof.
  induction n as [|n IH]; intros cps fuel ln col Hn Hv Hf Hl0 Hc0 Hl1 Hc1; [lia|].
  destruct fuel as [|fuel]; [lia|].
  destruct cps as [|c r]; [reflexivity|].
  inversion Hv as [|? ? Hc Hr]; subst.
  cbn [write_loop count_columns].
  change (length (c :: r)) with (S (length r)) in Hl1, Hc1.
  rewrite !(to_int_id (ln + 1)), !(to_int_id (col + 1)) by lia.
  pose proof (fy_utf8_put_length c) as Hw.
  assert (Hw1 : 1 <= fy_utf8_width c).
  { unfold fy_utf8_width. destruct (c <? 128), (c <? 2048), (c <? 65536); lia. }
  assert (Hlen : length (utf8_encode (c :: r))
                 = (length (fy_utf8_put_unchecked c) + length (utf8_encode r))%nat)
    by (rewrite utf8_encode_cons; apply length_app).
  destruct (fy_utf8_get_put c (utf8_encode r)
              (Z.of_nat (length (utf8_encode (c :: r)))) Hc ltac:(lia)) as [G _].
  rewrite <- utf8_encode_cons in G. rewrite G.
  pose proof (fy_utf8_is_valid_range c Hc) as Hrange.
  assert (E : (c =? -1) = false) by (apply Z.eqb_neq; lia). rewrite E.
  (* the step that consumes just this code point *)
  assert (Hrest : forall ln' col',
             0 <= ln' <= ln + 1 -> 0 <= col' <= col + 1 ->
             write_loop fuel (skipn (Z.to_nat (fy_utf8_width c)) (utf8_encode (c :: r)))
               (Z.of_nat (length (utf8_encode (c :: r))) - fy_utf8_width c) ln' col'
             = count_columns n r ln' col').
  { intros ln' col' Hl' Hc'. rewrite utf8_encode_cons, skipn_utf8_put.
    replace (Z.of_nat (length (fy_utf8_put_unchecked c ++ utf8_encode r))
             - fy_utf8_width c)
      with (Z.of_nat (length (utf8_encode r))) by (rewrite length_app; lia).
    apply IH; [cbn in Hn; lia|assumption|lia|lia|lia|lia|lia]. }
  assert (Hsmall : c < 128 -> utf8_encode (c :: r) = c :: utf8_encode r).
  { intros Hlt. rewrite utf8_encode_cons.
    destruct (fy_utf8_put_shape c Hc) as [[_ E1]|(Hge & _)]; [rewrite E1; reflexivity|lia]. }
  destruct (c =? 13) eqn:E13.
  - (* carriage return *)
    apply Z.eqb_eq in E13. subst c. rewrite (Hsmall ltac:(lia)) in *.
    cbn [andb]. rewrite (crlf_test r Hr).
    destruct r as [|c1 r1]; [apply Hrest; lia|].
    destruct (match c1 :: r1 with 10 :: _ => true | _ => false end) eqn:Ecr;
      [|apply Hrest; lia].
    assert (c1 = 10).
    { destruct c1 as [|q|q]; try discriminate.
      do 4 (destruct q; try discriminate). reflexivity. }
    subst c1. inversion Hr as [|? ? _ Hr1]; subst.
    change (utf8_encode (10 :: r1)) with (10 :: utf8_encode r1) in *.
    cbn [skipn tl length] in *.
    replace (Z.of_nat (S (S (length (utf8_encode r1)))) - 2)
      with (Z.of_nat (length (utf8_encode r1))) by lia.
    apply IH; [lia|assumption|lia|lia|lia|lia|lia].
  - cbn [andb]. destruct (fy_is_lb c) eqn:Elb; [apply Hrest; lia|].
    destruct (c =? 27) eqn:E27; [|apply Hrest; lia].
    (* escape *)
    apply Z.eqb_eq in E27. subst c. rewrite (Hsmall ltac:(lia)) in *.
    cbn [andb]. rewrite (csi_test r Hr).
    destruct r as [|c1 r1]; [apply Hrest; lia|].
    destruct (match c1 :: r1 with 91 :: r2 => after_m r2 | _ => None end)
      as [r'|] eqn:Ecsi; [|apply Hrest; lia].
    assert (Ea : after_m (27 :: c1 :: r1) = Some r').
    { destruct c1 as [|q|q]; try discriminate.
      do 7 (destruct q; try discriminate). exact Ecsi. }
    destruct (skipn_utf8_encode_after_m _ _ Ea) as (Es & L1 & L2).
    assert (Hv' : Forall (fun c => fy_utf8_is_valid c = true) r')
      by (eapply after_m_valid; eassumption).
    change (utf8_encode (27 :: c1 :: r1)) with (27 :: utf8_encode (c1 :: r1)) in *.
    set (L := length (27 :: utf8_encode (c1 :: r1))) in *.
    replace (Z.to_nat (Z.of_nat L - Z.of_nat (length (utf8_encode r')) - 1 + 1))
      with (L - length (utf8_encode r'))%nat by lia.
    rewrite Es.
    replace (Z.of_nat L - (Z.of_nat L - Z.of_nat (length (utf8_encode r')) - 1 + 1))
      with (Z.of_nat (length (utf8_encode r'))) by lia.
    apply IH; [cbn [length] in *; lia|assumption| |lia|lia| |];
      unfold L in *; cbn [length] in *; lia.
Qed.

Lemma count_columns_bound n : forall cps ln col,
  0 <= col ->
  ln <= fst (count_columns n cps ln col) <= ln + Z.of_nat (length cps) /\
  0 <= snd (count_columns n cps ln col) <= col + Z.of_nat (length cps).
Proof.
  induction n as [|n IH]; intros cps ln col Hc; [cbn; lia|].
  destruct cps as [|c r]; [cbn; lia|].
  cbn [count_columns]. change (length (c :: r)) with (S (length r)).
  destruct ((c =? 13) && match r with 10 :: _ => true | _ => false end).
  - specialize (IH (tl r) (ln + 1) 0 ltac:(lia)).
    assert (length (tl r) <= length r)%nat by (destruct r; cbn; lia). lia.
  - destruct (fy_is_lb c).
    + specialize (IH r (ln + 1) 0 ltac:(lia)). lia.
    + destruct (if c =? 27 then match r with 91 :: r2 => after_m r2 | _ => None end
                else None) as [r'|] eqn:E.
      * assert (length r' <= length r)%nat.
        { destruct (c =? 27); [|discriminate]. destruct r as [|c1 r1]; [discriminate|].
          assert (Ea : after_m r1 = Some r').
          { destruct c1 as [|q|q]; try discriminate.
            do 7 (destruct q; try discriminate). exact E. }
          destruct (skipn_utf8_encode_after_m _ _ Ea) as (_ & _ & L). cbn [length]. lia. }
        specialize (IH r' ln col Hc). lia.
      * specialize (IH r ln (col + 1) ltac:(lia)). lia.
Qed.

(** One [fy_emit_write] of encoded code points. *)
Lemma fy_emit_write_position (U : Type)
  (output : U -> fy_emitter_write_type -> list Z -> Z -> Z * U)
  (emit : fy_emitter U) (type : fy_emitter_write_type) (cps : list Z) :
  Forall (fun c => fy_utf8_is_valid c = true) cps ->
  0 <= line emit -> 0 <= column emit ->
  line emit + Z.of_nat (length cps) < 2 ^ 31 ->
  column emit + Z.of_nat (length cps) < 2 ^ 31 ->
  let emit' := fy_emit_write output emit type (utf8_encode cps)
                 (Z.of_nat (length (utf8_encode cps))) in
  (line emit', column emit') = position_after cps (line emit, column emit).
Proof.
  intros Hv Hl0 Hc0 Hl1 Hc1. cbv zeta. unfold fy_emit_write, position_after.
  destruct (Z.of_nat (length (utf8_encode cps)) =? 0) eqn:E0.
  - apply Z.eqb_eq in E0. destruct cps as [|c r]; [reflexivity|].
    pose proof (utf8_encode_nonempty c r). lia.
  - destruct (output _ _ _ _) as [outlen u].
    rewrite (write_loop_utf8 (S (length cps)) cps) by (auto; lia).
    destruct (count_columns _ _ _ _). reflexivity.
Qed.




(** ** Output errors *)

Section OutputError.

Variable U : Type.
Variable output : U -> fy_emitter_write_type -> list Z -> Z -> Z * U.
Variable fy_tag_is_default : list Z -> list Z -> bool.
Variable root_has_tag_or_anchor : fy_document -> bool.
Variable fy_emit_node_internal : fy_emitter U -> fy_node -> fy_emitter U.
Variable fy_emit_node_comment : fy_emitter U -> fy_node -> Z -> fy_emitter U.

(** The node writers leave the association with the document state alone. *)
Hypothesis fy_emit_node_internal_fyds :
  forall e n, fyds (fy_emit_node_internal e n) = fyds e.
Hypothesis fy_emit_node_comment_fyds :
  forall e n k, fyds (fy_emit_node_comment e n k) = fyds e.

Lemma fy_emit_write_fyds e t str len :
  fyds (fy_emit_write output e t str len) = fyds e.
Proof.
  unfold fy_emit_write. destruct (len =? 0); [reflexivity|].
  destruct (output _ _ _ _), (write_loop _ _ _ _ _). reflexivity.
Qed.

Lemma fy_emit_puts_fyds e t str : fyds (fy_emit_puts output e t str) = fyds e.
Proof. apply fy_emit_write_fyds. Qed.

Lemma fy_emit_putc_fyds e t c : fyds (fy_emit_putc output e t c) = fyds e.
Proof. apply fy_emit_write_fyds. Qed.

Lemma emit_tag_directives_fyds tds : forall e had,
  fyds (fst (emit_tag_directives output fy_tag_is_default e tds had)) = fyds e.
Proof.
  induction tds as [|[h p] tds IH]; intros e had; [reflexivity|].
  cbn [emit_tag_directives]. destruct (fy_tag_is_default h p); [apply IH|].
  rewrite IH. cbn [set_flags fyds].
  rewrite fy_emit_putc_fyds, fy_emit_puts_fyds.
  destruct (column e =? 0); [reflexivity|apply fy_emit_putc_fyds].
Qed.

Ltac frame_fyds :=
  repeat first
    [ progress cbn [set_flags upd_flags set_fyds set_fyd fyds fst snd]
    | rewrite fy_emit_putc_fyds
    | rewrite fy_emit_puts_fyds
    | rewrite emit_tag_directives_fyds
    | match goal with
      | |- context [if ?b then _ else _] => destruct b
      end ].

Lemma fy_emit_common_document_start_ok e s b :
  fyds e = None ->
  exists e', fy_emit_common_document_start output fy_tag_is_default e (Some s) b
             = (0, e') /\ fyds e' = Some s.
Proof.
  intros He. unfold fy_emit_common_document_start. rewrite He. cbv zeta.
  match goal with
  | |- context [let '(_, _) := ?x in _] =>
      assert (Ht : fyds (fst x) = Some s) by (frame_fyds; reflexivity);
      destruct x as [e1 had]
  end.
  cbn [fst] in Ht.
  eexists. split; [reflexivity|]. frame_fyds; exact Ht.
Qed.

Lemma fy_emit_document_end_ok e s :
  fyds e = Some s -> fst (fy_emit_document_end output e) = 0.
Proof.
  intros He. unfold fy_emit_document_end, fy_emit_common_document_end.
  rewrite He. reflexivity.
Qed.

(** [fy_emit_document] succeeds on a document that has a state and a root
    whenever the emitter is not inside a document, whatever the callback
    does. *)
Lemma fy_emit_document_ok e doc s n :
  fyds e = None -> fyd_fyds doc = Some s -> root doc = Some n ->
  fst (fy_emit_document output fy_tag_is_default root_has_tag_or_anchor
         fy_emit_node_internal fy_emit_node_comment e (Some doc)) = 0.
Proof.
  intros He Hs Hn. unfold fy_emit_document, fy_emit_document_start.
  rewrite Hs.
  destruct (fy_emit_common_document_start_ok e s (root_has_tag_or_anchor doc) He)
    as (e1 & E1 & F1).
  rewrite E1. cbn [Z.eqb negb]. rewrite Hn. cbn [fy_emit_root_node Z.eqb negb].
  apply (fy_emit_document_end_ok _ s).
  repeat (rewrite fy_emit_node_comment_fyds || rewrite fy_emit_node_internal_fyds).
  exact F1.
Qed.

(** What the code does with a short count.  A write whose callback
    returns a count other than the one requested sets [output_error], and
    no later write clears it; the later writes are still handed to the
    callback in full, and [fy_emit_document] returns 0 for a document with
    a state and a root, whatever the callback returned: the bit is never
    read. *)
Lemma fy_emit_write_output_error (emit : fy_emitter U)
  (type : fy_emitter_write_type) (str : list Z) (len : Z)
  (doc : fy_document) (s : fy_document_state) (n : fy_node) :
  len <> 0 ->
  fyds emit = None -> fyd_fyds doc = Some s -> root doc = Some n ->
  let emit' := fy_emit_write output emit type str len in
  (fst (output (userdata emit) type str len) <> len -> output_error emit' = true) /\
  (output_error emit = true -> output_error emit' = true) /\
  userdata emit' = snd (output (userdata emit) type str len) /\
  fst (fy_emit_document output fy_tag_is_default root_has_tag_or_anchor
         fy_emit_node_internal fy_emit_node_comment emit' (Some doc)) = 0.
Proof.
  intros Hlen He Hs Hn. cbv zeta.
  assert (Hf : fyds (fy_emit_write output emit type str len) = None)
    by (rewrite fy_emit_write_fyds; exact He).
  split; [|split; [|split]]; [| | |apply (fy_emit_document_ok _ doc s n); assumption].
  all: unfold fy_emit_write; apply Z.eqb_neq in Hlen; rewrite Hlen.
  all: destruct (output (userdata emit) type str len) as [outlen u];
    destruct (write_loop _ _ _ _ _); cbn [output_error userdata fst snd].
  - intros Hne. apply Z.eqb_neq in Hne. rewrite Hne. reflexivity.
  - intros ->. destruct (outlen =? len); reflexivity.
  - reflexivity.
Qed.

End OutputError.

Lemma fy_emit_write_output_error_witness :
  let emit := emitter_of FYECF_MODE_BLOCK in
  let emit' := fy_emit_write output_none emit fyewt_plain_scalar [97; 98] 2 in
  (fst (output_none (userdata emit) fyewt_plain_scalar [97; 98] 2) <> 2 ->
   output_error emit' = true) /\
  (output_error emit = true -> output_error emit' = true) /\
  userdata emit' = snd (output_none (userdata emit) fyewt_plain_scalar [97; 98] 2) /\
  fst (example_emit_document emit') = 0.
Proof.
  apply (fy_emit_write_output_error (list (list Z)) output_none (fun _ _ => true)
           (fun _ => false) example_node_writer (fun e _ _ => e)
           (fun e n => eq_refl) (fun e n k => eq_refl)
           (emitter_of FYECF_MODE_BLOCK) fyewt_plain_scalar [97; 98] 2
           example_document
           {| version_explicit := false; tags_explicit := false;
              start_implicit := false; end_implicit := true;
              version_major := 1; version_minor := 2; fyt_td := [] |}
           {| fyn_style := FYNS_PLAIN; fyn_scalar := None |}).
  - lia.
  - reflexivity.
  - reflexivity.
  - reflexivity.
Defined.

(** C8 (the code departs from the claim).  The emitter sets
    [output_error] and never looks at it again.
    With a callback that refuses every write (it returns 0), the first
    write sets the bit; the next write is still delivered to the callback,
    and [fy_emit_document] on the emitter with its error bit set hands the
    whole document to the callback and returns 0, where the claim has the
    later bytes dropped and the entry point report the failure. *)
Theorem fy_emit_write_after_error :
  let e1 := fy_emit_write output_none (emitter_of FYECF_MODE_BLOCK)
              fyewt_plain_scalar [97; 98] 2 in
  let e2 := fy_emit_write output_none e1 fyewt_plain_scalar [99; 100] 2 in
  output_error e1 = true /\
  userdata e2 = [[97; 98]; [99; 100]] /\
  fst (example_emit_document e1) = 0 /\
  userdata (snd (example_emit_document e1))
  = [[97; 98]; [10]; [45; 45; 45]; [120]; [10]] /\
  output_error (snd (example_emit_document e1)) = true.
Proof. vm_compute. repeat split. Qed.

(** ** Chomping of block scalars *)

Lemma blen_app a b : blen (a ++ b) = blen a + blen b.
Proof.
  unfold blen, utf8_encode. rewrite flat_map_app, length_app. lia.
Qed.

Lemma blen_cons c r : blen (c :: r) = fy_utf8_width c + blen r.
Proof.
  unfold blen. rewrite utf8_encode_cons, length_app, Nat2Z.inj_add.
  rewrite fy_utf8_put_length. reflexivity.
Qed.

Lemma blen_nil : blen [] = 0.
Proof. reflexivity. Qed.

Create Rewrite HintDb blen.
#[local] Hint Rewrite blen_app blen_cons blen_nil app_nil_r : blen.

Ltac blen_lia := autorewrite with blen in *; lia.

Lemma fy_utf8_width_pos c : 1 <= fy_utf8_width c <= 4.
Proof.
  unfold fy_utf8_width.
  destruct (c <? 0x80), (c <? 0x800), (c <? 0x10000); lia.
Qed.

Lemma blen_length cps : Z.of_nat (length cps) <= blen cps.
Proof.
  induction cps as [|c r IH]; [reflexivity|].
  rewrite blen_cons. pose proof (fy_utf8_width_pos c).
  change (length (c :: r)) with (S (length r)). lia.
Qed.

Lemma blen_nonneg cps : 0 <= blen cps.
Proof. unfold blen. lia. Qed.

Lemma utf8_encode_app a b : utf8_encode (a ++ b) = utf8_encode a ++ utf8_encode b.
Proof. unfold utf8_encode. apply flat_map_app. Qed.

Lemma ptr_blen P R : ptr (utf8_encode (P ++ R)) (blen P) = utf8_encode R.
Proof.
  unfold ptr, blen. rewrite Nat2Z.id, utf8_encode_app.
  rewrite skipn_app, skipn_all, Nat.sub_diag. reflexivity.
Qed.

Lemma ptr_past data p : Z.of_nat (length data) <= p -> ptr data p = [].
Proof. intros H. unfold ptr. apply skipn_all2. lia. Qed.

(** The character found at the offset that follows [P]. *)
Lemma fy_utf8_get_at P c R :
  fy_utf8_is_valid c = true ->
  fy_utf8_get (ptr (utf8_encode (P ++ c :: R)) (blen P))
    (blen (P ++ c :: R) - blen P) = (c, fy_utf8_width c).
Proof.
  intros Hv. rewrite ptr_blen, utf8_encode_cons, blen_app, blen_cons.
  apply fy_utf8_get_put; [exact Hv|]. pose proof (blen_nonneg R). lia.
Qed.

Lemma fy_utf8_get_end p left : left <= 0 -> fy_utf8_get p left = (-1, 0).
Proof.
  intros H. unfold fy_utf8_get.
  destruct (left <=? 0) eqn:E; [reflexivity|]. apply Z.leb_gt in E. lia.
Qed.

Lemma first_octet_at P c R :
  fy_utf8_is_valid c = true ->
  fy_utf8_width_by_first_octet
    (deref (ptr (utf8_encode (P ++ c :: R)) (blen P)) 0) = fy_utf8_width c.
Proof.
  intros Hv. rewrite ptr_blen, utf8_encode_cons.
  apply (fy_utf8_get_put c (utf8_encode R) (fy_utf8_width c) Hv). lia.
Qed.

Lemma first_octet_past data p :
  Z.of_nat (length data) <= p ->
  fy_utf8_width_by_first_octet (deref (ptr data p) 0) = 1.
Proof. intros H. rewrite ptr_past by exact H. reflexivity. Qed.

Lemma valid_nonneg c : fy_utf8_is_valid c = true -> (c =? -1) = false.
Proof. intros H. apply fy_utf8_is_valid_range in H. apply Z.eqb_neq. lia. Qed.

(** *** The first loop of the analyzer *)

Lemma scan_char_keeps ib chomp ts st c :
  fy_is_lb c = false ->
  sc_end (scan_char ib chomp ts st c) = sc_end st /\
  sc_ss (scan_char ib chomp ts st c) = sc_ss st /\
  sc_empty (scan_char ib chomp ts st c) = sc_empty st && fy_is_ws c.
Proof.
  intros H. unfold scan_char. rewrite H.
  destruct (fy_is_ws c); cbn; rewrite ?andb_true_r, ?andb_false_r; auto.
Qed.

Lemma scan_fold_cons ib chomp ts st c cs :
  scan_fold ib chomp ts st (c :: cs)
  = scan_fold ib chomp ts
      (scan_advance (fy_utf8_width c) (scan_char ib chomp ts st c)) cs.
Proof. reflexivity. Qed.

Lemma scan_fold_app ib chomp ts st a b :
  scan_fold ib chomp ts st (a ++ b)
  = scan_fold ib chomp ts (scan_fold ib chomp ts st a) b.
Proof. unfold scan_fold. apply fold_left_app. Qed.

Lemma scan_fold_keeps ib chomp ts cs : forall st,
  no_lb cs = true ->
  sc_end (scan_fold ib chomp ts st cs) = sc_end st /\
  sc_ss (scan_fold ib chomp ts st cs) = sc_ss st + blen cs /\
  sc_empty (scan_fold ib chomp ts st cs) = sc_empty st && forallb fy_is_ws cs.
Proof.
  induction cs as [|c cs IH]; intros st H.
  - unfold scan_fold. cbn [fold_left forallb].
    rewrite andb_true_r, blen_nil. repeat split; lia.
  - cbn [no_lb forallb] in H. apply andb_true_iff in H. destruct H as [Hc H].
    apply negb_true_iff in Hc.
    rewrite scan_fold_cons.
    destruct (IH (scan_advance (fy_utf8_width c) (scan_char ib chomp ts st c)) H)
      as (E1 & E2 & E3).
    destruct (scan_char_keeps ib chomp ts st c Hc) as (K1 & K2 & K3).
    rewrite E1, E2, E3. cbn [scan_advance sc_end sc_ss sc_empty forallb].
    rewrite K1, K2, K3, blen_cons, andb_assoc. repeat split; lia.
Qed.

(** Once set, [chomp_start] stays. *)
Lemma scan_char_chomp_start ib chomp ts st c p :
  sc_chomp_start st = Some p ->
  sc_chomp_start (scan_char ib chomp ts st c) = Some p.
Proof.
  intros H. unfold scan_char. rewrite H.
  destruct ib; cbn [is_null andb];
    (destruct (fy_is_lb c); [reflexivity|]); destruct (fy_is_ws c); reflexivity.
Qed.

Lemma scan_fold_chomp_start ib chomp ts cs : forall st p,
  sc_chomp_start st = Some p ->
  sc_chomp_start (scan_fold ib chomp ts st cs) = Some p.
Proof.
  induction cs as [|c cs IH]; intros st p H; [exact H|].
  rewrite scan_fold_cons. apply IH. cbn [scan_advance sc_chomp_start].
  apply scan_char_chomp_start, H.
Qed.

(** The spaces of the indentation leave [chomp_start] unset. *)
Lemma scan_fold_indent chomp ts j : forall st,
  sc_chomp_start st = None -> 0 <= sc_col st ->
  sc_col st + Z.of_nat j <= chomp ->
  let st' := scan_fold true chomp ts st (repeat 32 j) in
  sc_chomp_start st' = None /\ sc_col st' = sc_col st + Z.of_nat j.
Proof.
  induction j as [|j IH]; intros st Hn H0 Hc.
  - cbn. split; [exact Hn|lia].
  - cbn [repeat]. cbv zeta. rewrite scan_fold_cons.
    set (st1 := scan_advance (fy_utf8_width 32) (scan_char true chomp ts st 32)).
    assert (E1 : sc_chomp_start st1 = None /\ sc_col st1 = sc_col st + 1).
    { subst st1. unfold scan_char. rewrite Hn. cbn [is_null andb].
      assert (E : (chomp <=? sc_col st) = false) by (apply Z.leb_gt; lia).
      rewrite E. cbn. auto. }
    destruct E1 as [E1 E2].
    destruct (IH st1 E1) as [I1 I2]; [lia|lia|].
    split; [exact I1|]. rewrite I2, E2. lia.
Qed.

(** The first character at the column of the indentation sets it. *)
Lemma scan_char_marks chomp ts st c :
  sc_chomp_start st = None -> chomp <= sc_col st ->
  sc_chomp_start (scan_char true chomp ts st c) = Some (sc_ss st).
Proof.
  intros Hn Hc. unfold scan_char. rewrite Hn. cbn [is_null andb].
  assert (E : (chomp <=? sc_col st) = true) by (apply Z.leb_le; lia).
  rewrite E.
  destruct (fy_is_lb c); [reflexivity|]. destruct (fy_is_ws c); reflexivity.
Qed.

(** A line break at the start of a line is its [chomp_start] and its end. *)
Lemma scan_char_break ib chomp ts st c :
  fy_is_lb c = true -> sc_end st = None ->
  let st' := scan_char ib chomp ts st c in
  sc_end st' = Some (sc_ss st) /\ sc_lb_end st' = true /\
  sc_ss st' = sc_ss st /\ sc_empty st' = sc_empty st /\
  (ib = true -> sc_chomp_start st = None -> sc_chomp_start st' = Some (sc_ss st)).
Proof.
  intros H He. cbv zeta. unfold scan_char. rewrite H, He. cbn.
  repeat split; auto.
  intros -> Hn. rewrite Hn. cbn. destruct (chomp <=? sc_col st); reflexivity.
Qed.

Lemma scan_line_run ib chomp ts L : forall P R st fuel,
  forallb fy_utf8_is_valid L = true -> no_lb L = true ->
  sc_ss st = blen P -> sc_end st = None ->
  scan_line (length L + fuel) (utf8_encode (P ++ L ++ R)) (blen (P ++ L ++ R))
    ib chomp ts st
  = scan_line fuel (utf8_encode (P ++ L ++ R)) (blen (P ++ L ++ R))
      ib chomp ts (scan_fold ib chomp ts st L).
Proof.
  induction L as [|c L IH]; intros P R st fuel Hv Hl Hs He; [reflexivity|].
  cbn [forallb] in Hv. apply andb_true_iff in Hv. destruct Hv as [Hvc Hv].
  cbn [no_lb forallb] in Hl. apply andb_true_iff in Hl. destruct Hl as [Hc Hl].
  apply negb_true_iff in Hc.
  change (length (c :: L) + fuel)%nat with (S (length L + fuel)).
  cbn [scan_line]. rewrite Hs.
  change ((c :: L) ++ R) with (c :: L ++ R).
  rewrite fy_utf8_get_at by exact Hvc.
  rewrite valid_nonneg by exact Hvc.
  destruct (scan_char_keeps ib chomp ts st c Hc) as (K1 & K2 & K3).
  rewrite K1, He. cbn [is_null].
  rewrite scan_fold_cons.
  replace (P ++ c :: L ++ R) with ((P ++ [c]) ++ L ++ R)
    by (rewrite <- app_assoc; reflexivity).
  apply IH; auto.
  - cbn [scan_advance sc_ss]. rewrite K2, Hs, blen_app, blen_cons, blen_nil. lia.
  - cbn [scan_advance sc_end]. rewrite K1. exact He.
Qed.

(** The loop stops on the first line break. *)
Lemma scan_line_break ib chomp ts L P b R fuel :
  forallb fy_utf8_is_valid L = true -> no_lb L = true ->
  fy_utf8_is_valid b = true -> fy_is_lb b = true ->
  (length L < fuel)%nat ->
  scan_line fuel (utf8_encode (P ++ L ++ b :: R)) (blen (P ++ L ++ b :: R))
    ib chomp ts (scan_init (blen P))
  = (scan_char ib chomp ts (scan_fold ib chomp ts (scan_init (blen P)) L) b,
     b, fy_utf8_width b).
Proof.
  intros Hv Hl Hvb Hb Hf.
  replace fuel with (length L + S (fuel - length L - 1))%nat by lia.
  rewrite scan_line_run by auto.
  destruct (scan_fold_keeps ib chomp ts L (scan_init (blen P)) Hl) as (E1 & E2 & E3).
  cbn [scan_line]. rewrite E2. cbn [scan_init sc_ss].
  rewrite <- blen_app.
  replace (P ++ L ++ b :: R) with ((P ++ L) ++ b :: R) by (rewrite <- app_assoc; reflexivity).
  rewrite fy_utf8_get_at by exact Hvb.
  rewrite valid_nonneg by exact Hvb.
  destruct (scan_char_break ib chomp ts (scan_fold ib chomp ts (scan_init (blen P)) L)
              b Hb E1) as (B1 & _).
  rewrite B1. reflexivity.
Qed.

(** Without a line break it runs to the end of the input. *)
Lemma scan_line_end ib chomp ts L P fuel :
  forallb fy_utf8_is_valid L = true -> no_lb L = true ->
  (length L < fuel)%nat ->
  scan_line fuel (utf8_encode (P ++ L)) (blen (P ++ L))
    ib chomp ts (scan_init (blen P))
  = (scan_fold ib chomp ts (scan_init (blen P)) L, -1, 0).
Proof.
  intros Hv Hl Hf.
  replace fuel with (length L + S (fuel - length L - 1))%nat by lia.
  pose proof (scan_line_run ib chomp ts L P [] (scan_init (blen P))
                (S (fuel - length L - 1)) Hv Hl eq_refl eq_refl) as E.
  rewrite app_nil_r in E. rewrite E. clear E.
  destruct (scan_fold_keeps ib chomp ts L (scan_init (blen P)) Hl) as (E1 & E2 & E3).
  cbn [scan_line]. rewrite E2. cbn [scan_init sc_ss].
  rewrite fy_utf8_get_end by (rewrite blen_app; lia).
  reflexivity.
Qed.

(** *** The second loop of the analyzer *)

(** The second loop stops after the white space and line breaks [W], on
    the first character that is neither or at the end of the input. *)
Lemma scan_trailing_stop ib chomp ts W : forall P R fuel col tb tbws,
  forallb fy_utf8_is_valid W = true -> forallb fy_is_ws_lb W = true ->
  match R with
  | [] => True
  | v :: _ => fy_utf8_is_valid v = true /\ fy_is_ws_lb v = false
  end ->
  (length W < fuel)%nat ->
  fst (fst (scan_trailing fuel (utf8_encode (P ++ W ++ R)) (blen (P ++ W ++ R))
              ib chomp ts (blen P) col tb tbws))
  = blen (P ++ W).
Proof.
  induction W as [|c W IH]; intros P R fuel col tb tbws Hv Hw HR Hf.
  - destruct fuel as [|fuel]; [cbn in Hf; lia|]. cbn [scan_trailing app].
    rewrite app_nil_r.
    destruct R as [|v R'].
    + rewrite app_nil_r. rewrite fy_utf8_get_end by lia. reflexivity.
    + destruct HR as [Hvv Hvw]. rewrite fy_utf8_get_at by exact Hvv.
      rewrite Hvw. cbn [negb]. rewrite orb_true_r. reflexivity.
  - destruct fuel as [|fuel]; [cbn in Hf; lia|]. cbn [scan_trailing].
    cbn [forallb] in Hv, Hw.
    apply andb_true_iff in Hv. destruct Hv as [Hvc Hv].
    apply andb_true_iff in Hw. destruct Hw as [Hwc Hw].
    change ((c :: W) ++ R) with (c :: W ++ R).
    rewrite fy_utf8_get_at by exact Hvc.
    rewrite valid_nonneg by exact Hvc. rewrite Hwc. cbn [negb orb].
    replace (blen P + fy_utf8_width c) with (blen (P ++ [c]))
      by (rewrite blen_app, blen_cons, blen_nil; lia).
    replace (P ++ c :: W ++ R) with ((P ++ [c]) ++ W ++ R)
      by (rewrite <- app_assoc; reflexivity).
    rewrite IH; auto.
    + rewrite <- app_assoc. reflexivity.
    + cbn in Hf. lia.
Qed.

(** *** The line descriptors *)

Lemma fy_atom_iter_line_analyze_start iter l s len :
  li_start (fy_atom_iter_line_analyze iter l s len) = Some s.
Proof.
  unfold fy_atom_iter_line_analyze.
  destruct (_ && _ && _); [reflexivity|].
  destruct (scan_line _ _ _ _ _ _ _) as [[st c] w].
  destruct (is_null (sc_end st)); [reflexivity|].
  destruct (_ <=? _); [reflexivity|].
  destruct (scan_trailing _ _ _ _ _ _ _ _ _ _) as [[ss2 tb] tbws]. reflexivity.
Qed.

Lemma blen_zero cps : blen cps <= 0 -> cps = [].
Proof.
  intros H. pose proof (blen_length cps). destruct cps; [reflexivity|].
  cbn [length] in *. lia.
Qed.

(** A line that ends with the line break [b]; [W] is the white space and
    the line breaks that follow it. *)
Lemma fy_atom_iter_line_analyze_break iter l0 P L b W R :
  block_iter (P ++ L ++ b :: W ++ R) iter ->
  forallb fy_utf8_is_valid (L ++ b :: W) = true ->
  no_lb L = true -> fy_is_lb b = true -> forallb fy_is_ws_lb W = true ->
  match R with
  | [] => True
  | v :: _ => fy_utf8_is_valid v = true /\ fy_is_ws_lb v = false
  end ->
  view (fy_atom_iter_line_analyze iter l0 (blen P) (blen (L ++ b :: W ++ R)))
  = (Some (blen P), Some (blen (P ++ L)), Some (chomp_of (it_chomp iter) P L),
     forallb fy_is_ws L, is_nil R, true).
Proof.
  intros (Hb & Hsc & Hd & Hs0 & He) Hv Hl Hlb Hw HR.
  rewrite forallb_app in Hv. apply andb_true_iff in Hv. destruct Hv as [HvL Hv].
  cbn [forallb] in Hv. apply andb_true_iff in Hv. destruct Hv as [Hvb HvW].
  unfold fy_atom_iter_line_analyze. cbv zeta. rewrite Hsc, Hb, Hd.
  rewrite <- blen_app.
  rewrite scan_line_break; auto.
  2:{ pose proof (blen_length (L ++ b :: W ++ R)) as B.
      rewrite length_app in B. cbn [length] in B. lia. }
  set (st0 := scan_fold true (it_chomp iter) 8 (scan_init (blen P)) L).
  destruct (scan_fold_keeps true (it_chomp iter) 8 L (scan_init (blen P)) Hl)
    as (E1 & E2 & E3). fold st0 in E1, E2, E3. cbn [scan_init sc_end sc_ss sc_empty] in *.
  destruct (scan_char_break true (it_chomp iter) 8 st0 b Hlb E1)
    as (B1 & B2 & B3 & B4 & B5).
  set (st := scan_char true (it_chomp iter) 8 st0 b) in *.
  assert (Hcs : (if true && is_null (sc_chomp_start st) then Some (sc_ss st)
                 else sc_chomp_start st) = Some (chomp_of (it_chomp iter) P L)).
  { unfold chomp_of. fold st0. destruct (sc_chomp_start st0) as [p|] eqn:E0.
    - subst st. rewrite (scan_char_chomp_start _ _ _ _ _ _ E0). reflexivity.
    - rewrite (B5 eq_refl eq_refl). cbn. rewrite E2, blen_app. reflexivity. }
  rewrite B1, Hcs. cbn [is_null].
  assert (Hb0 : (0 <=? b) = true).
  { apply fy_utf8_is_valid_range in Hvb. apply Z.leb_le. lia. }
  rewrite Hb0, B3, E2.
  replace (blen P + blen L + fy_utf8_width b) with (blen (P ++ L ++ [b]))
    by (rewrite !blen_app, blen_cons, blen_nil; lia).
  destruct (blen (P ++ L ++ b :: W ++ R) <=? blen (P ++ L ++ [b])) eqn:Ee.
  - unfold view. cbn [li_start li_end chomp_start li_empty last lb_end].
    rewrite B2, B4, E3, <- blen_app. cbn [andb].
    apply Z.leb_le in Ee.
    assert (W ++ R = []).
    { apply blen_zero. blen_lia. }
    destruct W; [|discriminate]. cbn in H. subst R. reflexivity.
  - pose proof (scan_trailing_stop true (it_chomp iter) 8 W (P ++ L ++ [b]) R
                  (S (Z.to_nat (blen (P ++ L ++ b :: W ++ R) - blen (P ++ L ++ [b]))))
                  (next_col 8 (sc_col st) b) false false HvW Hw HR) as T.
    replace ((P ++ L ++ [b]) ++ W ++ R) with (P ++ L ++ b :: W ++ R) in T
      by (rewrite <- !app_assoc; reflexivity).
    destruct (scan_trailing _ _ _ _ _ _ _ _ _ _) as [[ss2 tb] tbws].
    cbn [fst] in T. rewrite T.
    2:{ pose proof (blen_length W) as B. pose proof (blen_nonneg R). blen_lia. }
    unfold view. cbn [li_start li_end chomp_start li_empty last lb_end].
    rewrite B2, B4, E3, <- blen_app. cbn [andb].
    repeat f_equal.
    destruct R as [|v R']; cbn [is_nil].
    + apply Z.leb_le. blen_lia.
    + apply Z.leb_gt. pose proof (fy_utf8_width_pos v). pose proof (blen_nonneg R').
      blen_lia.
Qed.

(** A line that runs to the end of the input. *)
Lemma fy_atom_iter_line_analyze_end iter l0 P L :
  block_iter (P ++ L) iter ->
  forallb fy_utf8_is_valid L = true -> no_lb L = true ->
  view (fy_atom_iter_line_analyze iter l0 (blen P) (blen L))
  = (Some (blen P), Some (blen (P ++ L)), Some (chomp_of (it_chomp iter) P L),
     forallb fy_is_ws L, true, false).
Proof.
  intros (Hb & Hsc & Hd & Hs0 & He) Hv Hl.
  unfold fy_atom_iter_line_analyze. cbv zeta. rewrite Hsc, Hb, Hd.
  rewrite <- blen_app.
  rewrite scan_line_end; auto.
  2:{ pose proof (blen_length L) as B. lia. }
  set (st0 := scan_fold true (it_chomp iter) 8 (scan_init (blen P)) L).
  destruct (scan_fold_keeps true (it_chomp iter) 8 L (scan_init (blen P)) Hl)
    as (E1 & E2 & E3). fold st0 in E1, E2, E3. cbn [scan_init sc_end sc_ss sc_empty] in *.
  rewrite E1. cbn [is_null].
  unfold view. cbn [li_start li_end chomp_start li_empty last lb_end].
  rewrite He, E3. cbn [andb]. repeat f_equal.
  unfold chomp_of. fold st0. destruct (sc_chomp_start st0); cbn [is_null].
  - reflexivity.
  - rewrite E2, blen_app. reflexivity.
Qed.

(** *** One line *)

Lemma fy_atom_iter_line_none iter :
  line_over iter ->
  fy_atom_iter_line iter = (None, set_current (negb (current iter)) iter).
Proof.
  intros (p & Hp & Hle). unfold fy_atom_iter_line, upcoming in *. cbv zeta.
  cbn [current set_current].
  replace (li (set_current (negb (current iter)) iter) (negb (current iter)))
    with (li iter (negb (current iter))) by (destruct iter; reflexivity).
  unfold line_out. rewrite Hp. cbn [it_e set_current].
  assert (E : (it_e iter <=? p) = true) by (apply Z.leb_le; exact Hle).
  rewrite E. reflexivity.
Qed.

Lemma fy_atom_iter_line_some iter p :
  fy_atom_style_is_block (style (it_atom iter)) = true ->
  li_start (upcoming iter) = Some p -> p < it_e iter ->
  exists nl sep l0,
    let l := upcoming iter in
    let q := the (li_end l) in
    let ss := q + fy_utf8_width_by_first_octet (deref (ptr (fyi (it_atom iter)) q) 0) in
    let l' := set_slice (block_slice iter l) q nl sep l in
    fy_atom_iter_line iter
    = (Some l',
       line_moved iter l'
         (fy_atom_iter_line_analyze (set_current (negb (current iter)) iter) l0
            ss (it_e iter - ss))).
Proof.
  intros Hb Hp Hlt. unfold fy_atom_iter_line, upcoming in *. cbv zeta.
  cbn [current set_current it_atom it_e].
  replace (li (set_current (negb (current iter)) iter) (negb (current iter)))
    with (li iter (negb (current iter))) by (destruct iter; reflexivity).
  unfold line_out at 1. rewrite Hp. cbn [it_e set_current].
  assert (E : (it_e iter <=? p) = false) by (apply Z.leb_gt; exact Hlt).
  rewrite E.
  assert (Hq : fy_atom_style_is_quoted (style (it_atom iter)) = false).
  { destruct (style (it_atom iter)); try discriminate; reflexivity. }
  rewrite Hq, Hb.
  set (l := li iter (negb (current iter))).
  set (q := the (li_end l)).
  match goal with
  | |- context [let '(nl, sep) := ?x in _] => destruct x as [nl sep]
  end.
  exists nl, sep, (li (set_current (negb (current iter)) iter) (negb (negb (current iter)))).
  unfold line_moved, block_slice. fold l. fold q.
  rewrite negb_involutive. reflexivity.
Qed.

Lemma block_slice_le iter l : block_slice iter l <= the (li_end l).
Proof.
  unfold block_slice. cbv zeta.
  destruct (the (li_end l) <? _) eqn:E; [lia|]. apply Z.ltb_ge in E. exact E.
Qed.

Lemma line_moved_frame iter l n :
  same_base iter (line_moved iter l n) /\
  chunks (line_moved iter l n) = chunks iter /\
  read (line_moved iter l n) = read iter /\
  done (line_moved iter l n) = done iter /\
  unget_c (line_moved iter l n) = unget_c iter /\
  upcoming (line_moved iter l n) = n.
Proof.
  unfold line_moved, same_base, upcoming.
  destruct iter as [a s e ch ts sl dq em cur dn l0 l1 cs r u].
  destruct cur; cbn; repeat split.
Qed.

Lemma same_lines_upcoming a b : same_lines a b -> upcoming b = upcoming a.
Proof.
  unfold same_lines, upcoming, li. intros (_ & -> & -> & ->). reflexivity.
Qed.

Lemma block_iter_base cps a b : same_base a b -> block_iter cps a -> block_iter cps b.
Proof.
  unfold same_base, block_iter. intros (-> & -> & -> & _). auto.
Qed.

Lemma at_line_same cps a b P rest :
  same_lines a b -> at_line cps a P rest -> at_line cps b P rest.
Proof.
  intros S (Hb & Hc & iterX & l0 & HX & Hch & Hv).
  pose proof (same_lines_upcoming _ _ S) as U. destruct S as (B & _).
  split; [eapply block_iter_base; eauto|]. split; [exact Hc|].
  exists iterX, l0. rewrite U. split; [exact HX|]. split; [|exact Hv].
  destruct B as (_ & _ & _ & E & _). congruence.
Qed.

Lemma push_same iter cs : same_lines iter (push iter cs).
Proof. unfold same_lines, same_base. cbn. repeat split. Qed.

Lemma push_nil iter : push iter [] = iter.
Proof. unfold push. rewrite app_nil_r. destruct iter; reflexivity. Qed.

Lemma push_push iter a b : push (push iter a) b = push iter (a ++ b).
Proof. unfold push. cbn. rewrite app_assoc. reflexivity. Qed.

Lemma fy_atom_iter_add_chunk_push iter str len :
  fy_atom_iter_add_chunk iter str len
  = push iter (if len =? 0 then [] else [take len str]).
Proof.
  unfold fy_atom_iter_add_chunk. destruct (len =? 0); [|reflexivity].
  symmetry. apply push_nil.
Qed.

Lemma at_line_over cps iter P : at_line cps iter P [] -> line_over iter.
Proof.
  intros ((_ & _ & _ & _ & He) & Hc & iterX & l0 & _ & _ & Hv).
  exists (blen P). split.
  - pose proof (f_equal (fun v => fst (fst (fst (fst (fst v))))) Hv) as H.
    cbn [view fst] in H. rewrite H. apply fy_atom_iter_line_analyze_start.
  - rewrite He, Hc, app_nil_r. lia.
Qed.

(** The step over a line that ends with a line break. *)
Lemma at_line_break cps iter P L b W R :
  at_line cps iter P (L ++ b :: W ++ R) ->
  forallb fy_utf8_is_valid (L ++ b :: W) = true ->
  no_lb L = true -> fy_is_lb b = true -> forallb fy_is_ws_lb W = true ->
  match R with
  | [] => True
  | v :: _ => fy_utf8_is_valid v = true /\ fy_is_ws_lb v = false
  end ->
  exists l' n,
    fy_atom_iter_line iter = (Some l', line_moved iter l' n) /\
    view l' = (Some (blen P), Some (blen (P ++ L)),
               Some (chomp_of (it_chomp iter) P L), forallb fy_is_ws L,
               is_nil R, true) /\
    li_e l' = blen (P ++ L) /\ li_s l' <= li_e l' /\
    (forallb fy_is_ws L = false -> chomp_of (it_chomp iter) P L <= blen (P ++ L) ->
     li_s l' = chomp_of (it_chomp iter) P L) /\
    at_line cps (line_moved iter l' n) (P ++ L ++ [b]) (W ++ R).
Proof.
  intros (Hb & Hc & iterX & l0 & HX & Hch & Hv) Hval Hl Hlb Hw HR.
  pose proof Hval as Hval'.
  rewrite forallb_app in Hval'. apply andb_true_iff in Hval'.
  destruct Hval' as [HvL Hv']. cbn [forallb] in Hv'.
  apply andb_true_iff in Hv'. destruct Hv' as [Hvb HvW].
  subst cps.
  rewrite (fy_atom_iter_line_analyze_break iterX l0 P L b W R HX Hval Hl Hlb Hw HR) in Hv.
  rewrite Hch in Hv.
  pose proof Hb as (Hblock & Hsc & Hd & Hs0 & He).
  assert (Hp : li_start (upcoming iter) = Some (blen P)).
  { pose proof (f_equal (fun v => fst (fst (fst (fst (fst v))))) Hv) as H. exact H. }
  assert (Hq : li_end (upcoming iter) = Some (blen (P ++ L))).
  { pose proof (f_equal (fun v => snd (fst (fst (fst (fst v))))) Hv) as H. exact H. }
  assert (Hcs : chomp_start (upcoming iter) = Some (chomp_of (it_chomp iter) P L)).
  { pose proof (f_equal (fun v => snd (fst (fst (fst v)))) Hv) as H. exact H. }
  assert (Hem : li_empty (upcoming iter) = forallb fy_is_ws L).
  { pose proof (f_equal (fun v => snd (fst (fst v))) Hv) as H. exact H. }
  destruct (fy_atom_iter_line_some iter (blen P) Hblock Hp) as (nl & sep & l1 & E).
  { rewrite He. pose proof (fy_utf8_width_pos b). pose proof (blen_nonneg L).
    pose proof (blen_nonneg (W ++ R)). blen_lia. }
  cbv zeta in E. rewrite Hq in E. cbn [the] in E.
  rewrite Hd in E.
  replace (P ++ L ++ b :: W ++ R) with ((P ++ L) ++ b :: W ++ R) in E
    by (rewrite <- app_assoc; reflexivity).
  rewrite first_octet_at in E by exact Hvb.
  eexists. eexists. split; [exact E|].
  split; [exact Hv|]. split; [reflexivity|].
  split.
  { cbn [set_slice li_s li_e].
    pose proof (block_slice_le iter (upcoming iter)) as B. rewrite Hq in B. exact B. }
  split.
  { intros Hne Hle. cbn [set_slice li_s]. unfold block_slice. cbv zeta.
    rewrite Hem, Hne, Hq, Hcs. cbn [andb the].
    destruct (_ <? _) eqn:El; [|reflexivity]. apply Z.ltb_lt in El. lia. }
  match goal with |- at_line _ (line_moved iter ?l ?n) _ _ =>
    destruct (line_moved_frame iter l n) as (F1 & F2 & F3 & F4 & F5 & F6) end.
  split; [eapply block_iter_base; [exact F1|exact Hb]|].
  split; [rewrite <- !app_assoc; reflexivity|].
  exists (set_current (negb (current iter)) iter), l1.
  split; [eapply block_iter_base; [|exact Hb];
          unfold same_base; cbn; repeat split|].
  split; [destruct F1 as (_ & _ & _ & -> & _); reflexivity|].
  rewrite F6. f_equal. f_equal.
  - blen_lia.
  - rewrite He. blen_lia.
Qed.

(** The step over a last line that no line break ends. *)
Lemma at_line_end cps iter P L :
  at_line cps iter P L -> L <> [] ->
  forallb fy_utf8_is_valid L = true -> no_lb L = true ->
  exists l' n,
    fy_atom_iter_line iter = (Some l', line_moved iter l' n) /\
    view l' = (Some (blen P), Some (blen (P ++ L)),
               Some (chomp_of (it_chomp iter) P L), forallb fy_is_ws L,
               true, false) /\
    li_e l' = blen (P ++ L) /\
    (forallb fy_is_ws L = false -> chomp_of (it_chomp iter) P L <= blen (P ++ L) ->
     li_s l' = chomp_of (it_chomp iter) P L) /\
    line_over (line_moved iter l' n) /\
    block_iter cps (line_moved iter l' n).
Proof.
  intros (Hb & Hc & iterX & l0 & HX & Hch & Hv) Hne Hval Hl.
  subst cps.
  rewrite (fy_atom_iter_line_analyze_end iterX l0 P L HX Hval Hl) in Hv.
  rewrite Hch in Hv.
  pose proof Hb as (Hblock & Hsc & Hd & Hs0 & He).
  assert (Hp : li_start (upcoming iter) = Some (blen P)).
  { pose proof (f_equal (fun v => fst (fst (fst (fst (fst v))))) Hv) as H. exact H. }
  assert (Hq : li_end (upcoming iter) = Some (blen (P ++ L))).
  { pose proof (f_equal (fun v => snd (fst (fst (fst (fst v))))) Hv) as H. exact H. }
  assert (Hcs : chomp_start (upcoming iter) = Some (chomp_of (it_chomp iter) P L)).
  { pose proof (f_equal (fun v => snd (fst (fst (fst v)))) Hv) as H. exact H. }
  assert (Hem : li_empty (upcoming iter) = forallb fy_is_ws L).
  { pose proof (f_equal (fun v => snd (fst (fst v))) Hv) as H. exact H. }
  destruct (fy_atom_iter_line_some iter (blen P) Hblock Hp) as (nl & sep & l1 & E).
  { rewrite He. pose proof (blen_length L). destruct L; [congruence|].
    cbn [length] in *. blen_lia. }
  cbv zeta in E. rewrite Hq in E. cbn [the] in E.
  rewrite Hd in E.
  rewrite first_octet_past in E by (fold (blen (P ++ L)); lia).
  eexists. eexists. split; [exact E|].
  split; [exact Hv|]. split; [reflexivity|].
  split.
  { intros Hn Hle. cbn [set_slice li_s]. unfold block_slice. cbv zeta.
    rewrite Hem, Hn, Hq, Hcs. cbn [andb the].
    destruct (_ <? _) eqn:El; [|reflexivity]. apply Z.ltb_lt in El. lia. }
  match goal with |- line_over (line_moved iter ?l ?n) /\ _ =>
    destruct (line_moved_frame iter l n) as (F1 & F2 & F3 & F4 & F5 & F6) end.
  split; [|eapply block_iter_base; [exact F1|exact Hb]].
  eexists. rewrite F6. split; [apply fy_atom_iter_line_analyze_start|].
  destruct F1 as (_ & _ & -> & _). rewrite He. lia.
Qed.

Lemma blen_spaces j : blen (repeat 32 j) = Z.of_nat j.
Proof.
  induction j as [|j IH]; [reflexivity|].
  cbn [repeat]. rewrite blen_cons, IH. change (fy_utf8_width 32) with 1. lia.
Qed.

Lemma no_lb_spaces j : no_lb (repeat 32 j) = true.
Proof. induction j as [|j IH]; [reflexivity|]. cbn [repeat no_lb forallb]. exact IH. Qed.

Lemma valid_spaces j : forallb fy_utf8_is_valid (repeat 32 j) = true.
Proof. induction j as [|j IH]; [reflexivity|]. cbn [repeat forallb]. exact IH. Qed.

(** The content of a line indented by [inc] spaces starts after them. *)
Lemma chomp_of_indent inc P body :
  0 <= inc -> body <> [] ->
  chomp_of inc P (repeat 32 (Z.to_nat inc) ++ body) = blen P + inc.
Proof.
  intros H0 Hne. unfold chomp_of. rewrite scan_fold_app.
  set (st := scan_fold true inc 8 (scan_init (blen P)) (repeat 32 (Z.to_nat inc))).
  destruct (scan_fold_indent inc 8 (Z.to_nat inc) (scan_init (blen P)))
    as [I1 I2]; [reflexivity|cbn; lia|cbn; lia|].
  fold st in I1, I2. cbn [scan_init sc_col] in I2.
  destruct (scan_fold_keeps true inc 8 (repeat 32 (Z.to_nat inc)) (scan_init (blen P))
              (no_lb_spaces _)) as (_ & K2 & _).
  fold st in K2. cbn [scan_init sc_ss] in K2. rewrite blen_spaces in K2.
  destruct body as [|c body]; [congruence|].
  rewrite scan_fold_cons.
  rewrite (scan_fold_chomp_start true inc 8 body _ (sc_ss st)).
  - lia.
  - cbn [scan_advance sc_chomp_start]. apply scan_char_marks; [exact I1|lia].
Qed.

(** *** One call of the formatter *)

Lemma block_style_cases st :
  fy_atom_style_is_block st = true -> st = FYAS_LITERAL \/ st = FYAS_FOLDED.
Proof. destruct st; try discriminate; auto. Qed.

Section Format.

Variable fy_is_print : Z -> bool.

Lemma format_style_block iter s e :
  fy_atom_style_is_block (style (it_atom iter)) = true ->
  format_style fy_is_print iter s e
  = (0, push iter (if e - s =? 0 then [] else [take (e - s) (ptr (fyi (it_atom iter)) s)])).
Proof.
  intros H. unfold format_style. rewrite <- fy_atom_iter_add_chunk_push.
  destruct (block_style_cases _ H) as [-> | ->]; reflexivity.
Qed.

Lemma take_nonempty len str : 0 < len -> take len str <> [].
Proof.
  intros H E. apply (f_equal (@length Z)) in E. rewrite take_length in E.
  cbn in E. lia.
Qed.

(** A line that is not the last one: the formatter adds its chunks and
    moves to the next line. *)
Lemma fy_atom_iter_format_line cps iter P L b W v R :
  at_line cps iter P (L ++ b :: W ++ v :: R) -> done iter = false ->
  forallb fy_utf8_is_valid (L ++ b :: W ++ [v]) = true ->
  no_lb L = true -> fy_is_lb b = true -> forallb fy_is_ws_lb W = true ->
  fy_is_ws_lb v = false ->
  exists iter' cs,
    fy_atom_iter_format fy_is_print iter = (1, iter') /\
    at_line cps iter' (P ++ L ++ [b]) (W ++ v :: R) /\
    same_base iter iter' /\ unget_c iter' = unget_c iter /\
    done iter' = false /\ read iter' = read iter /\
    chunks iter' = chunks iter ++ cs /\ Forall (fun c => c <> []) cs.
Proof.
  intros Hat Hd Hval Hl Hlb Hw Hv.
  assert (Hval' : forallb fy_utf8_is_valid (L ++ b :: W) = true /\
                  fy_utf8_is_valid v = true).
  { replace (L ++ b :: W ++ [v]) with ((L ++ b :: W) ++ [v]) in Hval
      by (rewrite <- app_assoc; reflexivity).
    rewrite forallb_app in Hval. apply andb_true_iff in Hval.
    destruct Hval as [H1 H2]. cbn in H2. rewrite andb_true_r in H2. auto. }
  destruct Hval' as [HvL Hvv].
  pose proof Hat as (Hb & _).
  destruct (at_line_break cps iter P L b W (v :: R) Hat HvL Hl Hlb Hw (conj Hvv Hv))
    as (l' & n & E & Hview & He & Hse & _ & Hat').
  destruct (line_moved_frame iter l' n) as (F1 & F2 & F3 & F4 & F5 & F6).
  set (it1 := line_moved iter l' n) in *.
  assert (Hlast : last l' = false).
  { pose proof (f_equal (fun v => snd (fst v)) Hview) as H. exact H. }
  unfold fy_atom_iter_format. rewrite E, F4, Hd.
  rewrite format_style_block
    by (destruct F1 as (-> & _); apply Hb).
  cbn [Z.ltb Z.compare]. rewrite Hlast. cbn [andb].
  assert (Hc1 : Forall (fun c : list Z => c <> [])
                  (if li_e l' - li_s l' =? 0 then []
                   else [take (li_e l' - li_s l') (ptr (fyi (it_atom it1)) (li_s l'))])).
  { destruct (_ =? 0) eqn:E0; constructor; [|constructor].
    apply take_nonempty. apply Z.eqb_neq in E0. lia. }
  assert (Hc2 : forall c : Z, Forall (fun c : list Z => c <> []) [take 1 [c]]).
  { intros c. constructor; [|constructor]. apply take_nonempty. lia. }
  destruct (need_sep l'), (need_nl l');
    rewrite ?fy_atom_iter_add_chunk_push, ?push_push; cbn [Z.eqb];
    (eexists; eexists; split; [reflexivity|];
     split; [eapply at_line_same; [apply push_same|exact Hat']|];
     split; [exact F1|]; split; [exact F5|];
     split; [exact (eq_trans F4 Hd)|]; split; [exact F3|];
     split; [exact (f_equal (fun x => x ++ _) F2)|]);
    rewrite ?Forall_app; auto.
Qed.

End Format.

(** *** The lines after the last line of content *)

Lemma view_inv l a b c d e f :
  view l = (a, b, c, d, e, f) ->
  li_start l = a /\ li_end l = b /\ chomp_start l = c /\ li_empty l = d /\
  last l = e /\ lb_end l = f.
Proof. unfold view. intros H. injection H. auto 10. Qed.

Lemma forallb_lb_ws_lb B : forallb fy_is_lb B = true -> forallb fy_is_ws_lb B = true.
Proof.
  intros H. rewrite forallb_forall in *. intros x Hx. unfold fy_is_ws_lb.
  rewrite (H x Hx). apply orb_true_r.
Qed.

Lemma chomp_of_nil chomp Q : chomp_of chomp Q [] = blen Q.
Proof. unfold chomp_of. cbn. rewrite app_nil_r. reflexivity. Qed.

Lemma trailing_over cps iter : trailing cps iter [] -> line_over iter.
Proof. intros [[Q H]|[_ H]]; [eapply at_line_over; eauto|exact H]. Qed.

(** The step over an empty line. *)
Lemma trailing_step cps iter b B :
  trailing cps iter (b :: B) ->
  fy_utf8_is_valid b = true -> forallb fy_utf8_is_valid B = true ->
  fy_is_lb b = true -> forallb fy_is_lb B = true ->
  exists l' n,
    fy_atom_iter_line iter = (Some l', line_moved iter l' n) /\
    the (chomp_start l') = the (li_end l') /\ lb_end l' = true /\
    trailing cps (line_moved iter l' n) B.
Proof.
  intros [[Q Hat]|[H _]] Hvb HvB Hb HB; [|discriminate].
  rewrite <- (app_nil_r B) in Hat.
  destruct (at_line_break cps iter Q [] b B [] Hat) as (l' & n & E & Hv & _ & _ & _ & Hat');
    auto using forallb_lb_ws_lb.
  { cbn [app forallb]. rewrite Hvb, HvB. reflexivity. }
  exists l', n. apply view_inv in Hv. destruct Hv as (_ & V2 & V3 & _ & _ & V6).
  split; [exact E|]. rewrite V2, V3, V6, chomp_of_nil, app_nil_r.
  repeat split. left. exists (Q ++ [] ++ [b]). rewrite app_nil_r in Hat'. exact Hat'.
Qed.

Lemma chomp_keep_breaks cps B : forall iter fuel,
  trailing cps iter B ->
  forallb fy_utf8_is_valid B = true -> forallb fy_is_lb B = true ->
  (length B < fuel)%nat ->
  exists iter',
    chomp_keep fuel iter = Some iter' /\
    chunks iter' = chunks iter ++ repeat [10] (length B) /\
    read iter' = read iter /\ done iter' = done iter /\
    unget_c iter' = unget_c iter.
Proof.
  induction B as [|b B IH]; intros iter fuel Ht Hv Hl Hf;
    (destruct fuel as [|fuel]; [cbn in Hf; lia|]); cbn [chomp_keep].
  - rewrite (fy_atom_iter_line_none iter (trailing_over _ _ Ht)).
    eexists. split; [reflexivity|]. cbn. rewrite app_nil_r. auto.
  - cbn [forallb] in Hv, Hl.
    apply andb_true_iff in Hv. destruct Hv as [Hvb Hv].
    apply andb_true_iff in Hl. destruct Hl as [Hlb Hl].
    destruct (trailing_step cps iter b B Ht Hvb Hv Hlb Hl) as (l' & n & E & Hc & Hle & Ht').
    rewrite E, Hc, Z.ltb_irrefl, andb_false_r, Hle.
    destruct (line_moved_frame iter l' n) as (F1 & F2 & F3 & F4 & F5 & F6).
    destruct (IH (fy_atom_iter_add_chunk (line_moved iter l' n) [10] 1) fuel)
      as (iter' & E' & C1 & C2 & C3 & C4); auto.
    { cbn in Hf. lia. }
    exists iter'. split; [exact E'|].
    rewrite C1, C2, C3, C4.
    cbn [fy_atom_iter_add_chunk Z.eqb set_chunks chunks read done unget_c].
    rewrite F2, F3, F4, F5, <- app_assoc. repeat split.
Qed.

Lemma chomp_strip_clip_breaks cps B : forall iter fuel pending_nl,
  trailing cps iter B ->
  forallb fy_utf8_is_valid B = true -> forallb fy_is_lb B = true ->
  (length B < fuel)%nat ->
  exists iter',
    chomp_strip_clip fuel iter pending_nl
    = Some (iter', pending_nl + (if it_empty iter then 0 else Z.of_nat (length B))) /\
    chunks iter' = chunks iter /\ read iter' = read iter /\ done iter' = done iter /\
    unget_c iter' = unget_c iter.
Proof.
  induction B as [|b B IH]; intros iter fuel pending_nl Ht Hv Hl Hf;
    (destruct fuel as [|fuel]; [cbn in Hf; lia|]); cbn [chomp_strip_clip].
  - rewrite (fy_atom_iter_line_none iter (trailing_over _ _ Ht)).
    assert (E0 : pending_nl + (if it_empty iter then 0
                               else Z.of_nat (length (@nil Z))) = pending_nl)
      by (cbn [length]; destruct (it_empty iter); lia).
    rewrite E0. eexists. split; [reflexivity|cbn; auto].
  - cbn [forallb] in Hv, Hl.
    apply andb_true_iff in Hv. destruct Hv as [Hvb Hv].
    apply andb_true_iff in Hl. destruct Hl as [Hlb Hl].
    destruct (trailing_step cps iter b B Ht Hvb Hv Hlb Hl) as (l' & n & E & Hc & Hle & Ht').
    rewrite E, Hc, Z.ltb_irrefl, andb_false_r, Hle.
    destruct (line_moved_frame iter l' n) as (F1 & F2 & F3 & F4 & F5 & F6).
    assert (Hem : it_empty (line_moved iter l' n) = it_empty iter)
      by (destruct F1 as (_ & _ & _ & _ & _ & F); exact F).
    rewrite Hem. cbn [andb].
    match goal with |- context [chomp_strip_clip fuel _ ?p] =>
      destruct (IH (line_moved iter l' n) fuel p)
        as (iter' & E' & C1 & C2 & C3 & C4); auto
    end.
    { cbn in Hf. lia. }
    exists iter'. rewrite E', Hem. split; [|rewrite C1, C2, C3, C4; auto].
    f_equal. f_equal. change (length (b :: B)) with (S (length B)).
    destruct (it_empty iter); cbn [negb]; lia.
Qed.

(** *** The last line of content *)

Lemma has_visible_not_ws body :
  has_visible body = true -> forallb fy_is_ws body = false /\ body <> [].
Proof.
  unfold has_visible. intros H. apply existsb_exists in H.
  destruct H as (c & Hin & Hc). apply negb_true_iff in Hc.
  unfold fy_is_ws_lb in Hc. apply orb_false_iff in Hc. destruct Hc as [Hc _].
  split.
  - destruct (forallb fy_is_ws body) eqn:E; [|reflexivity].
    rewrite forallb_forall in E. rewrite (E c Hin) in Hc. discriminate.
  - intros ->. destruct Hin.
Qed.

Lemma take_app_exact a b : take (Z.of_nat (length a)) (a ++ b) = a.
Proof.
  induction a as [|x a IH]; [reflexivity|].
  change (length (x :: a)) with (S (length a)). rewrite take_succ.
  cbn [app deref nth tl]. rewrite IH. reflexivity.
Qed.

(** The step over the last line of content [L], which the line breaks
    [breaks] follow. *)
Lemma at_line_last cps iter P L breaks :
  at_line cps iter P (L ++ breaks) -> L <> [] ->
  forallb fy_utf8_is_valid (L ++ breaks) = true ->
  no_lb L = true -> forallb fy_is_lb breaks = true ->
  forallb fy_is_ws L = false -> chomp_of (it_chomp iter) P L <= blen (P ++ L) ->
  exists l' n,
    fy_atom_iter_line iter = (Some l', line_moved iter l' n) /\
    li_empty l' = false /\ last l' = true /\ lb_end l' = negb (is_nil breaks) /\
    li_e l' = blen (P ++ L) /\ li_s l' = chomp_of (it_chomp iter) P L /\
    trailing cps (line_moved iter l' n) (tl breaks).
Proof.
  intros Hat Hne Hval Hl Hlb Hws Hle.
  pose proof Hval as Hval'. rewrite forallb_app in Hval'.
  apply andb_true_iff in Hval'. destruct Hval' as [HvL HvB].
  destruct breaks as [|b B].
  - rewrite app_nil_r in *.
    destruct (at_line_end cps iter P L Hat Hne HvL Hl)
      as (l' & n & E & Hv & He & Hs & Hover & _).
    apply view_inv in Hv. destruct Hv as (_ & _ & _ & V4 & V5 & V6).
    exists l', n. rewrite V4, V5, V6. repeat split; auto.
    right. auto.
  - cbn [forallb] in Hlb. apply andb_true_iff in Hlb. destruct Hlb as [Hb HB].
    rewrite <- (app_nil_r B) in Hat.
    destruct (at_line_break cps iter P L b B [] Hat)
      as (l' & n & E & Hv & He & _ & Hs & Hat'); auto using forallb_lb_ws_lb.
    apply view_inv in Hv. destruct Hv as (_ & _ & _ & V4 & V5 & V6).
    exists l', n. rewrite V4, V5, V6. repeat split; auto.
    left. exists (P ++ L ++ [b]). rewrite app_nil_r in Hat'. exact Hat'.
Qed.

Section FormatLast.

Variable fy_is_print : Z -> bool.

Lemma fy_atom_iter_format_last cps iter P body breaks :
  let inc := it_chomp iter in
  at_line cps iter P (repeat 32 (Z.to_nat inc) ++ body ++ breaks) ->
  0 <= inc -> done iter = false -> chunks iter = [] -> read iter = 0%nat ->
  forallb fy_utf8_is_valid (body ++ breaks) = true ->
  no_lb body = true -> has_visible body = true ->
  forallb fy_is_lb breaks = true ->
  exists iter',
    fy_atom_iter_format fy_is_print iter = (1, iter') /\
    done iter' = true /\ read iter' = 0%nat /\
    unget_c iter' = unget_c iter /\
    chunks iter'
    = utf8_encode body
      :: repeat [10] (chomped (chomp (it_atom iter)) (length breaks)).
Proof.
  intros inc Hat H0 Hd Hc Hr Hval Hl Hvis Hlb.
  destruct (has_visible_not_ws body Hvis) as [Hws Hne].
  set (L := repeat 32 (Z.to_nat inc) ++ body).
  assert (HL : L <> []).
  { subst L. intros E. apply app_eq_nil in E. destruct E. contradiction. }
  assert (HvL : forallb fy_utf8_is_valid (L ++ breaks) = true).
  { subst L. rewrite <- app_assoc, forallb_app, valid_spaces. exact Hval. }
  assert (HlL : no_lb L = true).
  { subst L. unfold no_lb. rewrite forallb_app. fold (no_lb (repeat 32 (Z.to_nat inc))).
    rewrite no_lb_spaces. exact Hl. }
  assert (HwL : forallb fy_is_ws L = false).
  { subst L. rewrite forallb_app, Hws. apply andb_false_r. }
  assert (Hco : chomp_of inc P L = blen P + inc).
  { subst L. apply chomp_of_indent; assumption. }
  assert (HbL : blen (P ++ L) = blen P + inc + blen body).
  { subst L. rewrite !blen_app, blen_spaces. lia. }
  pose proof (blen_nonneg body) as Hbn.
  assert (Hbody : 0 < blen body).
  { pose proof (blen_length body). destruct body; [congruence|]. cbn [length] in *. lia. }
  rewrite app_assoc in Hat. fold L in Hat.
  pose proof Hat as (Hb & Hcps & _).
  destruct (at_line_last cps iter P L breaks Hat HL HvL HlL Hlb HwL)
    as (l' & n & E & Hem & Hlast & Hle & He & Hs & Ht).
  { fold inc. rewrite Hco, HbL. lia. }
  fold inc in Hs. rewrite Hco in Hs.
  destruct (line_moved_frame iter l' n) as (F1 & F2 & F3 & F4 & F5 & F6).
  set (it1 := line_moved iter l' n) in *.
  pose proof (block_iter_base _ _ _ F1 Hb) as Hb1.
  pose proof Hb1 as (Hblock & _ & Hdata & Hs0 & Hend).
  unfold fy_atom_iter_format. rewrite E, F4, Hd.
  rewrite format_style_block by exact Hblock.
  cbn [Z.ltb Z.compare]. rewrite Hlast.
  rewrite (proj1 Hb). cbn [andb].
  rewrite He, Hs, HbL.
  replace (blen P + inc + blen body - (blen P + inc)) with (blen body) by lia.
  assert (E0 : (blen body =? 0) = false) by (apply Z.eqb_neq; lia). rewrite E0.
  assert (Hchunk : take (blen body) (ptr (fyi (it_atom it1)) (blen P + inc))
                   = utf8_encode body).
  { rewrite Hdata, Hcps. subst L.
    replace (blen P + inc) with (blen (P ++ repeat 32 (Z.to_nat inc)))
      by (rewrite blen_app, blen_spaces; lia).
    rewrite <- !app_assoc, app_assoc, ptr_blen, utf8_encode_app.
    apply take_app_exact. }
  rewrite Hchunk.
  set (it2 := push it1 [utf8_encode body]).
  assert (Hfuel : (length (tl breaks) < line_fuel it2)%nat).
  { unfold line_fuel. change (it_e it2) with (it_e it1). change (it_s it2) with (it_s it1).
    rewrite Hs0, Hend, Hcps.
    pose proof (blen_length (P ++ L ++ breaks)) as B. rewrite !length_app in B.
    destruct breaks; cbn [tl length] in *; lia. }
  assert (HvB : forallb fy_utf8_is_valid (tl breaks) = true).
  { rewrite forallb_app in Hval. apply andb_true_iff in Hval. destruct Hval as [_ Hv].
    destruct breaks; [reflexivity|]. cbn in Hv. apply andb_true_iff in Hv. apply Hv. }
  assert (HlB : forallb fy_is_lb (tl breaks) = true).
  { destruct breaks; [reflexivity|]. cbn in Hlb. apply andb_true_iff in Hlb. apply Hlb. }
  assert (Hch2 : chunks it2 = [utf8_encode body]).
  { subst it2. cbn [push set_chunks chunks]. rewrite F2, Hc. reflexivity. }
  assert (Hr2 : read it2 = 0%nat) by (subst it2; cbn [push set_chunks read]; congruence).
  assert (Hu2 : unget_c it2 = unget_c iter) by exact F5.
  destruct (chomp (it_atom iter)) eqn:Ech; rewrite ?Hem.
  - (* strip *)
    destruct (chomp_strip_clip_breaks cps (tl breaks) it2 (line_fuel it2) 1)
      as (it3 & E3 & C1 & C2 & C3 & C4); auto.
    rewrite E3. eexists. split; [reflexivity|].
    cbn [set_done done read chunks unget_c]. rewrite C1, C2, C4, Hch2, Hr2. auto.
  - (* clip *)
    destruct (chomp_strip_clip_breaks cps (tl breaks) it2 (line_fuel it2) 1)
      as (it3 & E3 & C1 & C2 & C3 & C4); auto.
    rewrite E3.
    assert (E1 : (1 + (if it_empty it2 then 0 else Z.of_nat (length (tl breaks))) =? 0)
                 = false).
    { apply Z.eqb_neq. destruct (it_empty it2); lia. }
    rewrite E1. eexists. split; [reflexivity|].
    cbn [set_done done read chunks fy_atom_iter_add_chunk Z.eqb set_chunks unget_c].
    rewrite C1, C2, C4, Hch2, Hr2. auto.
  - (* keep *)
    rewrite Hle.
    set (it2' := if negb (is_nil breaks) then fy_atom_iter_add_chunk it2 [10] 1 else it2).
    assert (Ht2 : trailing cps it2' (tl breaks)).
    { subst it2'. destruct (negb (is_nil breaks)); exact Ht. }
    assert (Hf2 : (length (tl breaks) < line_fuel it2')%nat).
    { subst it2'. destruct (negb (is_nil breaks)); exact Hfuel. }
    destruct (chomp_keep_breaks cps (tl breaks) it2' (line_fuel it2') Ht2 HvB HlB Hf2)
      as (it3 & E3 & C1 & C2 & C3 & C4).
    rewrite E3. eexists. split; [reflexivity|].
    cbn [set_done done read chunks unget_c]. rewrite C1, C2, C4.
    subst it2'. destruct breaks as [|b B]; cbn [is_nil negb tl length chomped repeat].
    + rewrite Hch2, Hr2. auto.
    + cbn [fy_atom_iter_add_chunk Z.eqb set_chunks chunks read unget_c].
      rewrite Hch2, Hr2. auto.
Qed.

End FormatLast.

(** *** All the lines *)

Lemma first_such (p : Z -> bool) l :
  existsb p l = true ->
  exists a x b, l = a ++ x :: b /\ forallb (fun c => negb (p c)) a = true /\ p x = true.
Proof.
  induction l as [|c l IH]; [discriminate|].
  cbn [existsb]. destruct (p c) eqn:E.
  - intros _. exists [], c, l. auto.
  - cbn [orb]. intros H. destruct (IH H) as (a & x & b & -> & Ha & Hx).
    exists (c :: a), x, b. cbn [forallb]. rewrite E, Ha. auto.
Qed.

Lemma whole_lines_break pre :
  whole_lines pre = true -> pre <> [] -> existsb fy_is_lb pre = true.
Proof.
  unfold whole_lines. intros H Hne.
  destruct (rev pre) as [|c r] eqn:E.
  - apply (f_equal (@rev Z)) in E. rewrite rev_involutive in E. contradiction.
  - apply existsb_exists. exists c. split; [|exact H].
    apply in_rev. rewrite E. left. reflexivity.
Qed.

Lemma whole_lines_tail L b R :
  whole_lines (L ++ b :: R) = true -> whole_lines R = true.
Proof.
  unfold whole_lines. rewrite rev_app_distr. cbn [rev]. rewrite <- app_assoc.
  destruct (rev R) as [|c r]; [reflexivity|]. cbn. auto.
Qed.

Lemma first_visible l :
  has_visible l = true ->
  exists W v R, l = W ++ v :: R /\ forallb fy_is_ws_lb W = true /\
                fy_is_ws_lb v = false.
Proof.
  intros H. destruct (first_such _ l H) as (W & v & R & -> & HW & Hv).
  exists W, v, R. split; [reflexivity|]. split.
  - rewrite forallb_forall in *. intros x Hx. specialize (HW x Hx).
    rewrite negb_involutive in HW. exact HW.
  - apply negb_true_iff in Hv. exact Hv.
Qed.

Lemma concat_breaks k : concat (repeat [10] k) = repeat 10 k.
Proof. induction k as [|k IH]; [reflexivity|]. cbn. rewrite IH. reflexivity. Qed.

Ltac forallb_parts :=
  repeat (rewrite forallb_app in * || (progress cbn [forallb] in * ));
  rewrite ?andb_true_iff in *; tauto.

Section Produces.

Variable fy_is_print : Z -> bool.

(** The iterator produces the last line of content and the line breaks
    that the chomp mode leaves, after whatever the lines before give. *)
Lemma produces_block cps body breaks n : forall pre iter P,
  (length pre <= n)%nat ->
  let inc := it_chomp iter in
  at_line cps iter P (block_text inc pre body breaks) ->
  0 <= inc -> done iter = false -> chunks iter = [] -> read iter = 0%nat ->
  forallb fy_utf8_is_valid (pre ++ body ++ breaks) = true ->
  whole_lines pre = true ->
  no_lb body = true -> has_visible body = true ->
  forallb fy_is_lb breaks = true ->
  exists front k,
    (k <= length pre + 2)%nat /\
    produces fy_is_print k iter
      (front ++ utf8_encode body
       ++ repeat 10 (chomped (chomp (it_atom iter)) (length breaks))).
Proof.
  induction n as [|n IH]; intros pre iter P Hn inc Hat H0 Hd Hc Hr Hval Hw Hl Hvis Hlb.
  - destruct pre; [|cbn in Hn; lia]. unfold block_text in Hat. cbn [app] in *.
    destruct (fy_atom_iter_format_last fy_is_print cps iter P body breaks
                Hat H0 Hd Hc Hr Hval Hl Hvis Hlb) as (it' & E & D1 & D2 & Du & D3).
    assert (Hfuel : (2 <= line_fuel iter)%nat) by (unfold line_fuel; lia).
    exists [], 2%nat. split; [cbn; lia|]. cbn [app]. rewrite <- concat_breaks.
    change (utf8_encode body ++ concat (repeat [10] ?k))
      with (concat (utf8_encode body :: repeat [10] k)).
    rewrite <- D3, <- (app_nil_r (concat (chunks it'))).
    eapply produces_line; [exact E|exact D2| |exact Du|exact Hfuel|].
    + rewrite D3. constructor.
      * destruct (has_visible_not_ws body Hvis) as [_ Hne].
        destruct body; [congruence|]. rewrite utf8_encode_cons.
        intros E0. apply app_eq_nil in E0. destruct E0 as [E0 _].
        apply (f_equal (@length Z)) in E0.
        pose proof (fy_utf8_put_length z). pose proof (fy_utf8_width_pos z).
        cbn [length] in E0. lia.
      * clear. induction (chomped _ _); constructor; [discriminate|assumption].
    + destruct (fy_atom_iter_format_done fy_is_print (fy_atom_iter_chunk_reset it'))
        as (it'' & E' & C1 & C2 & C3 & C4); [exact D1|].
      eapply produces_end; [exact E'|exact C3|exact C1|exact C2|exact C4].
  - destruct pre as [|c0 pre0] eqn:Epre;
      [apply (IH [] iter P); auto; cbn; lia|].
    rewrite <- Epre in *. assert (Hne : pre <> []) by (rewrite Epre; discriminate).
    clear Epre.
    destruct (first_such fy_is_lb pre (whole_lines_break pre Hw Hne))
      as (L & b & pre' & -> & HL & Hb).
    pose proof (whole_lines_tail _ _ _ Hw) as Hw'.
    unfold block_text in Hat.
    set (T := repeat 32 (Z.to_nat inc) ++ body ++ breaks) in *.
    assert (HvisT : has_visible (pre' ++ T) = true).
    { unfold has_visible, T. rewrite !existsb_app. fold (has_visible body).
      rewrite Hvis. rewrite !orb_true_r. reflexivity. }
    destruct (first_visible _ HvisT) as (W & v & R & ET & HW & Hv).
    rewrite <- app_assoc in Hat. cbn [app] in Hat. rewrite ET in Hat.
    assert (HvalT : forallb fy_utf8_is_valid (L ++ b :: pre' ++ T) = true).
    { pose proof (valid_spaces (Z.to_nat inc)) as Hsp. clear - Hval Hsp.
      subst T. forallb_parts. }
    rewrite ET in HvalT.
    assert (Hval1 : forallb fy_utf8_is_valid (L ++ b :: W ++ [v]) = true).
    { clear - HvalT. forallb_parts. }
    destruct (fy_atom_iter_format_line fy_is_print cps iter P L b W v R
                Hat Hd Hval1 HL Hb HW Hv)
      as (it' & cs & E & Hat' & Hbase & Du & D1 & D2 & D3 & D4).
    rewrite Hc in D3. cbn [app] in D3. rewrite Hr in D2.
    pose proof Hat as (Hbi & _). pose proof Hat' as (Hbi' & _).
    assert (Hinc : it_chomp it' = inc) by (destruct Hbase as (_ & _ & _ & F & _); exact F).
    assert (Hatom : it_atom it' = it_atom iter) by (destruct Hbase as (F & _); exact F).
    destruct (IH pre' (fy_atom_iter_chunk_reset it') (P ++ L ++ [b]))
      as (front & k & Hk & Hp).
    + rewrite length_app in Hn. cbn [length] in Hn. lia.
    + change (it_chomp (fy_atom_iter_chunk_reset it')) with (it_chomp it').
      rewrite Hinc. unfold block_text. fold T. rewrite <- ET in Hat'. exact Hat'.
    + change (it_chomp (fy_atom_iter_chunk_reset it')) with (it_chomp it').
      rewrite Hinc. exact H0.
    + exact D1.
    + reflexivity.
    + reflexivity.
    + clear - Hval. forallb_parts.
    + exact Hw'.
    + exact Hl.
    + exact Hvis.
    + exact Hlb.
    + change (it_atom (fy_atom_iter_chunk_reset it')) with (it_atom it') in Hp.
      rewrite Hatom in Hp.
      exists (concat cs ++ front), (S k). rewrite length_app. cbn [length].
      split; [lia|]. rewrite <- app_assoc, <- D3.
      eapply produces_line; [exact E|exact D2|rewrite D3; exact D4|exact Du| |exact Hp].
      destruct Hat as ((_ & _ & _ & Hs0 & He) & Hcps & _).
      unfold line_fuel. rewrite Hs0, He, Hcps, <- ET.
      pose proof (blen_length (P ++ L ++ b :: pre' ++ T)) as B.
      rewrite !length_app in B. cbn [length] in B.
      rewrite length_app in B. lia.
Qed.

End Produces.

(** *** From the formatter to the text *)

Lemma replace_nth_middle {A} (pre : list A) x y rem :
  replace_nth (length pre) x (pre ++ y :: rem) = pre ++ x :: rem.
Proof. induction pre as [|p pre IH]; [reflexivity|]. cbn. rewrite IH. reflexivity. Qed.

Lemma chunk_reset_clean iter :
  chunks iter = [] -> read iter = 0%nat -> fy_atom_iter_chunk_reset iter = iter.
Proof. destruct iter; cbn; intros -> ->; reflexivity. Qed.

Lemma concat_length_nonempty (cs : list (list Z)) :
  Forall (fun c => c <> []) cs -> (length cs <= length (concat cs))%nat.
Proof.
  induction 1 as [|c cs Hc _ IH]; [reflexivity|].
  cbn [concat length]. rewrite length_app. destruct c; [congruence|]. cbn [length]. lia.
Qed.

(** The chunk being read is consumed whole. *)
Lemma fy_atom_iter_advance_chunk iter pre cur rem :
  chunks iter = pre ++ cur :: rem -> read iter = length pre -> cur <> [] ->
  fy_atom_iter_advance iter (ic_len iter (length pre))
  = match rem with
    | [] => fy_atom_iter_chunk_reset iter
    | _ => set_chunks (pre ++ [] :: rem) (S (length pre)) iter
    end.
Proof.
  intros Hc Hr Hne. unfold fy_atom_iter_advance, ic_len, ic_bytes.
  rewrite Hc, Hr, nth_middle.
  replace (S (length (pre ++ cur :: rem) - length pre)) with (S (S (length rem)))
    by (rewrite length_app; cbn [length]; lia).
  cbn [advance_loop]. rewrite Hc, Hr.
  assert (L : 0 < Z.of_nat (length cur)) by (destruct cur; [congruence|cbn [length]; lia]).
  assert (E1 : (0 <? Z.of_nat (length cur)) = true) by (apply Z.ltb_lt; exact L).
  assert (E2 : (length pre <? length (pre ++ cur :: rem))%nat = true).
  { apply Nat.ltb_lt. rewrite length_app. cbn [length]. lia. }
  rewrite E1, E2. cbn [andb]. unfold ic_bytes. rewrite ?Hc, ?Hr, nth_middle.
  rewrite Z.min_id, Nat2Z.id, skipn_all, Z.sub_diag, replace_nth_middle.
  cbn [Z.ltb Z.compare andb set_chunks chunks read].
  destruct rem as [|c rem].
  - assert (E3 : (length (pre ++ [[]]) <=? S (length pre))%nat = true).
    { apply Nat.leb_le. rewrite length_app. cbn [length]. lia. }
    rewrite E3. reflexivity.
  - assert (E3 : (length (pre ++ [] :: c :: rem) <=? S (length pre))%nat = false).
    { apply Nat.leb_gt. rewrite length_app. cbn [length]. lia. }
    rewrite E3. reflexivity.
Qed.

Section Text.

Variable fy_is_print : Z -> bool.

Local Abbreviation produces := (produces fy_is_print).
Local Abbreviation chunk_next := (fy_atom_iter_chunk_next fy_is_print).
Local Abbreviation text_loop := (format_text_loop fy_is_print).

Lemma produces_fuel k iter out : produces k iter out -> (k <= line_fuel iter)%nat.
Proof. destruct 1; [unfold line_fuel; lia|assumption]. Qed.

Lemma pull_loop_produces k iter out :
  produces k iter out -> forall fuel,
  chunks iter = [] -> read iter = 0%nat -> (k <= fuel)%nat ->
  (out = [] /\
   exists iter',
     pull_loop fy_is_print fuel iter = (0, iter') /\
     done iter' = true /\ chunks iter' = [] /\ read iter' = 0%nat /\
     unget_c iter' = unget_c iter)
  \/
  (exists iter' c cs k' out',
     pull_loop fy_is_print fuel iter = (1, iter') /\
     chunks iter' = c :: cs /\ read iter' = 0%nat /\
     unget_c iter' = unget_c iter /\
     Forall (fun c => c <> []) (c :: cs) /\
     out = concat (c :: cs) ++ out' /\
     produces k' (fy_atom_iter_chunk_reset iter') out' /\ (k' < k)%nat).
Proof.
  induction 1 as [iter iter' E D C R U|k iter iter' out E R F U Hk Hp IH];
    intros fuel Hc Hr Hf; (destruct fuel as [|fuel]; [lia|]); cbn [pull_loop]; rewrite E.
  - left. split; [reflexivity|]. eexists. split; [reflexivity|]. auto.
  - cbn [Z.leb Z.compare]. unfold fy_atom_iter_peek_chunk. rewrite R.
    destruct (chunks iter') as [|c cs] eqn:Ech.
    + cbn [length Nat.ltb Nat.leb].
      rewrite (chunk_reset_clean iter' Ech R) in IH, Hp.
      destruct (IH fuel Ech R)
        as [[-> (it2 & E2 & H)]|(it2 & c & cs & k' & out' & E2 & H)]; [lia| |].
      * left. split; [reflexivity|]. exists it2. split; [exact E2|].
        destruct H as (H1 & H2 & H3 & H4). repeat split; auto; congruence.
      * right. exists it2, c, cs, k', out'. split; [exact E2|].
        destruct H as (H1 & H2 & H3 & H4 & H5 & H6 & H7).
        repeat split; auto; try congruence; lia.
    + cbn [length Nat.ltb Nat.leb]. right.
      exists iter', c, cs, k, out. rewrite Ech. repeat split; auto.
Qed.

Lemma chunk_next_clean iter curr :
  chunks iter = [] -> read iter = 0%nat ->
  chunk_next iter curr
  = let '(ret, iter') := pull_loop fy_is_print (line_fuel iter) iter in
    if ret <=? 0 then (None, if ret <? 0 then -1 else 0, iter')
    else (fy_atom_iter_peek_chunk iter', 0, iter').
Proof.
  intros Hc Hr. unfold fy_atom_iter_chunk_next, fy_atom_iter_peek_chunk.
  rewrite Hc, Hr. cbn [length Nat.ltb Nat.leb].
  assert (E : forall A (x : A), match curr with Some _ => x | None => x end = x)
    by (intros; destruct curr; reflexivity).
  rewrite !E. rewrite Hc, Hr. cbn [length Nat.ltb Nat.leb]. rewrite !E.
  unfold fy_atom_iter_pull. rewrite (chunk_reset_clean iter Hc Hr). reflexivity.
Qed.

Lemma chunk_next_more iter pre cur c rem :
  chunks iter = pre ++ cur :: c :: rem -> read iter = length pre -> cur <> [] ->
  chunk_next iter (Some (length pre))
  = (Some (S (length pre)), 0,
     set_chunks (pre ++ [] :: c :: rem) (S (length pre)) iter).
Proof.
  intros Hc Hr Hne. unfold fy_atom_iter_chunk_next.
  assert (P1 : fy_atom_iter_peek_chunk iter = Some (length pre)).
  { unfold fy_atom_iter_peek_chunk. rewrite Hc, Hr.
    assert (E : (length pre <? length (pre ++ cur :: c :: rem))%nat = true).
    { apply Nat.ltb_lt. rewrite length_app. cbn [length]. lia. }
    rewrite E. reflexivity. }
  rewrite P1, Nat.eqb_refl.
  rewrite (fy_atom_iter_advance_chunk iter pre cur (c :: rem) Hc Hr Hne).
  unfold fy_atom_iter_peek_chunk. cbn [set_chunks chunks read].
  assert (E : (S (length pre) <? length (pre ++ [] :: c :: rem))%nat = true).
  { apply Nat.ltb_lt. rewrite length_app. cbn [length]. lia. }
  rewrite E. reflexivity.
Qed.

Lemma chunk_next_last iter pre cur :
  chunks iter = pre ++ [cur] -> read iter = length pre -> cur <> [] ->
  chunk_next iter (Some (length pre))
  = chunk_next (fy_atom_iter_chunk_reset iter) (Some (length pre)).
Proof.
  intros Hc Hr Hne.
  rewrite (chunk_next_clean (fy_atom_iter_chunk_reset iter)) by reflexivity.
  unfold fy_atom_iter_chunk_next.
  assert (P1 : fy_atom_iter_peek_chunk iter = Some (length pre)).
  { unfold fy_atom_iter_peek_chunk. rewrite Hc, Hr.
    assert (E : (length pre <? length (pre ++ [cur]))%nat = true).
    { apply Nat.ltb_lt. rewrite length_app. cbn [length]. lia. }
    rewrite E. reflexivity. }
  rewrite P1, Nat.eqb_refl.
  rewrite (fy_atom_iter_advance_chunk iter pre cur [] Hc Hr Hne).
  unfold fy_atom_iter_peek_chunk at 1. cbn [fy_atom_iter_chunk_reset set_chunks chunks read].
  cbn [length Nat.ltb Nat.leb]. unfold fy_atom_iter_pull. reflexivity.
Qed.

(** The chunks that one call of the formatter left are copied in turn. *)
Lemma format_text_loop_chunks rem : forall iter pre cur acc room fuel,
  chunks iter = pre ++ cur :: rem -> read iter = length pre -> cur <> [] ->
  Forall (fun c => c <> []) rem ->
  Z.of_nat (length (concat rem)) <= room ->
  text_loop (length rem + fuel) iter (Some (length pre)) acc room
  = text_loop fuel (fy_atom_iter_chunk_reset iter) (Some (length pre + length rem)%nat)
      (acc ++ concat rem) (room - Z.of_nat (length (concat rem))).
Proof.
  induction rem as [|c rem IH]; intros iter pre cur acc room fuel Hc Hr Hne HF Hroom.
  - cbn [length concat Nat.add]. rewrite app_nil_r, Nat.add_0_r, Z.sub_0_r.
    destruct fuel as [|fuel]; [reflexivity|]. cbn [format_text_loop].
    rewrite (chunk_next_last iter pre cur Hc Hr Hne). reflexivity.
  - change (length (c :: rem) + fuel)%nat with (S (length rem + fuel)).
    cbn [format_text_loop].
    rewrite (chunk_next_more iter pre cur c rem Hc Hr Hne).
    set (it1 := set_chunks (pre ++ [] :: c :: rem) (S (length pre)) iter).
    assert (Hb : ic_bytes it1 (S (length pre)) = c).
    { unfold ic_bytes, it1. cbn [set_chunks chunks].
      replace (pre ++ [] :: c :: rem) with ((pre ++ [[]]) ++ c :: rem)
        by (rewrite <- app_assoc; reflexivity).
      replace (S (length pre)) with (length (pre ++ [[]]))
        by (rewrite length_app; cbn [length]; lia).
      apply nth_middle. }
    unfold ic_len. rewrite Hb.
    cbn [concat] in Hroom. rewrite length_app in Hroom.
    assert (E : (room <? Z.of_nat (length c)) = false) by (apply Z.ltb_ge; lia).
    rewrite E.
    apply Forall_cons_iff in HF. destruct HF as [Hc0 HF'].
    replace (S (length pre)) with (length (pre ++ [[]]))
      by (rewrite length_app; cbn [length]; lia).
    rewrite (IH it1 (pre ++ [[]]) c); auto.
    + change (fy_atom_iter_chunk_reset it1) with (fy_atom_iter_chunk_reset iter).
      cbn [concat]. rewrite !length_app, <- app_assoc. cbn [length].
      f_equal; [f_equal|]; lia.
    + unfold it1. cbn [set_chunks chunks]. rewrite <- app_assoc. reflexivity.
    + unfold it1. cbn [set_chunks read]. rewrite length_app. cbn [length]. lia.
    + lia.
Qed.

(** The text is what the calls of the formatter produce. *)
Lemma format_text_loop_produces k : forall iter curr acc room out fuel,
  produces k iter out -> chunks iter = [] -> read iter = 0%nat ->
  Z.of_nat (length out) <= room -> (length out + k < fuel)%nat ->
  text_loop fuel iter curr acc room = Some (acc ++ out, Some 0).
Proof.
  induction k as [k IH] using lt_wf_ind.
  intros iter curr acc room out fuel Hp Hc Hr Hroom Hf.
  destruct fuel as [|fuel]; [lia|]. cbn [format_text_loop].
  rewrite (chunk_next_clean iter curr Hc Hr).
  destruct (pull_loop_produces k iter out Hp (line_fuel iter) Hc Hr (produces_fuel _ _ _ Hp))
    as [[-> (it' & E & _)]
       |(it' & c & cs & k' & out' & E & Hch & Hrd & _ & HF & -> & Hp' & Hk)];
    rewrite E.
  - cbn [Z.leb Z.compare Z.ltb]. rewrite app_nil_r. reflexivity.
  - cbn [Z.leb Z.compare]. unfold fy_atom_iter_peek_chunk. rewrite Hch, Hrd.
    cbn [length Nat.ltb Nat.leb]. unfold ic_len, ic_bytes. rewrite Hch. cbn [nth].
    cbn [concat] in *. rewrite !length_app in *.
    apply Forall_cons_iff in HF. destruct HF as [Hc0 HF'].
    pose proof (concat_length_nonempty cs HF') as Hcs.
    assert (E1 : (room <? Z.of_nat (length c)) = false) by (apply Z.ltb_ge; lia).
    rewrite E1.
    replace fuel with (length cs + (fuel - length cs))%nat by lia.
    rewrite (format_text_loop_chunks cs it' [] c); auto; [|lia].
    rewrite (IH k' Hk _ _ _ _ out'); auto.
    + rewrite <- !app_assoc. reflexivity.
    + lia.
    + destruct c; [congruence|]. cbn [length] in *. lia.
Qed.

End Text.

(** *** From the formatter to the bytes of [getc] *)

(** One byte of the chunk being read is consumed. *)
Lemma fy_atom_iter_advance_byte iter pre b cur rem :
  chunks iter = pre ++ (b :: cur) :: rem -> read iter = length pre ->
  fy_atom_iter_advance iter 1
  = match cur, rem with
    | [], [] => fy_atom_iter_chunk_reset iter
    | [], _ => set_chunks (pre ++ [] :: rem) (S (length pre)) iter
    | _, _ => set_chunks (pre ++ cur :: rem) (length pre) iter
    end.
Proof.
  intros Hc Hr. unfold fy_atom_iter_advance.
  rewrite Hc, Hr.
  replace (S (length (pre ++ (b :: cur) :: rem) - length pre)) with (S (S (length rem)))
    by (rewrite length_app; cbn [length]; lia).
  cbn [advance_loop]. rewrite ?Hc, ?Hr.
  assert (E2 : (length pre <? length (pre ++ (b :: cur) :: rem))%nat = true).
  { apply Nat.ltb_lt. rewrite length_app. cbn [length]. lia. }
  rewrite E2. cbn [Z.ltb Z.compare andb]. unfold ic_bytes. rewrite ?Hc, ?Hr, nth_middle.
  assert (E1 : Z.min 1 (Z.of_nat (length (b :: cur))) = 1) by (cbn [length]; lia).
  rewrite E1. cbn [Z.to_nat Pos.to_nat Pos.iter_op Nat.add skipn Z.sub Z.add Z.opp
                   Z.pos_sub Z.ltb Z.compare andb].
  rewrite replace_nth_middle.
  change (skipn (Pos.to_nat 1) (b :: cur)) with cur.
  destruct cur as [|b' cur]; cbn [set_chunks chunks read].
  - destruct rem as [|c rem].
    + assert (E3 : (length (pre ++ [[]]) <=? S (length pre))%nat = true).
      { apply Nat.leb_le. rewrite length_app. cbn [length]. lia. }
      rewrite E3. reflexivity.
    + assert (E3 : (length (pre ++ [] :: c :: rem) <=? S (length pre))%nat = false).
      { apply Nat.leb_gt. rewrite length_app. cbn [length]. lia. }
      rewrite E3. reflexivity.
  - assert (E3 : (length (pre ++ (b' :: cur) :: rem) <=? length pre)%nat = false).
    { apply Nat.leb_gt. rewrite length_app. cbn [length]. lia. }
    rewrite E3. destruct rem; reflexivity.
Qed.

Section Getc.

Variable fy_is_print : Z -> bool.

Local Abbreviation produces := (produces fy_is_print).
Local Abbreviation getc := (fy_atom_iter_getc fy_is_print).

(** [getc] takes the first byte of the chunk being read. *)
Lemma fy_atom_iter_getc_chunk iter pre b cur rem :
  chunks iter = pre ++ (b :: cur) :: rem -> read iter = length pre ->
  unget_c iter = -1 ->
  getc iter = (uint8 b, fy_atom_iter_advance iter 1).
Proof.
  intros Hc Hr Hu. unfold fy_atom_iter_getc. rewrite Hu. cbn [Z.eqb negb].
  rewrite Pos.eqb_refl. cbn [negb].
  unfold fy_atom_iter_read.
  cbn [Z.to_nat Pos.to_nat Pos.iter_op Nat.add Nat.mul read_loop Z.ltb Z.compare].
  assert (P1 : fy_atom_iter_peek_chunk iter = Some (length pre)).
  { unfold fy_atom_iter_peek_chunk. rewrite Hc, Hr.
    assert (E : (length pre <? length (pre ++ (b :: cur) :: rem))%nat = true).
    { apply Nat.ltb_lt. rewrite length_app. cbn [length]. lia. }
    rewrite E. reflexivity. }
  rewrite P1.
  assert (E1 : Z.min 1 (ic_len iter (length pre)) = 1).
  { unfold ic_len, ic_bytes. rewrite Hc, nth_middle. cbn [length]. lia. }
  rewrite E1. cbn [Z.sub Z.add Z.opp Z.pos_sub Z.ltb Z.compare Z.eqb].
  change (Pos.to_nat 1 + (Pos.to_nat 1 + 0))%nat with 2%nat.
  cbn [read_loop Z.ltb Z.compare Z.eqb]. rewrite Pos.eqb_refl. cbn [negb].
  unfold ic_bytes. rewrite Hc, nth_middle. reflexivity.
Qed.

Lemma uint8_range b : 0 <= uint8 b <= 255.
Proof.
  unfold uint8. replace (Z.land b 0xff) with (b mod 256).
  - pose proof (Z.mod_pos_bound b 256 ltac:(lia)). lia.
  - change 0xff with (Z.ones 8). rewrite Z.land_ones by lia. reflexivity.
Qed.

Lemma fy_atom_iter_getc_end iter iter' :
  chunks iter = [] -> read iter = 0%nat -> unget_c iter = -1 ->
  pull_loop fy_is_print (line_fuel iter) iter = (0, iter') ->
  getc iter = (-1, iter').
Proof.
  intros Hc Hr Hu E. unfold fy_atom_iter_getc. rewrite Hu. cbn [Z.eqb negb].
  rewrite Pos.eqb_refl. cbn [negb].
  unfold fy_atom_iter_read.
  cbn [Z.to_nat Pos.to_nat Pos.iter_op Nat.add Nat.mul read_loop Z.ltb Z.compare].
  unfold fy_atom_iter_peek_chunk at 1. rewrite Hc, Hr. cbn [length Nat.ltb Nat.leb].
  unfold fy_atom_iter_pull. rewrite (chunk_reset_clean iter Hc Hr), E.
  reflexivity.
Qed.

Lemma fy_atom_iter_getc_pull iter iter' b cur cs :
  chunks iter = [] -> read iter = 0%nat -> unget_c iter = -1 ->
  pull_loop fy_is_print (line_fuel iter) iter = (1, iter') ->
  chunks iter' = (b :: cur) :: cs -> read iter' = 0%nat ->
  getc iter = (uint8 b, fy_atom_iter_advance iter' 1).
Proof.
  intros Hc Hr Hu E Hc' Hr'. unfold fy_atom_iter_getc. rewrite Hu. cbn [Z.eqb negb].
  rewrite Pos.eqb_refl. cbn [negb].
  unfold fy_atom_iter_read.
  cbn [Z.to_nat Pos.to_nat Pos.iter_op Nat.add Nat.mul read_loop Z.ltb Z.compare].
  unfold fy_atom_iter_peek_chunk at 1. rewrite Hc, Hr. cbn [length Nat.ltb Nat.leb].
  unfold fy_atom_iter_pull. rewrite (chunk_reset_clean iter Hc Hr), E.
  cbn [Z.leb Z.compare].
  change (Pos.to_nat 1 + (Pos.to_nat 1 + 0))%nat with 2%nat.
  cbn [read_loop Z.ltb Z.compare].
  unfold fy_atom_iter_peek_chunk. rewrite Hc', Hr'. cbn [length Nat.ltb Nat.leb].
  unfold ic_len, ic_bytes. rewrite Hc'. cbn [nth length].
  assert (E1 : Z.min 1 (Z.of_nat (S (length cur))) = 1) by lia.
  rewrite E1. cbn [Z.sub Z.add Z.opp Z.pos_sub Z.ltb Z.compare Z.eqb].
  rewrite Pos.eqb_refl. reflexivity.
Qed.

(** The bytes of the chunks that are pending come out one by one. *)
Lemma decode_stream_chunks n : forall iter pre cur rem fuel,
  length (cur ++ concat rem) = n ->
  chunks iter = pre ++ cur :: rem -> read iter = length pre -> cur <> [] ->
  Forall (fun c => c <> []) rem -> unget_c iter = -1 ->
  decode_stream fy_is_print (n + fuel) iter
  = option_map (app (map uint8 (cur ++ concat rem)))
      (decode_stream fy_is_print fuel (fy_atom_iter_chunk_reset iter)).
Proof.
  induction n as [|n IH]; intros iter pre cur rem fuel Hn Hc Hr Hne HF Hu.
  - destruct cur; [congruence|discriminate].
  - destruct cur as [|b cur]; [congruence|].
    cbn [Nat.add decode_stream]. rewrite Hu. cbn [Z.eqb negb].
    rewrite Pos.eqb_refl. cbn [negb].
    rewrite (fy_atom_iter_getc_chunk iter pre b cur rem Hc Hr Hu).
    pose proof (uint8_range b) as Hb.
    assert (E : (uint8 b <? 0) = false) by (apply Z.ltb_ge; lia). rewrite E.
    rewrite (fy_atom_iter_advance_byte iter pre b cur rem Hc Hr).
    cbn [app length] in Hn. injection Hn as Hn.
    destruct cur as [|b' cur].
    + destruct rem as [|c rem].
      * cbn [app concat length] in *. subst n. cbn [Nat.add map].
        destruct (decode_stream fy_is_print fuel _); reflexivity.
      * apply Forall_cons_iff in HF. destruct HF as [Hc0 HF].
        cbn [app concat] in Hn.
        rewrite (IH (set_chunks (pre ++ [] :: c :: rem) (S (length pre)) iter)
                   (pre ++ [[]]) c rem fuel Hn).
        -- change (fy_atom_iter_chunk_reset (set_chunks _ _ iter))
             with (fy_atom_iter_chunk_reset iter).
           cbn [app concat map].
           destruct (decode_stream fy_is_print fuel _); reflexivity.
        -- cbn [set_chunks chunks]. rewrite <- app_assoc. reflexivity.
        -- cbn [set_chunks read]. rewrite length_app. cbn [length]. lia.
        -- exact Hc0.
        -- exact HF.
        -- exact Hu.
    + cbv iota.
      rewrite (IH (set_chunks (pre ++ (b' :: cur) :: rem) (length pre) iter)
                 pre (b' :: cur) rem fuel Hn).
      * change (fy_atom_iter_chunk_reset (set_chunks _ _ iter))
          with (fy_atom_iter_chunk_reset iter).
        cbn [app map].
        destruct (decode_stream fy_is_print fuel _); reflexivity.
      * reflexivity.
      * reflexivity.
      * discriminate.
      * exact HF.
      * exact Hu.
Qed.

(** [getc] delivers what the calls of the formatter produce. *)
Lemma decode_stream_produces k : forall iter out fuel,
  produces k iter out -> chunks iter = [] -> read iter = 0%nat ->
  unget_c iter = -1 -> (length out < fuel)%nat ->
  decode_stream fy_is_print fuel iter = Some (map uint8 out).
Proof.
  induction k as [k IH] using lt_wf_ind.
  intros iter out fuel Hp Hc Hr Hu Hf.
  destruct (pull_loop_produces fy_is_print k iter out Hp (line_fuel iter) Hc Hr
              (produces_fuel _ _ _ _ Hp))
    as [[-> (it' & E & D1 & D2 & D3 & D4)]
       |(it' & c & cs & k' & out' & E & Hch & Hrd & Hu' & HF & -> & Hp' & Hk)].
  - destruct fuel as [|fuel]; [cbn in Hf; lia|]. cbn [decode_stream].
    rewrite Hu. cbn [Z.eqb negb]. rewrite Pos.eqb_refl. cbn [negb].
    rewrite (fy_atom_iter_getc_end iter it' Hc Hr Hu E). cbn [Z.ltb Z.compare].
    unfold is_at_eof. rewrite D1, D2, D3, D4, Hu. reflexivity.
  - apply Forall_cons_iff in HF. destruct HF as [Hc0 HF].
    destruct c as [|b cur]; [congruence|].
    assert (Hu1 : unget_c it' = -1) by congruence.
    assert (Hs : decode_stream fy_is_print fuel iter = decode_stream fy_is_print fuel it').
    { destruct fuel as [|fuel]; [reflexivity|]. cbn [decode_stream].
      rewrite Hu, Hu1.
      rewrite (fy_atom_iter_getc_pull iter it' b cur cs Hc Hr Hu E Hch Hrd).
      rewrite (fy_atom_iter_getc_chunk it' [] b cur cs Hch Hrd Hu1). reflexivity. }
    rewrite Hs. cbn [concat] in *. rewrite length_app in Hf.
    replace fuel with (length ((b :: cur) ++ concat cs)
                       + (fuel - length ((b :: cur) ++ concat cs)))%nat by lia.
    rewrite (decode_stream_chunks _ it' [] (b :: cur) cs _ eq_refl Hch Hrd
               ltac:(discriminate) HF Hu1).
    rewrite (IH k' Hk _ out'); auto; [|lia].
    cbn [option_map]. rewrite !map_app. reflexivity.
Qed.

End Getc.

(** The chunk interface and [getc] deliver the same text, the one that the
    calls of the formatter produce. *)
Lemma fy_atom_iter_chunks_getc fy_is_print k a out :
  produces fy_is_print k (fy_atom_iter_start a) out ->
  forall fuel maxsz,
    (length out + k < fuel)%nat -> Z.of_nat (length out) <= maxsz ->
    fy_atom_format_text fy_is_print fuel (Some a) maxsz
    = Some (out, Some (Z.of_nat (length out))) /\
    decode_stream fy_is_print fuel (fy_atom_iter_start a) = Some (map uint8 out).
Proof.
  intros Hp fuel maxsz Hf Hm. split.
  - unfold fy_atom_format_text.
    rewrite (format_text_loop_produces fy_is_print k _ None [] maxsz out fuel Hp);
      auto.
  - apply (decode_stream_produces fy_is_print k); auto. lia.
Qed.

(** *** Reads that span chunks *)

(** A read that spans two chunks copies both to the start of the buffer:
    the second overwrites the first. *)
Lemma fy_atom_iter_read_two_chunks fy_is_print iter c1 c2 buf :
  chunks iter = [c1; c2] -> read iter = 0%nat -> c1 <> [] -> c2 <> [] ->
  let n1 := Z.of_nat (length c1) in
  let n2 := Z.of_nat (length c2) in
  fy_atom_iter_read fy_is_print iter buf (n1 + n2)
  = (n1 + n2, memcpy (memcpy buf c1 n1) c2 n2, fy_atom_iter_chunk_reset iter).
Proof.
  intros Hc Hr H1 H2 n1 n2.
  assert (L1 : 0 < n1) by (subst n1; destruct c1; [congruence|cbn [length]; lia]).
  assert (L2 : 0 < n2) by (subst n2; destruct c2; [congruence|cbn [length]; lia]).
  unfold fy_atom_iter_read.
  replace (S (2 * Z.to_nat (n1 + n2))) with (S (S (S (2 * Z.to_nat (n1 + n2) - 2))))
    by lia.
  cbn [read_loop].
  assert (E0 : (0 <? n1 + n2) = true) by (apply Z.ltb_lt; lia). rewrite E0.
  unfold fy_atom_iter_peek_chunk at 1. rewrite Hc, Hr. cbn [length Nat.ltb Nat.leb].
  assert (I1 : ic_len iter 0 = n1) by (unfold ic_len, ic_bytes; rewrite Hc; reflexivity).
  assert (B1 : ic_bytes iter 0 = c1) by (unfold ic_bytes; rewrite Hc; reflexivity).
  rewrite I1, B1. rewrite Z.min_r by lia.
  pose proof (fy_atom_iter_advance_chunk iter [] c1 [c2] Hc Hr H1) as A1.
  cbn [app length] in A1. rewrite I1 in A1. rewrite A1.
  set (it1 := set_chunks [[]; c2] 1 iter).
  replace (n1 + n2 - n1) with n2 by lia.
  assert (E1 : (0 <? n2) = true) by (apply Z.ltb_lt; lia). rewrite E1.
  unfold fy_atom_iter_peek_chunk at 1. cbn [it1 set_chunks chunks read length Nat.ltb Nat.leb].
  assert (I2 : ic_len it1 1 = n2) by reflexivity.
  assert (B2 : ic_bytes it1 1 = c2) by reflexivity.
  rewrite I2, B2, Z.min_id.
  pose proof (fy_atom_iter_advance_chunk it1 [[]] c2 [] eq_refl eq_refl H2) as A2.
  cbn [app length] in A2. rewrite I2 in A2. rewrite A2.
  rewrite Z.sub_diag. cbn [Z.ltb Z.compare]. rewrite Z.add_0_l. reflexivity.
Qed.

(** *** The chomp contract *)

Lemma trailing_lf_rev_repeat k x r :
  x <> 10 -> trailing_lf_rev (repeat 10 k ++ x :: r) = k.
Proof.
  intros Hx. induction k as [|k IH]; cbn [repeat app trailing_lf_rev].
  - destruct (x =? 10) eqn:E; [apply Z.eqb_eq in E; contradiction|reflexivity].
  - cbn [Z.eqb]. rewrite Pos.eqb_refl, IH. reflexivity.
Qed.

Lemma repeat_rev {A} (x : A) k : rev (repeat x k) = repeat x k.
Proof.
  induction k as [|k IH]; [reflexivity|].
  cbn [repeat rev]. rewrite IH. clear IH.
  induction k as [|k IH]; [reflexivity|]. cbn [repeat app]. rewrite IH. reflexivity.
Qed.

(** The encoding of a character that is not a line break does not end
    with a line feed. *)
Lemma fy_utf8_put_last c :
  fy_utf8_is_valid c = true -> fy_is_lb c = false ->
  exists x r, rev (fy_utf8_put_unchecked c) = x :: r /\ x <> 10.
Proof.
  intros Hv Hl. destruct (fy_utf8_put_shape c Hv) as [[_ ->]|(_ & HF & Hlen)].
  - exists c, []. split; [reflexivity|]. intros ->. discriminate.
  - destruct (rev (fy_utf8_put_unchecked c)) as [|x r] eqn:E.
    + apply (f_equal (@length Z)) in E. rewrite length_rev in E. cbn in E. lia.
    + exists x, r. split; [reflexivity|].
      assert (Hin : In x (fy_utf8_put_unchecked c)).
      { apply in_rev. rewrite E. left. reflexivity. }
      rewrite Forall_forall in HF. specialize (HF x Hin). lia.
Qed.

Lemma trailing_lf_content front body k :
  forallb fy_utf8_is_valid body = true -> no_lb body = true -> body <> [] ->
  trailing_lf (front ++ utf8_encode body ++ repeat 10 k) = k.
Proof.
  intros Hv Hl Hne. unfold trailing_lf.
  rewrite !rev_app_distr, repeat_rev, <- app_assoc.
  destruct (exists_last Hne) as (body' & c & ->).
  rewrite forallb_app in Hv. apply andb_true_iff in Hv. destruct Hv as [_ Hv].
  cbn in Hv. rewrite andb_true_r in Hv.
  unfold no_lb in Hl. rewrite forallb_app in Hl. apply andb_true_iff in Hl.
  destruct Hl as [_ Hl]. cbn in Hl. rewrite andb_true_r in Hl.
  apply negb_true_iff in Hl.
  rewrite utf8_encode_app, rev_app_distr.
  change (utf8_encode [c]) with (fy_utf8_put_unchecked c ++ []). rewrite app_nil_r.
  destruct (fy_utf8_put_last c Hv Hl) as (x & r & -> & Hx).
  cbn [app]. apply trailing_lf_rev_repeat, Hx.
Qed.

Lemma fy_atom_iter_start_block cps st ch inc lines endcol emp :
  fy_atom_style_is_block st = true ->
  let iter := fy_atom_iter_start
                (atom_of (utf8_encode cps) st ch inc lines endcol emp false) in
  at_line cps iter [] cps /\ it_chomp iter = inc /\ done iter = false /\
  chunks iter = [] /\ read iter = 0%nat /\ chomp (it_atom iter) = ch.
Proof.
  intros Hb. cbv zeta.
  assert (Hbi : block_iter cps
                  (fy_atom_iter_start
                     (atom_of (utf8_encode cps) st ch inc lines endcol emp false))).
  { unfold block_iter. split; [exact Hb|]. split; [reflexivity|].
    split; [reflexivity|]. split; [reflexivity|].
    unfold fy_atom_iter_start, fy_atom_size, fy_atom_data.
    cbn [it_e atom_of start_mark end_mark input_pos]. unfold blen. lia. }
  split; [|repeat split; reflexivity].
  split; [exact Hbi|]. split; [reflexivity|].
  eexists. exists li_zero. split; [exact Hbi|]. split; [reflexivity|].
  unfold fy_atom_iter_start, upcoming.
  cbn [current negb li li1].
  unfold fy_atom_size, fy_atom_data. cbn [atom_of start_mark end_mark input_pos].
  rewrite Z.sub_0_r. fold (blen cps). reflexivity.
Qed.

(** What the code does at the end of a block scalar.  A literal or folded
    atom whose raw text is the UTF-8 encoding of whole lines [pre], a last
    line of content made of [inc] spaces and of the characters [body] (no
    line break, at least one character that is neither white space nor a
    line break) and [n] line-break characters [breaks] is decoded, given
    enough turns and room, to a text that ends with the bytes of [body]
    followed by line feeds only: none when the chomp mode is strip, one
    when it is clip (also when [n] is 0) and [n] when it is keep (a CR-LF
    pair counts for two).  [body] does not end with a line break, so these
    are all the line breaks at the end of the text. *)
Lemma fy_atom_iter_format_chomp fy_is_print st ch inc lines endcol emp
  pre body breaks :
  fy_atom_style_is_block st = true -> 0 <= inc ->
  forallb fy_utf8_is_valid (pre ++ body ++ breaks) = true ->
  whole_lines pre = true ->
  no_lb body = true -> has_visible body = true ->
  forallb fy_is_lb breaks = true ->
  exists front fuel0,
    let a := atom_of (utf8_encode (block_text inc pre body breaks)) st ch inc
               lines endcol emp false in
    let out := front ++ utf8_encode body
               ++ repeat 10 (chomped ch (length breaks)) in
    trailing_lf out = chomped ch (length breaks) /\
    forall fuel maxsz,
      (fuel0 <= fuel)%nat -> Z.of_nat (length out) <= maxsz ->
      fy_atom_format_text fy_is_print fuel (Some a) maxsz
      = Some (out, Some (Z.of_nat (length out))).
Proof.
  intros Hb H0 Hval Hw Hl Hvis Hlb.
  destruct (fy_atom_iter_start_block (block_text inc pre body breaks) st ch inc
              lines endcol emp Hb) as (Hat & Hinc & Hd & Hc & Hr & Hch).
  set (a := atom_of _ st ch inc lines endcol emp false) in *.
  destruct (produces_block fy_is_print (block_text inc pre body breaks) body breaks
              (length pre) pre (fy_atom_iter_start a) [] (le_n _))
    as (front & k & Hk & Hp); auto.
  rewrite Hch in Hp.
  { exists front, (S (length (front ++ utf8_encode body
                              ++ repeat 10 (chomped ch (length breaks))) + k)).
    cbv zeta. split.
    + apply trailing_lf_content; auto.
      * rewrite !forallb_app in Hval. rewrite !andb_true_iff in Hval. tauto.
      * apply has_visible_not_ws, Hvis.
    + intros fuel maxsz Hf Hm. unfold fy_atom_format_text. fold a.
      rewrite (format_text_loop_produces fy_is_print k _ None [] maxsz _ fuel Hp);
        auto; lia. }
Qed.

Lemma fy_atom_iter_format_chomp_witness :
  exists front fuel0,
    let a := atom_of (utf8_encode (block_text 2 [32; 32; 97; 10] [98; 32; 99] [10; 10]))
               FYAS_FOLDED FYAC_KEEP 2 3 0 false false in
    let out := front ++ utf8_encode [98; 32; 99] ++ repeat 10 (chomped FYAC_KEEP 2) in
    trailing_lf out = chomped FYAC_KEEP 2 /\
    forall fuel maxsz,
      (fuel0 <= fuel)%nat -> Z.of_nat (length out) <= maxsz ->
      fy_atom_format_text (fun _ => true) fuel (Some a) maxsz
      = Some (out, Some (Z.of_nat (length out))).
Proof.
  apply (fy_atom_iter_format_chomp (fun _ => true) FYAS_FOLDED FYAC_KEEP 2 3 0 false
           [32; 32; 97; 10] [98; 32; 99] [10; 10]); try reflexivity. lia.
Defined.

(** C2 (the code departs from the claim).  The chomp contract fails on
    two texts.  The literal scalar whose
    raw text is two spaces and [a], with no line break after it, is decoded
    with one line feed at its end under clip, where the claim gives
    [min(1, 0) = 0] and where keep, on the same text, gives none: the branch
    of strip and clip makes a line break pending for the last line of
    content whether or not a line break ends it, a test the branch of keep
    does make.  And the literal scalar whose raw text ends with one CR-LF
    pair is decoded with two line feeds at its end under keep, where the
    same text with a lone LF gives one. *)
Theorem fy_atom_iter_format_chomp_clip :
  let block (text : list Z) (ch : fy_atom_chomp) (lines endcol : Z) :=
    fy_atom_format_text (fun _ => true) 10
      (Some (atom_of text FYAS_LITERAL ch 2 lines endcol false false)) 10 in
  trailing_lf [32; 32; 97] = 0%nat /\
  block [32; 32; 97] FYAC_CLIP 0 3 = Some ([97; 10], Some 2) /\
  block [32; 32; 97] FYAC_KEEP 0 3 = Some ([97], Some 1) /\
  block [32; 32; 97] FYAC_STRIP 0 3 = Some ([97], Some 1) /\
  block [32; 32; 97; 13; 10] FYAC_KEEP 1 0 = Some ([97; 10; 10], Some 3) /\
  block [32; 32; 97; 10] FYAC_KEEP 1 0 = Some ([97; 10], Some 2).
Proof. vm_compute. repeat split. Qed.

(** * Further properties *)

(** ** The UTF-8 helpers *)

Lemma fy_utf8_put_bytes c :
  fy_utf8_is_valid c = true ->
  Forall (fun b => 0 <= b <= 255) (fy_utf8_put_unchecked c).
Proof.
  intros Hv. pose proof (fy_utf8_is_valid_range c Hv) as R.
  destruct (fy_utf8_put_shape c Hv) as [[H ->]|(_ & HF & _)].
  - constructor; [lia|constructor].
  - eapply Forall_impl; [|exact HF]. cbn. intros b Hb. lia.
Qed.

Lemma fy_utf8_put_first c rest :
  fy_utf8_is_valid c = true ->
  fy_utf8_width_by_first_octet (uint8 (deref (fy_utf8_put_unchecked c ++ rest) 0))
  = fy_utf8_width c.
Proof.
  intros Hv.
  destruct (fy_utf8_get_put c rest (fy_utf8_width c) Hv ltac:(lia)) as [_ W].
  pose proof (fy_utf8_put_bytes c Hv) as B.
  pose proof (fy_utf8_put_length c) as L. pose proof (fy_utf8_width_pos c) as P.
  destruct (fy_utf8_put_unchecked c) as [|b bs]; [cbn in L; lia|].
  cbn [app deref nth] in *. apply Forall_cons_iff in B. destruct B as [B _].
  unfold uint8. rewrite land_byte by exact B. exact W.
Qed.

Lemma utf8_count_loop_encode cps : forall fuel n,
  Forall (fun c => fy_utf8_is_valid c = true) cps ->
  (length cps < fuel)%nat ->
  0 <= n -> n + Z.of_nat (length cps) < 2 ^ 31 ->
  utf8_count_loop fuel (utf8_encode cps) (blen cps) n
  = n + Z.of_nat (length cps).
Proof.
  induction cps as [|c cps IH]; intros fuel n Hv Hf Hn Hb;
    (destruct fuel as [|fuel]; [cbn in Hf; lia|]); cbn [utf8_count_loop].
  - cbn. lia.
  - apply Forall_cons_iff in Hv. destruct Hv as [Hc Hv].
    rewrite blen_cons, utf8_encode_cons.
    pose proof (fy_utf8_width_pos c) as P. pose proof (blen_nonneg cps) as B.
    assert (E1 : (0 <? fy_utf8_width c + blen cps) = true) by (apply Z.ltb_lt; lia).
    rewrite E1, fy_utf8_put_first by exact Hc.
    assert (E2 : (fy_utf8_width c =? 0) = false) by (apply Z.eqb_neq; lia).
    assert (E3 : (fy_utf8_width c + blen cps <? fy_utf8_width c) = false)
      by (apply Z.ltb_ge; lia).
    rewrite E2, E3. cbn [orb].
    rewrite <- fy_utf8_put_length, Nat2Z.id, skipn_app, skipn_all, Nat.sub_diag.
    cbn [skipn app].
    replace (Z.of_nat (length (fy_utf8_put_unchecked c)) + blen cps
             - Z.of_nat (length (fy_utf8_put_unchecked c))) with (blen cps) by lia.
    change (length (c :: cps)) with (S (length cps)) in *.
    rewrite to_int_id by lia.
    rewrite IH; auto; lia.
Qed.

(** X1.  [fy_utf8_count] counts the code points of well-formed text: on
    the UTF-8 encoding of valid code points, fewer than 2^31 of them, it
    returns their number. *)
Theorem fy_utf8_count_encode (cps : list Z) :
  forallb fy_utf8_is_valid cps = true ->
  Z.of_nat (length cps) < 2 ^ 31 ->
  fy_utf8_count (utf8_encode cps) (Z.of_nat (length (utf8_encode cps)))
  = Z.of_nat (length cps).
Proof.
  intros Hv Hb. unfold fy_utf8_count. fold (blen cps).
  rewrite utf8_count_loop_encode.
  - lia.
  - apply Forall_forall. rewrite forallb_forall in Hv. exact Hv.
  - pose proof (blen_length cps). lia.
  - lia.
  - lia.
Qed.

Lemma fy_utf8_count_encode_witness :
  fy_utf8_count (utf8_encode [97; 233; 8364; 128512])
    (Z.of_nat (length (utf8_encode [97; 233; 8364; 128512])))
  = Z.of_nat (length [97; 233; 8364; 128512]).
Proof.
  apply (fy_utf8_count_encode [97; 233; 8364; 128512]); [reflexivity|].
  vm_compute. reflexivity.
Defined.

Lemma utf8_count_loop_bound fuel : forall s left n,
  0 <= n -> n + Z.max left 0 < 2 ^ 31 ->
  n <= utf8_count_loop fuel s left n <= n + Z.max left 0.
Proof.
  induction fuel as [|fuel IH]; intros s left n Hn Hb; cbn [utf8_count_loop]; [lia|].
  destruct (0 <? left) eqn:E; [apply Z.ltb_lt in E|lia].
  set (w := fy_utf8_width_by_first_octet _).
  destruct ((w =? 0) || (left <? w)) eqn:E1; [lia|].
  apply orb_false_iff in E1. destruct E1 as [E1 E2].
  apply Z.eqb_neq in E1. apply Z.ltb_ge in E2.
  assert (0 <= w).
  { subst w. unfold fy_utf8_width_by_first_octet.
    repeat match goal with |- context [if ?c then _ else _] => destruct c end; lia. }
  rewrite to_int_id by lia.
  specialize (IH (skipn (Z.to_nat w) s) (left - w) (n + 1)). lia.
Qed.

(** X2.  [fy_utf8_count] never reports more characters than there are
    bytes, whatever the bytes are: for a length below 2^31 the count lies
    between 0 and the length. *)
Theorem fy_utf8_count_bound (p : list Z) (len : Z) :
  0 <= len < 2 ^ 31 ->
  0 <= fy_utf8_count p len <= len.
Proof.
  intros H. unfold fy_utf8_count.
  pose proof (utf8_count_loop_bound (S (Z.to_nat len)) p len 0). lia.
Qed.

Lemma fy_utf8_count_bound_witness :
  0 <= fy_utf8_count [97; 255; 98] 3 <= 3.
Proof. apply (fy_utf8_count_bound [97; 255; 98] 3). lia. Defined.

(** X3.  [fy_utf8_put] stores a code point only when it is a valid scalar
    value and its encoding fits the room left: it then stores exactly
    [fy_utf8_width c] bytes, no more than [left], each a byte; it refuses
    (null) every surrogate, every value from 0x110000 on, every negative
    value and every code point wider than the room. *)
Theorem fy_utf8_put_room (left c : Z) :
  match fy_utf8_put left c with
  | Some bs =>
      fy_utf8_is_valid c = true /\
      Z.of_nat (length bs) = fy_utf8_width c /\ fy_utf8_width c <= left /\
      Forall (fun b => 0 <= b <= 255) bs
  | None =>
      c < 0 \/ 0xd800 <= c <= 0xdfff \/ 0x110000 <= c \/ left < fy_utf8_width c
  end.
Proof.
  unfold fy_utf8_put.
  destruct (fy_utf8_is_valid c) eqn:Hv; cbn [negb orb].
  - destruct (left <? fy_utf8_width c) eqn:E.
    + apply Z.ltb_lt in E. auto.
    + apply Z.ltb_ge in E. repeat split; auto.
      * apply fy_utf8_put_length.
      * apply fy_utf8_put_bytes, Hv.
  - unfold fy_utf8_is_valid in Hv.
    destruct (0 <=? c) eqn:E0; [|apply Z.leb_gt in E0; auto].
    cbn [andb] in Hv. apply negb_false_iff in Hv. apply orb_true_iff in Hv.
    destruct Hv as [Hv|Hv].
    + apply andb_true_iff in Hv. destruct Hv as [H1 H2].
      apply Z.leb_le in H1, H2. right. left. lia.
    + apply Z.leb_le in Hv. right. right. left. lia.
Qed.

(** ** Reading from the chunk array *)

Lemma fy_atom_iter_advance_within iter pre cur rem n :
  chunks iter = pre ++ cur :: rem -> read iter = length pre ->
  0 < n <= Z.of_nat (length cur) ->
  fy_atom_iter_advance iter n
  = match skipn (Z.to_nat n) cur, rem with
    | [], [] => fy_atom_iter_chunk_reset iter
    | [], _ => set_chunks (pre ++ [] :: rem) (S (length pre)) iter
    | cur', _ => set_chunks (pre ++ cur' :: rem) (length pre) iter
    end.
Proof.
  intros Hc Hr Hn. unfold fy_atom_iter_advance.
  rewrite Hc, Hr.
  replace (S (length (pre ++ cur :: rem) - length pre)) with (S (S (length rem)))
    by (rewrite length_app; cbn [length]; lia).
  cbn [advance_loop]. rewrite ?Hc, ?Hr.
  assert (E2 : (length pre <? length (pre ++ cur :: rem))%nat = true).
  { apply Nat.ltb_lt. rewrite length_app. cbn [length]. lia. }
  assert (E0 : (0 <? n) = true) by (apply Z.ltb_lt; lia).
  rewrite E0, E2. cbn [andb]. unfold ic_bytes. rewrite ?Hc, ?Hr, nth_middle.
  rewrite Z.min_l by lia. rewrite Z.sub_diag. cbn [Z.ltb Z.compare andb].
  rewrite replace_nth_middle.
  destruct (skipn (Z.to_nat n) cur) as [|b' cur']; cbn [set_chunks chunks read].
  - destruct rem as [|c rem].
    + assert (E3 : (length (pre ++ [[]]) <=? S (length pre))%nat = true).
      { apply Nat.leb_le. rewrite length_app. cbn [length]. lia. }
      rewrite E3. reflexivity.
    + assert (E3 : (length (pre ++ [] :: c :: rem) <=? S (length pre))%nat = false).
      { apply Nat.leb_gt. rewrite length_app. cbn [length]. lia. }
      rewrite E3. reflexivity.
  - assert (E3 : (length (pre ++ (b' :: cur') :: rem) <=? length pre)%nat = false).
    { apply Nat.leb_gt. rewrite length_app. cbn [length]. lia. }
    rewrite E3. destruct rem; reflexivity.
Qed.

Lemma pending_advance_within iter pre cur rem n :
  chunks iter = pre ++ cur :: rem -> read iter = length pre ->
  0 < n <= Z.of_nat (length cur) ->
  pending (fy_atom_iter_advance iter n) = skipn (Z.to_nat n) cur ++ concat rem.
Proof.
  intros Hc Hr Hn. rewrite (fy_atom_iter_advance_within iter pre cur rem n Hc Hr Hn).
  unfold pending.
  destruct (skipn (Z.to_nat n) cur) as [|b' cur'].
  - destruct rem as [|c rem]; [reflexivity|].
    cbn [set_chunks chunks read].
    replace (pre ++ [] :: c :: rem) with ((pre ++ [[]]) ++ c :: rem)
      by (rewrite <- app_assoc; reflexivity).
    replace (S (length pre)) with (length (pre ++ [[]]))
      by (rewrite length_app; cbn [length]; lia).
    rewrite skipn_app, skipn_all, Nat.sub_diag. reflexivity.
  - assert (E : pending (set_chunks (pre ++ (b' :: cur') :: rem) (length pre) iter)
               = (b' :: cur') ++ concat rem).
    { unfold pending. cbn [set_chunks chunks read].
      rewrite skipn_app, skipn_all, Nat.sub_diag. reflexivity. }
    destruct rem; exact E.
Qed.

Section Read.

Variable fy_is_print : Z -> bool.

Lemma fy_atom_iter_read_chunk iter pre cur rem buf count :
  chunks iter = pre ++ cur :: rem -> read iter = length pre ->
  0 < count <= Z.of_nat (length cur) ->
  fy_atom_iter_read fy_is_print iter buf count
  = (count, memcpy buf cur count, fy_atom_iter_advance iter count).
Proof.
  intros Hc Hr Hn. unfold fy_atom_iter_read.
  replace (S (2 * Z.to_nat count)) with (S (S (2 * Z.to_nat count - 1))) by lia.
  cbn [read_loop].
  assert (E0 : (0 <? count) = true) by (apply Z.ltb_lt; lia). rewrite E0.
  assert (P1 : fy_atom_iter_peek_chunk iter = Some (length pre)).
  { unfold fy_atom_iter_peek_chunk. rewrite Hc, Hr.
    assert (E : (length pre <? length (pre ++ cur :: rem))%nat = true).
    { apply Nat.ltb_lt. rewrite length_app. cbn [length]. lia. }
    rewrite E. reflexivity. }
  rewrite P1. unfold ic_len, ic_bytes. rewrite Hc, nth_middle.
  rewrite Z.min_l by lia. rewrite Z.sub_diag. cbn [Z.ltb Z.compare].
  rewrite Z.add_0_l. reflexivity.
Qed.

(** X4.  A read that asks for no more bytes than the chunk being read
    still holds is served from that chunk alone: it returns the count asked
    for, stores exactly these bytes at the start of the buffer, leaves the
    rest of the buffer alone and keeps what follows pending. *)
Theorem fy_atom_iter_read_within (iter : fy_atom_iter) (pre : list (list Z))
  (cur : list Z) (rem : list (list Z)) (buf : list Z) (count : Z) :
  chunks iter = pre ++ cur :: rem -> read iter = length pre ->
  0 < count <= Z.of_nat (length cur) ->
  let '(nread, buf', iter') := fy_atom_iter_read fy_is_print iter buf count in
  nread = count /\
  buf' = firstn (Z.to_nat count) cur ++ skipn (Z.to_nat count) buf /\
  pending iter' = skipn (Z.to_nat count) cur ++ concat rem.
Proof.
  intros Hc Hr Hn.
  rewrite (fy_atom_iter_read_chunk iter pre cur rem buf count Hc Hr Hn).
  split; [reflexivity|]. split.
  - unfold memcpy. f_equal.
    rewrite <- (firstn_skipn (Z.to_nat count) cur) at 1.
    replace count with (Z.of_nat (length (firstn (Z.to_nat count) cur))) at 1
      by (rewrite length_firstn; lia).
    apply take_app_exact.
  - apply (pending_advance_within iter pre cur rem count Hc Hr Hn).
Qed.

End Read.

Lemma fy_atom_iter_read_within_witness :
  let iter := set_chunks [[1; 2]; [3; 4; 5]; [6]] 1
                (fy_atom_iter_start (atom_of [] FYAS_PLAIN FYAC_CLIP 0 0 0 false false)) in
  let '(nread, buf', iter') := fy_atom_iter_read (fun _ => true) iter [9; 9; 9] 2 in
  nread = 2 /\
  buf' = firstn (Z.to_nat 2) [3; 4; 5] ++ skipn (Z.to_nat 2) [9; 9; 9] /\
  pending iter' = skipn (Z.to_nat 2) [3; 4; 5] ++ concat [[6]].
Proof.
  apply (fy_atom_iter_read_within (fun _ => true) _ [[1; 2]] [3; 4; 5] [[6]] [9; 9; 9] 2);
    [reflexivity|reflexivity|cbn; lia].
Defined.

(** ** Reading code points *)

Lemma map_uint8_bytes l : Forall (fun b => 0 <= b <= 255) l -> map uint8 l = l.
Proof.
  induction 1 as [|b l Hb _ IH]; [reflexivity|].
  cbn [map]. rewrite IH. unfold uint8. rewrite land_byte by exact Hb. reflexivity.
Qed.

Section Utf8Get.

Variable fy_is_print : Z -> bool.

Lemma fy_atom_iter_utf8_get_chunk iter pre c tail rem buf :
  fy_utf8_is_valid c = true -> unget_c iter = -1 ->
  chunks iter = pre ++ (fy_utf8_put_unchecked c ++ tail) :: rem ->
  read iter = length pre ->
  exists iter',
    fy_atom_iter_utf8_get fy_is_print buf iter = (c, iter') /\
    pending iter' = tail ++ concat rem /\ unget_c iter' = -1.
Proof.
  intros Hv Hu Hc Hr.
  pose proof (fy_utf8_put_bytes c Hv) as HB.
  pose proof (fy_utf8_put_length c) as HL.
  pose proof (fy_utf8_width_pos c) as HW.
  pose proof (fy_utf8_put_first c tail Hv) as HF.
  destruct (fy_utf8_put_unchecked c) as [|b0 bs] eqn:HE; [cbn in HL; lia|].
  cbn [length] in HL. cbn [app deref nth] in HF.
  unfold fy_atom_iter_utf8_get. rewrite Hu. cbn [Z.eqb negb].
  cbn [app] in Hc.
  rewrite (fy_atom_iter_read_chunk fy_is_print iter pre (b0 :: bs ++ tail) rem buf 1 Hc Hr)
    by (cbn [length]; lia).
  cbn [Z.eqb Pos.eqb negb].
  change (memcpy buf (b0 :: bs ++ tail) 1) with (b0 :: tl buf).
  cbn [deref nth]. rewrite HF.
  assert (E0 : (fy_utf8_width c =? 0) = false) by (apply Z.eqb_neq; lia).
  rewrite E0.
  assert (A1 : fy_atom_iter_advance iter 1
               = match bs ++ tail, rem with
                 | [], [] => fy_atom_iter_chunk_reset iter
                 | [], _ => set_chunks (pre ++ [] :: rem) (S (length pre)) iter
                 | cur', _ => set_chunks (pre ++ cur' :: rem) (length pre) iter
                 end).
  { apply (fy_atom_iter_advance_within iter pre (b0 :: bs ++ tail) rem 1 Hc Hr).
    cbn [length]. lia. }
  assert (P1 : pending (fy_atom_iter_advance iter 1) = (bs ++ tail) ++ concat rem).
  { apply (pending_advance_within iter pre (b0 :: bs ++ tail) rem 1 Hc Hr).
    cbn [length]. lia. }
  destruct (1 <? fy_utf8_width c) eqn:E1.
  - apply Z.ltb_lt in E1.
    destruct bs as [|b1 bs']; [cbn [length] in HL; lia|].
    cbn [app] in A1. 
    assert (A1' : fy_atom_iter_advance iter 1
                  = set_chunks (pre ++ ((b1 :: bs') ++ tail) :: rem) (length pre) iter)
      by (rewrite A1; destruct rem; reflexivity).
    rewrite A1'.
    set (it1 := set_chunks (pre ++ ((b1 :: bs') ++ tail) :: rem) (length pre) iter).
    assert (Hn : 0 < fy_utf8_width c - 1 <= Z.of_nat (length ((b1 :: bs') ++ tail))).
    { rewrite length_app. lia. }
    rewrite (fy_atom_iter_read_chunk fy_is_print it1 pre ((b1 :: bs') ++ tail) rem
               (tl (b0 :: tl buf)) (fy_utf8_width c - 1) eq_refl eq_refl Hn).
    rewrite Z.eqb_refl. cbn [negb].
    eexists. split; [|split].
    + f_equal. unfold memcpy.
      replace (fy_utf8_width c - 1) with (Z.of_nat (length (b1 :: bs'))) at 1 by lia.
      rewrite take_app_exact.
      change (b0 :: (b1 :: bs') ++ ?X) with ((b0 :: b1 :: bs') ++ X).
      rewrite map_app, (map_uint8_bytes _ HB), <- HE.
      destruct (fy_utf8_get_put c
                  (map uint8 (skipn (Z.to_nat (fy_utf8_width c - 1)) (tl (b0 :: tl buf))))
                  (fy_utf8_width c) Hv ltac:(lia)) as [G _].
      rewrite G. reflexivity.
    + rewrite (pending_advance_within it1 pre ((b1 :: bs') ++ tail) rem
                 (fy_utf8_width c - 1) eq_refl eq_refl Hn).
      replace (Z.to_nat (fy_utf8_width c - 1)) with (length (b1 :: bs')) by lia.
      rewrite skipn_app, skipn_all, Nat.sub_diag. reflexivity.
    + rewrite (fy_atom_iter_advance_within it1 pre ((b1 :: bs') ++ tail) rem
                 (fy_utf8_width c - 1) eq_refl eq_refl Hn).
      destruct (skipn _ _), rem; exact Hu.
  - apply Z.ltb_ge in E1.
    assert (bs = []) by (destruct bs; [reflexivity|cbn [length] in HL; lia]). subst bs.
    eexists. split; [|split].
    + f_equal.
      change (b0 :: tl buf) with ([b0] ++ tl buf).
      rewrite map_app, (map_uint8_bytes _ HB), <- HE.
      destruct (fy_utf8_get_put c (map uint8 (tl buf)) (fy_utf8_width c) Hv ltac:(lia))
        as [G _].
      rewrite G. reflexivity.
    + exact P1.
    + rewrite A1. cbn [app]. destruct tail, rem; exact Hu.
Qed.

(** X5.  [fy_atom_iter_utf8_get] decodes the code point whose UTF-8 bytes
    stand at the front of the chunk being read: it returns the code point,
    consumes exactly its bytes and leaves the pushback slot empty, whatever
    the local buffer held before. *)
Theorem fy_atom_iter_utf8_get_decodes (iter : fy_atom_iter) (pre : list (list Z))
  (c : Z) (tail : list Z) (rem : list (list Z)) (buf : list Z) :
  fy_utf8_is_valid c = true -> unget_c iter = -1 ->
  chunks iter = pre ++ (fy_utf8_put_unchecked c ++ tail) :: rem ->
  read iter = length pre ->
  let '(r, iter') := fy_atom_iter_utf8_get fy_is_print buf iter in
  r = c /\ pending iter' = tail ++ concat rem /\ unget_c iter' = -1.
Proof.
  intros Hv Hu Hc Hr.
  destruct (fy_atom_iter_utf8_get_chunk iter pre c tail rem buf Hv Hu Hc Hr)
    as (iter' & -> & HP & HU).
  auto.
Qed.

(** X6.  A code point above 255 does not survive the pushback slot:
    [fy_atom_iter_utf8_peek] returns the code point at the front of the
    chunk, but the [fy_atom_iter_utf8_get] that follows returns only its low
    eight bits, and the bytes of the code point are consumed. *)
Theorem fy_atom_iter_utf8_peek_get (iter : fy_atom_iter) (pre : list (list Z))
  (c : Z) (tail : list Z) (rem : list (list Z)) (buf buf' : list Z) :
  fy_utf8_is_valid c = true -> unget_c iter = -1 ->
  chunks iter = pre ++ (fy_utf8_put_unchecked c ++ tail) :: rem ->
  read iter = length pre ->
  let '(p, iter1) := fy_atom_iter_utf8_peek fy_is_print buf iter in
  let '(g, iter2) := fy_atom_iter_utf8_get fy_is_print buf' iter1 in
  p = c /\ g = Z.land c 0xff /\
  pending iter2 = tail ++ concat rem /\ unget_c iter2 = -1.
Proof.
  intros Hv Hu Hc Hr.
  destruct (fy_atom_iter_utf8_get_chunk iter pre c tail rem buf Hv Hu Hc Hr)
    as (iter' & G & HP & HU).
  unfold fy_atom_iter_utf8_peek. rewrite G.
  rewrite (valid_nonneg c Hv).
  unfold fy_atom_iter_utf8_unget. rewrite HU. cbn [Z.eqb Pos.eqb negb].
  rewrite (valid_nonneg c Hv).
  unfold fy_atom_iter_utf8_get. cbn [set_unget_c unget_c].
  rewrite (valid_nonneg c Hv). cbn [negb].
  split; [reflexivity|]. split; [reflexivity|]. split; [exact HP|reflexivity].
Qed.

End Utf8Get.

Lemma fy_atom_iter_utf8_get_decodes_witness :
  let iter := set_chunks [[1; 2]; [226; 130; 172; 98]; [6]] 1
                (fy_atom_iter_start (atom_of [] FYAS_PLAIN FYAC_CLIP 0 0 0 false false)) in
  let '(r, iter') := fy_atom_iter_utf8_get (fun _ => true) [7; 7; 7; 7] iter in
  r = 8364 /\ pending iter' = [98] ++ concat [[6]] /\ unget_c iter' = -1.
Proof.
  apply (fy_atom_iter_utf8_get_decodes (fun _ => true) _ [[1; 2]] 8364 [98] [[6]] [7; 7; 7; 7]);
    reflexivity.
Defined.

Lemma fy_atom_iter_utf8_peek_get_witness :
  let iter := set_chunks [[226; 130; 172; 98]] 0
                (fy_atom_iter_start (atom_of [] FYAS_PLAIN FYAC_CLIP 0 0 0 false false)) in
  let '(p, iter1) := fy_atom_iter_utf8_peek (fun _ => true) [0; 0; 0; 0] iter in
  let '(g, iter2) := fy_atom_iter_utf8_get (fun _ => true) [0; 0; 0; 0] iter1 in
  p = 8364 /\ g = Z.land 8364 0xff /\
  pending iter2 = [98] ++ concat [] /\ unget_c iter2 = -1.
Proof.
  apply (fy_atom_iter_utf8_peek_get (fun _ => true) _ [] 8364 [98] [] [0; 0; 0; 0] [0; 0; 0; 0]);
    reflexivity.
Defined.

(** ** The byte stream of an iterator *)

Section Stream.

Variable fy_is_print : Z -> bool.

Lemma at_eof_is iter : at_eof iter -> is_at_eof iter = true.
Proof.
  intros (Hd & Hc & Hr & Hu). unfold is_at_eof. rewrite Hd, Hc, Hr, Hu. reflexivity.
Qed.

Lemma decodes_decode_stream iter bs :
  decodes fy_is_print iter bs -> forall fuel, (length bs < fuel)%nat ->
  decode_stream fy_is_print fuel iter = Some bs.
Proof.
  induction 1 as [iter iter' Hu Hg He|iter iter' c bs Hu Hg Hc Hd IH]; intros fuel Hf;
    (destruct fuel as [|fuel]; [cbn in Hf; lia|]); cbn [decode_stream];
    rewrite Hu, Hg; cbn [Z.eqb Pos.eqb negb].
  - cbn [Z.ltb Z.compare]. rewrite (at_eof_is _ He). reflexivity.
  - assert (E : (c <? 0) = false) by (apply Z.ltb_ge; lia). rewrite E.
    rewrite IH by (cbn in Hf; lia). reflexivity.
Qed.

Lemma getc_n_eof n : forall iter,
  at_eof iter -> fst (getc_n fy_is_print n iter) = repeat (-1) n.
Proof.
  induction n as [|n IH]; intros iter He; [reflexivity|].
  cbn [getc_n repeat]. destruct (at_eof_getc fy_is_print iter He) as (iter' & G & He').
  rewrite G. specialize (IH iter' He').
  destruct (getc_n fy_is_print n iter') as [cs it]. cbn [fst] in *. rewrite IH. reflexivity.
Qed.

Lemma getc_n_decodes iter bs n :
  decodes fy_is_print iter bs ->
  fst (getc_n fy_is_print (length bs + n) iter) = bs ++ repeat (-1) n.
Proof.
  induction 1 as [iter iter' Hu Hg He|iter iter' c bs Hu Hg Hc Hd IH].
  - cbn [length Nat.add app]. destruct n as [|n]; [reflexivity|].
    cbn [getc_n repeat]. rewrite Hg.
    pose proof (getc_n_eof n iter' He) as E.
    destruct (getc_n fy_is_print n iter') as [cs it]. cbn [fst] in *. rewrite E. reflexivity.
  - cbn [length Nat.add getc_n]. rewrite Hg.
    destruct (getc_n fy_is_print (length bs + n) iter') as [cs it]. cbn [fst] in *.
    rewrite IH. reflexivity.
Qed.



(** *** The copy of the text *)

Lemma format_text_loop_bound fuel : forall iter ic out room res r,
  0 <= room ->
  format_text_loop fy_is_print fuel iter ic out room = Some (res, r) ->
  Z.of_nat (length res) <= Z.of_nat (length out) + room.
Proof.
  induction fuel as [|fuel IH]; intros iter ic out room res r Hr H; [discriminate|].
  cbn [format_text_loop] in H.
  destruct (fy_atom_iter_chunk_next fy_is_print iter ic) as [[ic' ret] iter'].
  destruct ic' as [i|].
  - destruct (room <? ic_len iter' i) eqn:E.
    + injection H as <- <-. lia.
    + apply Z.ltb_ge in E. apply IH in H; [|lia].
      rewrite length_app in H. unfold ic_len in *. lia.
  - injection H as <- <-. lia.
Qed.

(** X9.  [fy_atom_format_text] never stores more than [maxsz] bytes, and
    a non-null return points just behind the bytes stored. *)
Theorem fy_atom_format_text_fits (fuel : nat) (atom : option fy_atom) (maxsz : Z)
  (out : list Z) (r : option Z) :
  0 <= maxsz ->
  fy_atom_format_text fy_is_print fuel atom maxsz = Some (out, r) ->
  Z.of_nat (length out) <= maxsz /\
  (r = None \/ r = Some (Z.of_nat (length out))).
Proof.
  intros Hm H. unfold fy_atom_format_text in H.
  destruct atom as [a|]; [|injection H as <- <-; cbn; auto with zarith].
  destruct (format_text_loop fy_is_print fuel (fy_atom_iter_start a) None [] maxsz)
    as [[res r']|] eqn:E; [|discriminate].
  apply format_text_loop_bound in E; [|exact Hm]. cbn [length] in E.
  destruct r' as [ret|].
  - destruct (negb (ret =? 0)); injection H as <- <-; split; auto; lia.
  - injection H as <- <-. split; auto; lia.
Qed.

End Stream.



Lemma fy_atom_format_text_fits_witness :
  Z.of_nat (length [97; 32; 98]) <= 5 /\
  (Some 3 = None \/ Some 3 = Some (Z.of_nat (length [97; 32; 98]))).
Proof.
  apply (fy_atom_format_text_fits (fun _ => true) 10
           (Some (atom_of [97; 32; 98] FYAS_PLAIN FYAC_CLIP 0 0 3 false false)) 5
           [97; 32; 98] (Some 3)).
  - lia.
  - vm_compute. reflexivity.
Defined.

(** ** Comparison *)

Lemma bytes_range_Forall str :
  forallb (fun b => (0 <=? b) && (b <=? 255)) str = true ->
  Forall (fun b => 0 <= b <= 255) str.
Proof.
  intros H. apply Forall_forall. intros b Hb.
  rewrite forallb_forall in H. specialize (H b Hb).
  apply andb_true_iff in H. destruct H as [H1 H2].
  apply Z.leb_le in H1. apply Z.leb_le in H2. lia.
Qed.



Lemma bytes_cmp_memcmp n1 : forall n2 a b,
  let l := Nat.min n1 n2 in
  let ret := memcmp a b l in
  Z.sgn (if negb (ret =? 0) then ret
         else if (Z.of_nat n1 =? Z.of_nat n2) then 0
         else if (Z.of_nat n1 <? Z.of_nat n2) then -1 else 1)
  = bytes_cmp (take (Z.of_nat n1) a) (take (Z.of_nat n2) b).
Proof.
  induction n1 as [|n1 IH]; intros n2 a b.
  - destruct n2 as [|n2]; [reflexivity|].
    rewrite take_succ. reflexivity.
  - destruct n2 as [|n2].
    + rewrite take_succ. reflexivity.
    + rewrite !take_succ. cbn [Nat.min memcmp bytes_cmp].
      destruct (deref a 0 =? deref b 0) eqn:E.
      * specialize (IH n2 (tl a) (tl b)). cbv zeta in IH.
        replace (Z.of_nat (S n1) =? Z.of_nat (S n2)) with (Z.of_nat n1 =? Z.of_nat n2)
          by (destruct (Z.eqb_spec (Z.of_nat n1) (Z.of_nat n2));
              destruct (Z.eqb_spec (Z.of_nat (S n1)) (Z.of_nat (S n2))); lia).
        replace (Z.of_nat (S n1) <? Z.of_nat (S n2)) with (Z.of_nat n1 <? Z.of_nat n2)
          by (destruct (Z.ltb_spec (Z.of_nat n1) (Z.of_nat n2));
              destruct (Z.ltb_spec (Z.of_nat (S n1)) (Z.of_nat (S n2))); lia).
        exact IH.
      * apply Z.eqb_neq in E.
        assert (E' : (deref a 0 - deref b 0 =? 0) = false) by (apply Z.eqb_neq; lia).
        rewrite E'. cbn [negb].
        destruct (Z.ltb_spec (deref a 0) (deref b 0)); lia.
Qed.

(** X11.  [fy_atom_cmp] orders two distinct atoms that are both flagged
    direct-output by their raw bytes: the sign of the result is that of the
    byte-wise comparison, and a proper prefix comes first. *)
Theorem fy_atom_cmp_direct_order (fy_is_print : Z -> bool) (fuel : nat)
  (h : list fy_atom) (i j : nat) (a1 a2 : fy_atom) :
  i <> j -> nth_error h i = Some a1 -> nth_error h j = Some a2 ->
  direct_output a1 = true -> direct_output a2 = true ->
  0 <= fy_atom_size a1 -> 0 <= fy_atom_size a2 ->
  exists r,
    fy_atom_cmp fy_is_print fuel h (Some i) (Some j) = Some r /\
    Z.sgn r = bytes_cmp (take (fy_atom_size a1) (ptr (fyi a1) (fy_atom_data a1)))
                        (take (fy_atom_size a2) (ptr (fyi a2) (fy_atom_data a2))).
Proof.
  intros Hij H1 H2 D1 D2 S1 S2. unfold fy_atom_cmp.
  apply Nat.eqb_neq in Hij. rewrite Hij, H1, H2, D1, D2.
  set (l1 := fy_atom_size a1) in *. set (l2 := fy_atom_size a2) in *.
  set (d1 := ptr (fyi a1) (fy_atom_data a1)). set (d2 := ptr (fyi a2) (fy_atom_data a2)).
  pose proof (bytes_cmp_memcmp (Z.to_nat l1) (Z.to_nat l2) d1 d2) as B.
  cbv zeta in B. rewrite !Z2Nat.id in B by lia.
  replace (Z.to_nat (if l2 <? l1 then l2 else l1))
    with (Nat.min (Z.to_nat l1) (Z.to_nat l2))
    by (destruct (Z.ltb_spec l2 l1); lia).
  destruct (negb (memcmp d1 d2 (Nat.min (Z.to_nat l1) (Z.to_nat l2)) =? 0));
    eexists; (split; [reflexivity|exact B]).
Qed.

Lemma fy_atom_cmp_direct_order_witness :
  let a1 := atom_of [97; 98] FYAS_PLAIN FYAC_CLIP 0 0 2 false true in
  let a2 := atom_of [97; 98; 99] FYAS_PLAIN FYAC_CLIP 0 0 3 false true in
  exists r,
    fy_atom_cmp (fun _ => true) 0 [a1; a2] (Some 0%nat) (Some 1%nat) = Some r /\
    Z.sgn r = bytes_cmp (take (fy_atom_size a1) (ptr (fyi a1) (fy_atom_data a1)))
                        (take (fy_atom_size a2) (ptr (fyi a2) (fy_atom_data a2))).
Proof.
  apply (fy_atom_cmp_direct_order (fun _ => true) 0
           [atom_of [97; 98] FYAS_PLAIN FYAC_CLIP 0 0 2 false true;
            atom_of [97; 98; 99] FYAS_PLAIN FYAC_CLIP 0 0 3 false true] 0 1
           (atom_of [97; 98] FYAS_PLAIN FYAC_CLIP 0 0 2 false true)
           (atom_of [97; 98; 99] FYAS_PLAIN FYAC_CLIP 0 0 3 false true));
    [lia|reflexivity|reflexivity|reflexivity|reflexivity|cbn; lia|cbn; lia].
Defined.

Section Cmp.

Variable fy_is_print : Z -> bool.

Lemma cmp_loop_decodes iter1 b1 :
  decodes fy_is_print iter1 b1 -> forall iter2 b2 fuel,
  decodes fy_is_print iter2 b2 ->
  (Nat.min (length b1) (length b2) < fuel)%nat ->
  exists c1 c2,
    cmp_loop fy_is_print fuel iter1 iter2 = Some (c1, c2) /\
    (if (c1 =? -1) && (c2 =? -1) then 0 else if c1 <? c2 then -1 else 1)
    = bytes_cmp b1 b2.
Proof.
  induction 1 as [iter1 iter1' Hu1 Hg1 He1|iter1 iter1' x b1 Hu1 Hg1 Hx Hd1 IH];
    intros iter2 b2 fuel D2 Hf;
    (destruct fuel as [|fuel]; [lia|]); cbn [cmp_loop]; rewrite Hg1.
  - destruct D2 as [iter2 iter2' Hu2 Hg2 He2|iter2 iter2' y b2 Hu2 Hg2 Hy Hd2];
      rewrite Hg2.
    + exists (-1), (-1). split; reflexivity.
    + destruct (-1 =? y) eqn:E; [apply Z.eqb_eq in E; lia|]. cbn [andb].
      exists (-1), y. split; [reflexivity|].
      cbn [Z.eqb Pos.eqb andb bytes_cmp].
      assert (E1 : (y =? -1) = false) by (apply Z.eqb_neq; lia).
      assert (E2 : (-1 <? y) = true) by (apply Z.ltb_lt; lia).
      rewrite E1, E2. reflexivity.
  - destruct D2 as [iter2 iter2' Hu2 Hg2 He2|iter2 iter2' y b2 Hu2 Hg2 Hy Hd2];
      rewrite Hg2.
    + destruct (x =? -1) eqn:E; [apply Z.eqb_eq in E; lia|]. cbn [andb].
      exists x, (-1). split; [reflexivity|].
      rewrite E. cbn [andb bytes_cmp].
      assert (E2 : (x <? -1) = false) by (apply Z.ltb_ge; lia).
      rewrite E2. reflexivity.
    + cbn [bytes_cmp]. destruct (x =? y) eqn:E.
      * assert (E1 : (0 <=? x) = true) by (apply Z.leb_le; lia).
        assert (E2 : (0 <=? y) = true) by (apply Z.leb_le; lia).
        rewrite E1, E2. cbn [andb]. apply IH; [exact Hd2|].
        cbn [length] in Hf. lia.
      * cbn [andb]. exists x, y. split; [reflexivity|].
        assert (E1 : (x =? -1) = false) by (apply Z.eqb_neq; lia).
        rewrite E1. reflexivity.
Qed.


End Cmp.


(** ** Atoms flagged direct-output *)

Section Direct.
Variable fy_is_print : Z -> bool.

Lemma width_by_first_octet_nonneg c : 0 <= fy_utf8_width_by_first_octet c.
Proof.
  unfold fy_utf8_width_by_first_octet.
  repeat match goal with |- context [if ?b then _ else _] => destruct b end; lia.
Qed.

Ltac direct_step :=
  cbn -[Z.leb Z.ltb Z.add Z.sub Z.eqb take ptr fy_utf8_width_by_first_octet deref Z.to_nat].

Lemma fy_atom_iter_format_direct a :
  style a = FYAS_PLAIN -> direct_output a = true ->
  has_lb a = false -> has_ws a = false -> empty a = false ->
  0 < fy_atom_size a ->
  exists it1 it2,
    fy_atom_iter_format fy_is_print (fy_atom_iter_start a) = (1, it1) /\
    chunks it1 = [take (fy_atom_size a) (ptr (fyi a) (fy_atom_data a))] /\
    read it1 = 0%nat /\ unget_c it1 = -1 /\
    line_fuel (fy_atom_iter_start a) = S (S (Z.to_nat (fy_atom_size a))) /\
    fy_atom_iter_format fy_is_print (fy_atom_iter_chunk_reset it1) = (0, it2) /\
    done it2 = true /\ chunks it2 = [] /\ read it2 = 0%nat /\ unget_c it2 = -1.
Proof.
  intros Hs Hd Hl Hw He Hn.
  pose proof (width_by_first_octet_nonneg
                (deref (ptr (fyi a) (fy_atom_data a + fy_atom_size a)) 0)) as W.
  set (w := fy_utf8_width_by_first_octet
              (deref (ptr (fyi a) (fy_atom_data a + fy_atom_size a)) 0)) in *.
  set (s := fy_atom_data a) in *. set (n := fy_atom_size a) in *.
  assert (E1 : (s + n <=? s) = false) by (apply Z.leb_gt; lia).
  assert (E2 : (s + n <=? s + n + w) = true) by (apply Z.leb_le; lia).
  assert (E3 : (s + n <? s) = false) by (apply Z.ltb_ge; lia).
  assert (E4 : (s + n - s =? 0) = false) by (apply Z.eqb_neq; lia).
  assert (E5 : s + n - s = n) by lia.
  unfold fy_atom_iter_format, fy_atom_iter_line, fy_atom_iter_start,
    fy_atom_iter_line_analyze, line_out, line_fuel.
  direct_step. fold s n w.
  rewrite Hs, Hd, Hl, Hw, He.
  direct_step. fold s n w.
  rewrite E1. direct_step. fold s n w. rewrite E2, E3. direct_step. fold s n w.
  unfold format_style, fy_atom_iter_add_chunk. direct_step. fold s n w.
  rewrite Hs, E4. direct_step. fold s n w.
  change (0 <? 0) with false. cbv iota. rewrite E5.
  eexists. eexists. split; [reflexivity|].
  direct_step. fold s n w.
  split; [reflexivity|]. split; [reflexivity|]. split; [reflexivity|].
  split; [f_equal; f_equal; f_equal; lia|].
  rewrite E2. direct_step. auto 10.
Qed.

(** X13.  The text of a plain atom flagged direct-output, with neither
    line break nor white space, is its raw bytes: the chunk interface
    returns them unchanged and [fy_atom_iter_getc] delivers them one by
    one, which is what the direct branches of the comparison functions
    rely on. *)
Theorem fy_atom_direct_text (a : fy_atom) (fuel : nat) (maxsz : Z) :
  style a = FYAS_PLAIN -> direct_output a = true ->
  has_lb a = false -> has_ws a = false -> empty a = false ->
  0 < fy_atom_size a -> fy_atom_size a <= maxsz ->
  (Z.to_nat (fy_atom_size a) + 2 < fuel)%nat ->
  let text := take (fy_atom_size a) (ptr (fyi a) (fy_atom_data a)) in
  fy_atom_format_text fy_is_print fuel (Some a) maxsz
  = Some (text, Some (fy_atom_size a)) /\
  decode_stream fy_is_print fuel (fy_atom_iter_start a) = Some (map uint8 text).
Proof.
  intros Hs Hd Hl Hw He Hn Hm Hf text.
  destruct (fy_atom_iter_format_direct a Hs Hd Hl Hw He Hn)
    as (it1 & it2 & F1 & C1 & R1 & U1 & LF & F2 & D2 & C2 & R2 & U2).
  assert (P : produces fy_is_print 2 (fy_atom_iter_start a) (concat (chunks it1) ++ [])).
  { eapply produces_line; [exact F1|exact R1| | | |].
    - rewrite C1. constructor; [|constructor]. apply take_nonempty. exact Hn.
    - rewrite U1. reflexivity.
    - rewrite LF. lia.
    - eapply produces_end; [exact F2|exact D2|exact C2|exact R2|].
      rewrite U2. cbn [fy_atom_iter_chunk_reset set_chunks unget_c]. symmetry. exact U1. }
  rewrite C1 in P. cbn [concat] in P. rewrite !app_nil_r in P. fold text in P.
  assert (L : length text = Z.to_nat (fy_atom_size a)) by apply take_length.
  destruct (fy_atom_iter_chunks_getc fy_is_print 2 a text P fuel maxsz) as [T G].
  - lia.
  - lia.
  - split; [|exact G]. rewrite T. do 3 f_equal. lia.
Qed.

End Direct.

Lemma fy_atom_direct_text_witness :
  let a := atom_of [102; 111; 111] FYAS_PLAIN FYAC_CLIP 0 0 3 false true in
  let text := take (fy_atom_size a) (ptr (fyi a) (fy_atom_data a)) in
  fy_atom_format_text (fun _ => true) 6 (Some a) 3 = Some (text, Some (fy_atom_size a)) /\
  decode_stream (fun _ => true) 6 (fy_atom_iter_start a) = Some (map uint8 text).
Proof.
  apply (fy_atom_direct_text (fun _ => true)
           (atom_of [102; 111; 111] FYAS_PLAIN FYAC_CLIP 0 0 3 false true) 6 3);
    [reflexivity|reflexivity|reflexivity|reflexivity|reflexivity
    |cbn; lia|cbn; lia|cbn; lia].
Defined.

(** ** White space, indentation and indicators *)

Section Primitives.

Variable U : Type.
Variable output : U -> fy_emitter_write_type -> list Z -> Z -> Z * U.

Lemma same_context_refl (e : fy_emitter U) : same_context e e.
Proof. repeat split. Qed.

Lemma fy_emit_write_context e t str len :
  same_context e (fy_emit_write output e t str len).
Proof.
  unfold fy_emit_write. destruct (len =? 0); [apply same_context_refl|].
  destruct (output _ _ _ _), (write_loop _ _ _ _ _). repeat split.
Qed.

Lemma fy_emit_putc_context e t c : same_context e (fy_emit_putc output e t c).
Proof. apply fy_emit_write_context. Qed.

Lemma fy_emit_putc_plain e t c :
  plain_ascii c = true ->
  line (fy_emit_putc output e t c) = line e /\
  column (fy_emit_putc output e t c) = to_int (column e + 1).
Proof.
  intros H. unfold plain_ascii in H. cbn [existsb] in H.
  repeat (apply orb_true_iff in H; destruct H as [H|H];
          [apply Z.eqb_eq in H; subst c;
           unfold fy_emit_putc, fy_emit_puts, fy_emit_write;
           cbn [fy_utf8_put_unchecked length Z.of_nat Z.eqb Z.ltb Z.compare uint8
                Pos.compare Pos.compare_cont Z.land Pos.land Pos.of_succ_nat Pos.succ];
           destruct (output _ _ _ _); split; reflexivity|]).
  discriminate.
Qed.

Lemma fy_emit_putc_break e t :
  line (fy_emit_putc output e t 10) = to_int (line e + 1) /\
  column (fy_emit_putc output e t 10) = 0.
Proof.
  unfold fy_emit_putc, fy_emit_puts, fy_emit_write.
  cbn [fy_utf8_put_unchecked length Z.of_nat Z.eqb Z.ltb Z.compare uint8
       Pos.compare Pos.compare_cont Z.land Pos.land Pos.of_succ_nat Pos.succ].
  destruct (output _ _ _ _); split; reflexivity.
Qed.

Lemma write_loop_spaces n : forall fuel ln col,
  (n < fuel)%nat -> - 2 ^ 31 <= col -> col + Z.of_nat n < 2 ^ 31 ->
  write_loop fuel (repeat 32 n) (Z.of_nat n) ln col = (ln, col + Z.of_nat n).
Proof.
  induction n as [|n IH]; intros fuel ln col Hf Hlo Hhi;
    (destruct fuel as [|fuel]; [lia|]).
  - cbn. f_equal. lia.
  - cbn [repeat write_loop]. unfold fy_utf8_get.
    assert (E : (Z.of_nat (S n) <=? 0) = false) by (apply Z.leb_gt; lia).
    rewrite E. cbn [deref nth]. change (Z.land 32 128 =? 0) with true. cbv iota.
    change (Z.land 32 127) with 32.
    change (32 =? -1) with false. change (32 =? 13) with false.
    change (fy_is_lb 32) with false. change (32 =? 27) with false.
    cbn [andb]. cbv iota. cbn [Z.to_nat Pos.to_nat Pos.iter_op Nat.add skipn].
    replace (Z.of_nat (S n) - 1) with (Z.of_nat n) by lia.
    rewrite to_int_id by lia.
    rewrite IH by lia. f_equal. lia.
Qed.

Lemma fy_emit_write_spaces e n :
  0 < n -> - 2 ^ 31 <= column e -> column e + n < 2 ^ 31 ->
  line (fy_emit_write output e fyewt_indent (repeat 32 (Z.to_nat n)) n) = line e /\
  column (fy_emit_write output e fyewt_indent (repeat 32 (Z.to_nat n)) n)
  = column e + n.
Proof.
  intros Hn Hlo Hhi. unfold fy_emit_write.
  assert (E : (n =? 0) = false) by (apply Z.eqb_neq; lia). rewrite E.
  destruct (output _ _ _ _).
  pose proof (write_loop_spaces (Z.to_nat n) (S (Z.to_nat n)) (line e) (column e)
                ltac:(lia) ltac:(lia) ltac:(lia)) as W.
  rewrite Z2Nat.id in W by lia. rewrite W. cbn [line column]. split; [reflexivity|lia].
Qed.

Lemma fy_emit_write_indent_shape (emit : fy_emitter U) (indent : Z) :
  0 <= column emit < 2 ^ 31 -> - 2 ^ 31 <= line emit < 2 ^ 31 - 1 ->
  indent < 2 ^ 31 ->
  let emit' := fy_emit_write_indent output emit indent in
  column emit' = Z.max indent 0 /\
  (line emit' = line emit \/ line emit' = line emit + 1) /\
  fy_emit_whitespace emit' = true /\ fy_emit_indentation emit' = true /\
  flow_level emit' = flow_level emit /\ fyds emit' = fyds emit.
Proof.
  intros HC HL HI. cbv zeta. unfold fy_emit_write_indent.
  set (ind := if 0 <? indent then indent else 0).
  assert (Hind : ind = Z.max indent 0) by (unfold ind; destruct (Z.ltb_spec 0 indent); lia).
  set (e1 := if negb (fy_emit_indentation emit) || (ind <? column emit)
                || (column emit =? ind) && negb (fy_emit_whitespace emit)
             then fy_emit_putc output emit fyewt_linebreak 10 else emit).
  assert (H1 : 0 <= column e1 <= ind /\
               (line e1 = line emit \/ line e1 = line emit + 1) /\
               flow_level e1 = flow_level emit /\ fyds e1 = fyds emit).
  { unfold e1.
    destruct (negb (fy_emit_indentation emit) || (ind <? column emit)
              || (column emit =? ind) && negb (fy_emit_whitespace emit)) eqn:E.
    - destruct (fy_emit_putc_break emit fyewt_linebreak) as [L C].
      destruct (fy_emit_putc_context emit fyewt_linebreak 10) as (_ & F & _ & D & _).
      rewrite to_int_id in L by lia.
      rewrite C, L. split; [lia|auto].
    - apply orb_false_iff in E. destruct E as [E _].
      apply orb_false_iff in E. destruct E as [_ E]. apply Z.ltb_ge in E.
      split; [lia|auto]. }
  clearbody e1. destruct H1 as (A & B & F & D).
  destruct (column e1 <? ind) eqn:E2.
  - apply Z.ltb_lt in E2.
    rewrite to_int_id by lia.
    destruct (fy_emit_write_spaces e1 (ind - column e1) ltac:(lia) ltac:(lia) ltac:(lia))
      as [L C].
    destruct (fy_emit_write_context e1 fyewt_indent
                (repeat 32 (Z.to_nat (ind - column e1))) (ind - column e1))
      as (_ & F' & _ & D' & _).
    cbn [upd_flags set_flags column line flow_level fyds fy_emit_whitespace
         fy_emit_indentation flags with_indentation with_whitespace
         FYEF_WHITESPACE FYEF_INDENTATION].
    rewrite C, L, F', D'. repeat split; auto; lia.
  - apply Z.ltb_ge in E2.
    cbn [upd_flags set_flags column line flow_level fyds fy_emit_whitespace
         fy_emit_indentation flags with_indentation with_whitespace
         FYEF_WHITESPACE FYEF_INDENTATION].
    repeat split; auto; lia.
Qed.

(** X14.  [fy_emit_write_indent] leaves the emitter at column
    [max indent 0] with white space pending and at indentation; to get
    there it breaks the line at most once.  (Positions are C [int]s: the
    column is not negative, and neither the indent nor the next line
    number overflows.) *)
Theorem fy_emit_write_indent_column (emit : fy_emitter U) (indent : Z) :
  0 <= column emit < 2 ^ 31 -> - 2 ^ 31 <= line emit < 2 ^ 31 - 1 ->
  indent < 2 ^ 31 ->
  let emit' := fy_emit_write_indent output emit indent in
  column emit' = Z.max indent 0 /\
  (line emit' = line emit \/ line emit' = line emit + 1) /\
  fy_emit_whitespace emit' = true /\ fy_emit_indentation emit' = true /\
  flow_level emit' = flow_level emit /\ fyds emit' = fyds emit.
Proof. exact (fy_emit_write_indent_shape emit indent). Qed.

(** X15.  [fy_emit_write_indent] is idempotent: a second call for the
    same indent writes nothing and changes nothing. *)
Theorem fy_emit_write_indent_twice (emit : fy_emitter U) (indent : Z) :
  0 <= column emit < 2 ^ 31 -> - 2 ^ 31 <= line emit < 2 ^ 31 - 1 ->
  indent < 2 ^ 31 ->
  fy_emit_write_indent output (fy_emit_write_indent output emit indent) indent
  = fy_emit_write_indent output emit indent.
Proof.
  intros HC HL HI.
  destruct (fy_emit_write_indent_shape emit indent HC HL HI) as (C & _ & W & I & _).
  set (e1 := fy_emit_write_indent output emit indent) in *.
  unfold fy_emit_write_indent at 1.
  set (ind := if 0 <? indent then indent else 0).
  assert (Hind : ind = Z.max indent 0) by (unfold ind; destruct (Z.ltb_spec 0 indent); lia).
  rewrite I, W, C, <- Hind, Z.ltb_irrefl. cbn [negb orb andb].
  rewrite andb_false_r. cbv iota. rewrite C, <- Hind, Z.ltb_irrefl.
  unfold fy_emit_whitespace, fy_emit_indentation in W, I.
  destruct e1 as [c u l co fl f oe ds d]. cbn [flags] in W, I.
  unfold upd_flags, set_flags. cbn [cfg userdata line column flow_level flags
                                    output_error fyds fyd].
  f_equal. destruct f. cbn in *. subst. reflexivity.
Qed.

Lemma ensure_ws_position (e : fy_emitter U) :
  - 2 ^ 31 <= column e -> column e + 1 < 2 ^ 31 ->
  line (ensure_ws output e) = line e /\
  column (ensure_ws output e) = column e + (if fy_emit_whitespace e then 0 else 1) /\
  flow_level (ensure_ws output e) = flow_level e.
Proof.
  intros Hlo Hhi. unfold ensure_ws. destruct (fy_emit_whitespace e); cbn [negb].
  - repeat split. lia.
  - unfold fy_emit_write_ws. cbn [upd_flags set_flags line column flow_level].
    destruct (fy_emit_putc_plain e fyewt_whitespace 32 eq_refl) as [L C].
    destruct (fy_emit_putc_context e fyewt_whitespace 32) as (_ & F & _).
    rewrite to_int_id in C by lia. auto.
Qed.

(** The common shape of the indicators: white space if wanted and none is
    pending, the character, then the flag update [k]. *)
Lemma indicator_step (e : fy_emitter U) (t : fy_emitter_write_type) (c : Z)
  (ws : bool) (k : fy_emitter_flags -> fy_emitter_flags) :
  plain_ascii c = true -> - 2 ^ 31 <= column e -> column e + 2 < 2 ^ 31 ->
  forall e1, e1 = (if ws then ensure_ws output e else e) ->
  forall e', e' = upd_flags k (fy_emit_putc output e1 t c) ->
  line e' = line e /\
  column e' = column e + (if ws && negb (fy_emit_whitespace e) then 2 else 1) /\
  flow_level e' = flow_level e.
Proof.
  intros Hc Hlo Hhi e1 H1 e' ->.
  assert (P : line e1 = line e /\
              column e1 = column e + (if ws && negb (fy_emit_whitespace e) then 1 else 0) /\
              flow_level e1 = flow_level e).
  { subst e1. destruct ws; cbn [andb].
    - destruct (ensure_ws_position e ltac:(lia) ltac:(lia)) as (L & C & F).
      rewrite L, C, F. destruct (fy_emit_whitespace e); cbn [negb]; auto.
    - repeat split. lia. }
  clear H1. destruct P as (L1 & C1 & F1).
  destruct (fy_emit_putc_plain e1 t c Hc) as [L C].
  destruct (fy_emit_putc_context e1 t c) as (_ & F & _).
  rewrite to_int_id in C
    by (rewrite C1; destruct (ws && negb (fy_emit_whitespace e)); lia).
  change (line (upd_flags k (fy_emit_putc output e1 t c)))
    with (line (fy_emit_putc output e1 t c)).
  change (column (upd_flags k (fy_emit_putc output e1 t c)))
    with (column (fy_emit_putc output e1 t c)).
  change (flow_level (upd_flags k (fy_emit_putc output e1 t c)))
    with (flow_level (fy_emit_putc output e1 t c)).
  rewrite L, C, F, L1, C1, F1.
  split; [reflexivity|]. split; [|reflexivity].
  destruct (ws && negb (fy_emit_whitespace e)); lia.
Qed.

End Primitives.

Lemma fy_emit_write_indent_column_witness :
  let emit := emitter_of FYECF_MODE_BLOCK in
  let emit' := fy_emit_write_indent output_all emit 4 in
  column emit' = Z.max 4 0 /\
  (line emit' = line emit \/ line emit' = line emit + 1) /\
  fy_emit_whitespace emit' = true /\ fy_emit_indentation emit' = true /\
  flow_level emit' = flow_level emit /\ fyds emit' = fyds emit.
Proof.
  apply (fy_emit_write_indent_column (list (list Z)) output_all
           (emitter_of FYECF_MODE_BLOCK) 4); vm_compute; intuition discriminate.
Defined.

Lemma fy_emit_write_indent_twice_witness :
  let emit := emitter_of FYECF_MODE_BLOCK in
  fy_emit_write_indent output_all (fy_emit_write_indent output_all emit 4) 4
  = fy_emit_write_indent output_all emit 4.
Proof.
  apply (fy_emit_write_indent_twice (list (list Z)) output_all
           (emitter_of FYECF_MODE_BLOCK) 4); vm_compute; intuition discriminate.
Defined.

Section Indicators.

Variable U : Type.
Variable output : U -> fy_emitter_write_type -> list Z -> Z -> Z * U.
Variable DDNF_SIMPLE : Z.

(** X16.  An indicator other than the colon never breaks the line: it
    advances the column by one, or by two when it wants white space before
    it and none is pending; the brackets and braces move the flow level by
    one, up when opening and down when closing, and only an opening one
    leaves white space pending.  (Column and flow level are C [int]s and
    stay in range.) *)
Theorem fy_emit_write_indicator_position (emit : fy_emitter U)
  (indicator : document_indicator) (flags indent : Z)
  (wtype : fy_emitter_write_type) :
  indicator <> di_colon ->
  0 <= column emit -> column emit + 2 < 2 ^ 31 ->
  - 2 ^ 31 < flow_level emit < 2 ^ 31 - 1 ->
  let emit' := fy_emit_write_indicator output DDNF_SIMPLE emit indicator flags indent
                 wtype in
  line emit' = line emit /\
  column emit' = column emit
                 + (if indicator_wants_ws indicator && negb (fy_emit_whitespace emit)
                    then 2 else 1) /\
  flow_level emit' = flow_level emit + indicator_flow indicator /\
  fy_emit_whitespace emit' = indicator_opens indicator.
Proof.
  intros Hi HC HC2 HF. cbv zeta.
  assert (HC' : - 2 ^ 31 <= column emit) by lia.
  set (up := set_flow_level (to_int (flow_level emit + 1)) emit).
  set (down := set_flow_level (to_int (flow_level emit - 1)) emit).
  assert (Eup : flow_level up = flow_level emit + 1)
    by (unfold up; cbn [set_flow_level flow_level]; apply to_int_id; lia).
  assert (Edown : flow_level down = flow_level emit + -1)
    by (unfold down; cbn [set_flow_level flow_level]; apply to_int_id; lia).
  assert (W : fy_emit_whitespace
                (fy_emit_write_indicator output DDNF_SIMPLE emit indicator flags indent
                   wtype) = indicator_opens indicator)
    by (destruct indicator; reflexivity).
  rewrite W. clear W.
  destruct indicator; try congruence;
    cbn [indicator_wants_ws indicator_flow indicator_opens];
    match goal with
    | |- context [fy_emit_write_indicator output DDNF_SIMPLE emit ?i flags indent wtype] =>
        let ws := eval cbv in (indicator_wants_ws i) in
        let c := eval cbv in (indicator_char i) in
        let e0 := match eval cbv in (indicator_flow i) with
                  | 1 => up | -1 => down | _ => emit end in
        set (r := fy_emit_write_indicator output DDNF_SIMPLE emit i flags indent wtype);
        pose proof (indicator_step U output e0 wtype c ws (indicator_flags i)
                      eq_refl HC' HC2 _ eq_refl r eq_refl) as S
    end;
    destruct S as (L & C & F); rewrite L, C, F;
    rewrite ?Eup, ?Edown, ?Z.add_0_r; repeat split.
Qed.

End Indicators.

Lemma fy_emit_write_indicator_position_witness :
  let emit := upd_flags (with_whitespace false) (emitter_of FYECF_MODE_FLOW) in
  let emit' := fy_emit_write_indicator output_all 1 emit di_left_bracket 0 0
                 fyewt_indicator in
  line emit' = line emit /\
  column emit' = column emit
                 + (if indicator_wants_ws di_left_bracket
                       && negb (fy_emit_whitespace emit)
                    then 2 else 1) /\
  flow_level emit' = flow_level emit + indicator_flow di_left_bracket /\
  fy_emit_whitespace emit' = indicator_opens di_left_bracket.
Proof.
  apply (fy_emit_write_indicator_position (list (list Z)) output_all 1
           (upd_flags (with_whitespace false) (emitter_of FYECF_MODE_FLOW))
           di_left_bracket 0 0 fyewt_indicator).
  - discriminate.
  - vm_compute. discriminate.
  - vm_compute. reflexivity.
  - vm_compute. split; reflexivity.
Defined.

(** ** The end of a document *)

Section DocumentEnd.

Variable U : Type.
Variable output : U -> fy_emitter_write_type -> list Z -> Z -> Z * U.

Lemma fy_emit_is_json_mode_context (e e' : fy_emitter U) :
  same_context e e' -> fy_emit_is_json_mode e' = fy_emit_is_json_mode e.
Proof. intros (C & _). unfold fy_emit_is_json_mode. rewrite C. reflexivity. Qed.

Lemma fy_emit_puts_context e t str : same_context e (fy_emit_puts output e t str).
Proof. apply fy_emit_write_context. Qed.

(** The line break that brings the emitter to the start of a line. *)
Lemma to_line_start (e : fy_emitter U) :
  let e' := if negb (column e =? 0)
            then set_flags only_ws_indent (fy_emit_putc output e fyewt_linebreak 10)
            else e in
  column e' = 0 /\ cfg e' = cfg e.
Proof.
  cbv zeta. destruct (column e =? 0) eqn:E; cbn [negb].
  - apply Z.eqb_eq in E. auto.
  - destruct (fy_emit_putc_break U output e fyewt_linebreak) as [_ C].
    destruct (fy_emit_putc_context U output e fyewt_linebreak 10) as (G & _).
    split; [exact C|exact G].
Qed.

(** X17.  [fy_emit_explicit_document_end] always succeeds and leaves the
    emitter at the start of a line, detached from its document and marked
    as having output a document; outside JSON mode it has written the end
    marker and remembers it, with white space pending and at indentation;
    in JSON mode no marker is remembered. *)
Theorem fy_emit_explicit_document_end_state (emit : fy_emitter U) :
  let '(ret, emit') := fy_emit_explicit_document_end output emit in
  ret = 0 /\ column emit' = 0 /\ fyds emit' = None /\ fyd emit' = None /\
  cfg emit' = cfg emit /\
  FYEF_HAD_DOCUMENT_OUTPUT (flags emit') = true /\
  FYEF_HAD_DOCUMENT_END (flags emit') = negb (fy_emit_is_json_mode emit) /\
  (fy_emit_is_json_mode emit = false ->
   FYEF_WHITESPACE (flags emit') = true /\ FYEF_INDENTATION (flags emit') = true).
Proof.
  unfold fy_emit_explicit_document_end, fy_emit_common_explicit_document_end.
  pose proof (to_line_start emit) as T. cbv zeta in T.
  set (e1 := if negb (column emit =? 0)
             then set_flags only_ws_indent (fy_emit_putc output emit fyewt_linebreak 10)
             else emit) in *.
  destruct T as [C1 G1].
  assert (J : fy_emit_is_json_mode e1 = fy_emit_is_json_mode emit)
    by (unfold fy_emit_is_json_mode; rewrite G1; reflexivity).
  rewrite J. clearbody e1.
  destruct (fy_emit_is_json_mode emit); cbn [negb Z.eqb].
  - repeat split; auto; congruence.
  - set (e2 := fy_emit_puts output e1 fyewt_document_indicator (bytes_of_string "...")).
    destruct (fy_emit_putc_break U output e2 fyewt_linebreak) as [_ C].
    destruct (fy_emit_putc_context U output e2 fyewt_linebreak 10) as (G & _).
    destruct (fy_emit_puts_context e1 fyewt_document_indicator (bytes_of_string "..."))
      as (G2 & _).
    fold e2 in G2.
    repeat split; auto. cbn [cfg set_fyd set_fyds upd_flags set_flags].
    congruence.
Qed.

End DocumentEnd.

Lemma fy_emit_write_output_all (e : fy_emitter (list (list Z))) t str len :
  len <> 0 ->
  userdata (fy_emit_write output_all e t str len) = userdata e ++ [take len str].
Proof.
  intros H. unfold fy_emit_write. apply Z.eqb_neq in H. rewrite H.
  unfold output_all. destruct (write_loop _ _ _ _ _). reflexivity.
Qed.

(** X18.  With a callback that accepts everything,
    [fy_emit_explicit_document_end] writes a line break unless the emitter
    is at the start of a line, and then, outside JSON mode, three dots and
    a line break; in JSON mode it writes no marker. *)
Theorem fy_emit_explicit_document_end_output (emit : fy_emitter (list (list Z))) :
  concat (userdata (snd (fy_emit_explicit_document_end output_all emit)))
  = concat (userdata emit)
    ++ (if column emit =? 0 then [] else [10])
    ++ (if fy_emit_is_json_mode emit then [] else [46; 46; 46; 10]).
Proof.
  unfold fy_emit_explicit_document_end, fy_emit_common_explicit_document_end.
  set (e1 := if negb (column emit =? 0)
             then set_flags only_ws_indent (fy_emit_putc output_all emit fyewt_linebreak 10)
             else emit).
  assert (U1 : userdata e1 = userdata emit ++ (if column emit =? 0 then [] else [[10]])).
  { unfold e1. destruct (column emit =? 0); cbn [negb].
    - rewrite app_nil_r. reflexivity.
    - cbn [set_flags userdata]. unfold fy_emit_putc, fy_emit_puts.
      rewrite fy_emit_write_output_all by discriminate. reflexivity. }
  assert (J : fy_emit_is_json_mode e1 = fy_emit_is_json_mode emit).
  { unfold e1. destruct (column emit =? 0); cbn [negb]; [reflexivity|].
    destruct (fy_emit_putc_context _ output_all emit fyewt_linebreak 10) as (A & _).
    unfold fy_emit_is_json_mode. cbn [set_flags cfg]. rewrite A. reflexivity. }
  rewrite J. clearbody e1.
  destruct (fy_emit_is_json_mode emit); cbn [negb Z.eqb snd].
  - cbn [set_fyd set_fyds upd_flags set_flags userdata]. rewrite U1.
    rewrite concat_app, app_nil_r. destruct (column emit =? 0); reflexivity.
  - cbn [set_fyd set_fyds upd_flags set_flags userdata].
    unfold fy_emit_putc, fy_emit_puts.
    rewrite !fy_emit_write_output_all by discriminate. rewrite U1.
    rewrite !concat_app. rewrite <- !app_assoc. f_equal.
    destruct (column emit =? 0); reflexivity.
Qed.

(** ** The document protocol *)

Section Protocol.

Variable U : Type.
Variable output : U -> fy_emitter_write_type -> list Z -> Z -> Z * U.
Variable fy_tag_is_default : list Z -> list Z -> bool.
Variable root_has_tag_or_anchor : fy_document -> bool.

(** X19.  A document is ended once: [fy_emit_document_end] fails with -1
    and changes nothing when the emitter holds no document state; when it
    holds one the call succeeds, leaves the emitter at the start of a line,
    detached from the document and marked as having output a document, and
    a second call fails. *)
Theorem fy_emit_document_end_once (emit : fy_emitter U) :
  match fyds emit with
  | None => fy_emit_document_end output emit = (-1, emit)
  | Some s =>
      let '(ret, emit') := fy_emit_document_end output emit in
      ret = 0 /\ column emit' = 0 /\ fyds emit' = None /\ fyd emit' = None /\
      FYEF_HAD_DOCUMENT_OUTPUT (flags emit') = true /\
      fy_emit_document_end output emit' = (-1, emit')
  end.
Proof.
  destruct (fyds emit) as [s|] eqn:Ef.
  2: { unfold fy_emit_document_end, fy_emit_common_document_end. rewrite Ef.
       reflexivity. }
  unfold fy_emit_document_end at 1. unfold fy_emit_common_document_end at 1.
  rewrite Ef.
  set (e1 := if column emit =? 0 then emit
             else set_flags only_ws_indent (fy_emit_putc output emit fyewt_linebreak 10)).
  assert (C1 : column e1 = 0).
  { unfold e1. destruct (column emit =? 0) eqn:E; [apply Z.eqb_eq, E|].
    apply (fy_emit_putc_break U output emit fyewt_linebreak). }
  clearbody e1.
  destruct (negb (fy_emit_is_json_mode e1)
            && (bor_policy (cfg_doc_end_mark (cfg e1)) (negb (end_implicit s))
                && negb (cfg_strip_doc (cfg e1)))); cbn [negb Z.eqb].
  - set (e2 := fy_emit_puts output e1 fyewt_document_indicator (bytes_of_string "...")).
    destruct (fy_emit_putc_break U output e2 fyewt_linebreak) as [_ C].
    repeat split; auto.
  - repeat split; auto.
Qed.

(** X20.  [fy_emit_document_start] refuses, with -1 and without any
    change or output, a null document, a document without a state and an
    emitter that is still inside a document. *)
Theorem fy_emit_document_start_refuses (emit : fy_emitter U)
  (d : option fy_document) :
  d = None \/ (exists doc, d = Some doc /\ fyd_fyds doc = None)
  \/ fyds emit <> None ->
  fy_emit_document_start output fy_tag_is_default root_has_tag_or_anchor emit d
  = (-1, emit).
Proof.
  intros H. unfold fy_emit_document_start.
  destruct d as [doc|]; [|reflexivity].
  destruct (fyd_fyds doc) as [s|] eqn:Es; [|reflexivity].
  destruct H as [H|[(doc' & H & H')|H]]; [discriminate|congruence|].
  unfold fy_emit_common_document_start.
  destruct (fyds emit); [reflexivity|congruence].
Qed.

(** X21.  A document is started once: after a successful
    [fy_emit_document_start] the emitter holds the state of the document,
    and every further start fails with -1 and changes nothing until the
    document is ended. *)
Theorem fy_emit_document_start_once (emit emit' : fy_emitter U)
  (doc : fy_document) (d' : option fy_document) :
  fy_emit_document_start output fy_tag_is_default root_has_tag_or_anchor emit
    (Some doc) = (0, emit') ->
  fyds emit' = fyd_fyds doc /\ fyd emit' = Some doc /\ fyds emit' <> None /\
  fy_emit_document_start output fy_tag_is_default root_has_tag_or_anchor emit' d'
  = (-1, emit').
Proof.
  intros H. unfold fy_emit_document_start in H.
  destruct (fyd_fyds doc) as [s|] eqn:Es; [|discriminate].
  destruct (fyds emit) as [s0|] eqn:Ee.
  - unfold fy_emit_common_document_start in H. rewrite Ee in H. discriminate.
  - destruct (fy_emit_common_document_start_ok U output fy_tag_is_default emit s
                (root_has_tag_or_anchor doc) Ee) as (e1 & E1 & F1).
    rewrite E1 in H. cbn [Z.eqb negb] in H. injection H as <-.
    cbn [set_fyd fyds fyd]. rewrite F1.
    split; [reflexivity|]. split; [reflexivity|]. split; [discriminate|].
    unfold fy_emit_document_start.
    destruct d' as [doc'|]; [|reflexivity].
    destruct (fyd_fyds doc'); [|reflexivity].
    unfold fy_emit_common_document_start. cbn [set_fyd fyds]. rewrite F1.
    reflexivity.
Qed.

(** X22.  In JSON mode [fy_emit_document_start] writes nothing: it
    attaches the document and its state and clears the two marker flags,
    and the callback is not called. *)
Theorem fy_emit_document_start_json (emit : fy_emitter U) (doc : fy_document)
  (s : fy_document_state) :
  fy_emit_is_json_mode emit = true -> fyds emit = None -> fyd_fyds doc = Some s ->
  fy_emit_document_start output fy_tag_is_default root_has_tag_or_anchor emit
    (Some doc)
  = (0, set_fyd (Some doc)
          (upd_flags (with_had_document_end false)
             (upd_flags (with_had_document_start false)
                (set_fyds (Some s) emit)))).
Proof.
  intros J He Hs. unfold fy_emit_document_start. rewrite Hs.
  unfold fy_emit_common_document_start. rewrite He. cbv zeta.
  change (fy_emit_is_json_mode (set_fyds (Some s) emit))
    with (fy_emit_is_json_mode emit).
  rewrite J. cbn [negb andb Z.eqb]. reflexivity.
Qed.

End Protocol.

(** X23.  Documents are kept apart: when a document was output before and
    no end marker followed it, the next [fy_emit_document_start] outside
    JSON mode writes the start marker, three dashes at the start of a
    line, whatever the policy for start markers is (here with the
    directives switched off and the markers not stripped). *)
Theorem fy_emit_document_start_separates (fy_tag_is_default : list Z -> list Z -> bool)
  (root_has_tag_or_anchor : fy_document -> bool)
  (emit : fy_emitter (list (list Z))) (doc : fy_document) (s : fy_document_state) :
  fyds emit = None -> fyd_fyds doc = Some s ->
  fy_emit_is_json_mode emit = false -> cfg_strip_doc (cfg emit) = false ->
  cfg_version_dir (cfg emit) = FYECF_OFF -> cfg_tag_dir (cfg emit) = FYECF_OFF ->
  FYEF_HAD_DOCUMENT_OUTPUT (flags emit) = true ->
  FYEF_HAD_DOCUMENT_END (flags emit) = false ->
  let '(ret, emit') :=
    fy_emit_document_start output_all fy_tag_is_default root_has_tag_or_anchor emit
      (Some doc) in
  ret = 0 /\
  concat (userdata emit')
  = concat (userdata emit) ++ (if column emit =? 0 then [] else [10]) ++ [45; 45; 45] /\
  FYEF_HAD_DOCUMENT_START (flags emit') = true /\
  FYEF_HAD_DOCUMENT_END (flags emit') = false.
Proof.
  intros He Hs J St Vd Td Ho Hn. unfold fy_emit_document_start. rewrite Hs.
  unfold fy_emit_common_document_start. rewrite He. cbv zeta.
  change (fy_emit_is_json_mode (set_fyds (Some s) emit))
    with (fy_emit_is_json_mode emit).
  change (cfg (set_fyds (Some s) emit)) with (cfg emit).
  change (flags (set_fyds (Some s) emit)) with (flags emit).
  rewrite J, St, Vd, Td.
  cbn [negb andb orb bor_policy].
  change (cfg (set_fyds (Some s) emit)) with (cfg emit).
  change (flags (set_fyds (Some s) emit)) with (flags emit).
  change (column (set_fyds (Some s) emit)) with (column emit).
  rewrite Ho, Hn. cbn [negb andb]. rewrite orb_true_r. cbn [Z.eqb negb].
  split; [reflexivity|].
  cbn [set_fyd upd_flags set_flags userdata flags with_had_document_end
       with_had_document_start with_whitespace FYEF_HAD_DOCUMENT_START
       FYEF_HAD_DOCUMENT_END].
  split; [|split; reflexivity].
  unfold fy_emit_puts. rewrite fy_emit_write_output_all by discriminate.
  rewrite concat_app. cbn [concat app]. rewrite app_nil_r.
  change (take (Z.of_nat (length (bytes_of_string "---"))) (bytes_of_string "---"))
    with [45; 45; 45].
  destruct (column emit =? 0).
  - reflexivity.
  - unfold fy_emit_putc, fy_emit_puts.
    rewrite fy_emit_write_output_all by discriminate.
    cbn [set_fyds userdata]. rewrite concat_app, <- app_assoc. reflexivity.
Qed.

Lemma fy_emit_document_start_refuses_witness :
  fy_emit_document_start output_all (fun _ _ => true) (fun _ => false)
    (emitter_of FYECF_MODE_BLOCK) None
  = (-1, emitter_of FYECF_MODE_BLOCK).
Proof.
  apply (fy_emit_document_start_refuses (list (list Z)) output_all (fun _ _ => true)
           (fun _ => false) (emitter_of FYECF_MODE_BLOCK) None).
  left. reflexivity.
Defined.

Lemma fy_emit_document_start_once_witness :
  let s := {| version_explicit := false; tags_explicit := false;
              start_implicit := false; end_implicit := true;
              version_major := 1; version_minor := 2; fyt_td := [] |} in
  let doc := {| fyd_fyds := Some s; root := None |} in
  let emit' := snd (fy_emit_document_start output_all (fun _ _ => true)
                      (fun _ => false) (emitter_of FYECF_MODE_BLOCK) (Some doc)) in
  fyds emit' = fyd_fyds doc /\ fyd emit' = Some doc /\ fyds emit' <> None /\
  fy_emit_document_start output_all (fun _ _ => true) (fun _ => false) emit'
    (Some doc)
  = (-1, emit').
Proof.
  cbv zeta.
  apply (fy_emit_document_start_once (list (list Z)) output_all (fun _ _ => true)
           (fun _ => false) (emitter_of FYECF_MODE_BLOCK)).
  vm_compute. reflexivity.
Defined.

Lemma fy_emit_document_start_json_witness :
  let s := {| version_explicit := true; tags_explicit := false;
              start_implicit := false; end_implicit := false;
              version_major := 1; version_minor := 2; fyt_td := [] |} in
  let doc := {| fyd_fyds := Some s; root := None |} in
  fy_emit_document_start output_all (fun _ _ => true) (fun _ => false)
    (emitter_of FYECF_MODE_JSON) (Some doc)
  = (0, set_fyd (Some doc)
          (upd_flags (with_had_document_end false)
             (upd_flags (with_had_document_start false)
                (set_fyds (Some s) (emitter_of FYECF_MODE_JSON))))).
Proof.
  cbv zeta.
  apply (fy_emit_document_start_json (list (list Z)) output_all (fun _ _ => true)
           (fun _ => false) (emitter_of FYECF_MODE_JSON)); reflexivity.
Defined.

Lemma fy_emit_document_start_separates_witness :
  let s := {| version_explicit := false; tags_explicit := false;
              start_implicit := true; end_implicit := true;
              version_major := 1; version_minor := 2; fyt_td := [] |} in
  let doc := {| fyd_fyds := Some s; root := None |} in
  let emit :=
    {| cfg := {| cfg_mode := FYECF_MODE_BLOCK; cfg_version_dir := FYECF_OFF;
                 cfg_tag_dir := FYECF_OFF; cfg_doc_start_mark := FYECF_OFF;
                 cfg_doc_end_mark := FYECF_OFF; cfg_strip_doc := false |};
       userdata := [[97]]; line := 0; column := 1; flow_level := 0;
       flags := {| FYEF_WHITESPACE := false; FYEF_INDENTATION := false;
                   FYEF_OPEN_ENDED := false; FYEF_HAD_DOCUMENT_START := false;
                   FYEF_HAD_DOCUMENT_END := false;
                   FYEF_HAD_DOCUMENT_OUTPUT := true |};
       output_error := false; fyds := None; fyd := None |} in
  let '(ret, emit') :=
    fy_emit_document_start output_all (fun _ _ => true) (fun _ => false) emit
      (Some doc) in
  ret = 0 /\
  concat (userdata emit')
  = concat (userdata emit) ++ (if column emit =? 0 then [] else [10]) ++ [45; 45; 45] /\
  FYEF_HAD_DOCUMENT_START (flags emit') = true /\
  FYEF_HAD_DOCUMENT_END (flags emit') = false.
Proof.
  cbv zeta.
  apply (fy_emit_document_start_separates (fun _ _ => true) (fun _ => false)
           {| cfg := {| cfg_mode := FYECF_MODE_BLOCK; cfg_version_dir := FYECF_OFF;
                        cfg_tag_dir := FYECF_OFF; cfg_doc_start_mark := FYECF_OFF;
                        cfg_doc_end_mark := FYECF_OFF; cfg_strip_doc := false |};
              userdata := [[97]]; line := 0; column := 1; flow_level := 0;
              flags := {| FYEF_WHITESPACE := false; FYEF_INDENTATION := false;
                          FYEF_OPEN_ENDED := false; FYEF_HAD_DOCUMENT_START := false;
                          FYEF_HAD_DOCUMENT_END := false;
                          FYEF_HAD_DOCUMENT_OUTPUT := true |};
              output_error := false; fyds := None; fyd := None |}
           {| fyd_fyds := Some {| version_explicit := false; tags_explicit := false;
                                  start_implicit := true; end_implicit := true;
                                  version_major := 1; version_minor := 2;
                                  fyt_td := [] |};
              root := None |}
           {| version_explicit := false; tags_explicit := false;
              start_implicit := true; end_implicit := true;
              version_major := 1; version_minor := 2; fyt_td := [] |});
    reflexivity.
Defined.

(** ** The event queue *)

Lemma depth_cons type q : depth (type :: q) = depth_change type + depth q.
Proof. reflexivity. Qed.

(** [ready_loop] returns at the first event that is past the lookahead or
    that brings the depth back to zero. *)
Lemma ready_loop_spec need q : forall level count,
  ready_loop need q level count = true <->
  exists k, (1 <= k <= length q)%nat /\
            (need < count + Z.of_nat k \/ level + depth (firstn k q) = 0).
Proof.
  induction q as [|type q IH]; intros level count; cbn [ready_loop].
  - split; [discriminate|]. intros (k & Hk & _). cbn in Hk. lia.
  - destruct (need <? count + 1) eqn:E.
    + apply Z.ltb_lt in E. split; [intros _|reflexivity].
      exists 1%nat. cbn [length]. split; [lia|]. left. lia.
    + apply Z.ltb_ge in E.
      assert (L : (match type with
                   | FYET_STREAM_START | FYET_DOCUMENT_START
                   | FYET_SEQUENCE_START | FYET_MAPPING_START => level + 1
                   | FYET_STREAM_END | FYET_DOCUMENT_END
                   | FYET_SEQUENCE_END | FYET_MAPPING_END => level - 1
                   | _ => level
                   end) = level + depth_change type)
        by (destruct type; cbn [depth_change]; lia).
      rewrite L. clear L.
      destruct (level + depth_change type =? 0) eqn:E0.
      * apply Z.eqb_eq in E0. split; [intros _|reflexivity].
        exists 1%nat. cbn [length]. split; [lia|]. right.
        cbn [firstn]. rewrite depth_cons. cbn [depth fold_right]. lia.
      * apply Z.eqb_neq in E0. rewrite IH. split.
        -- intros (k & Hk & H). exists (S k). cbn [length]. split; [lia|].
           cbn [firstn]. rewrite depth_cons. destruct H as [H|H]; [left|right]; lia.
        -- intros (k & Hk & H). cbn [length] in Hk.
           destruct k as [|k]; [lia|]. cbn [firstn] in H. rewrite depth_cons in H.
           destruct k as [|k].
           ++ cbn [firstn depth fold_right] in H. destruct H as [H|H]; lia.
           ++ exists (S k). split; [lia|]. destruct H as [H|H]; [left|right]; lia.
Qed.

(** X24.  The emitter is ready exactly when its queue holds more events
    than the lookahead its first event asks for (none for most events, 1
    for a document start, 2 for a sequence start, 3 for a mapping start),
    or when some non-empty prefix of the queue is balanced, the depth being
    back at zero; an empty queue is never ready. *)
Theorem fy_emit_ready_lookahead (queued_events : list fy_event_type) :
  fy_emit_ready queued_events = true <->
  match queued_events with
  | [] => False
  | type :: _ =>
      (lookahead type < length queued_events)%nat \/
      exists k, (1 <= k <= length queued_events)%nat /\
                depth (firstn k queued_events) = 0
  end.
Proof.
  destruct queued_events as [|type q]; [split; [discriminate|tauto]|].
  unfold fy_emit_ready.
  set (need := match type with
               | FYET_DOCUMENT_START => 1
               | FYET_SEQUENCE_START => 2
               | FYET_MAPPING_START => 3
               | _ => 0
               end).
  assert (N : need = Z.of_nat (lookahead type)) by (destruct type; reflexivity).
  destruct (need =? 0) eqn:E.
  - apply Z.eqb_eq in E. split; [intros _|reflexivity].
    left. cbn [length]. lia.
  - apply Z.eqb_neq in E. rewrite ready_loop_spec. split.
    + intros (k & Hk & [H|H]).
      * left. lia.
      * right. exists k. split; [exact Hk|lia].
    + intros [H|(k & Hk & H)].
      * exists (length (type :: q)). split; [cbn [length]; lia|]. left. lia.
      * exists k. split; [exact Hk|]. right. lia.
Qed.

Lemma ready_loop_app need q r : forall level count,
  ready_loop need q level count = true ->
  ready_loop need (q ++ r) level count = true.
Proof.
  induction q as [|type q IH]; intros level count; cbn [ready_loop app];
    [discriminate|].
  destruct (need <? count + 1); [reflexivity|].
  match goal with |- context [if ?b then _ else _] => destruct b end;
    [reflexivity|apply IH].
Qed.

(** X25.  Readiness is monotone: an emitter that is ready stays ready
    when more events are queued behind. *)
Theorem fy_emit_ready_more (queued_events more : list fy_event_type) :
  fy_emit_ready queued_events = true ->
  fy_emit_ready (queued_events ++ more) = true.
Proof.
  destruct queued_events as [|type q]; [discriminate|].
  unfold fy_emit_ready. cbn [app].
  match goal with |- context [if ?b then _ else _] => destruct b end;
    [reflexivity|].
  apply (ready_loop_app _ (type :: q)).
Qed.

Lemma fy_emit_ready_more_witness :
  fy_emit_ready ([FYET_SEQUENCE_START; FYET_SEQUENCE_END] ++ [FYET_DOCUMENT_END])
  = true.
Proof.
  apply (fy_emit_ready_more [FYET_SEQUENCE_START; FYET_SEQUENCE_END]
           [FYET_DOCUMENT_END]).
  reflexivity.
Defined.

(** X26.  What each start event waits for: a document start is ready as
    soon as one event follows it; a sequence start as soon as two events
    follow, or one that is an end event (the empty sequence); a mapping
    start as soon as three events follow, or an end event directly, or an
    end event after one event that opens nothing; every other first event
    is ready at once. *)
Theorem fy_emit_ready_starts (type : fy_event_type) (q : list fy_event_type) :
  fy_emit_ready (type :: q)
  = match type with
    | FYET_DOCUMENT_START =>
        match q with [] => false | _ => true end
    | FYET_SEQUENCE_START =>
        match q with
        | [] => false
        | [a] => is_end a
        | _ => true
        end
    | FYET_MAPPING_START =>
        match q with
        | [] => false
        | [a] => is_end a
        | [a; b] => is_end a || (negb (is_start a) && is_end b)
        | _ => true
        end
    | _ => true
    end.
Proof.
  destruct type; try reflexivity.
  - destruct q as [|a q]; reflexivity.
  - destruct q as [|a [|b [|c q]]]; try reflexivity.
    + destruct a; reflexivity.
    + destruct a, b; reflexivity.
    + destruct a, b, c; reflexivity.
  - destruct q as [|a [|b q]]; try reflexivity.
    + destruct a; reflexivity.
    + destruct a, b; reflexivity.
Qed.

(** ** Output to a buffer *)

Lemma memcpy_at_bytes b pos str len :
  memcpy_at b pos str len
  = firstn (Z.to_nat pos) b ++ take len str
    ++ skipn (Z.to_nat len + Z.to_nat pos) b.
Proof. unfold memcpy_at, memcpy. rewrite skipn_skipn. reflexivity. Qed.

Lemma realloc_zero_keeps : realloc_keeps realloc_zero.
Proof.
  intros old n new H. unfold realloc_zero in H. injection H as <-.
  split.
  - rewrite length_app, length_firstn, repeat_length. lia.
  - intros k Hk Hn. rewrite firstn_app, firstn_firstn.
    replace (Nat.min k (Z.to_nat n)) with k by lia.
    replace (k - length (firstn (Z.to_nat n) (block old)))%nat with 0%nat
      by (rewrite length_firstn; lia).
    cbn [firstn]. apply app_nil_r.
Qed.

Section BufferOutput.

Variable pagesize : Z.
Variable realloc : option (list Z) -> Z -> option (list Z).

(** X27.  Output to a buffer that may not grow: every call adds its
    length to [need]; a write that fits the room left is stored whole at
    [pos] and advances it, a write that does not fit stores nothing, leaves
    buffer and [pos] alone and returns 0.  The bytes outside the window
    written are never touched. *)
Theorem do_buffer_output_fixed (state : fy_emit_buffer_state)
  (type : fy_emitter_write_type) (b str : list Z) (len : Z) :
  grow state = false -> buf state = Some b ->
  Z.of_nat (length b) = size state ->
  0 <= pos state <= size state -> size state < 2 ^ 31 ->
  0 <= len -> 0 <= need state -> need state + len < 2 ^ 31 ->
  let '(ret, state') := do_buffer_output pagesize realloc state type str len in
  need state' = need state + len /\ size state' = size state /\
  grow state' = false /\
  if size state - pos state <? len
  then ret = 0 /\ buf state' = Some b /\ pos state' = pos state
  else ret = len /\ pos state' = pos state + len /\
       buf state' = Some (firstn (Z.to_nat (pos state)) b ++ take len str
                          ++ skipn (Z.to_nat len + Z.to_nat (pos state)) b).
Proof.
  intros Hg Hb _ Hp Hs Hl Hn Hnl. unfold do_buffer_output.
  cbn [buf size pos need grow]. rewrite Hg, Hb.
  rewrite (to_int_id (need state + len)) by lia.
  rewrite (to_int_id (size state - pos state)) by lia.
  destruct (size state - pos state <? len) eqn:E; cbn [negb].
  - cbn [need size grow buf pos]. repeat split.
  - cbn [fst snd buf size pos need grow]. rewrite E. apply Z.ltb_ge in E.
    rewrite to_int_id by lia.
    rewrite memcpy_at_bytes. repeat split.
Qed.


End BufferOutput.

Lemma do_buffer_output_fixed_witness :
  let state := {| buf := Some [0; 0; 0; 0]; size := 4; pos := 1; need := 1;
                  grow := false |} in
  let '(ret, state') :=
    do_buffer_output 4096 realloc_zero state fyewt_plain_scalar [97; 98] 2 in
  need state' = need state + 2 /\ size state' = size state /\
  grow state' = false /\
  if size state - pos state <? 2
  then ret = 0 /\ buf state' = Some [0; 0; 0; 0] /\ pos state' = pos state
  else ret = 2 /\ pos state' = pos state + 2 /\
       buf state' = Some (firstn (Z.to_nat (pos state)) [0; 0; 0; 0] ++ take 2 [97; 98]
                          ++ skipn (Z.to_nat 2 + Z.to_nat (pos state)) [0; 0; 0; 0]).
Proof.
  cbv zeta.
  apply (do_buffer_output_fixed 4096 realloc_zero
           {| buf := Some [0; 0; 0; 0]; size := 4; pos := 1; need := 1; grow := false |}
           fyewt_plain_scalar [0; 0; 0; 0] [97; 98] 2);
    try reflexivity; cbn [pos size need]; lia.
Defined.


(** ** The stacks of the streaming emitter *)

Lemma store_at_inside {A : Type} (stack : list A) (i : Z) (x : A) :
  0 <= i < Z.of_nat (length stack) ->
  exists stack', store_at stack i x = Some stack' /\
    length stack' = length stack /\
    firstn (Z.to_nat i) stack' = firstn (Z.to_nat i) stack /\
    firstn (Z.to_nat (i + 1)) stack' = firstn (Z.to_nat i) stack ++ [x] /\
    load_at stack' i = Some x.
Proof.
  intros H. unfold store_at, load_at.
  assert (E : (0 <=? i) && (i <? Z.of_nat (length stack)) = true).
  { apply andb_true_iff. split; [apply Z.leb_le|apply Z.ltb_lt]; lia. }
  rewrite E. eexists. split; [reflexivity|].
  assert (L : length (firstn (Z.to_nat i) stack) = Z.to_nat i)
    by (rewrite length_firstn; lia).
  split; [|split; [|split]].
  - rewrite length_app. cbn [length]. rewrite L, length_skipn. lia.
  - rewrite firstn_app, L, Nat.sub_diag. cbn [firstn]. rewrite app_nil_r.
    rewrite firstn_firstn. f_equal. lia.
  - replace (Z.to_nat (i + 1)) with (length (firstn (Z.to_nat i) stack) + 1)%nat
      by (rewrite L; lia).
    rewrite firstn_app_2. reflexivity.
  - assert (E0 : (0 <=? i) = true) by (apply Z.leb_le; lia). rewrite E0.
    rewrite nth_error_app2 by (rewrite L; lia). rewrite L, Nat.sub_diag.
    reflexivity.
Qed.

Section StackProofs.

Variable SC : Type.
Variable realloc_scs : option (list SC) -> Z -> option (list SC).

Lemma sc_stack_store_ok (emit : fy_emitter_sc_stack SC) (sc out : SC) :
  0 < sc_stack_alloc emit -> 0 <= sc_stack_top emit < sc_stack_alloc emit ->
  Z.of_nat (length (sc_stack emit)) = sc_stack_alloc emit ->
  exists emit', sc_stack_store emit sc = Some (0, emit') /\
    sc_stack_ok emit' /\ sc_stack_top emit' = sc_stack_top emit + 1 /\
    sc_stack_alloc emit' = sc_stack_alloc emit /\
    sc_stack_entries emit' = sc_stack_entries emit ++ [sc] /\
    exists emit'', fy_emit_pop_sc emit' out = Some (0, emit'', sc) /\
      sc_stack_top emit'' = sc_stack_top emit /\
      sc_stack_entries emit'' = sc_stack_entries emit /\ sc_stack_ok emit''.
Proof.
  intros Ha Ht Hl. unfold sc_stack_store.
  destruct (store_at_inside (sc_stack emit) (sc_stack_top emit) sc ltac:(lia))
    as (scs & -> & L & F1 & F2 & Ld).
  eexists. split; [reflexivity|].
  unfold sc_stack_ok, sc_stack_entries, fy_emit_pop_sc.
  cbn [sc_stack sc_stack_top sc_stack_alloc sc_stack_is_inplace].
  split; [rewrite L; lia|]. split; [reflexivity|]. split; [reflexivity|].
  split; [exact F2|].
  assert (E : (sc_stack_top emit + 1 =? 0) = false) by (apply Z.eqb_neq; lia).
  rewrite E.
  replace (sc_stack_top emit + 1 - 1) with (sc_stack_top emit) by lia.
  rewrite Ld. eexists. split; [reflexivity|].
  cbn [sc_stack sc_stack_top sc_stack_alloc sc_stack_is_inplace].
  split; [reflexivity|]. split; [exact F1|]. rewrite L. lia.
Qed.

(** X29.  The stack of save contexts is a stack: under a [realloc] that
    keeps the content, [fy_emit_push_sc] on a well-formed stack either
    fails with -1 and changes nothing, which happens only when the stack is
    full and memory is exhausted, or returns 0 with the context on top of
    the entries that were there; the stack stays well-formed, no access
    leaves the block, and the [fy_emit_pop_sc] that follows returns that
    context and the stack as it was.  On an empty stack [fy_emit_pop_sc]
    returns -1 and leaves [*sc] alone. *)
Theorem fy_emit_push_pop_sc (emit : fy_emitter_sc_stack SC) (sc out : SC) :
  realloc_keeps realloc_scs -> sc_stack_ok emit ->
  (sc_stack_top emit = 0 -> fy_emit_pop_sc emit out = Some (-1, emit, out)) /\
  match fy_emit_push_sc realloc_scs emit sc with
  | None => False
  | Some (ret, emit') =>
      (ret = -1 /\ emit' = emit /\ sc_stack_top emit = sc_stack_alloc emit /\
       realloc_scs (if sc_stack_is_inplace emit then None else Some (sc_stack emit))
         (sc_stack_alloc emit * 2) = None)
      \/
      (ret = 0 /\ sc_stack_ok emit' /\
       sc_stack_top emit' = sc_stack_top emit + 1 /\
       sc_stack_entries emit' = sc_stack_entries emit ++ [sc] /\
       exists emit'', fy_emit_pop_sc emit' out = Some (0, emit'', sc) /\
         sc_stack_top emit'' = sc_stack_top emit /\
         sc_stack_entries emit'' = sc_stack_entries emit /\ sc_stack_ok emit'')
  end.
Proof.
  intros Hr (Ha & Ht & Hl). split.
  { intros H0. unfold fy_emit_pop_sc. rewrite H0. reflexivity. }
  unfold fy_emit_push_sc.
  destruct (sc_stack_alloc emit <=? sc_stack_top emit) eqn:E.
  - apply Z.leb_le in E. assert (Et : sc_stack_top emit = sc_stack_alloc emit) by lia.
    destruct (realloc_scs _ _) as [scs|] eqn:Er.
    + destruct (Hr _ _ _ Er) as [Ln Kp].
      set (scs' := if sc_stack_is_inplace emit
                   then memcpy_entries scs (sc_stack emit) (sc_stack_top emit)
                   else Some scs).
      assert (M : exists b, scs' = Some b /\ length b = Z.to_nat (sc_stack_alloc emit * 2)
                  /\ firstn (Z.to_nat (sc_stack_top emit)) b
                     = firstn (Z.to_nat (sc_stack_top emit)) (sc_stack emit)).
      { unfold scs'. destruct (sc_stack_is_inplace emit).
        - unfold memcpy_entries.
          assert (E1 : (sc_stack_top emit <=? Z.of_nat (length scs))
                       && (sc_stack_top emit <=? Z.of_nat (length (sc_stack emit)))
                       = true).
          { apply andb_true_iff. split; apply Z.leb_le; lia. }
          rewrite E1. eexists. split; [reflexivity|].
          assert (L : length (firstn (Z.to_nat (sc_stack_top emit)) (sc_stack emit))
                      = Z.to_nat (sc_stack_top emit))
            by (rewrite length_firstn; lia).
          split.
          + rewrite length_app, L, length_skipn. lia.
          + rewrite firstn_app, L, Nat.sub_diag. cbn [firstn]. rewrite app_nil_r.
            rewrite firstn_firstn. f_equal. lia.
        - eexists. split; [reflexivity|]. split; [exact Ln|].
          apply Kp; cbn [block]; lia. }
      destruct M as (b & -> & Lb & Fb).
      set (e1 := {| sc_stack := b; sc_stack_is_inplace := false;
                    sc_stack_top := sc_stack_top emit;
                    sc_stack_alloc := sc_stack_alloc emit * 2 |}).
      destruct (sc_stack_store_ok e1 sc out) as (e2 & -> & Ok & T & A & En & P);
        cbn [e1 sc_stack sc_stack_top sc_stack_alloc]; try lia.
      right. split; [reflexivity|]. split; [exact Ok|]. split; [exact T|].
      unfold sc_stack_entries in En, P |- *.
      cbn [e1 sc_stack sc_stack_top] in En, P. rewrite Fb in En, P.
      split; [exact En|exact P].
    + left. auto.
  - apply Z.leb_gt in E.
    destruct (sc_stack_store_ok emit sc out Ha ltac:(lia) Hl)
      as (e2 & -> & Ok & T & A & En & P).
    right. auto.
Qed.

End StackProofs.

Section StateStackProofs.

Variable FYES_NONE : Z.
Variable realloc_states : option (list Z) -> Z -> option (list Z).

Lemma state_stack_store_ok (emit : fy_emitter_state_stack) (state : Z) :
  state_stack_live emit = true ->
  0 <= state_stack_top emit < Z.of_nat (length (state_stack emit)) ->
  exists emit', state_stack_store emit state = Some (0, emit') /\
    state_stack_top emit' = state_stack_top emit + 1 /\
    state_stack_entries emit' = state_stack_entries emit ++ [state] /\
    exists emit'', fy_emit_pop_state FYES_NONE emit' = Some (state, emit'') /\
      state_stack_top emit'' = state_stack_top emit /\
      state_stack_entries emit'' = state_stack_entries emit.
Proof.
  intros Hv Ht. unfold state_stack_store.
  destruct (store_at_inside (state_stack emit) (state_stack_top emit) state Ht)
    as (b & -> & L & F1 & F2 & Ld).
  eexists. split; [reflexivity|].
  unfold state_stack_entries, fy_emit_pop_state.
  cbn [state_stack state_stack_top state_stack_alloc state_stack_is_inplace
       state_stack_live].
  split; [reflexivity|]. split; [exact F2|].
  assert (E : (state_stack_top emit + 1 =? 0) = false) by (apply Z.eqb_neq; lia).
  rewrite E, Hv. cbn [negb].
  replace (state_stack_top emit + 1 - 1) with (state_stack_top emit) by lia.
  rewrite Ld. eexists. split; [reflexivity|].
  cbn [state_stack state_stack_top]. split; [reflexivity|exact F1].
Qed.

(** X30.  [fy_emit_push_state] on the stack inside the emitter: while
    there is room every state is pushed, the state of value 0 too, and the
    [fy_emit_pop_state] that follows returns it.  On a full stack the
    function tests [state] where it means the block that [realloc]
    returned: the state of value 0 is refused with -1 and the stack is left
    as it was, even when memory was available; any other state is pushed
    when [realloc] succeeds, and when [realloc] fails the failure goes
    unnoticed and the null pointer is written through.  An empty stack pops
    [FYES_NONE]. *)
Theorem fy_emit_push_state_full (emit : fy_emitter_state_stack) (state : Z) :
  realloc_keeps realloc_states ->
  state_stack_live emit = true -> state_stack_is_inplace emit = true ->
  0 < state_stack_alloc emit ->
  0 <= state_stack_top emit <= state_stack_alloc emit ->
  Z.of_nat (length (state_stack emit)) = state_stack_alloc emit ->
  let pushed (r : option (Z * fy_emitter_state_stack)) :=
    exists emit', r = Some (0, emit') /\
      state_stack_top emit' = state_stack_top emit + 1 /\
      state_stack_entries emit' = state_stack_entries emit ++ [state] /\
      exists emit'', fy_emit_pop_state FYES_NONE emit' = Some (state, emit'') /\
        state_stack_top emit'' = state_stack_top emit /\
        state_stack_entries emit'' = state_stack_entries emit in
  (state_stack_top emit = 0 ->
   fy_emit_pop_state FYES_NONE emit = Some (FYES_NONE, emit)) /\
  if state_stack_top emit <? state_stack_alloc emit
  then pushed (fy_emit_push_state realloc_states emit state)
  else if state =? 0
  then fy_emit_push_state realloc_states emit state = Some (-1, emit)
  else match realloc_states None (state_stack_alloc emit * 2) with
       | Some _ => pushed (fy_emit_push_state realloc_states emit state)
       | None => fy_emit_push_state realloc_states emit state = None
       end.
Proof.
  intros Hr Hv Hi Ha Ht Hl pushed. split.
  { intros H0. unfold fy_emit_pop_state. rewrite H0. reflexivity. }
  unfold fy_emit_push_state. rewrite Hv, Hi. cbn [negb orb].
  destruct (state_stack_top emit <? state_stack_alloc emit) eqn:E.
  - apply Z.ltb_lt in E.
    assert (E' : (state_stack_alloc emit <=? state_stack_top emit) = false)
      by (apply Z.leb_gt; lia).
    rewrite E'. apply state_stack_store_ok; [exact Hv|lia].
  - apply Z.ltb_ge in E.
    assert (E' : (state_stack_alloc emit <=? state_stack_top emit) = true)
      by (apply Z.leb_le; lia).
    rewrite E'.
    destruct (state =? 0).
    + destruct emit as [st ip lv tp al]. cbn in *. subst. reflexivity.
    + destruct (realloc_states None (state_stack_alloc emit * 2)) as [b|] eqn:Er;
        [|reflexivity].
      destruct (Hr _ _ _ Er) as [Ln _].
      unfold memcpy_entries.
      assert (E1 : (state_stack_top emit <=? Z.of_nat (length b))
                   && (state_stack_top emit <=? Z.of_nat (length (state_stack emit)))
                   = true).
      { apply andb_true_iff. split; apply Z.leb_le; lia. }
      rewrite E1.
      set (b' := firstn (Z.to_nat (state_stack_top emit)) (state_stack emit)
                 ++ skipn (Z.to_nat (state_stack_top emit)) b).
      assert (Lb : length b' = Z.to_nat (state_stack_alloc emit * 2)).
      { unfold b'. rewrite length_app, length_firstn, length_skipn. lia. }
      assert (Fb : firstn (Z.to_nat (state_stack_top emit)) b'
                   = firstn (Z.to_nat (state_stack_top emit)) (state_stack emit)).
      { unfold b'.
        assert (L : length (firstn (Z.to_nat (state_stack_top emit)) (state_stack emit))
                    = Z.to_nat (state_stack_top emit))
          by (rewrite length_firstn; lia).
        rewrite firstn_app, L, Nat.sub_diag. cbn [firstn]. rewrite app_nil_r.
        rewrite firstn_firstn. f_equal. lia. }
      set (e1 := {| state_stack := b'; state_stack_is_inplace := false;
                    state_stack_live := true;
                    state_stack_top := state_stack_top emit;
                    state_stack_alloc := state_stack_alloc emit * 2 |}).
      destruct (state_stack_store_ok e1 state eq_refl) as (e2 & -> & T & En & P).
      { cbn [e1 state_stack state_stack_top]. lia. }
      unfold pushed. exists e2. split; [reflexivity|]. split; [exact T|].
      unfold state_stack_entries in En, P |- *.
      cbn [e1 state_stack state_stack_top] in En, P. rewrite Fb in En, P.
      split; [exact En|exact P].
Qed.

End StateStackProofs.

Lemma fy_emit_push_pop_sc_witness :
  let emit := {| sc_stack := [7; 0]; sc_stack_is_inplace := true;
                 sc_stack_top := 2; sc_stack_alloc := 2 |} in
  (sc_stack_top emit = 0 -> fy_emit_pop_sc emit 0 = Some (-1, emit, 0)) /\
  match fy_emit_push_sc realloc_zero emit 9 with
  | None => False
  | Some (ret, emit') =>
      (ret = -1 /\ emit' = emit /\ sc_stack_top emit = sc_stack_alloc emit /\
       realloc_zero (if sc_stack_is_inplace emit then None else Some (sc_stack emit))
         (sc_stack_alloc emit * 2) = None)
      \/
      (ret = 0 /\ sc_stack_ok emit' /\
       sc_stack_top emit' = sc_stack_top emit + 1 /\
       sc_stack_entries emit' = sc_stack_entries emit ++ [9] /\
       exists emit'', fy_emit_pop_sc emit' 0 = Some (0, emit'', 9) /\
         sc_stack_top emit'' = sc_stack_top emit /\
         sc_stack_entries emit'' = sc_stack_entries emit /\ sc_stack_ok emit'')
  end.
Proof.
  cbv zeta.
  apply (fy_emit_push_pop_sc Z realloc_zero
           {| sc_stack := [7; 0]; sc_stack_is_inplace := true;
              sc_stack_top := 2; sc_stack_alloc := 2 |} 9 0).
  - apply realloc_zero_keeps.
  - unfold sc_stack_ok. cbn [sc_stack sc_stack_top sc_stack_alloc length].
    lia.
Defined.

Lemma fy_emit_push_state_full_witness :
  let emit := {| state_stack := [3; 5]; state_stack_is_inplace := true;
                 state_stack_live := true; state_stack_top := 2;
                 state_stack_alloc := 2 |} in
  let state := 0 in
  let pushed (r : option (Z * fy_emitter_state_stack)) :=
    exists emit', r = Some (0, emit') /\
      state_stack_top emit' = state_stack_top emit + 1 /\
      state_stack_entries emit' = state_stack_entries emit ++ [state] /\
      exists emit'', fy_emit_pop_state 0 emit' = Some (state, emit'') /\
        state_stack_top emit'' = state_stack_top emit /\
        state_stack_entries emit'' = state_stack_entries emit in
  (state_stack_top emit = 0 -> fy_emit_pop_state 0 emit = Some (0, emit)) /\
  if state_stack_top emit <? state_stack_alloc emit
  then pushed (fy_emit_push_state realloc_zero emit state)
  else if state =? 0
  then fy_emit_push_state realloc_zero emit state = Some (-1, emit)
  else match realloc_zero None (state_stack_alloc emit * 2) with
       | Some _ => pushed (fy_emit_push_state realloc_zero emit state)
       | None => fy_emit_push_state realloc_zero emit state = None
       end.
Proof.
  cbv zeta.
  apply (fy_emit_push_state_full 0 realloc_zero
           {| state_stack := [3; 5]; state_stack_is_inplace := true;
              state_stack_live := true; state_stack_top := 2;
              state_stack_alloc := 2 |} 0);
    try reflexivity; try (cbn [state_stack_top state_stack_alloc]; lia).
  apply realloc_zero_keeps.
Defined.
